(** * Urho3D UI: batching and input routing

    A shallow embedding of [Source/Urho3D/UI/UIBatch.cpp],
    [Source/Urho3D/UI/BorderImage.cpp] and the hit-test, modal and
    pointer-routing parts of [Source/Urho3D/UI/UI.cpp], followed by the
    properties of the specification that concern them.

    Conventions.  C++ [int] and [unsigned] are [Z]; where the source relies
    on 32-bit unsigned arithmetic the reduction modulo 2^32 is written
    [u32].  C++ [float] is IEEE binary32, taken from [SpecFloat] with
    precision 24 and maximal exponent 128.  Raw pointers are addresses
    ([Ptr]), null is [None].  A call returns [Ret v], or [Fault] when it
    dereferences a null or dangling pointer, or [OutOfFuel] when a loop has
    not finished within the iteration budget it was given. *)

From Stdlib Require Import ZArith List Bool Lia SpecFloat.
From stdpp Require Import base option list gmap strings.
Import ListNotations.
Local Open Scope Z_scope.

(** ** Outcome of a call *)

Inductive res (A : Type) : Type :=
| Ret (a : A)
| Fault
| OutOfFuel.
Arguments Ret {A} a.
Arguments Fault {A}.
Arguments OutOfFuel {A}.

#[global] Instance res_ret : MRet res := fun A a => Ret a.
#[global] Instance res_bind : MBind res := fun A B f m =>
  match m with
  | Ret a => f a
  | Fault => Fault
  | OutOfFuel => OutOfFuel
  end.

Definition Ptr := nat.

(** Dereference of a pointer that may be null. *)
Definition deref {A} (p : option A) : res A :=
  match p with Some a => Ret a | None => Fault end.

Definition u32 (z : Z) : Z := z mod 2 ^ 32.

(** ** Math types used by the UI sources *)

Module Math.

Definition float := spec_float.
Definition prec : Z := 24.
Definition emax : Z := 128.

Definition fadd : float -> float -> float := SFadd prec emax.
Definition fsub : float -> float -> float := SFsub prec emax.
Definition fmul : float -> float -> float := SFmul prec emax.
Definition fdiv : float -> float -> float := SFdiv prec emax.
Definition fsqrt : float -> float := SFsqrt prec emax.
Definition flt : float -> float -> bool := SFltb.

(** [(float)z] for an integer [z]. *)
Definition of_int (z : Z) : float := binary_normalize prec emax z 0 false.

Definition f0 : float := S754_zero false.
Definition f1 : float := of_int 1.

(** [(unsigned)f]: truncation toward zero.  The conversion is only defined
    by C++ when the truncated value fits the target type. *)
Definition ftrunc (f : float) : Z :=
  match f with
  | S754_finite s m e =>
      let a := if 0 <=? e then Z.shiftl (Zpos m) e else Z.shiftr (Zpos m) (- e) in
      if s then - a else a
  | _ => 0
  end.

Record IntVector2 := mkIntVector2 { ix_ : Z; iy_ : Z }.
Record Vector2 := mkVector2 { vx_ : float; vy_ : float }.
Record Vector3 := mkVector3 { x_ : float; y_ : float; z_ : float }.
Record IntRect := mkIntRect { left_ : Z; top_ : Z; right_ : Z; bottom_ : Z }.
Record Color := mkColor { r_ : float; g_ : float; b_ : float; a_ : float }.

Definition IntRect_ZERO : IntRect := mkIntRect 0 0 0 0.
Definition IntVector2_ZERO : IntVector2 := mkIntVector2 0 0.
Definition Vector2_ONE : Vector2 := mkVector2 f1 f1.

#[global] Instance IntVector2_eq_dec : EqDecision IntVector2.
Proof. solve_decision. Defined.
#[global] Instance IntRect_eq_dec : EqDecision IntRect.
Proof. solve_decision. Defined.

Definition IntVector2_add (a b : IntVector2) : IntVector2 :=
  mkIntVector2 (ix_ a + ix_ b) (iy_ a + iy_ b).
Definition IntVector2_sub (a b : IntVector2) : IntVector2 :=
  mkIntVector2 (ix_ a - ix_ b) (iy_ a - iy_ b).

Definition Vector3_sub (a b : Vector3) : Vector3 :=
  mkVector3 (fsub (x_ a) (x_ b)) (fsub (y_ a) (y_ b)) (fsub (z_ a) (z_ b)).

(** [Clamp] of [Math/MathDefs.h], at type [float]. *)
Definition Clamp (value lo hi : float) : float :=
  if flt value lo then lo else if flt hi value then hi else value.

(** The parts of [Math/Color.h], [Math/Matrix3x4.h] and [Math/Vector2.h]
    that the UI sources call and that are not among them: the packing of a
    colour into an unsigned RGBA word, the interpolation between two
    colours, the product of an affine transform with a point, and the
    length of an integer vector. *)
Class MathLib := {
  Color_ToUInt : Color -> Z;
  Color_Lerp : Color -> Color -> float -> Color;
  Matrix3x4 : Type;
  Matrix3x4_mul : Matrix3x4 -> Vector3 -> Vector3;
  IntVector2_Length : IntVector2 -> float
}.

End Math.
Import Math.

(** ** UIBatch.h / UIBatch.cpp *)

Module Batch.

(** The blend modes of [Graphics/GraphicsDefs.h]. *)
Inductive BlendMode :=
| BLEND_REPLACE | BLEND_ADD | BLEND_MULTIPLY | BLEND_ALPHA | BLEND_ADDALPHA
| BLEND_PREMULALPHA | BLEND_INVDESTALPHA | BLEND_SUBTRACT | BLEND_SUBTRACTALPHA.

#[global] Instance BlendMode_eq_dec : EqDecision BlendMode.
Proof. solve_decision. Defined.

Inductive Corner := C_TOPLEFT | C_TOPRIGHT | C_BOTTOMLEFT | C_BOTTOMRIGHT.

(** What a batch reads from the element it represents. *)
Record UIElement := mkUIElement {
  GetDerivedColor : Color;
  HasColorGradient : bool;
  GetScreenPosition : IntVector2;
  GetSize : IntVector2;
  GetColor : Corner -> Color;
  GetDerivedOpacity : float
}.

(** A texture: its address and the two dimensions the constructor reads. *)
Record Texture := mkTexture { tex_addr : Ptr; GetWidth : Z; GetHeight : Z }.

Definition UI_VERTEX_SIZE : Z := 6.

(** One cell of a [PODVector<float>]: a float, or the colour word that
    [((unsigned&)dest[k]) = c] stores in its place. *)
Inductive VertexWord :=
| VFloat (f : float)
| VColor (c : Z).

Definition PODVector := list VertexWord.
Definition Size (v : PODVector) : Z := Z.of_nat (length v).

Record UIBatch := mkUIBatch {
  element_ : option UIElement;
  blendMode_ : BlendMode;
  scissor_ : IntRect;
  texture_ : option Ptr;
  invTextureSize_ : Vector2;
  vertexData_ : option Ptr;
  vertexStart_ : Z;
  vertexEnd_ : Z;
  color_ : Z;
  useGradient_ : bool;
  customMaterial_ : option Ptr
}.

Definition set_vertexEnd_ (b : UIBatch) (v : Z) : UIBatch :=
  mkUIBatch (element_ b) (blendMode_ b) (scissor_ b) (texture_ b) (invTextureSize_ b)
    (vertexData_ b) (vertexStart_ b) v (color_ b) (useGradient_ b) (customMaterial_ b).

Definition set_color (b : UIBatch) (c : Z) (g : bool) : UIBatch :=
  mkUIBatch (element_ b) (blendMode_ b) (scissor_ b) (texture_ b) (invTextureSize_ b)
    (vertexData_ b) (vertexStart_ b) (vertexEnd_ b) c g (customMaterial_ b).

Definition set_customMaterial_ (b : UIBatch) (m : option Ptr) : UIBatch :=
  mkUIBatch (element_ b) (blendMode_ b) (scissor_ b) (texture_ b) (invTextureSize_ b)
    (vertexData_ b) (vertexStart_ b) (vertexEnd_ b) (color_ b) (useGradient_ b) m.

(** A batch together with the vertex vector its [vertexData_] points to. *)
Definition BatchState : Type := UIBatch * PODVector.

Section WithMath.
Context `{MathLib}.

(** [UIBatch::posAdjust], set once by [UI::Initialize]. *)
Variable posAdjust : Vector3.

(** [UIBatch::SetDefaultColor] *)
Definition SetDefaultColor (b : UIBatch) : UIBatch :=
  match element_ b with
  | Some e => set_color b (Color_ToUInt (GetDerivedColor e)) (HasColorGradient e)
  | None => set_color b 0xffffffff false
  end.

(** [UIBatch::UIBatch()] *)
Definition UIBatch_default : UIBatch :=
  SetDefaultColor
    (mkUIBatch None BLEND_REPLACE IntRect_ZERO None Vector2_ONE None 0 0 0 false None).

(** [UIBatch::UIBatch(element, blendMode, scissor, texture, vertexData)];
    [vd] is the address of the vertex vector and [data] its contents. *)
Definition UIBatch_new (element : option UIElement) (blendMode : BlendMode)
    (scissor : IntRect) (texture : option Texture) (vd : Ptr) (data : PODVector) : UIBatch :=
  SetDefaultColor
    (mkUIBatch element blendMode scissor (tex_addr <$> texture)
       (match texture with
        | Some t => mkVector2 (fdiv f1 (of_int (GetWidth t))) (fdiv f1 (of_int (GetHeight t)))
        | None => Vector2_ONE
        end)
       (Some vd) (Size data) (Size data) 0 false None).

(** [UIBatch::SetColor] *)
Definition SetColor (b : UIBatch) (color : Color) (overrideAlpha : bool) : UIBatch :=
  match element_ b with
  | None => set_color b (Color_ToUInt color) false
  | Some e =>
      set_color b
        (if overrideAlpha then Color_ToUInt color
         else Color_ToUInt
                (mkColor (r_ color) (g_ color) (b_ color) (fmul (a_ color) (GetDerivedOpacity e))))
        false
  end.

(** [UIBatch::GetInterpolatedColor], the element already dereferenced. *)
Definition GetInterpolatedColor (e : UIElement) (x y : float) : Z :=
  let size := GetSize e in
  if negb (ix_ size =? 0) && negb (iy_ size =? 0) then
    let cLerpX := Clamp (fdiv x (of_int (ix_ size))) f0 f1 in
    let cLerpY := Clamp (fdiv y (of_int (iy_ size))) f0 f1 in
    let topColor := Color_Lerp (GetColor e C_TOPLEFT) (GetColor e C_TOPRIGHT) cLerpX in
    let bottomColor := Color_Lerp (GetColor e C_BOTTOMLEFT) (GetColor e C_BOTTOMRIGHT) cLerpX in
    let color := Color_Lerp topColor bottomColor cLerpY in
    Color_ToUInt
      (mkColor (r_ color) (g_ color) (b_ color) (fmul (a_ color) (GetDerivedOpacity e)))
  else
    let color := GetColor e C_TOPLEFT in
    Color_ToUInt
      (mkColor (r_ color) (g_ color) (b_ color) (fmul (a_ color) (GetDerivedOpacity e))).

(** The six cells of one vertex: position, colour word, texture coordinate. *)
Definition vertex (px py : float) (color : Z) (u v : float) : PODVector :=
  [VFloat px; VFloat py; VFloat f0; VColor color; VFloat u; VFloat v].

(** [begin = vertexData_->Size(); vertexData_->Resize(begin + 6 * UI_VERTEX_SIZE);
    dest = &vertexData_->At(begin); vertexEnd_ = vertexData_->Size();] followed
    by the stores [dest[0..35] = cells]. *)
Definition emit (st : BatchState) (cells : PODVector) : BatchState :=
  let (b, data) := st in
  let data' := data ++ cells in
  (set_vertexEnd_ b (Size data'), data').

(** The alpha test shared by the rectangle variants:
    [!(color_ & 0xff000000)]. *)
Definition alpha_is_zero (c : Z) : bool := Z.land c 0xff000000 =? 0.

(** [UIBatch::AddQuad(float x, float y, float width, float height,
    int texOffsetX, int texOffsetY, int texWidth, int texHeight)] *)
Definition AddQuad (st : BatchState) (x y width height : float)
    (texOffsetX texOffsetY texWidth texHeight : Z) : res BatchState :=
  let b := st.1 in
  if negb (useGradient_ b) && alpha_is_zero (color_ b) then Ret st
  else
    e ← deref (element_ b);
    let '(topLeftColor, topRightColor, bottomLeftColor, bottomRightColor) :=
      if negb (useGradient_ b) then (color_ b, color_ b, color_ b, color_ b)
      else (GetInterpolatedColor e x y,
            GetInterpolatedColor e (fadd x width) y,
            GetInterpolatedColor e x (fadd y height),
            GetInterpolatedColor e (fadd x width) (fadd y height)) in
    let screenPos := GetScreenPosition e in
    let left := fsub (fadd x (of_int (ix_ screenPos))) (x_ posAdjust) in
    let right := fadd left width in
    let top := fsub (fadd y (of_int (iy_ screenPos))) (y_ posAdjust) in
    let bottom := fadd top height in
    let leftUV := fmul (of_int texOffsetX) (vx_ (invTextureSize_ b)) in
    let topUV := fmul (of_int texOffsetY) (vy_ (invTextureSize_ b)) in
    let rightUV :=
      fmul (fadd (of_int texOffsetX) (if texWidth =? 0 then width else of_int texWidth))
           (vx_ (invTextureSize_ b)) in
    let bottomUV :=
      fmul (fadd (of_int texOffsetY) (if texHeight =? 0 then height else of_int texHeight))
           (vy_ (invTextureSize_ b)) in
    Ret (emit st
           (vertex left top topLeftColor leftUV topUV
            ++ vertex right top topRightColor rightUV topUV
            ++ vertex left bottom bottomLeftColor leftUV bottomUV
            ++ vertex right top topRightColor rightUV topUV
            ++ vertex right bottom bottomRightColor rightUV bottomUV
            ++ vertex left bottom bottomLeftColor leftUV bottomUV)).

(** [UIBatch::AddQuad(const Matrix3x4& transform, int x, int y, int width,
    int height, int texOffsetX, int texOffsetY, int texWidth, int texHeight)] *)
Definition AddQuad_transform (st : BatchState) (transform : Matrix3x4)
    (x y width height texOffsetX texOffsetY texWidth texHeight : Z) : res BatchState :=
  let b := st.1 in
  if negb (useGradient_ b) && alpha_is_zero (color_ b) then Ret st
  else
    colors ←
      (if negb (useGradient_ b) then Ret (color_ b, color_ b, color_ b, color_ b)
       else
         e ← deref (element_ b);
         Ret (GetInterpolatedColor e (of_int x) (of_int y),
              GetInterpolatedColor e (of_int (x + width)) (of_int y),
              GetInterpolatedColor e (of_int x) (of_int (y + height)),
              GetInterpolatedColor e (of_int (x + width)) (of_int (y + height))));
    let '(topLeftColor, topRightColor, bottomLeftColor, bottomRightColor) := colors in
    let v1 := Vector3_sub (Matrix3x4_mul transform (mkVector3 (of_int x) (of_int y) f0))
                posAdjust in
    let v2 := Vector3_sub
                (Matrix3x4_mul transform
                   (mkVector3 (fadd (of_int x) (of_int width)) (of_int y) f0))
                posAdjust in
    let v3 := Vector3_sub
                (Matrix3x4_mul transform
                   (mkVector3 (of_int x) (fadd (of_int y) (of_int height)) f0))
                posAdjust in
    let v4 := Vector3_sub
                (Matrix3x4_mul transform
                   (mkVector3 (fadd (of_int x) (of_int width))
                      (fadd (of_int y) (of_int height)) f0))
                posAdjust in
    let leftUV := fmul (of_int texOffsetX) (vx_ (invTextureSize_ b)) in
    let topUV := fmul (of_int texOffsetY) (vy_ (invTextureSize_ b)) in
    let rightUV :=
      fmul (of_int (texOffsetX + (if texWidth =? 0 then width else texWidth)))
           (vx_ (invTextureSize_ b)) in
    let bottomUV :=
      fmul (of_int (texOffsetY + (if texHeight =? 0 then height else texHeight)))
           (vy_ (invTextureSize_ b)) in
    Ret (emit st
           (vertex (x_ v1) (y_ v1) topLeftColor leftUV topUV
            ++ vertex (x_ v2) (y_ v2) topRightColor rightUV topUV
            ++ vertex (x_ v3) (y_ v3) bottomLeftColor leftUV bottomUV
            ++ vertex (x_ v2) (y_ v2) topRightColor rightUV topUV
            ++ vertex (x_ v4) (y_ v4) bottomRightColor rightUV bottomUV
            ++ vertex (x_ v3) (y_ v3) bottomLeftColor leftUV bottomUV)).

(** The inner [while (tileX < width)] loop of the tiled [AddQuad]; [fuel]
    bounds the number of iterations. *)
Fixpoint tile_row (fuel : nat) (st : BatchState)
    (x y width texOffsetX texOffsetY texWidth tileY tileH tileX : Z) : res BatchState :=
  if tileX <? width then
    match fuel with
    | O => OutOfFuel
    | S fuel' =>
        let tileW := Z.min (width - tileX) texWidth in
        st' ← AddQuad st (of_int (x + tileX)) (of_int (y + tileY)) (of_int tileW)
                (of_int tileH) texOffsetX texOffsetY tileW tileH;
        tile_row fuel' st' x y width texOffsetX texOffsetY texWidth tileY tileH
          (tileX + tileW)
    end
  else Ret st.

(** The outer [while (tileY < height)] loop. *)
Fixpoint tile_rows (fuel : nat) (st : BatchState)
    (x y width height texOffsetX texOffsetY texWidth texHeight tileY : Z) : res BatchState :=
  if tileY <? height then
    match fuel with
    | O => OutOfFuel
    | S fuel' =>
        let tileH := Z.min (height - tileY) texHeight in
        st' ← tile_row fuel' st x y width texOffsetX texOffsetY texWidth tileY tileH 0;
        tile_rows fuel' st' x y width height texOffsetX texOffsetY texWidth texHeight
          (tileY + tileH)
    end
  else Ret st.

(** [UIBatch::AddQuad(int x, int y, int width, int height, int texOffsetX,
    int texOffsetY, int texWidth, int texHeight, bool tiled)]; each of its
    two loops may run [fuel] times. *)
Definition AddQuad_tiled (fuel : nat) (st : BatchState)
    (x y width height texOffsetX texOffsetY texWidth texHeight : Z) (tiled : bool)
    : res BatchState :=
  e ← deref (element_ st.1);
  if negb (HasColorGradient e
           || negb (Z.land (Color_ToUInt (GetDerivedColor e)) 0xff000000 =? 0))
  then Ret st
  else if negb tiled then
    AddQuad st (of_int x) (of_int y) (of_int width) (of_int height)
      texOffsetX texOffsetY texWidth texHeight
  else
    tile_rows fuel st x y width height texOffsetX texOffsetY texWidth texHeight 0.

(** The transformed point [(transform * Vector3((float)p.x_, (float)p.y_, 0.0f)) - posAdjust]. *)
Definition transformed (transform : Matrix3x4) (p : IntVector2) : Vector3 :=
  Vector3_sub (Matrix3x4_mul transform (mkVector3 (of_int (ix_ p)) (of_int (iy_ p)) f0))
    posAdjust.

(** The texture coordinate [((float)t.x_ * invTextureSize_.x_, (float)t.y_ * invTextureSize_.y_)]. *)
Definition uv_of (b : UIBatch) (t : IntVector2) : Vector2 :=
  mkVector2 (fmul (of_int (ix_ t)) (vx_ (invTextureSize_ b)))
            (fmul (of_int (iy_ t)) (vy_ (invTextureSize_ b))).

(** [UIBatch::AddQuad(transform, a, b, c, d, texA, texB, texC, texD)]:
    free points, current colour. *)
Definition AddQuad_points (st : BatchState) (transform : Matrix3x4)
    (a b c d texA texB texC texD : IntVector2) : res BatchState :=
  let bt := st.1 in
  let v1 := transformed transform a in
  let v2 := transformed transform b in
  let v3 := transformed transform c in
  let v4 := transformed transform d in
  let uv1 := uv_of bt texA in
  let uv2 := uv_of bt texB in
  let uv3 := uv_of bt texC in
  let uv4 := uv_of bt texD in
  Ret (emit st
         (vertex (x_ v1) (y_ v1) (color_ bt) (vx_ uv1) (vy_ uv1)
          ++ vertex (x_ v2) (y_ v2) (color_ bt) (vx_ uv2) (vy_ uv2)
          ++ vertex (x_ v3) (y_ v3) (color_ bt) (vx_ uv3) (vy_ uv3)
          ++ vertex (x_ v1) (y_ v1) (color_ bt) (vx_ uv1) (vy_ uv1)
          ++ vertex (x_ v3) (y_ v3) (color_ bt) (vx_ uv3) (vy_ uv3)
          ++ vertex (x_ v4) (y_ v4) (color_ bt) (vx_ uv4) (vy_ uv4))).

(** [UIBatch::AddQuad(transform, a, b, c, d, texA, texB, texC, texD, colA,
    colB, colC, colD)]: free points, one colour per corner. *)
Definition AddQuad_points_colors (st : BatchState) (transform : Matrix3x4)
    (a b c d texA texB texC texD : IntVector2) (colA colB colC colD : Color)
    : res BatchState :=
  let bt := st.1 in
  let v1 := transformed transform a in
  let v2 := transformed transform b in
  let v3 := transformed transform c in
  let v4 := transformed transform d in
  let uv1 := uv_of bt texA in
  let uv2 := uv_of bt texB in
  let uv3 := uv_of bt texC in
  let uv4 := uv_of bt texD in
  let c1 := Color_ToUInt colA in
  let c2 := Color_ToUInt colB in
  let c3 := Color_ToUInt colC in
  let c4 := Color_ToUInt colD in
  Ret (emit st
         (vertex (x_ v1) (y_ v1) c1 (vx_ uv1) (vy_ uv1)
          ++ vertex (x_ v2) (y_ v2) c2 (vx_ uv2) (vy_ uv2)
          ++ vertex (x_ v3) (y_ v3) c3 (vx_ uv3) (vy_ uv3)
          ++ vertex (x_ v1) (y_ v1) c1 (vx_ uv1) (vy_ uv1)
          ++ vertex (x_ v3) (y_ v3) c3 (vx_ uv3) (vy_ uv3)
          ++ vertex (x_ v4) (y_ v4) c4 (vx_ uv4) (vy_ uv4))).

End WithMath.

(** [UIBatch::Merge]: the result flag and the receiver afterwards. *)
Definition Merge (self batch : UIBatch) : bool * UIBatch :=
  if bool_decide (blendMode_ batch ≠ blendMode_ self)
     || bool_decide (scissor_ batch ≠ scissor_ self)
     || bool_decide (texture_ batch ≠ texture_ self)
     || bool_decide (vertexData_ batch ≠ vertexData_ self)
     || bool_decide (vertexStart_ batch ≠ vertexEnd_ self)
  then (false, self)
  else (true, set_vertexEnd_ self (vertexEnd_ batch)).

(** [batches.Back().Merge(batch)] on a vector that is not empty: the flag
    and the vector with its last entry as [Merge] leaves it. *)
Fixpoint Back_Merge (batches : list UIBatch) (batch : UIBatch) : bool * list UIBatch :=
  match batches with
  | [] => (false, [])
  | [back] => let (ok, back') := Merge back batch in (ok, [back'])
  | b :: rest => let (ok, rest') := Back_Merge rest batch in (ok, b :: rest')
  end.

(** [UIBatch::AddOrMerge] *)
Definition AddOrMerge (batch : UIBatch) (batches : list UIBatch) : list UIBatch :=
  if vertexEnd_ batch =? vertexStart_ batch then batches
  else
    match batches with
    | [] => batches ++ [batch]
    | _ :: _ =>
        let (ok, batches') := Back_Merge batches batch in
        if ok then batches' else batches' ++ [batch]
    end.

End Batch.

(** ** BorderImage.cpp: batch production *)

Module BorderImage.
Import Batch.

(** The state of a [BorderImage] that [GetBatches] reads: its own members
    and, through [elem], what the batch asks of the underlying element. *)
Record BorderImage := mkBorderImage {
  elem : UIElement;
  enabled_ : bool;
  hovering_ : bool;
  selected_ : bool;
  HasFocus : bool;
  GetIndentWidth : Z;
  texture_ : option Texture;
  imageRect_ : IntRect;
  border_ : IntRect;
  imageBorder_ : IntRect;
  hoverOffset_ : IntVector2;
  disabledOffset_ : IntVector2;
  blendMode_ : BlendMode;
  tiled_ : bool;
  material_ : option Ptr
}.

Definition clear_hovering (bi : BorderImage) : BorderImage :=
  mkBorderImage (elem bi) (enabled_ bi) false (selected_ bi) (HasFocus bi)
    (GetIndentWidth bi) (texture_ bi) (imageRect_ bi) (border_ bi) (imageBorder_ bi)
    (hoverOffset_ bi) (disabledOffset_ bi) (blendMode_ bi) (tiled_ bi) (material_ bi).

(** [BorderImage::SetBorder] and [BorderImage::SetImageBorder] clamp every
    side at zero. *)
Definition clamp_sides (rect : IntRect) : IntRect :=
  mkIntRect (Z.max (left_ rect) 0) (Z.max (top_ rect) 0)
            (Z.max (right_ rect) 0) (Z.max (bottom_ rect) 0).

(** [if (cond) call;] *)
Definition when (cond : bool) (call : BatchState -> res BatchState) (st : BatchState)
    : res BatchState :=
  if cond then call st else Ret st.

Section WithMath.
Context `{MathLib}.
Variable posAdjust : Vector3.

(** The inner texture-region size computed by [GetBatches]. *)
Definition innerUvSize (bi : BorderImage) : IntVector2 :=
  let uvBorder :=
    if bool_decide (imageBorder_ bi = IntRect_ZERO) then border_ bi else imageBorder_ bi in
  mkIntVector2
    (Z.max (right_ (imageRect_ bi) - left_ (imageRect_ bi) - left_ uvBorder - right_ uvBorder) 0)
    (Z.max (bottom_ (imageRect_ bi) - top_ (imageRect_ bi) - top_ uvBorder - bottom_ uvBorder) 0).

(** The inner rectangle size computed by [GetBatches]. *)
Definition innerSize (bi : BorderImage) : IntVector2 :=
  let sx := ix_ (GetSize (elem bi)) - GetIndentWidth bi in
  let sy := iy_ (GetSize (elem bi)) in
  mkIntVector2 (Z.max (sx - left_ (border_ bi) - right_ (border_ bi)) 0)
               (Z.max (sy - top_ (border_ bi) - bottom_ (border_ bi)) 0).

(** [BorderImage::GetBatches(batches, vertexData, currentScissor, offset)];
    [vd] is the address of [vertexData]. *)
Definition GetBatches_offset (fuel : nat) (bi : BorderImage) (batches : list UIBatch)
    (vd : Ptr) (vertexData : PODVector) (currentScissor : IntRect) (offset : IntVector2)
    : res (BorderImage * list UIBatch * PODVector) :=
  let e := elem bi in
  let allOpaque :=
    negb (flt (GetDerivedOpacity e) f1
          || flt (a_ (GetColor e C_TOPLEFT)) f1
          || flt (a_ (GetColor e C_TOPRIGHT)) f1
          || flt (a_ (GetColor e C_BOTTOMLEFT)) f1
          || flt (a_ (GetColor e C_BOTTOMRIGHT)) f1) in
  let batch0 :=
    UIBatch_new (Some e)
      (if bool_decide (blendMode_ bi = BLEND_REPLACE) && negb allOpaque
       then BLEND_ALPHA else blendMode_ bi)
      currentScissor (texture_ bi) vd vertexData in
  let batch1 :=
    match material_ bi with
    | Some m => set_customMaterial_ batch0 (Some m)
    | None => batch0
    end in
  let border := border_ bi in
  let uvBorder :=
    if bool_decide (imageBorder_ bi = IntRect_ZERO) then border else imageBorder_ bi in
  let x := GetIndentWidth bi in
  let inner := innerSize bi in
  let innerUv := innerUvSize bi in
  let uvTopLeft :=
    IntVector2_add (mkIntVector2 (left_ (imageRect_ bi)) (top_ (imageRect_ bi))) offset in
  let ux := ix_ uvTopLeft in
  let uy := iy_ uvTopLeft in
  let plain st qx qy qw qh tx ty tw th :=
    AddQuad posAdjust st (of_int qx) (of_int qy) (of_int qw) (of_int qh) tx ty tw th in
  let tiled st qx qy qw qh tx ty tw th :=
    AddQuad_tiled posAdjust fuel st qx qy qw qh tx ty tw th (tiled_ bi) in
  let nz (z : Z) := negb (z =? 0) in
  (* Top *)
  st ← when (nz (top_ border) && nz (left_ border))
         (fun st => plain st x 0 (left_ border) (top_ border) ux uy
                      (left_ uvBorder) (top_ uvBorder))
         (batch1, vertexData);
  st ← when (nz (top_ border) && nz (ix_ inner))
         (fun st => tiled st (x + left_ border) 0 (ix_ inner) (top_ border)
                      (ux + left_ uvBorder) uy (ix_ innerUv) (top_ uvBorder)) st;
  st ← when (nz (top_ border) && nz (right_ border))
         (fun st => plain st (x + left_ border + ix_ inner) 0 (right_ border) (top_ border)
                      (ux + left_ uvBorder + ix_ innerUv) uy
                      (right_ uvBorder) (top_ uvBorder)) st;
  (* Middle *)
  st ← when (nz (iy_ inner) && nz (left_ border))
         (fun st => tiled st x (top_ border) (left_ border) (iy_ inner)
                      ux (uy + top_ uvBorder) (left_ uvBorder) (iy_ innerUv)) st;
  st ← when (nz (iy_ inner) && nz (ix_ inner))
         (fun st => tiled st (x + left_ border) (top_ border) (ix_ inner) (iy_ inner)
                      (ux + left_ uvBorder) (uy + top_ uvBorder)
                      (ix_ innerUv) (iy_ innerUv)) st;
  st ← when (nz (iy_ inner) && nz (right_ border))
         (fun st => tiled st (x + left_ border + ix_ inner) (top_ border)
                      (right_ border) (iy_ inner)
                      (ux + left_ uvBorder + ix_ innerUv) (uy + top_ uvBorder)
                      (right_ uvBorder) (iy_ innerUv)) st;
  (* Bottom *)
  st ← when (nz (bottom_ border) && nz (left_ border))
         (fun st => plain st x (top_ border + iy_ inner) (left_ border) (bottom_ border)
                      ux (uy + top_ uvBorder + iy_ innerUv)
                      (left_ uvBorder) (bottom_ uvBorder)) st;
  st ← when (nz (bottom_ border) && nz (ix_ inner))
         (fun st => tiled st (x + left_ border) (top_ border + iy_ inner)
                      (ix_ inner) (bottom_ border)
                      (ux + left_ uvBorder) (uy + top_ uvBorder + iy_ innerUv)
                      (ix_ innerUv) (bottom_ uvBorder)) st;
  st ← when (nz (bottom_ border) && nz (right_ border))
         (fun st => plain st (x + left_ border + ix_ inner) (top_ border + iy_ inner)
                      (right_ border) (bottom_ border)
                      (ux + left_ uvBorder + ix_ innerUv) (uy + top_ uvBorder + iy_ innerUv)
                      (right_ uvBorder) (bottom_ uvBorder)) st;
  Ret (clear_hovering bi, AddOrMerge st.1 batches, st.2).

(** [BorderImage::GetBatches(batches, vertexData, currentScissor)] *)
Definition GetBatches (fuel : nat) (bi : BorderImage) (batches : list UIBatch)
    (vd : Ptr) (vertexData : PODVector) (currentScissor : IntRect)
    : res (BorderImage * list UIBatch * PODVector) :=
  if enabled_ bi then
    GetBatches_offset fuel bi batches vd vertexData currentScissor
      (if hovering_ bi || selected_ bi || HasFocus bi then hoverOffset_ bi
       else IntVector2_ZERO)
  else
    GetBatches_offset fuel bi batches vd vertexData currentScissor (disabledOffset_ bi).

End WithMath.
End BorderImage.

(** ** UI.cpp: elements, hit test, modal elements, pointer routing *)

Module UISystem.

Inductive LayoutMode := LM_FREE | LM_HORIZONTAL | LM_VERTICAL.

#[global] Instance LayoutMode_eq_dec : EqDecision LayoutMode.
Proof. solve_decision. Defined.

Inductive FocusMode :=
| FM_NOTFOCUSABLE | FM_RESETFOCUS | FM_FOCUSABLE | FM_FOCUSABLE_DEFOCUSABLE.

#[global] Instance FocusMode_eq_dec : EqDecision FocusMode.
Proof. solve_decision. Defined.

(** [mode >= FM_FOCUSABLE] *)
Definition at_least_focusable (m : FocusMode) : bool :=
  match m with
  | FM_FOCUSABLE | FM_FOCUSABLE_DEFOCUSABLE => true
  | _ => false
  end.

(** Drag-and-drop mode flags. *)
Definition DD_SOURCE : Z := 1.
Definition DD_TARGET : Z := 2.

Definition M_MAX_UNSIGNED : Z := 0xffffffff.

(** The values a [Variant] takes in the element variables that UI.cpp
    reads and writes. *)
Inductive Variant :=
| VAR_EMPTY
| VAR_PTR (p : option Ptr)
| VAR_UINT (u : Z).

(** [Variant::GetPtr] and [Variant::GetUInt]: the stored value when the
    variant has that type, null or zero otherwise. *)
Definition GetPtr (v : Variant) : option Ptr :=
  match v with VAR_PTR p => p | _ => None end.
Definition GetUInt (v : Variant) : Z :=
  match v with VAR_UINT u => u | _ => 0 end.

(** The names hashed into [VAR_ORIGIN], [VAR_ORIGINAL_PARENT],
    [VAR_ORIGINAL_CHILD_INDEX] and [VAR_PARENT_CHANGED]. *)
Definition VAR_ORIGIN : string := "Origin".
Definition VAR_ORIGINAL_PARENT : string := "OriginalParent".
Definition VAR_ORIGINAL_CHILD_INDEX : string := "OriginalChildIndex".
Definition VAR_PARENT_CHANGED : string := "ParentChanged".

(** The type name [Window::GetTypeStatic()] hashes. *)
Definition Window_type : string := "Window".

(** A [UIElement] as UI.cpp sees it.  [children_] is the child vector in
    the order [SortChildren()] leaves it.  The last five fields are the
    answers of methods of UIElement.cpp, which is not among the sources:
    [IsInside(position, true)], [IsInsideCombined(position, true)],
    [ScreenToElement(position)], [GetCombinedScreenRect().IsInside(p) ==
    INSIDE], and the verdict of the [OnDragDropFinish] handler. *)
Record UIElement := mkUIElement {
  type_ : string;
  parent_ : option Ptr;
  children_ : list Ptr;
  vars_ : gmap string Variant;
  enabled_ : bool;
  visible_ : bool;
  priority_ : Z;
  layoutMode_ : LayoutMode;
  layoutElementMaxSize_ : Z;
  layoutSpacing_ : Z;
  position_ : IntVector2;
  size_ : IntVector2;
  screenPosition_ : IntVector2;
  focusMode_ : FocusMode;
  dragDropMode_ : Z;
  IsInside : IntVector2 -> bool;
  IsInsideCombined : IntVector2 -> bool;
  ScreenToElement : IntVector2 -> IntVector2;
  CombinedScreenRect_IsInside : IntVector2 -> bool;
  OnDragDropFinish : Ptr -> bool
}.

Definition set_tree (e : UIElement) (parent : option Ptr) (children : list Ptr) : UIElement :=
  mkUIElement (type_ e) parent children (vars_ e) (enabled_ e) (visible_ e) (priority_ e)
    (layoutMode_ e) (layoutElementMaxSize_ e) (layoutSpacing_ e) (position_ e) (size_ e)
    (screenPosition_ e) (focusMode_ e) (dragDropMode_ e) (IsInside e) (IsInsideCombined e)
    (ScreenToElement e) (CombinedScreenRect_IsInside e) (OnDragDropFinish e).

Definition set_vars (e : UIElement) (vars : gmap string Variant) : UIElement :=
  mkUIElement (type_ e) (parent_ e) (children_ e) vars (enabled_ e) (visible_ e) (priority_ e)
    (layoutMode_ e) (layoutElementMaxSize_ e) (layoutSpacing_ e) (position_ e) (size_ e)
    (screenPosition_ e) (focusMode_ e) (dragDropMode_ e) (IsInside e) (IsInsideCombined e)
    (ScreenToElement e) (CombinedScreenRect_IsInside e) (OnDragDropFinish e).

(** The elements alive, by address.  A [WeakPtr] whose address is not in
    the heap has expired. *)
Abbreviation Heap := (gmap Ptr UIElement).

(** [UI::DragData] *)
Record DragData := mkDragData {
  dragButtons : Z;
  numDragButtons : Z;
  sumPos : IntVector2;
  dragBeginPending : bool;
  dragBeginTimer : Z;
  dragBeginSumPos : IntVector2
}.

(** The members of [UI] that the modelled functions use.  [clickTimer_]
    and [dragBeginTimer] hold the tick, in milliseconds, at which the timer
    was last reset. *)
Record UI := mkUI {
  heap : Heap;
  rootElement_ : Ptr;
  rootModalElement_ : Ptr;
  cursor_ : option Ptr;
  focusElement_ : option Ptr;
  renderToTexture_ : list Ptr;
  dragElements_ : list (Ptr * DragData);
  dragElementsCount_ : Z;
  dragConfirmedCount_ : Z;
  dragElementsConfirmed_ : list Ptr;
  doubleClickElement_ : option Ptr;
  doubleClickFirstPos_ : IntVector2;
  clickTimer_ : Z;
  doubleClickInterval_ : float;
  maxDoubleClickDist_ : float;
  mouseButtons_ : Z;
  lastMouseButtons_ : Z;
  qualifiers_ : Z;
  usingTouchInput_ : bool
}.

Definition set_heap (ui : UI) (h : Heap) : UI :=
  mkUI h (rootElement_ ui) (rootModalElement_ ui) (cursor_ ui) (focusElement_ ui)
    (renderToTexture_ ui) (dragElements_ ui) (dragElementsCount_ ui)
    (dragConfirmedCount_ ui) (dragElementsConfirmed_ ui) (doubleClickElement_ ui)
    (doubleClickFirstPos_ ui) (clickTimer_ ui) (doubleClickInterval_ ui)
    (maxDoubleClickDist_ ui) (mouseButtons_ ui) (lastMouseButtons_ ui) (qualifiers_ ui)
    (usingTouchInput_ ui).

Definition set_focusElement_ (ui : UI) (f : option Ptr) : UI :=
  mkUI (heap ui) (rootElement_ ui) (rootModalElement_ ui) (cursor_ ui) f
    (renderToTexture_ ui) (dragElements_ ui) (dragElementsCount_ ui)
    (dragConfirmedCount_ ui) (dragElementsConfirmed_ ui) (doubleClickElement_ ui)
    (doubleClickFirstPos_ ui) (clickTimer_ ui) (doubleClickInterval_ ui)
    (maxDoubleClickDist_ ui) (mouseButtons_ ui) (lastMouseButtons_ ui) (qualifiers_ ui)
    (usingTouchInput_ ui).

(** The drag registry and its three companions, replaced together. *)
Definition set_drag (ui : UI) (entries : list (Ptr * DragData)) (count confirmed : Z)
    (confirmedList : list Ptr) : UI :=
  mkUI (heap ui) (rootElement_ ui) (rootModalElement_ ui) (cursor_ ui) (focusElement_ ui)
    (renderToTexture_ ui) entries count confirmed confirmedList (doubleClickElement_ ui)
    (doubleClickFirstPos_ ui) (clickTimer_ ui) (doubleClickInterval_ ui)
    (maxDoubleClickDist_ ui) (mouseButtons_ ui) (lastMouseButtons_ ui) (qualifiers_ ui)
    (usingTouchInput_ ui).

(** The double-click bookkeeping, replaced together. *)
Definition set_click (ui : UI) (element : option Ptr) (firstPos : IntVector2) (timer : Z)
    : UI :=
  mkUI (heap ui) (rootElement_ ui) (rootModalElement_ ui) (cursor_ ui) (focusElement_ ui)
    (renderToTexture_ ui) (dragElements_ ui) (dragElementsCount_ ui)
    (dragConfirmedCount_ ui) (dragElementsConfirmed_ ui) element firstPos timer
    (doubleClickInterval_ ui) (maxDoubleClickDist_ ui) (mouseButtons_ ui)
    (lastMouseButtons_ ui) (qualifiers_ ui) (usingTouchInput_ ui).

Definition set_lastMouseButtons_ (ui : UI) (buttons : Z) : UI :=
  mkUI (heap ui) (rootElement_ ui) (rootModalElement_ ui) (cursor_ ui) (focusElement_ ui)
    (renderToTexture_ ui) (dragElements_ ui) (dragElementsCount_ ui)
    (dragConfirmedCount_ ui) (dragElementsConfirmed_ ui) (doubleClickElement_ ui)
    (doubleClickFirstPos_ ui) (clickTimer_ ui) (doubleClickInterval_ ui)
    (maxDoubleClickDist_ ui) (mouseButtons_ ui) buttons (qualifiers_ ui)
    (usingTouchInput_ ui).

(** [p->member] for a raw pointer [p]. *)
Definition load (h : Heap) (p : Ptr) : res UIElement := deref (h !! p).

(** A [WeakPtr] converts to true when it is set and has not expired. *)
Definition live (h : Heap) (w : option Ptr) : bool :=
  match w with
  | Some p => bool_decide (is_Some (h !! p))
  | None => false
  end.

(** [UI::HasModalElement] *)
Definition HasModalElement (ui : UI) : res bool :=
  m ← load (heap ui) (rootModalElement_ ui);
  Ret (negb (bool_decide (children_ m = []))).

(** *** Hit test *)

(** The children loop of [UI::GetElementAt(UIElement*& result, UIElement*
    current, position, enabledOnly)] from index [i] on.  [skip] counts the
    children that [i += (toSkip - 1)] has still to pass over; [descend]
    is the recursive call, one level further down.  The integer division
    that computes [toSkip] faults on a zero divisor. *)
Fixpoint GetElementAt_children (ui : UI) (current : UIElement)
    (descend : option Ptr -> Ptr -> res (option Ptr))
    (position : IntVector2) (enabledOnly : bool)
    (children : list Ptr) (i : Z) (skip : nat) (result : option Ptr)
    : res (option Ptr) :=
  match children with
  | [] => Ret result
  | p :: rest =>
      let continue := GetElementAt_children ui current descend position enabledOnly
                        rest (i + 1) in
      match skip with
      | S skip' => continue skip' result
      | O =>
          element ← load (heap ui) p;
          let hasChildren := negb (bool_decide (children_ element = [])) in
          let parentLayoutMode := layoutMode_ current in
          if bool_decide (Some p <> cursor_ ui) && visible_ element then
            if IsInside element position then
              let result :=
                if enabled_ element || negb enabledOnly then Some p else result in
              if hasChildren then
                result ← descend result p;
                continue O result
              else if bool_decide (parentLayoutMode <> LM_FREE) then Ret result
              else continue O result
            else if hasChildren then
              if IsInsideCombined element position then
                result ← descend result p;
                continue O result
              else continue O result
            else if bool_decide (parentLayoutMode <> LM_FREE) then
              if i =? 0 then
                let screenPos :=
                  if bool_decide (parentLayoutMode = LM_HORIZONTAL)
                  then ix_ (screenPosition_ element) else iy_ (screenPosition_ element) in
                let layoutMaxSize := layoutElementMaxSize_ current in
                let spacing := layoutSpacing_ current in
                if (screenPos <? 0) && (0 <? layoutMaxSize) then
                  if layoutMaxSize + spacing =? 0 then Fault
                  else
                    let toSkip := u32 (Z.quot (- screenPos) (layoutMaxSize + spacing)) in
                    if 0 <? toSkip then continue (Z.to_nat (toSkip - 1)) result
                    else continue O result
                else continue O result
              else if bool_decide (parentLayoutMode = LM_HORIZONTAL) then
                root ← load (heap ui) (rootElement_ ui);
                if ix_ (position_ root) + ix_ (size_ root) <=? ix_ (screenPosition_ element)
                then Ret result
                else continue O result
              else if bool_decide (parentLayoutMode = LM_VERTICAL) then
                root ← load (heap ui) (rootElement_ ui);
                if iy_ (position_ root) + iy_ (size_ root) <=? iy_ (screenPosition_ element)
                then Ret result
                else continue O result
              else continue O result
            else continue O result
          else continue O result
      end
  end.

(** [UI::GetElementAt(UIElement*& result, UIElement* current, position,
    enabledOnly)]; the recursion may nest [fuel] levels deep. *)
Fixpoint GetElementAt_rec (fuel : nat) (ui : UI) (result : option Ptr)
    (current : option Ptr) (position : IntVector2) (enabledOnly : bool)
    : res (option Ptr) :=
  match current with
  | None => Ret result
  | Some cur =>
      match fuel with
      | O => OutOfFuel
      | S fuel' =>
          c ← load (heap ui) cur;
          GetElementAt_children ui c
            (fun result p => GetElementAt_rec fuel' ui result (Some p) position enabledOnly)
            position enabledOnly (children_ c) 0 O result
      end
  end.

(** [UI::GetElementAt(UIElement* root, position, enabledOnly)] *)
Definition GetElementAt_root (fuel : nat) (ui : UI) (root : Ptr) (position : IntVector2)
    (enabledOnly : bool) : res (option Ptr) :=
  r ← load (heap ui) root;
  let rootSize := size_ r in
  let rootPos := position_ r in
  if (ix_ position <? ix_ rootPos) || (ix_ rootPos + ix_ rootSize <? ix_ position) then
    Ret None
  else if (iy_ position <? iy_ rootPos) || (iy_ rootPos + iy_ rootSize <? iy_ position) then
    Ret None
  else
    let positionCopy :=
      if (0 <? ix_ rootSize) && (0 <? iy_ rootSize) then
        mkIntVector2
          (if ix_ rootPos + ix_ rootSize <=? ix_ position
           then ix_ rootPos + Z.rem (ix_ position - ix_ rootPos) (ix_ rootSize)
           else ix_ position)
          (if iy_ rootPos + iy_ rootSize <=? iy_ position
           then iy_ rootPos + Z.rem (iy_ position - iy_ rootPos) (iy_ rootSize)
           else iy_ position)
      else position in
    GetElementAt_rec fuel ui None (Some root) positionCopy enabledOnly.

(** The loop of [GetElementAt] over the render-to-texture roots: the hit,
    if any, with the position it was found at. *)
Fixpoint GetElementAt_textures (fuel : nat) (ui : UI) (roots : list Ptr)
    (position : IntVector2) (enabledOnly : bool) : res (option (Ptr * IntVector2)) :=
  match roots with
  | [] => Ret None
  | root :: rest =>
      match heap ui !! root with
      | None => GetElementAt_textures fuel ui rest position enabledOnly
      | Some r =>
          if negb (enabled_ r) then GetElementAt_textures fuel ui rest position enabledOnly
          else
            let screenPosition := ScreenToElement r position in
            if CombinedScreenRect_IsInside r screenPosition then
              result ← GetElementAt_root fuel ui root screenPosition enabledOnly;
              match result with
              | Some hit => Ret (Some (hit, screenPosition))
              | None => GetElementAt_textures fuel ui rest position enabledOnly
              end
            else GetElementAt_textures fuel ui rest position enabledOnly
      end
  end.

(** The search of the modal root that opens [GetElementAt]:
    [if (HasModalElement()) result = GetElementAt(rootModalElement_, ...)]. *)
Definition GetElementAt_modal (fuel : nat) (ui : UI) (position : IntVector2)
    (enabledOnly : bool) : res (option Ptr) :=
  HasModalElement ui ≫= fun modal : bool =>
  if modal then GetElementAt_root fuel ui (rootModalElement_ ui) position enabledOnly
  else Ret None.

(** [UI::GetElementAt(position, enabledOnly, elementScreenPosition)]: the
    element found and the value written through [elementScreenPosition],
    [None] when nothing is written. *)
Definition GetElementAt (fuel : nat) (ui : UI) (position : IntVector2) (enabledOnly : bool)
    : res (option Ptr * option IntVector2) :=
  result ← GetElementAt_modal fuel ui position enabledOnly;
  result ←
    match result with
    | Some _ => Ret result
    | None => GetElementAt_root fuel ui (rootElement_ ui) position enabledOnly
    end;
  match result, renderToTexture_ ui with
  | None, _ :: _ =>
      hit ← GetElementAt_textures fuel ui (renderToTexture_ ui) position enabledOnly;
      match hit with
      | Some (element, screenPosition) => Ret (Some element, Some screenPosition)
      | None => Ret (None, None)
      end
  | _, _ => Ret (result, Some position)
  end.

(** *** Modal elements *)

(** [UIElement::FindChild]: the index of the child, [M_MAX_UNSIGNED] when
    it is not a child. *)
Fixpoint find_index (child : Ptr) (children : list Ptr) (i : Z) : Z :=
  match children with
  | [] => M_MAX_UNSIGNED
  | c :: rest => if bool_decide (c = child) then i else find_index child rest (i + 1)
  end.

Definition FindChild (parent : UIElement) (child : Ptr) : Z :=
  find_index child (children_ parent) 0.

(** [element->SetVar(key, value)], [element->GetVar(key)] and
    [vars.Erase(key)] on the variable map of an element. *)
Definition SetVar (h : Heap) (p : Ptr) (key : string) (value : Variant) : res Heap :=
  e ← load h p;
  Ret (<[p := set_vars e (<[key := value]> (vars_ e))]> h).

Definition GetVar (h : Heap) (p : Ptr) (key : string) : res Variant :=
  e ← load h p;
  Ret (default VAR_EMPTY (vars_ e !! key)).

Definition EraseVar (h : Heap) (p : Ptr) (key : string) : res Heap :=
  e ← load h p;
  Ret (<[p := set_vars e (delete key (vars_ e))]> h).

(** Modelled from the spec: [UIElement::SetParent(parent, index)] is not
    among the sources.  The specification has the element relocated under
    the new parent, at the recorded sibling index when it is restored; a
    null parent, the element itself, or the parent it already has leave
    the tree as it is.  An index past the end appends. *)
Definition SetParent (h : Heap) (p : Ptr) (parent : option Ptr) (index : Z) : res Heap :=
  match parent with
  | None => Ret h
  | Some q =>
      e ← load h p;
      if bool_decide (q = p) || bool_decide (parent_ e = Some q) then Ret h
      else
        h1 ← match parent_ e with
             | None => Ret h
             | Some old =>
                 o ← load h old;
                 Ret (<[old := set_tree o (parent_ o)
                                 (filter (fun c => c <> p) (children_ o))]> h)
             end;
        np ← load h1 q;
        let cs := children_ np in
        let cs' :=
          if Z.of_nat (length cs) <=? index then cs ++ [p]
          else take (Z.to_nat index) cs ++ p :: drop (Z.to_nat index) cs in
        let h2 := <[q := set_tree np (parent_ np) cs']> h1 in
        e2 ← load h2 p;
        Ret (<[p := set_tree e2 (Some q) (children_ e2)]> h2)
  end.

(** [while (element && element->GetParent() != rootElement_)
      element = element->GetParent();] *)
Fixpoint top_level_under (fuel : nat) (h : Heap) (root : Ptr) (element : option Ptr)
    : res (option Ptr) :=
  match element with
  | None => Ret None
  | Some el =>
      e ← load h el;
      if bool_decide (parent_ e <> Some root) then
        match fuel with
        | O => OutOfFuel
        | S fuel' => top_level_under fuel' h root (parent_ e)
        end
      else Ret (Some el)
  end.

(** The bookkeeping of a relocation into the modal root:
    [SetVar(VAR_ORIGINAL_PARENT, parent); SetVar(VAR_ORIGINAL_CHILD_INDEX,
    parent ? parent->FindChild(element) : M_MAX_UNSIGNED);
    SetParent(rootModalElement_)]. *)
Definition adopt_modal_root (h : Heap) (rootModal : Ptr) (el : Ptr) (parent : option Ptr)
    : res Heap :=
  h ← SetVar h el VAR_ORIGINAL_PARENT (VAR_PTR parent);
  index ← match parent with
          | Some q => qe ← load h q; Ret (FindChild qe el)
          | None => Ret M_MAX_UNSIGNED
          end;
  h ← SetVar h el VAR_ORIGINAL_CHILD_INDEX (VAR_UINT index);
  SetParent h el (Some rootModal) M_MAX_UNSIGNED.

(** [UI::SetModalElement]: the result and the UI afterwards.  [fuel]
    bounds the walk from a popup's origin to its top-level ancestor. *)
Definition SetModalElement (fuel : nat) (ui : UI) (modalElement : option Ptr) (enable : bool)
    : res (bool * UI) :=
  match modalElement with
  | None => Ret (false, ui)
  | Some m =>
      me ← load (heap ui) m;
      if bool_decide (type_ me <> Window_type) then Ret (false, ui)
      else
        let currParent := parent_ me in
        let rootModal := rootModalElement_ ui in
        if enable then
          if bool_decide (currParent = Some rootModal) then Ret (false, ui)
          else
            h ← adopt_modal_root (heap ui) rootModal m currParent;
            origin ← GetVar h m VAR_ORIGIN;
            match GetPtr origin with
            | Some originElement =>
                element ← top_level_under fuel h (rootElement_ ui) (Some originElement);
                match element with
                | Some el =>
                    h ← SetVar h originElement VAR_PARENT_CHANGED (VAR_PTR (Some el));
                    ee ← load h el;
                    h ← adopt_modal_root h rootModal el (parent_ ee);
                    Ret (true, set_heap ui h)
                | None => Ret (true, set_heap ui h)
                end
            | None => Ret (true, set_heap ui h)
            end
        else
          if bool_decide (currParent <> Some rootModal) then Ret (false, ui)
          else
            originalParent ← GetVar (heap ui) m VAR_ORIGINAL_PARENT;
            originalIndex ← GetVar (heap ui) m VAR_ORIGINAL_CHILD_INDEX;
            h ← SetParent (heap ui) m (GetPtr originalParent) (GetUInt originalIndex);
            h ← EraseVar h m VAR_ORIGINAL_PARENT;
            h ← EraseVar h m VAR_ORIGINAL_CHILD_INDEX;
            origin ← GetVar h m VAR_ORIGIN;
            match GetPtr origin with
            | Some originElement =>
                changed ← GetVar h originElement VAR_PARENT_CHANGED;
                match GetPtr changed with
                | Some el =>
                    h ← EraseVar h originElement VAR_PARENT_CHANGED;
                    originalParent ← GetVar h el VAR_ORIGINAL_PARENT;
                    originalIndex ← GetVar h el VAR_ORIGINAL_CHILD_INDEX;
                    h ← SetParent h el (GetPtr originalParent) (GetUInt originalIndex);
                    (* [vars] is a reference to the modal element's map:
                       [vars = element->GetVars()] copies into it, and the
                       two erasures act on the copy. *)
                    ee ← load h el;
                    mm ← load h m;
                    let h := <[m := set_vars mm (vars_ ee)]> h in
                    h ← EraseVar h m VAR_ORIGINAL_PARENT;
                    h ← EraseVar h m VAR_ORIGINAL_CHILD_INDEX;
                    Ret (true, set_heap ui h)
                | None => Ret (true, set_heap ui h)
                end
            | None => Ret (true, set_heap ui h)
            end
  end.

(** *** Pointer routing *)

Inductive EventType :=
| E_FOCUSED | E_DEFOCUSED
| E_UIMOUSECLICK | E_CLICK | E_UIMOUSECLICKEND | E_CLICKEND
| E_UIMOUSEDOUBLECLICK | E_DOUBLECLICK
| E_DRAGBEGIN | E_DRAGMOVE | E_DRAGEND | E_DRAGCANCEL | E_DRAGDROPFINISH.

(** What a routing function does to the world outside the UI object: the
    virtual handlers it calls on elements and the events it sends, in
    order.  [Sent sender type element] is [sender->SendEvent(type, data)]
    with [data[P_ELEMENT] = element]; the sender [None] is the UI subsystem
    itself.  [BringToFront element] is [element->BringToFront()], of which
    the calls are recorded: what it does to priorities and sibling order is
    in UIElement.cpp, which is not among the sources, and the click routing
    reads neither after the call. *)
Inductive Event :=
| BringToFront (element : Ptr)
| OnClickBegin (element : Ptr) (position screenPosition : IntVector2)
    (button buttons qualifiers : Z) (cursor : option Ptr)
| OnClickEnd (element : Ptr) (position screenPosition : IntVector2)
    (button buttons qualifiers : Z) (cursor : option Ptr) (beginElement : Ptr)
| OnDoubleClick (element : Ptr) (position screenPosition : IntVector2)
    (button buttons qualifiers : Z) (cursor : option Ptr)
| OnDragEnd (element : Ptr) (position screenPosition : IntVector2)
    (dragButtons releaseButtons : Z) (cursor : option Ptr)
| OnDragCancel (element : Ptr) (position screenPosition : IntVector2)
    (dragButtons cancelButtons : Z) (cursor : option Ptr)
| OnDragDropFinish_called (target source : Ptr)
| Sent (sender : option Ptr) (type : EventType) (element : option Ptr)
| Sent_FocusChanged (clickedElement element : option Ptr).

Definition Trace := list Event.

(** What the handlers of the elements and the subscribers of the events
    do while the router waits for them: they change the elements, and may
    destroy, hide, disable or reparent any of them.  What a call does is a
    function of the call and of the elements.  The handlers are taken not
    to call back into the router: the members of [UI] other than the
    elements are as the router left them when the call returns.  An
    element that was destroyed stays so ([handle_expired]): a weak pointer
    that has expired never refers to an element again. *)
Class Handlers := {
  handle : Event -> Heap -> Heap;
  handle_expired : forall ev h p, h !! p = None -> handle ev h !! p = None
}.

Section WithHandlers.
Context `{Handlers}.

(** A handler call or an event, and the calls of a list in order. *)
Definition deliver (ui : UI) (ev : Event) : UI := set_heap ui (handle ev (heap ui)).

Definition deliver_all (ui : UI) (t : Trace) : UI := fold_left deliver t ui.

(** The raw pointer a [WeakPtr] converts to: null once the element has
    been destroyed. *)
Definition weak (ui : UI) (w : option Ptr) : option Ptr :=
  if live (heap ui) w then w else None.

End WithHandlers.

(** [CountSetBits] of [Math/MathDefs.h] on a 32-bit word. *)
Definition CountSetBits (value : Z) : Z :=
  Z.of_nat (length (filter (fun i => Z.testbit value (Z.of_nat i) = true) (seq 0 32))).

(** [Timer::GetMSec]: the milliseconds elapsed at tick [now] on a timer
    started at tick [start], in unsigned arithmetic. *)
Definition GetMSec (now start : Z) : Z := u32 (now - start).

(** [UI::GetFocusableElement] *)
Fixpoint GetFocusableElement (fuel : nat) (h : Heap) (element : option Ptr)
    : res (option Ptr) :=
  match element with
  | None => Ret None
  | Some el =>
      e ← load h el;
      if bool_decide (focusMode_ e <> FM_NOTFOCUSABLE) then Ret (Some el)
      else
        match fuel with
        | O => OutOfFuel
        | S fuel' => GetFocusableElement fuel' h (parent_ e)
        end
  end.

Section Focus.
Context `{Handlers}.

(** The second half of [UI::SetFocusElement], from "Remove focus from the
    old element" on.  [element] is a raw pointer: reading its focus mode
    after the defocused event faults when a subscriber of that event has
    destroyed it. *)
Definition change_focus (ui : UI) (originalElement element : option Ptr)
    : res (UI * Trace) :=
  let '(ui, defocus) :=
    if live (heap ui) (focusElement_ ui)
    then (deliver (set_focusElement_ ui None)
            (Sent (focusElement_ ui) E_DEFOCUSED (focusElement_ ui)),
          [Sent (focusElement_ ui) E_DEFOCUSED (focusElement_ ui)])
    else (ui, []) in
  '(ui, focus) ←
    match element with
    | Some el =>
        e ← load (heap ui) el;
        if at_least_focusable (focusMode_ e)
        then Ret (deliver (set_focusElement_ ui (Some el))
                    (Sent (Some el) E_FOCUSED (Some el)),
                  [Sent (Some el) E_FOCUSED (Some el)])
        else Ret (ui, [])
    | None => Ret (ui, [])
    end;
  Ret (deliver ui (Sent_FocusChanged originalElement element),
       defocus ++ focus ++ [Sent_FocusChanged originalElement element]).

(** [UI::SetFocusElement(element, byKey)] *)
Definition SetFocusElement (fuel : nat) (ui : UI) (element : option Ptr)
    : res (UI * Trace) :=
  match element with
  | Some el =>
      if bool_decide (focusElement_ ui = Some el) then Ret (ui, [])
      else
        HasModalElement ui ≫= fun modal : bool =>
        e ← load (heap ui) el;
        topLevel ←
          (if modal then top_level_under fuel (heap ui) (rootElement_ ui) (parent_ e)
           else Ret None);
        match topLevel with
        | Some _ => Ret (ui, [])
        | None =>
            focusable ← GetFocusableElement fuel (heap ui) (Some el);
            match focusable with
            | None => Ret (ui, [])
            | Some _ => change_focus ui element focusable
            end
        end
  | None => change_focus ui None None
  end.

End Focus.

(** [UI::SendClickEvent] *)
Definition SendClickEvent (eventType : EventType) (endElement : option Ptr) : Trace :=
  match endElement with
  | Some el =>
      (match eventType with
       | E_UIMOUSECLICK => [Sent (Some el) E_CLICK endElement]
       | E_UIMOUSECLICKEND => [Sent (Some el) E_CLICKEND endElement]
       | _ => []
       end) ++ [Sent None eventType endElement]
  | None => [Sent None eventType endElement]
  end.

(** [UI::SendDoubleClickEvent] *)
Definition SendDoubleClickEvent (endElement : option Ptr) : Trace :=
  match endElement with
  | Some el => [Sent (Some el) E_DOUBLECLICK endElement; Sent None E_UIMOUSEDOUBLECLICK endElement]
  | None => [Sent None E_UIMOUSEDOUBLECLICK endElement]
  end.

(** [UI::SendDragOrHoverEvent] *)
Definition SendDragOrHoverEvent (eventType : EventType) (element : option Ptr) : Trace :=
  match element with
  | Some el => [Sent (Some el) eventType element]
  | None => []
  end.

(** [dragElements_.Contains(element)] *)
Definition drag_contains (entries : list (Ptr * DragData)) (el : Ptr) : bool :=
  existsb (fun kv => bool_decide (kv.1 = el)) entries.

(** [dragElements_[element]] updated in place by [f]. *)
Fixpoint drag_update (entries : list (Ptr * DragData)) (el : Ptr) (f : DragData -> DragData)
    : list (Ptr * DragData) :=
  match entries with
  | [] => []
  | (k, d) :: rest =>
      if bool_decide (k = el) then (k, f d) :: rest else (k, d) :: drag_update rest el f
  end.

(** [UI::DragElementErase] at the entry that follows [before] in the
    registry, [after] being the entries behind it. *)
Definition DragElementErase (ui : UI) (before : list (Ptr * DragData)) (d : DragData)
    (after : list (Ptr * DragData)) : UI :=
  match dragElements_ ui with
  | [] => ui
  | _ :: _ =>
      set_drag ui (before ++ after) (dragElementsCount_ ui - 1)
        (if dragBeginPending d then dragConfirmedCount_ ui else dragConfirmedCount_ ui - 1)
        []
  end.

(** The block "Handle start of drag" of [ProcessClickBegin]: a new pending
    entry for an element that has none, one more button on the entry of an
    element that has one. *)
Definition start_drag (ui : UI) (el : Ptr) (newButton : bool) (button : Z)
    (cursorPos : IntVector2) (now : Z) : UI :=
  if negb (drag_contains (dragElements_ ui) el) then
    set_drag ui
      (dragElements_ ui
       ++ [(el, mkDragData button (CountSetBits button) cursorPos true now cursorPos)])
      (dragElementsCount_ ui + 1) (dragConfirmedCount_ ui) (dragElementsConfirmed_ ui)
  else if newButton then
    set_drag ui
      (drag_update (dragElements_ ui) el
         (fun d =>
            mkDragData (Z.lor (dragButtons d) button)
              (CountSetBits (Z.lor (dragButtons d) button))
              (IntVector2_add (sumPos d) cursorPos) (dragBeginPending d)
              (dragBeginTimer d) (IntVector2_add (dragBeginSumPos d) cursorPos)))
      (dragElementsCount_ ui) (dragConfirmedCount_ ui) (dragElementsConfirmed_ ui)
  else ui.

Section Routing.
Context `{MathLib} `{Handlers}.

(** The double-click test of [ProcessClickBegin] once the target is
    settled: in time, same buttons, within distance.  [elapsed] is what
    [clickTimer_.GetMSec(true)] returned. *)
Definition in_double_click_window (ui : UI) (elapsed : Z) (windowCursorPos : IntVector2)
    (buttons : Z) : bool :=
  (elapsed <? u32 (ftrunc (fmul (doubleClickInterval_ ui) (of_int 1000))))
  && bool_decide (lastMouseButtons_ ui = buttons)
  && flt (IntVector2_Length (IntVector2_sub windowCursorPos (doubleClickFirstPos_ ui)))
         (maxDoubleClickDist_ ui).

(** The branch of [ProcessClickBegin] for an element that is alive after
    the focus change: the click handlers, the double-click test, the start
    of the drag.  [element] is a [WeakPtr]: what the handlers destroy is
    null wherever it is converted to a pointer afterwards. *)
Definition click_begin (now : Z) (ui : UI) (el : Ptr) (windowCursorPos cursorPos : IntVector2)
    (newButton : bool) (button buttons qualifiers : Z) (cursor : option Ptr)
    : res (UI * Trace) :=
  e ← load (heap ui) el;
  let clicked :=
    OnClickBegin el (ScreenToElement e cursorPos) cursorPos button buttons qualifiers
      cursor in
  let ui := deliver ui clicked in
  let clickEvents := SendClickEvent E_UIMOUSECLICK (weak ui (Some el)) in
  let ui := deliver_all ui clickEvents in
  let sameElement :=
    live (heap ui) (doubleClickElement_ ui)
    && bool_decide (Some el = doubleClickElement_ ui) in
  '(ui, doubleTrace) ←
    (if sameElement
        && in_double_click_window ui (GetMSec now (clickTimer_ ui)) windowCursorPos buttons
     then
       e ← load (heap ui) el;
       let doubled :=
         OnDoubleClick el (ScreenToElement e cursorPos) cursorPos button buttons
           qualifiers cursor in
       let ui := deliver (set_click ui None (doubleClickFirstPos_ ui) now) doubled in
       let doubleEvents := SendDoubleClickEvent (weak ui (Some el)) in
       Ret (deliver_all ui doubleEvents, doubled :: doubleEvents)
     else Ret (set_click ui (Some el) windowCursorPos now, []));
  let ui :=
    if live (heap ui) (Some el) then start_drag ui el newButton button cursorPos now
    else ui in
  Ret (ui, [BringToFront el; clicked] ++ clickEvents ++ doubleTrace).

(** The branch of [ProcessClickBegin] for a click over no element, or over
    an element that a focus handler has destroyed. *)
Definition click_nowhere (fuel : nat) (now : Z) (ui : UI) (element : option Ptr)
    (windowCursorPos : IntVector2) (buttons : Z) : res (UI * Trace) :=
  HasModalElement ui ≫= fun modal : bool =>
  '(ui, defocusTrace) ← (if modal then Ret (ui, []) else SetFocusElement fuel ui None);
  let clickEvents := SendClickEvent E_UIMOUSECLICK (weak ui element) in
  let ui := deliver_all ui clickEvents in
  let inWindow :=
    in_double_click_window ui (GetMSec now (clickTimer_ ui)) windowCursorPos buttons in
  let doubleEvents := if inWindow then SendDoubleClickEvent (weak ui element) else [] in
  Ret (deliver_all (set_click ui (doubleClickElement_ ui) (doubleClickFirstPos_ ui) now)
         doubleEvents,
       defocusTrace ++ clickEvents ++ doubleEvents).

(** [UI::ProcessClickBegin] at tick [now]. *)
Definition ProcessClickBegin (fuel : nat) (now : Z) (ui : UI) (windowCursorPos : IntVector2)
    (button buttons qualifiers : Z) (cursor : option Ptr) (cursorVisible : bool)
    : res (UI * Trace) :=
  if negb cursorVisible then Ret (ui, [])
  else
    '(element, written) ← GetElementAt fuel ui windowCursorPos true;
    let cursorPos := default IntVector2_ZERO written in
    let newButton :=
      if usingTouchInput_ ui then Z.land buttons button =? 0 else true in
    let buttons := Z.lor buttons button in
    '(ui, focusTrace) ←
      match element with
      | Some _ => SetFocusElement fuel ui element
      | None => Ret (ui, [])
      end;
    '(ui, trace) ←
      match weak ui element with
      | Some el =>
          click_begin now ui el windowCursorPos cursorPos newButton button buttons
            qualifiers cursor
      | None => click_nowhere fuel now ui element windowCursorPos buttons
      end;
    Ret (set_lastMouseButtons_ ui buttons, focusTrace ++ trace).

(** "Handle end of click" in [ProcessClickEnd]: the click-end handler of
    the element under the cursor, if it is alive, and the click-end
    events. *)
Definition click_end (ui : UI) (element : option Ptr) (dragElement : Ptr)
    (cursorPos : IntVector2) (button buttons qualifiers : Z) (cursor : option Ptr)
    : UI * Trace :=
  let '(ui, handled) :=
    match element with
    | Some el =>
        match heap ui !! el with
        | Some e =>
            let ended :=
              OnClickEnd el (ScreenToElement e cursorPos) cursorPos button buttons
                qualifiers cursor dragElement in
            (deliver ui ended, [ended])
        | None => (ui, [])
        end
    | None => (ui, [])
    end in
  let clickEvents := SendClickEvent E_UIMOUSECLICKEND (weak ui element) in
  (deliver_all ui clickEvents, handled ++ clickEvents).

(** The drop that follows a drag end: [OnDragDropFinish] on the element
    under the cursor when the dragged element is a source, the other a
    target, and the two differ; the finish event when the handler accepts
    and both elements are alive after it. *)
Definition drop_finish (ui : UI) (element : option Ptr) (dragElement : Ptr) : UI * Trace :=
  let dragSource :=
    match heap ui !! dragElement with
    | Some de => negb (Z.land (dragDropMode_ de) DD_SOURCE =? 0)
    | None => false
    end in
  if dragSource then
    match element with
    | Some el =>
        match heap ui !! el with
        | Some e =>
            let dragTarget := negb (Z.land (dragDropMode_ e) DD_TARGET =? 0) in
            let dragDropFinish := dragSource && dragTarget && bool_decide (el <> dragElement) in
            if dragDropFinish then
              let accept := OnDragDropFinish e dragElement in
              let ui := deliver ui (OnDragDropFinish_called el dragElement) in
              if accept && live (heap ui) (Some dragElement) && live (heap ui) (Some el)
              then (deliver ui (Sent None E_DRAGDROPFINISH (Some el)),
                    [OnDragDropFinish_called el dragElement;
                     Sent None E_DRAGDROPFINISH (Some el)])
              else (ui, [OnDragDropFinish_called el dragElement])
            else (ui, [])
        | None => (ui, [])
        end
    | None => (ui, [])
    end
  else (ui, []).

(** The drag end of an entry that [ProcessClickEnd] erases, tested after
    the click-end handlers have run. *)
Definition drag_end (ui : UI) (element : option Ptr) (dragElement : Ptr)
    (dragData : DragData) (cursorPos : IntVector2) (buttons : Z) (cursor : option Ptr)
    : UI * Trace :=
  match heap ui !! dragElement with
  | Some de =>
      if enabled_ de && visible_ de && negb (dragBeginPending dragData) then
        let ended :=
          OnDragEnd dragElement (ScreenToElement de cursorPos) cursorPos
            (dragButtons dragData) buttons cursor in
        let ui := deliver ui ended in
        let dragEvents := SendDragOrHoverEvent E_DRAGEND (weak ui (Some dragElement)) in
        let ui := deliver_all ui dragEvents in
        let '(ui, dropped) := drop_finish ui element dragElement in
        (ui, ended :: dragEvents ++ dropped)
      else (ui, [])
  | None => (ui, [])
  end.

(** The loop of [UI::ProcessClickEnd] over the drag registry, at the entry
    that follows [before]; [element] is the element under the cursor. *)
Fixpoint ProcessClickEnd_loop (ui : UI) (before remaining : list (Ptr * DragData))
    (element : option Ptr) (cursorPos : IntVector2)
    (button buttons qualifiers : Z) (cursor : option Ptr) (cursorVisible : bool)
    : UI * Trace :=
  match remaining with
  | [] => (ui, [])
  | (dragElement, dragData) :: after =>
      if negb (live (heap ui) (Some dragElement)) || negb cursorVisible then
        ProcessClickEnd_loop (DragElementErase ui before dragData after) before after
          element cursorPos button buttons qualifiers cursor cursorVisible
      else if negb (Z.land (dragButtons dragData) button =? 0) then
        let '(ui, clickEnd) :=
          click_end ui element dragElement cursorPos button buttons qualifiers cursor in
        let '(ui, dragEnd) :=
          drag_end ui element dragElement dragData cursorPos buttons cursor in
        let '(ui', rest) :=
          ProcessClickEnd_loop (DragElementErase ui before dragData after) before after
            element cursorPos button buttons qualifiers cursor cursorVisible in
        (ui', clickEnd ++ dragEnd ++ rest)
      else
        ProcessClickEnd_loop ui (before ++ [(dragElement, dragData)]) after
          element cursorPos button buttons qualifiers cursor cursorVisible
  end.

(** [UI::ProcessClickEnd] *)
Definition ProcessClickEnd (fuel : nat) (ui : UI) (windowCursorPos : IntVector2)
    (button buttons qualifiers : Z) (cursor : option Ptr) (cursorVisible : bool)
    : res (UI * Trace) :=
  '(element, cursorPos) ←
    (if cursorVisible then
       '(element, written) ← GetElementAt fuel ui windowCursorPos true;
       Ret (element, default windowCursorPos written)
     else Ret (None, windowCursorPos));
  Ret (ProcessClickEnd_loop ui [] (dragElements_ ui) element cursorPos button buttons
         qualifiers cursor cursorVisible).

(** The loop of [UI::ProcessDragCancel] over the drag registry, at the
    entry that follows [before]. *)
Fixpoint ProcessDragCancel_loop (ui : UI) (before remaining : list (Ptr * DragData))
    (cursorPos : IntVector2) : UI * Trace :=
  match remaining with
  | [] => (ui, [])
  | (dragElement, dragData) :: after =>
      match heap ui !! dragElement with
      | Some de =>
          if enabled_ de && visible_ de && negb (dragBeginPending dragData) then
            let cancelled :=
              OnDragCancel dragElement (ScreenToElement de cursorPos) cursorPos
                (dragButtons dragData) (mouseButtons_ ui) (cursor_ ui) in
            let ui1 := deliver ui cancelled in
            let dragEvents :=
              SendDragOrHoverEvent E_DRAGCANCEL (weak ui1 (Some dragElement)) in
            let ui2 := deliver_all ui1 dragEvents in
            let '(ui', rest) :=
              ProcessDragCancel_loop (DragElementErase ui2 before dragData after) before
                after cursorPos in
            (ui', cancelled :: dragEvents ++ rest)
          else
            ProcessDragCancel_loop ui (before ++ [(dragElement, dragData)]) after cursorPos
      | None =>
          ProcessDragCancel_loop ui (before ++ [(dragElement, dragData)]) after cursorPos
      end
  end.

(** [UI::ProcessDragCancel]; [cursorPos] is the position that
    [GetCursorPositionAndVisible] reports. *)
Definition ProcessDragCancel (ui : UI) (cursorPos : IntVector2) : UI * Trace :=
  if usingTouchInput_ ui then (ui, [])
  else ProcessDragCancel_loop ui [] (dragElements_ ui) cursorPos.

End Routing.

End UISystem.

(** ** BorderImage.cpp: the setters *)

Module BorderImageSetters.
Import Batch BorderImage.

Definition set_texture_ (bi : BorderImage) (texture : option Texture) : BorderImage :=
  mkBorderImage (elem bi) (enabled_ bi) (hovering_ bi) (selected_ bi) (HasFocus bi)
    (GetIndentWidth bi) texture (imageRect_ bi) (border_ bi) (imageBorder_ bi)
    (hoverOffset_ bi) (disabledOffset_ bi) (blendMode_ bi) (tiled_ bi) (material_ bi).

Definition set_imageRect_ (bi : BorderImage) (rect : IntRect) : BorderImage :=
  mkBorderImage (elem bi) (enabled_ bi) (hovering_ bi) (selected_ bi) (HasFocus bi)
    (GetIndentWidth bi) (texture_ bi) rect (border_ bi) (imageBorder_ bi)
    (hoverOffset_ bi) (disabledOffset_ bi) (blendMode_ bi) (tiled_ bi) (material_ bi).

Definition set_border_ (bi : BorderImage) (rect : IntRect) : BorderImage :=
  mkBorderImage (elem bi) (enabled_ bi) (hovering_ bi) (selected_ bi) (HasFocus bi)
    (GetIndentWidth bi) (texture_ bi) (imageRect_ bi) rect (imageBorder_ bi)
    (hoverOffset_ bi) (disabledOffset_ bi) (blendMode_ bi) (tiled_ bi) (material_ bi).

Definition set_imageBorder_ (bi : BorderImage) (rect : IntRect) : BorderImage :=
  mkBorderImage (elem bi) (enabled_ bi) (hovering_ bi) (selected_ bi) (HasFocus bi)
    (GetIndentWidth bi) (texture_ bi) (imageRect_ bi) (border_ bi) rect
    (hoverOffset_ bi) (disabledOffset_ bi) (blendMode_ bi) (tiled_ bi) (material_ bi).

Definition set_hovering_ (bi : BorderImage) (hovering : bool) : BorderImage :=
  mkBorderImage (elem bi) (enabled_ bi) hovering (selected_ bi) (HasFocus bi)
    (GetIndentWidth bi) (texture_ bi) (imageRect_ bi) (border_ bi) (imageBorder_ bi)
    (hoverOffset_ bi) (disabledOffset_ bi) (blendMode_ bi) (tiled_ bi) (material_ bi).

(** [BorderImage::SetImageRect] *)
Definition SetImageRect (bi : BorderImage) (rect : IntRect) : BorderImage :=
  if bool_decide (rect <> IntRect_ZERO) then set_imageRect_ bi rect else bi.

(** [BorderImage::SetFullImageRect] *)
Definition SetFullImageRect (bi : BorderImage) : BorderImage :=
  match texture_ bi with
  | Some t => SetImageRect bi (mkIntRect 0 0 (GetWidth t) (GetHeight t))
  | None => bi
  end.

(** [BorderImage::SetTexture] *)
Definition SetTexture (bi : BorderImage) (texture : option Texture) : BorderImage :=
  let bi := set_texture_ bi texture in
  if bool_decide (imageRect_ bi = IntRect_ZERO) then SetFullImageRect bi else bi.

(** [BorderImage::SetBorder] *)
Definition SetBorder (bi : BorderImage) (rect : IntRect) : BorderImage :=
  set_border_ bi
    (mkIntRect (Z.max (left_ rect) 0) (Z.max (top_ rect) 0)
               (Z.max (right_ rect) 0) (Z.max (bottom_ rect) 0)).

(** [BorderImage::SetImageBorder] *)
Definition SetImageBorder (bi : BorderImage) (rect : IntRect) : BorderImage :=
  set_imageBorder_ bi
    (mkIntRect (Z.max (left_ rect) 0) (Z.max (top_ rect) 0)
               (Z.max (right_ rect) 0) (Z.max (bottom_ rect) 0)).

End BorderImageSetters.

(** ** Button.cpp *)

Module Button.
Import Batch.

(** [Max] of [Math/MathDefs.h], at type [float]: [lhs > rhs ? lhs : rhs]. *)
Definition Max (lhs rhs : float) : float := if flt rhs lhs then lhs else rhs.

(** [MOUSEB_LEFT] *)
Definition MOUSEB_LEFT : Z := 1.

(** The keys [Button::OnKey] tells apart. *)
Inductive Key :=
| KEY_RETURN | KEY_RETURN2 | KEY_KP_ENTER | KEY_SPACE
| KEY_other (code : Z).

(** The events a button sends, with itself as [P_ELEMENT]. *)
Inductive ButtonEvent := E_PRESSED | E_RELEASED.

(** A [Button]: the [BorderImage] it extends, the two members of
    [UIElement] its handlers use ([IsInside(position, true)] and the child
    offset that [SetChildOffset] stores), and its own members. *)
Record Button := mkButton {
  base : BorderImage.BorderImage;
  IsInside : IntVector2 -> bool;
  childOffset_ : IntVector2;
  pressedOffset_ : IntVector2;
  pressedChildOffset_ : IntVector2;
  repeatDelay_ : float;
  repeatRate_ : float;
  repeatTimer_ : float;
  pressed_ : bool
}.

Definition set_base (b : Button) (bi : BorderImage.BorderImage) : Button :=
  mkButton bi (IsInside b) (childOffset_ b) (pressedOffset_ b) (pressedChildOffset_ b)
    (repeatDelay_ b) (repeatRate_ b) (repeatTimer_ b) (pressed_ b).

Definition set_pressedOffset_ (b : Button) (offset : IntVector2) : Button :=
  mkButton (base b) (IsInside b) (childOffset_ b) offset (pressedChildOffset_ b)
    (repeatDelay_ b) (repeatRate_ b) (repeatTimer_ b) (pressed_ b).

Definition set_pressedChildOffset_ (b : Button) (offset : IntVector2) : Button :=
  mkButton (base b) (IsInside b) (childOffset_ b) (pressedOffset_ b) offset
    (repeatDelay_ b) (repeatRate_ b) (repeatTimer_ b) (pressed_ b).

Definition set_repeatDelay_ (b : Button) (delay : float) : Button :=
  mkButton (base b) (IsInside b) (childOffset_ b) (pressedOffset_ b) (pressedChildOffset_ b)
    delay (repeatRate_ b) (repeatTimer_ b) (pressed_ b).

Definition set_repeatRate_ (b : Button) (rate : float) : Button :=
  mkButton (base b) (IsInside b) (childOffset_ b) (pressedOffset_ b) (pressedChildOffset_ b)
    (repeatDelay_ b) rate (repeatTimer_ b) (pressed_ b).

Definition set_repeatTimer_ (b : Button) (timer : float) : Button :=
  mkButton (base b) (IsInside b) (childOffset_ b) (pressedOffset_ b) (pressedChildOffset_ b)
    (repeatDelay_ b) (repeatRate_ b) timer (pressed_ b).

Definition set_hovering (b : Button) (hovering : bool) : Button :=
  set_base b (BorderImageSetters.set_hovering_ (base b) hovering).

(** [Button::SetPressed]: [pressed_ = enable;
    SetChildOffset(pressed_ ? pressedChildOffset_ : IntVector2::ZERO);] *)
Definition SetPressed (b : Button) (enable : bool) : Button :=
  mkButton (base b) (IsInside b)
    (if enable then pressedChildOffset_ b else IntVector2_ZERO)
    (pressedOffset_ b) (pressedChildOffset_ b)
    (repeatDelay_ b) (repeatRate_ b) (repeatTimer_ b) enable.

(** [Button::SetPressedOffset] and [Button::SetPressedChildOffset] *)
Definition SetPressedOffset (b : Button) (offset : IntVector2) : Button :=
  set_pressedOffset_ b offset.
Definition SetPressedChildOffset (b : Button) (offset : IntVector2) : Button :=
  set_pressedChildOffset_ b offset.

(** [Button::SetRepeatDelay], [Button::SetRepeatRate], [Button::SetRepeat] *)
Definition SetRepeatDelay (b : Button) (delay : float) : Button :=
  set_repeatDelay_ b (Max delay f0).
Definition SetRepeatRate (b : Button) (rate : float) : Button :=
  set_repeatRate_ b (Max rate f0).
Definition SetRepeat (b : Button) (delay rate : float) : Button :=
  SetRepeatRate (SetRepeatDelay b delay) rate.

(** [Button::Update]: the button afterwards and the events sent. *)
Definition Update (b : Button) (timeStep : float) : Button * list ButtonEvent :=
  let b :=
    if negb (BorderImage.hovering_ (base b)) && pressed_ b then SetPressed b false else b in
  if pressed_ b && flt f0 (repeatRate_ b) then
    let b := set_repeatTimer_ b (fsub (repeatTimer_ b) timeStep) in
    if SFleb (repeatTimer_ b) f0 then
      (set_repeatTimer_ b (fadd (repeatTimer_ b) (fdiv f1 (repeatRate_ b))), [E_PRESSED])
    else (b, [])
  else (b, []).

(** [Button::OnClickBegin] *)
Definition OnClickBegin (b : Button) (button : Z) : Button * list ButtonEvent :=
  if button =? MOUSEB_LEFT then
    let b := SetPressed b true in
    let b := set_repeatTimer_ b (repeatDelay_ b) in
    (set_hovering b true, [E_PRESSED])
  else (b, []).

(** [Button::OnClickEnd] *)
Definition OnClickEnd (b : Button) (screenPosition : IntVector2) (button : Z)
    : Button * list ButtonEvent :=
  if pressed_ b && (button =? MOUSEB_LEFT) then
    let b := SetPressed b false in
    let b := if IsInside b screenPosition then set_hovering b true else b in
    (b, [E_RELEASED])
  else (b, []).

(** [Button::OnDragMove] *)
Definition OnDragMove (b : Button) : Button := SetPressed b true.

(** [Button::OnKey] *)
Definition OnKey (b : Button) (key : Key) : Button * list ButtonEvent :=
  let activates :=
    match key with
    | KEY_RETURN | KEY_RETURN2 | KEY_KP_ENTER | KEY_SPACE => true
    | KEY_other _ => false
    end in
  if BorderImage.HasFocus (base b) && activates then
    let '(b, begun) := OnClickBegin b MOUSEB_LEFT in
    let '(b, ended) := OnClickEnd b (mkIntVector2 0 0) MOUSEB_LEFT in
    (b, begun ++ ended)
  else (b, []).

Section WithMath.
Context `{MathLib}.
Variable posAdjust : Vector3.

(** The offset [Button::GetBatches] hands to [BorderImage::GetBatches]. *)
Definition batch_offset (b : Button) : IntVector2 :=
  let bi := base b in
  if BorderImage.enabled_ bi then
    let offset := IntVector2_ZERO in
    let offset :=
      if BorderImage.hovering_ bi || BorderImage.HasFocus bi
      then IntVector2_add offset (BorderImage.hoverOffset_ bi) else offset in
    if pressed_ b || BorderImage.selected_ bi
    then IntVector2_add offset (pressedOffset_ b) else offset
  else IntVector2_add IntVector2_ZERO (BorderImage.disabledOffset_ bi).

(** [Button::GetBatches] *)
Definition GetBatches (fuel : nat) (b : Button) (batches : list UIBatch)
    (vd : Ptr) (vertexData : PODVector) (currentScissor : IntRect)
    : res (Button * list UIBatch * PODVector) :=
  '(bi, batches, vertexData) ←
    BorderImage.GetBatches_offset posAdjust fuel (base b) batches vd vertexData
      currentScissor (batch_offset b);
  Ret (set_base b bi, batches, vertexData).

End WithMath.
End Button.

(** ** UI.cpp: queries, cursor motion and hover *)

Module UIPointer.
Import UISystem.

Definition M_MIN_INT : Z := - 2 ^ 31.

(** *** Front element, drag elements, render-to-texture roots *)

Section WithBringToBack.

(** [UIElement::GetBringToBack], a member of UIElement.cpp that the other
    functions modelled here do not read. *)
Variable GetBringToBack : Ptr -> bool.

(** The loop of [UI::GetFrontElement] over the children of the root. *)
Fixpoint GetFrontElement_loop (h : Heap) (rootChildren : list Ptr) (maxPriority : Z)
    (front : option Ptr) : res (option Ptr) :=
  match rootChildren with
  | [] => Ret front
  | child :: rest =>
      c ← load h child;
      if negb (enabled_ c) || negb (visible_ c) || negb (GetBringToBack child) then
        GetFrontElement_loop h rest maxPriority front
      else if maxPriority <? priority_ c then
        GetFrontElement_loop h rest (priority_ c) (Some child)
      else GetFrontElement_loop h rest maxPriority front
  end.

(** [UI::GetFrontElement] *)
Definition GetFrontElement (ui : UI) : res (option Ptr) :=
  root ← load (heap ui) (rootElement_ ui);
  GetFrontElement_loop (heap ui) (children_ root) M_MIN_INT None.

End WithBringToBack.

(** [dragElementsConfirmed_.Push(dragElement)] *)
Definition push_confirmed (ui : UI) (dragElement : Ptr) : UI :=
  set_drag ui (dragElements_ ui) (dragElementsCount_ ui) (dragConfirmedCount_ ui)
    (dragElementsConfirmed_ ui ++ [dragElement]).

(** The loop of [UI::GetDragElements] over the drag registry, at the entry
    that follows [before]. *)
Fixpoint GetDragElements_loop (ui : UI) (before remaining : list (Ptr * DragData)) : UI :=
  match remaining with
  | [] => ui
  | (dragElement, dragData) :: after =>
      match heap ui !! dragElement with
      | None => GetDragElements_loop (DragElementErase ui before dragData after) before after
      | Some _ =>
          GetDragElements_loop
            (if negb (dragBeginPending dragData) then push_confirmed ui dragElement else ui)
            (before ++ [(dragElement, dragData)]) after
      end
  end.

(** [UI::GetDragElements]: the vector returned and the UI afterwards. *)
Definition GetDragElements (ui : UI) : list Ptr * UI :=
  match dragElementsConfirmed_ ui with
  | _ :: _ => (dragElementsConfirmed_ ui, ui)
  | [] =>
      let ui' := GetDragElements_loop ui [] (dragElements_ ui) in
      (dragElementsConfirmed_ ui', ui')
  end.

(** [UI::GetDragElement] *)
Definition GetDragElement (ui : UI) (index : Z) : option Ptr * UI :=
  let '(confirmed, ui') := GetDragElements ui in
  if Z.of_nat (length confirmed) <=? index then (None, ui')
  else (nth_error confirmed (Z.to_nat index), ui').

(** [UI::RenderToTextureData]; the two vertex buffers by their addresses. *)
Record RenderToTextureData := mkRenderToTextureData {
  rtt_rootElement_ : Ptr;
  rtt_texture_ : Ptr;
  rtt_vertexBuffer_ : Ptr;
  rtt_debugVertexBuffer_ : Ptr
}.

(** [renderToTexture_.Find(element)] on the map in insertion order. *)
Fixpoint rtt_find (m : list (Ptr * RenderToTextureData)) (element : Ptr)
    : option RenderToTextureData :=
  match m with
  | [] => None
  | (k, data) :: rest => if bool_decide (k = element) then Some data else rtt_find rest element
  end.

(** [it->second_.texture_ = texture] and [renderToTexture_.Erase(it)] at
    the entry of [element]. *)
Fixpoint rtt_set_texture (m : list (Ptr * RenderToTextureData)) (element texture : Ptr)
    : list (Ptr * RenderToTextureData) :=
  match m with
  | [] => []
  | (k, data) :: rest =>
      if bool_decide (k = element)
      then (k, mkRenderToTextureData (rtt_rootElement_ data) texture
                 (rtt_vertexBuffer_ data) (rtt_debugVertexBuffer_ data)) :: rest
      else (k, data) :: rtt_set_texture rest element texture
  end.

Fixpoint rtt_erase (m : list (Ptr * RenderToTextureData)) (element : Ptr)
    : list (Ptr * RenderToTextureData) :=
  match m with
  | [] => []
  | (k, data) :: rest =>
      if bool_decide (k = element) then rest else (k, data) :: rtt_erase rest element
  end.

(** [UI::SetElementRenderTexture] on the map [renderToTexture_];
    [vertexBuffer] and [debugVertexBuffer] are the addresses the two [new
    VertexBuffer] return, should the call allocate. *)
Definition SetElementRenderTexture (m : list (Ptr * RenderToTextureData))
    (element texture : option Ptr) (vertexBuffer debugVertexBuffer : Ptr)
    : list (Ptr * RenderToTextureData) :=
  match element with
  | None => m
  | Some el =>
      match texture, rtt_find m el with
      | Some t, None => m ++ [(el, mkRenderToTextureData el t vertexBuffer debugVertexBuffer)]
      | Some t, Some _ => rtt_set_texture m el t
      | None, Some _ => rtt_erase m el
      | None, None => m
      end
  end.

(** *** Cursor motion *)

Inductive CursorShape := CS_NORMAL | CS_ACCEPTDROP | CS_REJECTDROP.

(** The handler calls and events of [ProcessMove] and [ProcessHover], in
    addition to those of the click routing, which [Routed] carries.
    [Sent_DragDropTest source target] is the [E_DRAGDROPTEST] event of the
    UI subsystem, [Sent_HoverBegin element] the [E_HOVERBEGIN] event of the
    element. *)
Inductive PointerEvent :=
| OnDragBegin (element : Ptr) (position screenPosition : IntVector2)
    (buttons qualifiers : Z) (cursor : option Ptr)
| OnDragMove (element : Ptr) (position screenPosition deltaPos : IntVector2)
    (buttons qualifiers : Z) (cursor : option Ptr)
| OnHover (element : Ptr) (position screenPosition : IntVector2)
    (buttons qualifiers : Z) (cursor : option Ptr)
| OnDragDropTest_called (target source : Ptr)
| Sent_DragDropTest (source target : Ptr)
| Sent_HoverBegin (element : Ptr)
| SetShape (cursor : Ptr) (shape : CursorShape)
| Routed (e : Event).

Definition PointerTrace := list PointerEvent.

(** What the handlers and subscribers of these calls do to the elements,
    under the same terms as [Handlers]. *)
Class PointerHandlers := {
  handle_pointer : PointerEvent -> Heap -> Heap;
  handle_pointer_expired :
    forall ev h p, h !! p = None -> handle_pointer ev h !! p = None
}.

(** [dragElements_] with the data of the entry that follows [before]
    replaced. *)
Definition set_entry (ui : UI) (before : list (Ptr * DragData)) (entry : Ptr * DragData)
    (after : list (Ptr * DragData)) (confirmed : Z) : UI :=
  set_drag ui (before ++ entry :: after) (dragElementsCount_ ui) confirmed
    (dragElementsConfirmed_ ui).

(** [dragData->sumPos = sumPos; dragData->dragBeginPending = pending;] *)
Definition moved (d : DragData) (sumPos' : IntVector2) (pending : bool) : DragData :=
  mkDragData (dragButtons d) (numDragButtons d) sumPos' pending (dragBeginTimer d)
    (dragBeginSumPos d).

(** [IntVector2(v.x_ / n, v.y_ / n)] in [int] arithmetic; a zero divisor
    faults. *)
Definition IntVector2_div (v : IntVector2) (n : Z) : res IntVector2 :=
  if n =? 0 then Fault else Ret (mkIntVector2 (Z.quot (ix_ v) n) (Z.quot (iy_ v) n)).

Section Motion.
Context `{PointerHandlers}.

Definition deliver_pointer (ui : UI) (ev : PointerEvent) : UI :=
  set_heap ui (handle_pointer ev (heap ui)).

Definition deliver_pointers (ui : UI) (t : PointerTrace) : UI :=
  fold_left deliver_pointer t ui.

(** [SendDragOrHoverEvent(type, dragElement, ...)] from the motion
    routing: nothing for an element that has been destroyed. *)
Definition send_drag (ui : UI) (eventType : EventType) (dragElement : Ptr)
    : UI * PointerTrace :=
  let events := map Routed (SendDragOrHoverEvent eventType (weak ui (Some dragElement))) in
  (deliver_pointers ui events, events).

(** The body of the loop of [UI::ProcessMove] for the entry of an element
    that is alive and whose buttons are held, after the positions have
    been computed: the UI, whether the drag is still pending, and the calls
    made.  [de] is the element at the head of the loop body.  After the
    drag-begin calls [dragElement] is dereferenced again without a test:
    this faults when they have destroyed it. *)
Definition move_entry (ui : UI) (dragElement : Ptr) (de : UIElement) (dragData : DragData)
    (dragBeginDistance : Z) (mouseGrabbed : bool)
    (cursorPos cursorDeltaPos sendPos : IntVector2) (buttons qualifiers : Z)
    (cursor : option Ptr) : res (UI * bool * PointerTrace) :=
  if enabled_ de && visible_ de then
    '(ui, pending, begun) ←
      (if dragBeginPending dragData && negb mouseGrabbed then
         beginSendPos ←
           IntVector2_div (dragBeginSumPos dragData) (numDragButtons dragData);
         let offset := IntVector2_sub cursorPos beginSendPos in
         if (dragBeginDistance <=? Z.abs (ix_ offset))
            || (dragBeginDistance <=? Z.abs (iy_ offset))
         then
           let began :=
             OnDragBegin dragElement (ScreenToElement de beginSendPos) beginSendPos
               buttons qualifiers cursor in
           let '(ui, events) := send_drag (deliver_pointer ui began) E_DRAGBEGIN dragElement in
           Ret (ui, false, began :: events)
         else Ret (ui, true, [])
       else Ret (ui, dragBeginPending dragData, []));
    if negb pending then
      de' ← load (heap ui) dragElement;
      let moving :=
        OnDragMove dragElement (ScreenToElement de' sendPos) sendPos cursorDeltaPos
          buttons qualifiers cursor in
      let '(ui, events) := send_drag (deliver_pointer ui moving) E_DRAGMOVE dragElement in
      Ret (ui, pending, begun ++ moving :: events)
    else Ret (ui, pending, begun)
  else
    let ended :=
      Routed (UISystem.OnDragEnd dragElement (ScreenToElement de sendPos) sendPos
                (dragButtons dragData) buttons cursor) in
    let '(ui, events) := send_drag (deliver_pointer ui ended) E_DRAGEND dragElement in
    Ret (ui, dragBeginPending dragData, ended :: events).

(** The loop of [UI::ProcessMove] over the drag registry, at the entry
    that follows [before].  [dragBeginDistance] is [dragBeginDistance_],
    [mouseGrabbed] what [Input::IsMouseGrabbed] answered. *)
Fixpoint ProcessMove_loop (ui : UI) (before remaining : list (Ptr * DragData))
    (dragBeginDistance : Z) (mouseGrabbed : bool) (cursorPos cursorDeltaPos : IntVector2)
    (buttons qualifiers : Z) (cursor : option Ptr) : res (UI * PointerTrace) :=
  match remaining with
  | [] => Ret (ui, [])
  | (dragElement, dragData) :: after =>
      match heap ui !! dragElement with
      | None =>
          ProcessMove_loop (DragElementErase ui before dragData after) before after
            dragBeginDistance mouseGrabbed cursorPos cursorDeltaPos buttons qualifiers cursor
      | Some de =>
          if Z.land (dragButtons dragData) buttons =? 0 then
            ProcessMove_loop ui (before ++ [(dragElement, dragData)]) after
              dragBeginDistance mouseGrabbed cursorPos cursorDeltaPos buttons qualifiers cursor
          else
            '(sumPos', sendPos) ←
              (if usingTouchInput_ ui then
                 let s := IntVector2_add (sumPos dragData) cursorDeltaPos in
                 sendPos ← IntVector2_div s (numDragButtons dragData);
                 Ret (s, sendPos)
               else Ret (cursorPos, cursorPos));
            '(ui, pending, trace) ←
              move_entry ui dragElement de dragData dragBeginDistance mouseGrabbed cursorPos
                cursorDeltaPos sendPos buttons qualifiers cursor;
            let confirmed :=
              if dragBeginPending dragData && negb pending
              then dragConfirmedCount_ ui + 1 else dragConfirmedCount_ ui in
            let entry := (dragElement, moved dragData sumPos' pending) in
            '(ui', rest) ←
              ProcessMove_loop (set_entry ui before entry after confirmed)
                (before ++ [entry]) after
                dragBeginDistance mouseGrabbed cursorPos cursorDeltaPos buttons qualifiers
                cursor;
            Ret (ui', trace ++ rest)
      end
  end.

(** [UI::ProcessMove] *)
Definition ProcessMove (fuel : nat) (ui : UI) (dragBeginDistance : Z) (mouseGrabbed : bool)
    (windowCursorPos cursorDeltaPos : IntVector2) (buttons qualifiers : Z)
    (cursor : option Ptr) (cursorVisible : bool) : res (UI * PointerTrace) :=
  if cursorVisible && (0 <? dragElementsCount_ ui) && negb (buttons =? 0) then
    '(_, written) ← GetElementAt fuel ui windowCursorPos true;
    let cursorPos := default IntVector2_ZERO written in
    ProcessMove_loop ui [] (dragElements_ ui) dragBeginDistance mouseGrabbed cursorPos
      cursorDeltaPos buttons qualifiers cursor
  else Ret (ui, []).

(** *** Hover *)

Section WithDropVerdicts.

(** The verdict of the target's [OnDragDropTest] handler, and the value
    the subscribers of [E_DRAGDROPTEST] leave in [P_ACCEPT]. *)
Variable OnDragDropTest : Ptr -> Ptr -> bool.
Variable DragDropTest_accept : Ptr -> Ptr -> bool.

(** [element->OnHover(...)], then the hover-begin event unless the element
    is among the hovered ones, then [hoveredElements_[element] = true]
    unless the element was destroyed on the way, in which case the caller
    returns: the last component says whether the caller goes on. *)
Definition hover (ui : UI) (hovered : gmap Ptr bool) (el : Ptr) (e : UIElement)
    (cursorPos : IntVector2) (buttons qualifiers : Z) (cursor : option Ptr)
    : UI * gmap Ptr bool * PointerTrace * bool :=
  let hovering :=
    OnHover el (ScreenToElement e cursorPos) cursorPos buttons qualifiers cursor in
  let ui := deliver_pointer ui hovering in
  if bool_decide (is_Some (hovered !! el)) then
    (ui, <[el := true]> hovered, [hovering], true)
  else
    let begin := if live (heap ui) (Some el) then [Sent_HoverBegin el] else [] in
    let ui := deliver_pointers ui begin in
    if live (heap ui) (Some el) then (ui, <[el := true]> hovered, hovering :: begin, true)
    else (ui, hovered, hovering :: begin, false).

(** The drag-and-drop test of an entry of [ProcessHover] and the cursor
    shape that shows its outcome.  The element under the cursor is
    dereferenced without a test: this faults when the hover handler has
    destroyed it. *)
Definition drop_test (ui : UI) (element : option Ptr) (dragElement : Ptr)
    (dragSource dragDropTest : bool) (cursor : option Ptr) : res (UI * PointerTrace) :=
  if dragDropTest then
    el ← deref element;
    _ ← load (heap ui) el;
    let accept := OnDragDropTest el dragElement in
    let ui := deliver_pointer ui (OnDragDropTest_called el dragElement) in
    let '(ui, accept, tested) :=
      if accept
      then (deliver_pointer ui (Sent_DragDropTest dragElement el),
            DragDropTest_accept dragElement el, [Sent_DragDropTest dragElement el])
      else (ui, false, []) in
    Ret (ui,
         OnDragDropTest_called el dragElement :: tested
         ++ match cursor with
            | Some c => [SetShape c (if accept then CS_ACCEPTDROP else CS_REJECTDROP)]
            | None => []
            end)
  else if dragSource then
    Ret (ui,
         match cursor with
         | Some c =>
             [SetShape c (if bool_decide (Some dragElement = element)
                          then CS_ACCEPTDROP else CS_REJECTDROP)]
         | None => []
         end)
  else Ret (ui, []).

(** The loop of [UI::ProcessHover] over the drag registry, at the entry
    that follows [before]; [element] is the element under the cursor.  The
    last component is false when the loop has returned from
    [ProcessHover]. *)
Fixpoint ProcessHover_loop (ui : UI) (hovered : gmap Ptr bool)
    (before remaining : list (Ptr * DragData)) (element : option Ptr)
    (cursorPos : IntVector2) (buttons qualifiers : Z) (cursor : option Ptr)
    : res (UI * gmap Ptr bool * PointerTrace * bool) :=
  match remaining with
  | [] => Ret (ui, hovered, [], true)
  | (dragElement, dragData) :: after =>
      match heap ui !! dragElement with
      | None =>
          ProcessHover_loop (DragElementErase ui before dragData after) hovered before after
            element cursorPos buttons qualifiers cursor
      | Some de =>
          let target :=
            match element with
            | Some el => match heap ui !! el with Some e => Some (el, e) | None => None end
            | None => None
            end in
          let dragSource := negb (Z.land (dragDropMode_ de) DD_SOURCE =? 0) in
          let dragTarget :=
            match target with
            | Some (_, e) => negb (Z.land (dragDropMode_ e) DD_TARGET =? 0)
            | None => false
            end in
          let dragDropTest :=
            dragSource && dragTarget && bool_decide (element <> Some dragElement) in
          let '(dragSource, dragDropTest) :=
            if dragBeginPending dragData then (false, false)
            else (dragSource, dragDropTest) in
          let '(ui, hovered, hoverTrace, goOn) :=
            match target with
            | Some (el, e) =>
                if enabled_ e && (bool_decide (dragElement = el) || dragDropTest)
                then hover ui hovered el e cursorPos buttons qualifiers cursor
                else (ui, hovered, [], true)
            | None => (ui, hovered, [], true)
            end in
          if goOn then
            '(ui, shapeTrace) ← drop_test ui element dragElement dragSource dragDropTest cursor;
            '(ui', hovered', rest, finished) ←
              ProcessHover_loop ui hovered (before ++ [(dragElement, dragData)]) after
                element cursorPos buttons qualifiers cursor;
            Ret (ui', hovered', hoverTrace ++ shapeTrace ++ rest, finished)
          else Ret (ui, hovered, hoverTrace, false)
      end
  end.

(** [UI::ProcessHover]: the UI, the hovered elements and the calls made. *)
Definition ProcessHover (fuel : nat) (ui : UI) (hovered : gmap Ptr bool)
    (windowCursorPos : IntVector2) (buttons qualifiers : Z) (cursor : option Ptr)
    : res (UI * gmap Ptr bool * PointerTrace) :=
  '(element, written) ← GetElementAt fuel ui windowCursorPos true;
  let cursorPos := default IntVector2_ZERO written in
  '(ui', hovered', trace, finished) ←
    ProcessHover_loop ui hovered [] (dragElements_ ui) element cursorPos buttons qualifiers
      cursor;
  if finished && (dragElementsCount_ ui' =? 0) then
    el ← deref element;
    e ← load (heap ui') el;
    let '(ui'', hovered'', last, _) :=
      hover ui' hovered' el e cursorPos buttons qualifiers cursor in
    Ret (ui'', hovered'', trace ++ last)
  else Ret (ui', hovered', trace).

End WithDropVerdicts.
End Motion.
End UIPointer.

(** ** Application.cpp *)

Module Application.

Definition EXIT_SUCCESS : Z := 0.
Definition EXIT_FAILURE : Z := 1.

(** [String::NPOS] is represented by [None]. *)
Fixpoint Find (c : Ascii.ascii) (s : string) (i : nat) : option nat :=
  match s with
  | EmptyString => None
  | String a rest => if Ascii.eqb a c then Some i else Find c rest (S i)
  end.

(** [String::Substring(pos)]: the characters from [pos] on, the empty
    string when [pos] is not below the length. *)
Fixpoint Substring (s : string) (pos : nat) : string :=
  match pos, s with
  | O, _ => s
  | S pos', String _ rest => Substring rest pos'
  | S _, EmptyString => EmptyString
  end.

Definition newline : string := String (Ascii.ascii_of_nat 10) EmptyString.

(** The character [']']. *)
Definition bracket : Ascii.ascii := Ascii.ascii_of_nat 93.

Definition default_error : string :=
  "Application has been terminated due to unexpected error.".

(** What [Run] and [ErrorExit] do, in order: the hooks of the application
    they call, the engine calls, and the error dialogs they show. *)
Inductive Step :=
| Called_Setup
| Called_Initialize
| Called_Start
| Called_RunFrame
| Called_Stop
| Called_Exit
| ErrorDialog (title message : string).

Section WithEngine.

(** The engine, of which Application.cpp uses [Initialize], [IsExiting],
    [RunFrame] and [Exit]; and the level [LOG_ERROR] of IO/Log.h. *)
Variable Engine : Type.
Variable LOG_ERROR : Z.

(** The members of [Application], with the type name [GetTypeName]
    returns. *)
Record App := mkApp {
  engine_ : Engine;
  exitCode_ : Z;
  startupErrors_ : string;
  GetTypeName : string
}.

(** [Engine::Initialize]: whether it succeeded, the engine afterwards, and
    the messages it logged on the way, each with its level. *)
Variable Engine_Initialize : Engine -> bool * Engine * list (Z * string).
Variable Engine_IsExiting : Engine -> bool.
Variable Engine_Exit : Engine -> Engine.

(** The virtual hooks of the application, and a frame of the engine, which
    runs the application's event handlers. *)
Variable Setup Start Stop Engine_RunFrame : App -> App.

Definition set_engine (app : App) (e : Engine) : App :=
  mkApp e (exitCode_ app) (startupErrors_ app) (GetTypeName app).
Definition set_exitCode (app : App) (code : Z) : App :=
  mkApp (engine_ app) code (startupErrors_ app) (GetTypeName app).
Definition set_startupErrors (app : App) (errors : string) : App :=
  mkApp (engine_ app) (exitCode_ app) errors (GetTypeName app).

(** [Application::ErrorExit] *)
Definition ErrorExit (app : App) (message : string) : App * list Step :=
  let app := set_exitCode (set_engine app (Engine_Exit (engine_ app))) EXIT_FAILURE in
  (app,
   [Called_Exit;
    ErrorDialog (GetTypeName app)
      (if Nat.eqb (String.length message) 0 then
         if negb (Nat.eqb (String.length (startupErrors_ app)) 0) then startupErrors_ app
         else default_error
       else message)]).

(** [Application::HandleLogMessage] for a message of level [level]. *)
Definition HandleLogMessage (app : App) (level : Z) (message : string) : App :=
  if level =? LOG_ERROR then
    let error :=
      match Find bracket message 0 with
      | Some bracketPos => Substring message (bracketPos + 2)
      | None => message
      end in
    set_startupErrors app (String.append (startupErrors_ app) (String.append error newline))
  else app.

(** The application is subscribed to the log: every message logged
    reaches [HandleLogMessage] at once. *)
Definition log_all (app : App) (messages : list (Z * string)) : App :=
  fold_left (fun a m => HandleLogMessage a m.1 m.2) messages app.

(** [while (!engine_->IsExiting()) engine_->RunFrame();] with a budget of
    [fuel] frames: the application afterwards and the frames run. *)
Fixpoint frames (fuel : nat) (app : App) : res (App * list Step) :=
  if Engine_IsExiting (engine_ app) then Ret (app, [])
  else
    match fuel with
    | O => OutOfFuel
    | S fuel' =>
        '(app', steps) ← frames fuel' (Engine_RunFrame app);
        Ret (app', Called_RunFrame :: steps)
    end.

(** [Application::Run] on a desktop platform, no allocation failing: the
    value returned, the application afterwards and the steps taken. *)
Definition Run (fuel : nat) (app : App) : res (Z * App * list Step) :=
  let app := Setup app in
  if negb (exitCode_ app =? 0) then Ret (exitCode_ app, app, [Called_Setup])
  else
    let '(ok, engine, logged) := Engine_Initialize (engine_ app) in
    let app := log_all (set_engine app engine) logged in
    if negb ok then
      let '(app, steps) := ErrorExit app EmptyString in
      Ret (exitCode_ app, app, [Called_Setup; Called_Initialize] ++ steps)
    else
      let app := Start app in
      if negb (exitCode_ app =? 0) then
        Ret (exitCode_ app, app, [Called_Setup; Called_Initialize; Called_Start])
      else
        '(app, steps) ← frames fuel app;
        let app := Stop app in
        Ret (exitCode_ app, app,
             [Called_Setup; Called_Initialize; Called_Start] ++ steps ++ [Called_Stop]).

End WithEngine.
End Application.

(** ** Specification-side definitions and sample inputs *)

Module Samples.
Import Batch.

(** A concrete [MathLib], used to run the definitions on sample inputs:
    a channel is scaled by 255, truncated and clamped to [0, 255]; the word
    is [a << 24 | b << 16 | g << 8 | r]; interpolation is
    [c * (1 - t) + rhs * t] per channel; a transform is its twelve entries;
    the length is the square root of the sum of squares. *)
Definition pack_channel (c : float) : Z :=
  Z.max 0 (Z.min 255 (ftrunc (fmul c (of_int 255)))).

Definition sample_ToUInt (c : Color) : Z :=
  Z.lor (Z.shiftl (pack_channel (a_ c)) 24)
    (Z.lor (Z.shiftl (pack_channel (b_ c)) 16)
       (Z.lor (Z.shiftl (pack_channel (g_ c)) 8) (pack_channel (r_ c)))).

Definition sample_Lerp (c rhs : Color) (t : float) : Color :=
  let invT := fsub f1 t in
  mkColor (fadd (fmul (r_ c) invT) (fmul (r_ rhs) t))
          (fadd (fmul (g_ c) invT) (fmul (g_ rhs) t))
          (fadd (fmul (b_ c) invT) (fmul (b_ rhs) t))
          (fadd (fmul (a_ c) invT) (fmul (a_ rhs) t)).

Record sample_Matrix := mkMatrix {
  m00 : float; m01 : float; m02 : float; m03 : float;
  m10 : float; m11 : float; m12 : float; m13 : float;
  m20 : float; m21 : float; m22 : float; m23 : float
}.

Definition sample_mul (m : sample_Matrix) (v : Vector3) : Vector3 :=
  let row a b c d :=
    fadd (fadd (fadd (fmul a (x_ v)) (fmul b (y_ v))) (fmul c (z_ v))) d in
  mkVector3 (row (m00 m) (m01 m) (m02 m) (m03 m))
            (row (m10 m) (m11 m) (m12 m) (m13 m))
            (row (m20 m) (m21 m) (m22 m) (m23 m)).

Definition sample_Length (v : IntVector2) : float :=
  fsqrt (of_int (ix_ v * ix_ v + iy_ v * iy_ v)).

#[global] Instance sample_math : MathLib :=
  {| Color_ToUInt := sample_ToUInt;
     Color_Lerp := sample_Lerp;
     Matrix3x4 := sample_Matrix;
     Matrix3x4_mul := sample_mul;
     IntVector2_Length := sample_Length |}.

Definition IDENTITY : sample_Matrix :=
  mkMatrix f1 f0 f0 f0  f0 f1 f0 f0  f0 f0 f1 f0.

Definition WHITE : Color := mkColor f1 f1 f1 f1.
Definition TRANSPARENT : Color := mkColor f1 f1 f1 f0.

(** An opaque white element of size 10 x 10 at the screen origin, and a
    fully transparent one; neither has a colour gradient. *)
Definition opaque_element : UIElement :=
  mkUIElement WHITE false (mkIntVector2 0 0) (mkIntVector2 10 10) (fun _ => WHITE) f1.
Definition transparent_element : UIElement :=
  mkUIElement TRANSPARENT false (mkIntVector2 0 0) (mkIntVector2 10 10)
    (fun _ => TRANSPARENT) f1.

Definition no_adjust : Vector3 := mkVector3 f0 f0 f0.
Definition full_scissor : IntRect := mkIntRect 0 0 100 100.

(** Batches built by the constructor on an empty vertex vector at address 7. *)
Definition opaque_batch : UIBatch :=
  UIBatch_new (Some opaque_element) BLEND_ALPHA full_scissor None 7%nat [].
Definition transparent_batch : UIBatch :=
  UIBatch_new (Some transparent_element) BLEND_ALPHA full_scissor None 7%nat [].

(** Two batches over the same vector, contiguous ([0,36) then [36,72)),
    equal in blend mode, scissor and texture, with different custom
    materials. *)
Definition material_a : UIBatch :=
  mkUIBatch (Some opaque_element) BLEND_ALPHA full_scissor (Some 3%nat) Vector2_ONE
    (Some 7%nat) 0 36 0xffffffff false (Some 11%nat).
Definition material_b : UIBatch :=
  mkUIBatch (Some opaque_element) BLEND_ALPHA full_scissor (Some 3%nat) Vector2_ONE
    (Some 7%nat) 36 72 0xffffffff false (Some 12%nat).
(** A third contiguous batch ([72,108)) and one with another blend mode. *)
Definition material_c : UIBatch :=
  mkUIBatch (Some opaque_element) BLEND_ALPHA full_scissor (Some 3%nat) Vector2_ONE
    (Some 7%nat) 72 108 0xffffffff false (Some 11%nat).
Definition additive_c : UIBatch :=
  mkUIBatch (Some opaque_element) BLEND_ADD full_scissor (Some 3%nat) Vector2_ONE
    (Some 7%nat) 72 108 0xffffffff false (Some 11%nat).

End Samples.

Module BatchSpec.
Import Batch.

(** Mergeability as the specification words it: blend mode, scissor,
    texture, custom material and vertex-buffer identity equal, and the
    candidate starting where the receiver ends. *)
Definition spec_mergeable (self batch : UIBatch) : Prop :=
  blendMode_ batch = blendMode_ self
  /\ scissor_ batch = scissor_ self
  /\ texture_ batch = texture_ self
  /\ customMaterial_ batch = customMaterial_ self
  /\ vertexData_ batch = vertexData_ self
  /\ vertexStart_ batch = vertexEnd_ self.

(** Mergeability as [Merge] tests it. *)
Definition mergeable (self batch : UIBatch) : Prop :=
  blendMode_ batch = blendMode_ self
  /\ scissor_ batch = scissor_ self
  /\ texture_ batch = texture_ self
  /\ vertexData_ batch = vertexData_ self
  /\ vertexStart_ batch = vertexEnd_ self.

(** A chain of candidates, each mergeable into the one before it. *)
Fixpoint contiguous (prev : UIBatch) (cs : list UIBatch) : Prop :=
  match cs with
  | [] => True
  | c :: cs' =>
      blendMode_ c = blendMode_ prev /\ scissor_ c = scissor_ prev
      /\ texture_ c = texture_ prev /\ vertexData_ c = vertexData_ prev
      /\ vertexStart_ c = vertexEnd_ prev /\ contiguous c cs'
  end.

Definition nonempty_range (b : UIBatch) : Prop := vertexEnd_ b <> vertexStart_ b.

(** [AddOrMerge] applied to the candidates in order. *)
Definition AddOrMerge_all (cs : list UIBatch) (batches : list UIBatch) : list UIBatch :=
  fold_left (fun l c => AddOrMerge c l) cs batches.

(** The batch fails the visibility test of the rectangle [AddQuad]s: no
    gradient, and a colour whose alpha byte is zero. *)
Definition invisible (b : UIBatch) : Prop :=
  useGradient_ b = false /\ alpha_is_zero (color_ b) = true.

(** The number of cells a call has appended to the vertex vector, when it
    has returned. *)
Definition appended (before : BatchState) (r : res BatchState) : option Z :=
  match r with
  | Ret st' => Some (Size st'.2 - Size before.2)
  | _ => None
  end.

(** What every step of the tiling loops preserves: the element behind the
    batch and the two fields the visibility test reads. *)
Definition same_kind (st st' : BatchState) : Prop :=
  element_ st'.1 = element_ st.1 /\ color_ st'.1 = color_ st.1
  /\ useGradient_ st'.1 = useGradient_ st.1.

(** [ceil (a / b)] for positive [b]. *)
Definition ceil_div (a b : Z) : Z := (a + b - 1) / b.

(** [n] consecutive integers from [s]. *)
Fixpoint Zseq (s : Z) (n : nat) : list Z :=
  match n with
  | O => []
  | S n' => s :: Zseq (s + 1) n'
  end.

(** The tiling the specification describes: [ceil (W / tw)] columns and
    [ceil (H / th)] rows, row-major from the origin, every tile of size
    [(tw, th)] except that the last column and the last row take what
    remains.  A tile is [(x, y, width, height)]. *)
Definition tile_grid (x y W H tw th : Z) : list (Z * Z * Z * Z) :=
  let cols := ceil_div W tw in
  let rows := ceil_div H th in
  flat_map
    (fun j =>
       map (fun i =>
              (x + i * tw, y + j * th,
               if i <? cols - 1 then tw else W - i * tw,
               if j <? rows - 1 then th else H - j * th))
           (Zseq 0 (Z.to_nat cols)))
    (Zseq 0 (Z.to_nat rows)).

Section WithMath.
Context `{MathLib}.
Variable posAdjust : Vector3.

(** One sub-quad as the tiled [AddQuad] emits it: the tile's own size is
    also its texture-region size. *)
Definition AddQuad_tile (texOffsetX texOffsetY : Z) (st : BatchState)
    (t : Z * Z * Z * Z) : res BatchState :=
  let '(tx, ty, w, h) := t in
  AddQuad posAdjust st (of_int tx) (of_int ty) (of_int w) (of_int h)
    texOffsetX texOffsetY w h.

(** The sub-quads of a list of tiles, in order. *)
Fixpoint AddQuad_tiles (texOffsetX texOffsetY : Z) (st : BatchState)
    (ts : list (Z * Z * Z * Z)) : res BatchState :=
  match ts with
  | [] => Ret st
  | t :: ts' =>
      st' ← AddQuad_tile texOffsetX texOffsetY st t;
      AddQuad_tiles texOffsetX texOffsetY st' ts'
  end.

(** The visibility test of the tiled [AddQuad]. *)
Definition element_visible (e : UIElement) : Prop :=
  HasColorGradient e = true
  \/ Z.land (Color_ToUInt (GetDerivedColor e)) 0xff000000 <> 0.

(** The visibility test of the plain [AddQuad]. *)
Definition batch_visible (b : UIBatch) : Prop :=
  useGradient_ b = true \/ alpha_is_zero (color_ b) = false.

End WithMath.
End BatchSpec.

Module UISpec.
Import UISystem.

(** [p] lies in the subtree below [root]. *)
Inductive descendant (h : Heap) (root : Ptr) : Ptr -> Prop :=
| descendant_child (e : UIElement) (p : Ptr) :
    h !! root = Some e -> In p (children_ e) -> descendant h root p
| descendant_step (q : Ptr) (e : UIElement) (p : Ptr) :
    descendant h root q -> h !! q = Some e -> In p (children_ e) -> descendant h root p.

(** The hit test below [cur] either leaves the running result alone or
    replaces it by an element of the subtree of [cur]. *)
Definition hit_below (h : Heap) (cur : Ptr) (before after : option Ptr) : Prop :=
  after = before \/ exists x, after = Some x /\ descendant h cur x.

(** The keys of the drag registry. *)
Definition tracked (ui : UI) : list Ptr := map fst (dragElements_ ui).

(** The drag callbacks an element can receive: a begin, end or cancel
    handler call or event. *)
Definition is_drag_callback_on (p : Ptr) (ev : Event) : bool :=
  match ev with
  | OnDragEnd el _ _ _ _ _ => bool_decide (el = p)
  | OnDragCancel el _ _ _ _ _ => bool_decide (el = p)
  | Sent (Some el) E_DRAGBEGIN _ => bool_decide (el = p)
  | Sent (Some el) E_DRAGEND _ => bool_decide (el = p)
  | Sent (Some el) E_DRAGCANCEL _ => bool_decide (el = p)
  | _ => false
  end.

(** The drag-end callback on an element. *)
Definition is_drag_end_on (p : Ptr) (ev : Event) : bool :=
  match ev with
  | OnDragEnd el _ _ _ _ _ => bool_decide (el = p)
  | _ => false
  end.

(** The double-click handler call on an element, and the double-click
    event of the UI subsystem. *)
Definition is_double_click_on (p : Ptr) (ev : Event) : bool :=
  match ev with
  | OnDoubleClick el _ _ _ _ _ _ => bool_decide (el = p)
  | _ => false
  end.

Definition is_double_click_event (ev : Event) : bool :=
  match ev with
  | Sent None E_UIMOUSEDOUBLECLICK _ => true
  | _ => false
  end.

Section WithMath.
Context `{MathLib}.



End WithMath.

End UISpec.

Module UISamples.
Import UISystem Samples.

Definition inside_rect (r : IntRect) (p : IntVector2) : bool :=
  (left_ r <=? ix_ p) && (ix_ p <? right_ r) && (top_ r <=? iy_ p) && (iy_ p <? bottom_ r).

(** An enabled, visible, free-layout element occupying [rect] on screen. *)
Definition element_at (type : string) (parent : option Ptr) (children : list Ptr)
    (rect : IntRect) : UIElement :=
  mkUIElement type parent children ∅ true true 0 LM_FREE 0 0
    (mkIntVector2 (left_ rect) (top_ rect))
    (mkIntVector2 (right_ rect - left_ rect) (bottom_ rect - top_ rect))
    (mkIntVector2 (left_ rect) (top_ rect))
    FM_FOCUSABLE 0
    (inside_rect rect) (inside_rect rect)
    (fun p => IntVector2_sub p (mkIntVector2 (left_ rect) (top_ rect)))
    (inside_rect rect) (fun _ => false).

Definition screen : IntRect := mkIntRect 0 0 200 200.

(** Root 1 with a button 3 filling the screen and a window 5; modal root 2
    with a window 4 in the top-left 10 x 10 pixels. *)
Definition modal_heap : Heap :=
  <[1%nat := element_at "UIElement" None [3%nat; 5%nat] screen]>
  (<[2%nat := element_at "UIElement" None [4%nat] screen]>
  (<[3%nat := element_at "Button" (Some 1%nat) [] screen]>
  (<[4%nat := element_at "Window" (Some 2%nat) [] (mkIntRect 0 0 10 10)]>
  (<[5%nat := element_at "Window" (Some 1%nat) [] (mkIntRect 100 0 150 50)]> ∅)))).

(** The same elements with nothing under the modal root. *)
Definition plain_heap : Heap :=
  <[1%nat := element_at "UIElement" None [3%nat; 5%nat] screen]>
  (<[2%nat := element_at "UIElement" None [] screen]>
  (<[3%nat := element_at "Button" (Some 1%nat) [] screen]>
  (<[5%nat := element_at "Window" (Some 1%nat) [] (mkIntRect 100 0 150 50)]> ∅))).

Definition half_second : float := fdiv f1 (of_int 2).
Definition far_away : float := of_int 100000000.

Definition modal_ui : UI :=
  mkUI modal_heap 1%nat 2%nat None None [] [] 0 0 [] None IntVector2_ZERO 0
    half_second far_away 0 0 0 false.

(** No modal element, and a drag on the button 3 in the registry. *)
Definition with_drag (d : DragData) : UI :=
  mkUI plain_heap 1%nat 2%nat None None [] [(3%nat, d)] 1
    (if dragBeginPending d then 0 else 1) [] None IntVector2_ZERO 0
    half_second far_away 0 0 0 false.

Definition origin : IntVector2 := mkIntVector2 0 0.
Definition centre : IntVector2 := mkIntVector2 150 150.

(** A confirmed drag held by the left and right buttons (1 and 4), and a
    pending drag held by the left button. *)
Definition two_button_drag : DragData := mkDragData 5 2 centre false 0 centre.
Definition pending_drag : DragData := mkDragData 1 1 centre true 0 centre.

(** The button 3 was clicked with the left button at [centre] at tick 1000. *)
Definition after_click : UI :=
  mkUI plain_heap 1%nat 2%nat None (Some 3%nat) [] [] 0 0 [] (Some 3%nat) centre 1000
    half_second far_away 1 1 0 false.

End UISamples.

(** ** The router and its handlers: what the properties speak of *)

Module RouterSpec.
Import UISystem.

(** The layout of [e] cannot make the hit test divide by zero. *)
Definition layout_ok (e : UIElement) : bool :=
  negb ((0 <? layoutElementMaxSize_ e)
        && (layoutElementMaxSize_ e + layoutSpacing_ e =? 0)).

(** The elements below [p] are alive, none has a layout that divides by
    zero, and they are at most [n] levels deep. *)
Fixpoint subtree_ok (n : nat) (h : Heap) (p : Ptr) : bool :=
  match h !! p with
  | None => false
  | Some e =>
      layout_ok e
      && match n with
         | O => bool_decide (children_ e = [])
         | S n' => forallb (subtree_ok n' h) (children_ e)
         end
  end.

(** The hit test has fuel for the trees it may search: those of the root,
    of the modal root and of the render-to-texture roots that are alive. *)
Definition hit_ready (fuel : nat) (ui : UI) : bool :=
  match fuel with
  | O => false
  | S n =>
      subtree_ok n (heap ui) (rootElement_ ui)
      && subtree_ok n (heap ui) (rootModalElement_ ui)
      && forallb (fun r => match heap ui !! r with
                           | Some _ => subtree_ok n (heap ui) r
                           | None => true
                           end) (renderToTexture_ ui)
  end.

(** The element [x] and its ancestors are alive, and they are at most [n]. *)
Fixpoint chain_ok (n : nat) (h : Heap) (x : option Ptr) : bool :=
  match x with
  | None => true
  | Some p =>
      match h !! p, n with
      | Some e, S n' => chain_ok n' h (parent_ e)
      | _, _ => false
      end
  end.

(** [ui'] is [ui] but for the elements: what a handler call leaves of the
    router. *)
Definition same_router (ui ui' : UI) : Prop := ui' = set_heap ui (heap ui').

(** [ui'] is [ui] but for the elements and the focus element. *)
Definition focus_moved (ui ui' : UI) : Prop :=
  ui' = set_heap (set_focusElement_ ui (focusElement_ ui')) (heap ui').

(** [ui'] is [ui] after calls of handlers of any kind: the router is the
    same, and an element that was gone is still gone. *)
Definition after_handlers (ui ui' : UI) : Prop :=
  same_router ui ui' /\ forall p, heap ui !! p = None -> heap ui' !! p = None.

(** [p] is alive, enabled and visible. *)
Definition shown (h : Heap) (p : Ptr) : Prop :=
  exists e, h !! p = Some e /\ enabled_ e = true /\ visible_ e = true.

Section WithHandlers.
Context `{Handlers}.

(** No handler destroys [p]. *)
Definition kept (p : Ptr) : Prop :=
  forall ev h, is_Some (h !! p) -> is_Some (handle ev h !! p).

(** [ui'] has the elements of [ui] after some handler calls. *)
Definition handled (ui ui' : UI) : Prop := exists t, heap ui' = heap (deliver_all ui t).


(** The elements once the element that has the focus, if it is alive, has
    been told that it loses it. *)
Definition defocused (ui : UI) : Heap :=
  if live (heap ui) (focusElement_ ui)
  then handle (Sent (focusElement_ ui) E_DEFOCUSED (focusElement_ ui)) (heap ui)
  else heap ui.

(** The element that a click on [el] gives the focus to, if there is one,
    is alive when the old focus element has been told. *)
Definition focus_target_kept (fuel : nat) (ui : UI) (el : Ptr) : Prop :=
  forall f, GetFocusableElement fuel (heap ui) (Some el) = Ret (Some f) ->
            is_Some (defocused ui !! f).

End WithHandlers.

End RouterSpec.

Module HandlerSamples.
Import UISystem.

(** Handlers that leave the elements alone. *)
Definition quiet : Handlers :=
  {| handle := fun _ h => h; handle_expired := fun _ _ _ E => E |}.

(** Handlers of which the one of the focused event destroys the element
    3; the others do nothing. *)
Definition vanish (ev : Event) (h : Heap) : Heap :=
  match ev with
  | Sent _ E_FOCUSED _ => delete 3%nat h
  | _ => h
  end.

Definition vanish_on_focus : Handlers :=
  {| handle := vanish;
     handle_expired :=
       ltac:(intros ev h p E; unfold vanish;
             repeat match goal with
                    | |- context [match ?x with _ => _ end] => destruct x
                    end;
             try exact E; apply lookup_delete_None; right; exact E) |}.

(** Handlers of which the one of the defocused event destroys the element
    5; the others do nothing. *)
Definition spite (ev : Event) (h : Heap) : Heap :=
  match ev with
  | Sent _ E_DEFOCUSED _ => delete 5%nat h
  | _ => h
  end.

Definition destroy_on_defocus : Handlers :=
  {| handle := spite;
     handle_expired :=
       ltac:(intros ev h p E; unfold spite;
             repeat match goal with
                    | |- context [match ?x with _ => _ end] => destruct x
                    end;
             try exact E; apply lookup_delete_None; right; exact E) |}.

(** Handlers of which the click-end handler of an element disables the
    element 3; the others do nothing. *)
Definition disable (e : UIElement) : UIElement :=
  mkUIElement (type_ e) (parent_ e) (children_ e) (vars_ e) false (visible_ e) (priority_ e)
    (layoutMode_ e) (layoutElementMaxSize_ e) (layoutSpacing_ e) (position_ e) (size_ e)
    (screenPosition_ e) (focusMode_ e) (dragDropMode_ e) (IsInside e) (IsInsideCombined e)
    (ScreenToElement e) (CombinedScreenRect_IsInside e) (OnDragDropFinish e).

Definition disabling (ev : Event) (h : Heap) : Heap :=
  match ev with
  | OnClickEnd _ _ _ _ _ _ _ _ => alter disable 3%nat h
  | _ => h
  end.

Definition disable_on_click_end : Handlers :=
  {| handle := disabling;
     handle_expired :=
       ltac:(intros ev h p E; unfold disabling; destruct ev; try exact E;
             destruct (decide (p = 3%nat)) as [-> |];
             [rewrite lookup_alter_eq, E; reflexivity
             | rewrite lookup_alter_ne by congruence; exact E]) |}.

(** Handlers of the motion routing that leave the elements alone, and
    handlers of which the hover handler destroys the element 3. *)
Definition still : UIPointer.PointerHandlers :=
  {| UIPointer.handle_pointer := fun _ h => h;
     UIPointer.handle_pointer_expired := fun _ _ _ E => E |}.

Definition fleeing (ev : UIPointer.PointerEvent) (h : Heap) : Heap :=
  match ev with
  | UIPointer.OnHover _ _ _ _ _ _ => delete 3%nat h
  | _ => h
  end.

Definition flee_on_hover : UIPointer.PointerHandlers :=
  {| UIPointer.handle_pointer := fleeing;
     UIPointer.handle_pointer_expired :=
       ltac:(intros ev h p E; unfold fleeing; destruct ev; try exact E;
             apply lookup_delete_None; right; exact E) |}.

End HandlerSamples.

Module RouterSamples.
Import UISystem Samples UISamples HandlerSamples.
#[local] Existing Instance quiet.

(** No modal element, nothing dragged, nothing clicked yet. *)
Definition plain_ui : UI :=
  mkUI plain_heap 1%nat 2%nat None None [] [] 0 0 [] None IntVector2_ZERO 0
    half_second far_away 0 0 0 false.

(** What a routing call returned, or [fallback] when it did not return. *)
Definition returned (fallback : UI) (r : res (UI * Trace)) : UI * Trace :=
  match r with
  | Ret x => x
  | _ => (fallback, [])
  end.


(** The left button is pressed on the button 3 at tick 1000, and a drag
    cancel is processed right after. *)
Definition clicked : UI * Trace :=
  returned plain_ui (ProcessClickBegin 3 1000 plain_ui centre 1 1 0 None true).
Definition cancelled : UI * Trace := ProcessDragCancel clicked.1 centre.

(** A second press of the left button on the button 3, at tick [now], after
    the click at tick 1000. *)
Definition second_click (now : Z) : UI * Trace :=
  returned after_click (ProcessClickBegin 3 now after_click centre 1 1 0 None true).

(** A border image of size 10 x 10, tiled, with an image rectangle of
    width 4 between two side borders of width 3. *)
Definition narrow_image : BorderImage.BorderImage :=
  BorderImage.mkBorderImage opaque_element true false false false 0 None
    (mkIntRect 0 0 4 4) (mkIntRect 3 2 3 2) IntRect_ZERO IntVector2_ZERO IntVector2_ZERO
    Batch.BLEND_REPLACE true None.

End RouterSamples.

(** ** Sequences of quads, and sample images and buttons *)

Module BatchCalls.
Import Batch BatchSpec.

Section WithMath.
Context `{MathLib}.
Variable posAdjust : Vector3.

(** One call of an [AddQuad] overload, with its arguments. *)
Inductive QuadCall :=
| Rect (x y width height : float) (texOffsetX texOffsetY texWidth texHeight : Z)
| Transformed (transform : Matrix3x4)
    (x y width height texOffsetX texOffsetY texWidth texHeight : Z)
| Tiled (fuel : nat) (x y width height texOffsetX texOffsetY texWidth texHeight : Z)
    (tiled : bool)
| Points (transform : Matrix3x4) (a b c d texA texB texC texD : IntVector2)
| PointsColors (transform : Matrix3x4) (a b c d texA texB texC texD : IntVector2)
    (colA colB colC colD : Color).

Definition call (st : BatchState) (q : QuadCall) : res BatchState :=
  match q with
  | Rect x y w h ox oy tw th => AddQuad posAdjust st x y w h ox oy tw th
  | Transformed T x y w h ox oy tw th => AddQuad_transform posAdjust st T x y w h ox oy tw th
  | Tiled fuel x y w h ox oy tw th tiled =>
      AddQuad_tiled posAdjust fuel st x y w h ox oy tw th tiled
  | Points T a b c d ta tb tc td => AddQuad_points posAdjust st T a b c d ta tb tc td
  | PointsColors T a b c d ta tb tc td ca cb cc cd =>
      AddQuad_points_colors posAdjust st T a b c d ta tb tc td ca cb cc cd
  end.

(** The calls of a list, one after the other on the same batch. *)
Fixpoint calls (st : BatchState) (qs : list QuadCall) : res BatchState :=
  match qs with
  | [] => Ret st
  | q :: qs' => st' ← call st q; calls st' qs'
  end.

End WithMath.

(** [st'] is [st] after [k] more quads: the vertex vector has grown by
    [36 * k] cells at its end, the batch ends where the vector ends, and no
    other member of the batch has changed. *)
Definition extended_by (k : Z) (st st' : BatchState) : Prop :=
  0 <= k
  /\ (exists cells, st'.2 = st.2 ++ cells /\ Size cells = 36 * k)
  /\ st'.1 = set_vertexEnd_ st.1 (Size st.2 + 36 * k).

(** A step of [BorderImage::GetBatches]: on a batch that has its element
    [e] and ends where the vector ends, it returns, having drawn no quad or
    one. *)
Definition quad_step (e : UIElement) (f : BatchState -> res BatchState) : Prop :=
  forall st, element_ st.1 = Some e -> vertexEnd_ st.1 = Size st.2 ->
             exists st', f st = Ret st' /\ (extended_by 0 st st' \/ extended_by 1 st st').

End BatchCalls.

Module ButtonSpec.
Import Button.

(** The child offset is the pressed child offset while the button is
    pressed, and zero otherwise. *)
Definition child_offset_follows (b : Button) : Prop :=
  childOffset_ b = if pressed_ b then pressedChildOffset_ b else IntVector2_ZERO.

(** The keys that [OnKey] takes for a click. *)
Definition activates (key : Key) : Prop :=
  key = KEY_RETURN \/ key = KEY_RETURN2 \/ key = KEY_KP_ENTER \/ key = KEY_SPACE.

End ButtonSpec.

Module ImageSamples.
Import Batch Samples BatchCalls.

(** Two quads on the opaque sample batch: a unit rectangle and a
    free-point quad. *)
Definition two_calls : list QuadCall :=
  [Rect f0 f0 f1 f1 0 0 0 0;
   Points IDENTITY (mkIntVector2 0 0) (mkIntVector2 1 0) (mkIntVector2 1 1)
     (mkIntVector2 0 1) (mkIntVector2 0 0) (mkIntVector2 1 0) (mkIntVector2 1 1)
     (mkIntVector2 0 1)].

(** What a sequence of calls returned, or the state it started from. *)
Definition ran (st : BatchState) (qs : list QuadCall) : BatchState :=
  match calls no_adjust st qs with
  | Ret st' => st'
  | _ => st
  end.

Definition first_run : BatchState := ran (opaque_batch, []) two_calls.
Definition second_run : BatchState :=
  ran (UIBatch_new (Some opaque_element) BLEND_ALPHA full_scissor None 7%nat first_run.2,
       first_run.2)
      [Rect f0 f0 f1 f1 0 0 0 0].

(** A gradient element, fully opaque. *)
Definition gradient_element : UIElement :=
  mkUIElement WHITE true (mkIntVector2 0 0) (mkIntVector2 10 10) (fun _ => WHITE) f1.

(** A 10 x 10 border image with a border of 2 on every side, not tiled,
    over an opaque element, and the same over a transparent one. *)
Definition framed_image : BorderImage.BorderImage :=
  BorderImage.mkBorderImage opaque_element true true false false 0 None
    (mkIntRect 0 0 8 8) (mkIntRect 2 2 2 2) IntRect_ZERO (mkIntVector2 8 0)
    (mkIntVector2 16 0) BLEND_ALPHA false None.
Definition ghost_image : BorderImage.BorderImage :=
  BorderImage.mkBorderImage transparent_element true true false false 0 None
    (mkIntRect 0 0 8 8) (mkIntRect 2 2 2 2) IntRect_ZERO (mkIntVector2 8 0)
    (mkIntVector2 16 0) BLEND_ALPHA true None.

(** An image with no texture and no image rectangle yet, and a 64 x 32
    texture at address 9. *)
Definition blank_image : BorderImage.BorderImage :=
  BorderImage.mkBorderImage opaque_element true false false false 0 None
    IntRect_ZERO IntRect_ZERO IntRect_ZERO IntVector2_ZERO IntVector2_ZERO
    BLEND_REPLACE false None.
Definition wide_texture : Texture := mkTexture 9%nat 64 32.

(** A focused button over [framed_image], at rest, with a repeat rate of
    two per second; and the same button held down. *)
Definition f2 : float := of_int 2.
Definition resting_button : Button.Button :=
  Button.mkButton
    (BorderImage.mkBorderImage opaque_element true true false true 0 None
       (mkIntRect 0 0 8 8) (mkIntRect 2 2 2 2) IntRect_ZERO (mkIntVector2 8 0)
       (mkIntVector2 16 0) BLEND_ALPHA false None)
    (fun p => (0 <=? ix_ p) && (ix_ p <? 10) && (0 <=? iy_ p) && (iy_ p <? 10))
    IntVector2_ZERO (mkIntVector2 0 8) (mkIntVector2 1 1) f1 f2 f0 false.
Definition held_button : Button.Button := Button.SetPressed resting_button true.

End ImageSamples.

(** ** Hit test, focus and drag registry: what the properties speak of *)

Module PointerSpec.
Import UISystem UIPointer.

(** A result of the hit test at [position]: nothing, or a live, visible
    element other than the cursor that contains the position, and that is
    enabled when only enabled elements were asked for. *)
Definition hit_ok (ui : UI) (position : IntVector2) (enabledOnly : bool)
    (r : option Ptr) : Prop :=
  match r with
  | None => True
  | Some x =>
      exists e, heap ui !! x = Some e /\ visible_ e = true
                /\ IsInside e position = true /\ Some x <> cursor_ ui
                /\ (enabledOnly = true -> enabled_ e = true)
  end.

(** [climbs h n x r]: from [x], [n] steps up the parent chain through
    elements that are not focusable lead to [r]; [r] is null when the chain
    has ended. *)
Inductive climbs (h : Heap) : nat -> option Ptr -> option Ptr -> Prop :=
| climbs_stop (x : option Ptr) : climbs h 0 x x
| climbs_step (n : nat) (el : Ptr) (e : UIElement) (r : option Ptr) :
    h !! el = Some e -> focusMode_ e = FM_NOTFOCUSABLE ->
    climbs h n (parent_ e) r -> climbs h (S n) (Some el) r.

(** Where the climb may end: at an element whose focus mode is not
    [FM_NOTFOCUSABLE], or at null. *)
Definition can_alter_focus (h : Heap) (r : option Ptr) : Prop :=
  match r with
  | Some f => exists e, h !! f = Some e /\ focusMode_ e <> FM_NOTFOCUSABLE
  | None => True
  end.

(** [nested_under h root x n]: [x], or its ancestor [n] levels up, is a
    child of [root], and nothing in between is. *)
Inductive nested_under (h : Heap) (root : Ptr) : option Ptr -> nat -> Prop :=
| nested_here (t : Ptr) (e : UIElement) :
    h !! t = Some e -> parent_ e = Some root -> nested_under h root (Some t) 0
| nested_up (t : Ptr) (e : UIElement) (n : nat) :
    h !! t = Some e -> parent_ e <> Some root ->
    nested_under h root (parent_ e) n -> nested_under h root (Some t) (S n).

(** The number of entries whose drag has begun. *)
Definition confirmed_count (entries : list (Ptr * DragData)) : Z :=
  Z.of_nat (length (List.filter (fun kv => negb (dragBeginPending kv.2)) entries)).

(** The two counters of the drag registry say what the registry holds. *)
Definition counts_ok (ui : UI) : Prop :=
  dragElementsCount_ ui = Z.of_nat (length (dragElements_ ui))
  /\ dragConfirmedCount_ ui = confirmed_count (dragElements_ ui).

(** The elements of the registry that are alive and whose drag has begun. *)
Definition confirmed_elements (h : Heap) (entries : list (Ptr * DragData)) : list Ptr :=
  map fst
    (List.filter (fun kv => bool_decide (is_Some (h !! kv.1)) && negb (dragBeginPending kv.2))
       entries).

(** The entries of live elements. *)
Definition live_entries (h : Heap) (entries : list (Ptr * DragData))
    : list (Ptr * DragData) :=
  List.filter (fun kv => bool_decide (is_Some (h !! kv.1))) entries.

(** The focus events: defocused, focused, focus changed. *)
Definition is_focus_event (ev : Event) : bool :=
  match ev with
  | Sent _ E_FOCUSED _ | Sent _ E_DEFOCUSED _ | Sent_FocusChanged _ _ => true
  | _ => false
  end.

(** The registry that "Handle start of drag" leaves. *)
Definition registry_after_click (entries : list (Ptr * DragData)) (el : Ptr)
    (newButton : bool) (button : Z) (cursorPos : IntVector2) (now : Z)
    : list (Ptr * DragData) :=
  if negb (drag_contains entries el) then
    entries ++ [(el, mkDragData button (CountSetBits button) cursorPos true now cursorPos)]
  else if newButton then
    drag_update entries el
      (fun d =>
         mkDragData (Z.lor (dragButtons d) button)
           (CountSetBits (Z.lor (dragButtons d) button))
           (IntVector2_add (sumPos d) cursorPos) (dragBeginPending d)
           (dragBeginTimer d) (IntVector2_add (dragBeginSumPos d) cursorPos))
  else entries.

(** What a cursor move may do to the data of a drag: the position sum
    changes, and a pending drag may begin; a drag that has begun stays
    begun, and buttons, timer and begin position stay. *)
Definition advanced (d d' : DragData) : Prop :=
  dragButtons d' = dragButtons d /\ numDragButtons d' = numDragButtons d
  /\ dragBeginTimer d' = dragBeginTimer d /\ dragBeginSumPos d' = dragBeginSumPos d
  /\ (dragBeginPending d' = true -> dragBeginPending d = true).

(** What a pass over the drag registry leaves of it: the entry of an
    element is erased only if that element is gone by the end ([h'] has
    the elements at the end); an entry that is kept is of an element that
    satisfies [was], and its data are related by [step]. *)
Inductive swept (was : Ptr -> Prop) (step : DragData -> DragData -> Prop) (h' : Heap)
    : list (Ptr * DragData) -> list (Ptr * DragData) -> Prop :=
| swept_nil : swept was step h' [] []
| swept_erase (k : Ptr) (d : DragData) (l l' : list (Ptr * DragData)) :
    h' !! k = None -> swept was step h' l l' -> swept was step h' ((k, d) :: l) l'
| swept_keep (k : Ptr) (d d' : DragData) (l l' : list (Ptr * DragData)) :
    was k -> step d d' -> swept was step h' l l' ->
    swept was step h' ((k, d) :: l) ((k, d') :: l').

(** A child of the root that [GetFrontElement] may return: alive, enabled,
    visible, not kept in front, with a priority above the least [int]. *)
Definition frontable (GetBringToBack : Ptr -> bool) (h : Heap) (p : Ptr) : Prop :=
  exists c, h !! p = Some c /\ enabled_ c = true /\ visible_ c = true
            /\ GetBringToBack p = true /\ M_MIN_INT < priority_ c.

Definition priority_of (h : Heap) (p : Ptr) : Z :=
  match h !! p with Some c => priority_ c | None => 0 end.

(** The drag callbacks of [ProcessMove] on an element. *)
Definition is_drag_begin_on (p : Ptr) (ev : PointerEvent) : bool :=
  match ev with
  | OnDragBegin el _ _ _ _ _ => bool_decide (el = p)
  | _ => false
  end.
Definition is_drag_move_on (p : Ptr) (ev : PointerEvent) : bool :=
  match ev with
  | OnDragMove el _ _ _ _ _ _ => bool_decide (el = p)
  | _ => false
  end.

Section WithPointerHandlers.
Context `{PointerHandlers}.

(** No handler of the motion routing destroys [p]. *)
Definition pointer_kept (p : Ptr) : Prop :=
  forall ev h, is_Some (h !! p) -> is_Some (handle_pointer ev h !! p).

End WithPointerHandlers.

End PointerSpec.

Module PointerSamples.
Import UISystem UIPointer Samples UISamples RouterSamples.

(** [modal_heap] with a button 6 inside the window 5. *)
Definition deep_heap : Heap :=
  <[5%nat := element_at "Window" (Some 1%nat) [6%nat] (mkIntRect 100 0 150 50)]>
  (<[6%nat := element_at "Button" (Some 5%nat) [] (mkIntRect 110 10 120 20)]> modal_heap).

Definition deep_ui : UI :=
  mkUI deep_heap 1%nat 2%nat None None [] [] 0 0 [] None IntVector2_ZERO 0
    half_second far_away 0 0 0 false.

End PointerSamples.

Module ElementSamples.
Import UISystem UIPointer Samples UISamples RouterSamples PointerSamples.

(** The elements of [deep_heap] as they are stored. *)
Definition root_1 : UIElement := element_at "UIElement" None [3%nat; 5%nat] screen.
Definition modal_root_2 : UIElement := element_at "UIElement" None [4%nat] screen.
Definition button_3 : UIElement := element_at "Button" (Some 1%nat) [] screen.
Definition window_5 : UIElement :=
  element_at "Window" (Some 1%nat) [] (mkIntRect 100 0 150 50).
Definition button_6 : UIElement :=
  element_at "Button" (Some 5%nat) [] (mkIntRect 110 10 120 20).

(** [GetBringToBack] is set on every element; no element accepts a drop. *)
Definition bring_to_back_all (_ : Ptr) : bool := true.
Definition no_drop (_ _ : Ptr) : bool := false.

(** A position outside the screen. *)
Definition outside : IntVector2 := mkIntVector2 500 500.

(** One render-to-texture root, the element 7 with texture 20. *)
Definition one_rtt_root : list (Ptr * RenderToTextureData) :=
  [(7%nat, mkRenderToTextureData 7%nat 20%nat 30%nat 31%nat)].

End ElementSamples.

Module ApplicationSamples.
Import Application.

(** An engine that counts the frames left until it exits; initialising it
    succeeds, and [Exit] leaves no frame. *)
Definition CountdownEngine : Type := nat.
Definition countdown_Initialize (e : CountdownEngine)
    : bool * CountdownEngine * list (Z * string) := (true, e, []).
Definition countdown_IsExiting (e : CountdownEngine) : bool := Nat.eqb e 0.
Definition countdown_Exit (_ : CountdownEngine) : CountdownEngine := O.
Definition countdown_RunFrame (app : App CountdownEngine) : App CountdownEngine :=
  set_engine CountdownEngine app (Nat.pred (engine_ CountdownEngine app)).
Definition no_hook (app : App CountdownEngine) : App CountdownEngine := app.

(** The level of an error message, and an application with two frames to
    run and no startup error. *)
Definition sample_LOG_ERROR : Z := 4.
Definition two_frame_app : App CountdownEngine :=
  mkApp CountdownEngine 2%nat 0 EmptyString "Sample".

Definition stamp : string := "[Mon Jan  1 12:00:00 2024".
Definition space : Ascii.ascii := Ascii.ascii_of_nat 32.
Definition failure_text : string := "ERROR: Could not open window".

(** An engine whose initialisation fails after logging an error and a
    message of another level. *)
Definition failing_Initialize (e : CountdownEngine)
    : bool * CountdownEngine * list (Z * string) :=
  (false, e,
   [(sample_LOG_ERROR,
     String.append stamp (String bracket (String space failure_text)));
    (3, "Initializing")]).

End ApplicationSamples.

(** * Properties *)

(** ** Batch merging *)

Section MergeFacts.
Import Batch BatchSpec Samples.

Lemma Merge_true_iff (self batch : UIBatch) :
  (Merge self batch).1 = true <-> mergeable self batch.
Proof.
  unfold Merge, mergeable.
  repeat case_bool_decide; simpl; split; try discriminate; try tauto;
    intros _; repeat split;
    match goal with
    | Hn : ~ (?a <> ?b) |- ?a = ?b => destruct (decide (a = b)); [assumption | contradiction]
    end.
Qed.

Lemma Merge_true_result (self batch : UIBatch) :
  (Merge self batch).1 = true ->
  (Merge self batch).2 = set_vertexEnd_ self (vertexEnd_ batch).
Proof. unfold Merge. destruct (_ || _); simpl; [discriminate | reflexivity]. Qed.

Lemma Merge_false_result (self batch : UIBatch) :
  (Merge self batch).1 = false -> (Merge self batch).2 = self.
Proof. unfold Merge. destruct (_ || _); simpl; [reflexivity | discriminate]. Qed.

(** What [Merge] does: it returns true exactly when candidate and receiver
    agree on blend mode, scissor rectangle, texture and vertex-buffer
    identity and the candidate starts where the receiver ends.  On true the
    receiver's end becomes the candidate's end and nothing else changes; on
    false the receiver is unchanged. *)
Lemma Merge_extends_iff_mergeable (self batch : UIBatch) :
  ((Merge self batch).1 = true <-> mergeable self batch)
  /\ ((Merge self batch).1 = true ->
      (Merge self batch).2 = set_vertexEnd_ self (vertexEnd_ batch))
  /\ ((Merge self batch).1 = false -> (Merge self batch).2 = self).
Proof.
  split; [apply Merge_true_iff |].
  split; [apply Merge_true_result | apply Merge_false_result].
Qed.

(** Where the specification's test and [Merge] part: the specification
    also asks for equal custom materials. *)
Lemma spec_mergeable_iff (self batch : UIBatch) :
  spec_mergeable self batch
  <-> (Merge self batch).1 = true /\ customMaterial_ batch = customMaterial_ self.
Proof.
  rewrite Merge_true_iff. unfold spec_mergeable, mergeable. tauto.
Qed.

(** C1, at the input where [Merge] departs from it.  [material_a] and
    [material_b] agree on blend mode, scissor, texture and vertex vector,
    are contiguous, and carry different custom materials; [Merge] returns
    true and extends [material_a] over the vertices of [material_b], which
    [UI::Render] then draws with the material of [material_a]. *)
Lemma Merge_merges_across_custom_materials :
  Merge material_a material_b = (true, set_vertexEnd_ material_a 72)
  /\ customMaterial_ material_a = Some 11%nat
  /\ customMaterial_ material_b = Some 12%nat
  /\ ~ spec_mergeable material_a material_b.
Proof.
  repeat split. intros (_ & _ & _ & Hc & _). discriminate Hc.
Qed.

Lemma Back_Merge_snoc (front : list UIBatch) (back batch : UIBatch) :
  Back_Merge (front ++ [back]) batch
  = ((Merge back batch).1, front ++ [(Merge back batch).2]).
Proof.
  induction front as [| b front IH]; simpl.
  - destruct (Merge back batch); reflexivity.
  - rewrite IH. destruct (front ++ [back]) eqn:E; [| reflexivity].
    destruct front; discriminate E.
Qed.

Lemma AddOrMerge_empty_range (batch : UIBatch) (batches : list UIBatch) :
  vertexEnd_ batch = vertexStart_ batch -> AddOrMerge batch batches = batches.
Proof. intros E. unfold AddOrMerge. rewrite E, Z.eqb_refl. reflexivity. Qed.

Lemma AddOrMerge_nil (batch : UIBatch) :
  nonempty_range batch -> AddOrMerge batch [] = [batch].
Proof.
  intros N. unfold AddOrMerge.
  destruct (Z.eqb_spec (vertexEnd_ batch) (vertexStart_ batch)); [contradiction | reflexivity].
Qed.

Lemma AddOrMerge_snoc (batch back : UIBatch) (front : list UIBatch) :
  nonempty_range batch ->
  AddOrMerge batch (front ++ [back])
  = if (Merge back batch).1 then front ++ [(Merge back batch).2]
    else (front ++ [(Merge back batch).2]) ++ [batch].
Proof.
  intros N. unfold AddOrMerge.
  destruct (Z.eqb_spec (vertexEnd_ batch) (vertexStart_ batch)); [contradiction |].
  rewrite Back_Merge_snoc.
  destruct (front ++ [back]) eqn:E; [destruct front; discriminate E | reflexivity].
Qed.

Lemma AddOrMerge_snoc_merged (batch back : UIBatch) (front : list UIBatch) :
  nonempty_range batch -> (Merge back batch).1 = true ->
  AddOrMerge batch (front ++ [back]) = front ++ [(Merge back batch).2].
Proof. intros N M. rewrite AddOrMerge_snoc, M by assumption. reflexivity. Qed.

Lemma AddOrMerge_snoc_pushed (batch back : UIBatch) (front : list UIBatch) :
  nonempty_range batch -> (Merge back batch).1 = false ->
  AddOrMerge batch (front ++ [back]) = front ++ [back; batch].
Proof.
  intros N M. rewrite AddOrMerge_snoc, M by assumption.
  rewrite (Merge_false_result _ _ M), <- app_assoc. reflexivity.
Qed.

Lemma contiguous_prev (p q : UIBatch) (cs : list UIBatch) :
  blendMode_ p = blendMode_ q -> scissor_ p = scissor_ q -> texture_ p = texture_ q ->
  vertexData_ p = vertexData_ q -> vertexEnd_ p = vertexEnd_ q ->
  contiguous p cs -> contiguous q cs.
Proof.
  intros Hb Hs Ht Hv He. destruct cs as [| c cs]; simpl; [trivial |].
  rewrite Hb, Hs, Ht, Hv, He. trivial.
Qed.

Lemma last_cons_default (c : UIBatch) (cs : list UIBatch) (d1 d2 : UIBatch) :
  List.last (c :: cs) d1 = List.last (c :: cs) d2.
Proof.
  revert c. induction cs as [| c' cs IH]; intros c; [reflexivity |].
  change (List.last (c' :: cs) d1 = List.last (c' :: cs) d2). apply IH.
Qed.

Lemma AddOrMerge_all_chain (cs front : list UIBatch) (back : UIBatch) :
  Forall nonempty_range cs -> contiguous back cs ->
  AddOrMerge_all cs (front ++ [back])
  = front ++ [set_vertexEnd_ back (vertexEnd_ (List.last cs back))].
Proof.
  revert back. induction cs as [| c cs IH]; intros back HN HC.
  - simpl. destruct back; reflexivity.
  - apply Forall_cons_1 in HN as [Nc HN].
    destruct HC as (Hb & Hs & Ht & Hv & Hstart & HC).
    assert (M : (Merge back c).1 = true).
    { apply Merge_true_iff. repeat split; assumption. }
    change (AddOrMerge_all (c :: cs) (front ++ [back]))
      with (AddOrMerge_all cs (AddOrMerge c (front ++ [back]))).
    rewrite (AddOrMerge_snoc_merged _ _ _ Nc M), (Merge_true_result _ _ M).
    rewrite IH; [| assumption |].
    + change (set_vertexEnd_ (set_vertexEnd_ back (vertexEnd_ c))
                (vertexEnd_ (List.last cs (set_vertexEnd_ back (vertexEnd_ c)))))
        with (set_vertexEnd_ back
                (vertexEnd_ (List.last cs (set_vertexEnd_ back (vertexEnd_ c))))).
      do 3 f_equal.
      change (List.last (c :: cs) back) with
        (match cs with [] => c | _ :: _ => List.last cs back end).
      destruct cs as [| c' cs']; [reflexivity |].
      f_equal. apply last_cons_default.
    + revert HC. apply contiguous_prev; simpl; congruence.
Qed.

(** C2.  [AddOrMerge] leaves the list alone for a candidate with an empty
    range; otherwise it folds the candidate into the last entry when
    [Merge] accepts it and appends it when [Merge] refuses (or when there
    is no last entry).  A chain of non-empty, contiguous candidates in one
    render state therefore ends up as a single entry from the start of the
    first to the end of the last, and a candidate whose blend mode, scissor
    or texture differs from the last entry becomes an entry of its own. *)
Theorem AddOrMerge_merges_contiguous_runs :
  (forall batch batches,
      vertexEnd_ batch = vertexStart_ batch -> AddOrMerge batch batches = batches)
  /\ (forall batch front back,
         nonempty_range batch -> (Merge back batch).1 = true ->
         AddOrMerge batch (front ++ [back]) = front ++ [(Merge back batch).2])
  /\ (forall batch front back,
         nonempty_range batch -> (Merge back batch).1 = false ->
         AddOrMerge batch (front ++ [back]) = front ++ [back; batch])
  /\ (forall batch, nonempty_range batch -> AddOrMerge batch [] = [batch])
  /\ (forall c0 cs,
         Forall nonempty_range (c0 :: cs) -> contiguous c0 cs ->
         AddOrMerge_all (c0 :: cs) []
         = [set_vertexEnd_ c0 (vertexEnd_ (List.last cs c0))])
  /\ (forall batch front back,
         nonempty_range batch ->
         blendMode_ batch <> blendMode_ back \/ scissor_ batch <> scissor_ back
         \/ texture_ batch <> texture_ back ->
         AddOrMerge batch (front ++ [back]) = front ++ [back; batch]).
Proof.
  split; [exact AddOrMerge_empty_range |].
  split; [intros; apply AddOrMerge_snoc_merged; assumption |].
  split; [intros; apply AddOrMerge_snoc_pushed; assumption |].
  split; [exact AddOrMerge_nil |].
  split.
  - intros c0 cs HN HC. apply Forall_cons_1 in HN as [N0 HN].
    change (AddOrMerge_all (c0 :: cs) []) with (AddOrMerge_all cs (AddOrMerge c0 [])).
    rewrite (AddOrMerge_nil _ N0).
    apply (AddOrMerge_all_chain cs [] c0 HN HC).
  - intros batch front back N D. apply AddOrMerge_snoc_pushed; [assumption |].
    destruct (Merge back batch).1 eqn:M; [| reflexivity].
    apply Merge_true_iff in M. destruct M as (Hb & Hs & Ht & _). tauto.
Qed.

Lemma AddOrMerge_merges_contiguous_runs_witness :
  AddOrMerge_all [material_a; material_b; material_c] []
  = [set_vertexEnd_ material_a 108]
  /\ AddOrMerge additive_c [set_vertexEnd_ material_a 72]
     = [set_vertexEnd_ material_a 72; additive_c]
  /\ AddOrMerge (set_vertexEnd_ material_a 0) [material_a] = [material_a].
Proof.
  destruct AddOrMerge_merges_contiguous_runs as (Hempty & _ & _ & _ & Hchain & Hsplit).
  split; [| split].
  - apply (Hchain material_a [material_b; material_c]).
    + repeat constructor; unfold nonempty_range; simpl; lia.
    + simpl. repeat split; reflexivity.
  - apply (Hsplit additive_c [] (set_vertexEnd_ material_a 72)).
    + unfold nonempty_range; simpl; lia.
    + left. simpl. discriminate.
  - apply Hempty. reflexivity.
Defined.

End MergeFacts.

(** ** Quads *)

Section QuadFacts.
Import Batch BatchSpec.
Context `{MathLib}.
Variable posAdjust : Vector3.

Lemma Size_app (v w : PODVector) : Size (v ++ w) = Size v + Size w.
Proof. unfold Size. rewrite length_app. lia. Qed.

Lemma emit_fields (st : BatchState) (cells : PODVector) :
  element_ (emit st cells).1 = element_ st.1
  /\ color_ (emit st cells).1 = color_ st.1
  /\ useGradient_ (emit st cells).1 = useGradient_ st.1
  /\ vertexStart_ (emit st cells).1 = vertexStart_ st.1
  /\ vertexEnd_ (emit st cells).1 = Size st.2 + Size cells
  /\ (emit st cells).2 = st.2 ++ cells.
Proof. destruct st as [b data]. simpl. rewrite Size_app. tauto. Qed.

Lemma AddQuad_invisible (st : BatchState) x y w h ox oy tw th :
  invisible st.1 -> AddQuad posAdjust st x y w h ox oy tw th = Ret st.
Proof. intros [G A]. unfold AddQuad. rewrite G, A. reflexivity. Qed.

Lemma AddQuad_transform_invisible (st : BatchState) T x y w h ox oy tw th :
  invisible st.1 -> AddQuad_transform posAdjust st T x y w h ox oy tw th = Ret st.
Proof. intros [G A]. unfold AddQuad_transform. rewrite G, A. reflexivity. Qed.

(** With an element behind the batch, the plain [AddQuad] always returns:
    the state it was given when the batch is invisible, and the state
    extended by the 36 cells of one quad otherwise. *)
Lemma AddQuad_returns (st : BatchState) (e : UIElement) x y w h ox oy tw th :
  element_ st.1 = Some e ->
  (invisible st.1 /\ AddQuad posAdjust st x y w h ox oy tw th = Ret st)
  \/ (batch_visible st.1
      /\ exists cells, length cells = 36%nat
                       /\ AddQuad posAdjust st x y w h ox oy tw th = Ret (emit st cells)).
Proof.
  intros E. unfold AddQuad, invisible, batch_visible. rewrite E.
  destruct (useGradient_ st.1) eqn:G; simpl.
  - right. split; [left; reflexivity |]. eexists. split; [| reflexivity]. reflexivity.
  - destruct (alpha_is_zero (color_ st.1)) eqn:A; simpl.
    + left. tauto.
    + right. split; [right; reflexivity |]. eexists. split; [| reflexivity]. reflexivity.
Qed.

Lemma batch_visible_not_invisible (b : UIBatch) : batch_visible b -> ~ invisible b.
Proof. intros [V | V] [G A]; congruence. Qed.

Lemma AddQuad_visible (st : BatchState) (e : UIElement) x y w h ox oy tw th :
  element_ st.1 = Some e -> batch_visible st.1 ->
  exists cells, length cells = 36%nat
                /\ AddQuad posAdjust st x y w h ox oy tw th = Ret (emit st cells).
Proof.
  intros E V. destruct (AddQuad_returns st e x y w h ox oy tw th E) as [[I _] | [_ R]].
  - destruct (batch_visible_not_invisible _ V I).
  - exact R.
Qed.

Lemma same_kind_refl st : same_kind st st.
Proof. unfold same_kind. tauto. Qed.

Lemma same_kind_trans a b c : same_kind a b -> same_kind b c -> same_kind a c.
Proof. unfold same_kind. intuition congruence. Qed.

Lemma AddQuad_same_kind (st : BatchState) (e : UIElement) x y w h ox oy tw th :
  element_ st.1 = Some e ->
  exists st', AddQuad posAdjust st x y w h ox oy tw th = Ret st' /\ same_kind st st'.
Proof.
  intros E. destruct (AddQuad_returns st e x y w h ox oy tw th E)
    as [[_ R] | [_ (cells & _ & R)]]; rewrite R; eexists; split; try reflexivity.
  - apply same_kind_refl.
  - pose proof (emit_fields st cells). unfold same_kind. tauto.
Qed.

Lemma tile_row_invisible (fuel : nat) (st : BatchState) x y W ox oy tw tileY tileH tileX :
  invisible st.1 ->
  tile_row posAdjust fuel st x y W ox oy tw tileY tileH tileX = Ret st
  \/ tile_row posAdjust fuel st x y W ox oy tw tileY tileH tileX = OutOfFuel.
Proof.
  intros I. revert tileX. induction fuel as [| fuel IH]; intros tileX; simpl.
  - destruct (tileX <? W); auto.
  - destruct (tileX <? W); [| auto].
    rewrite (AddQuad_invisible _ _ _ _ _ _ _ _ _ I). simpl. apply IH.
Qed.

Lemma tile_rows_invisible (fuel : nat) (st : BatchState) x y W Hh ox oy tw th tileY :
  invisible st.1 ->
  tile_rows posAdjust fuel st x y W Hh ox oy tw th tileY = Ret st
  \/ tile_rows posAdjust fuel st x y W Hh ox oy tw th tileY = OutOfFuel.
Proof.
  intros I. revert tileY. induction fuel as [| fuel IH]; intros tileY; simpl.
  - destruct (tileY <? Hh); auto.
  - destruct (tileY <? Hh); [| auto].
    destruct (tile_row_invisible fuel st x y W ox oy tw tileY
                (Z.min (Hh - tileY) th) 0 I) as [R | R]; rewrite R; simpl; auto.
Qed.

Lemma AddQuad_tiled_invisible (fuel : nat) (st st' : BatchState)
    x y w h ox oy tw th tiled :
  invisible st.1 ->
  AddQuad_tiled posAdjust fuel st x y w h ox oy tw th tiled = Ret st' -> st' = st.
Proof.
  intros I. unfold AddQuad_tiled.
  destruct (element_ st.1) as [e |]; simpl; [| discriminate].
  destruct (negb _); [congruence |].
  destruct (negb tiled).
  - rewrite AddQuad_invisible by assumption. congruence.
  - destruct (tile_rows_invisible fuel st x y w h ox oy tw th 0 I) as [R | R];
      rewrite R; congruence.
Qed.

Lemma AddQuad_tiled_element_invisible (fuel : nat) (st : BatchState) (e : UIElement)
    x y w h ox oy tw th tiled :
  element_ st.1 = Some e -> ~ element_visible e ->
  AddQuad_tiled posAdjust fuel st x y w h ox oy tw th tiled = Ret st.
Proof.
  intros E N. unfold AddQuad_tiled. rewrite E. simpl.
  unfold element_visible in N.
  destruct (HasColorGradient e); [exfalso; apply N; left; reflexivity |].
  destruct (Z.eqb_spec (Z.land (Color_ToUInt (GetDerivedColor e)) 0xff000000) 0) as [Z0 | Z0].
  - reflexivity.
  - exfalso. apply N. right. exact Z0.
Qed.

(** The free-point variants test no colour: they append the 36 cells of a
    quad to any batch. *)
Lemma AddQuad_points_appends (st : BatchState) T a b c d ta tb tc td :
  appended st (AddQuad_points posAdjust st T a b c d ta tb tc td) = Some 36.
Proof.
  unfold AddQuad_points, appended. destruct st as [bt data]. simpl.
  rewrite Size_app. f_equal. unfold Size. simpl. lia.
Qed.

Lemma AddQuad_points_colors_appends (st : BatchState) T a b c d ta tb tc td ca cb cc cd :
  appended st (AddQuad_points_colors posAdjust st T a b c d ta tb tc td ca cb cc cd)
  = Some 36.
Proof.
  unfold AddQuad_points_colors, appended. destruct st as [bt data]. simpl.
  rewrite Size_app. f_equal. unfold Size. simpl. lia.
Qed.

(** C7 (as amended).  On a batch whose colour has alpha zero and which
    uses no gradient, the rectangle variants of [AddQuad] (plain,
    transformed, tiled) append nothing and leave the batch as it is; the
    tiled variant also returns at once when the element itself has no
    gradient and a derived colour of alpha zero. *)
Theorem transparent_rectangle_quads_append_nothing :
  (forall st x y w h ox oy tw th,
      invisible st.1 -> AddQuad posAdjust st x y w h ox oy tw th = Ret st)
  /\ (forall st T x y w h ox oy tw th,
         invisible st.1 -> AddQuad_transform posAdjust st T x y w h ox oy tw th = Ret st)
  /\ (forall fuel st st' x y w h ox oy tw th tiled,
         invisible st.1 ->
         AddQuad_tiled posAdjust fuel st x y w h ox oy tw th tiled = Ret st' -> st' = st)
  /\ (forall fuel st e x y w h ox oy tw th tiled,
         element_ st.1 = Some e -> ~ element_visible e ->
         AddQuad_tiled posAdjust fuel st x y w h ox oy tw th tiled = Ret st).
Proof.
  split; [intros; apply AddQuad_invisible; assumption |].
  split; [intros; apply AddQuad_transform_invisible; assumption |].
  split; [intros; eapply AddQuad_tiled_invisible; eassumption |].
  intros; eapply AddQuad_tiled_element_invisible; eassumption.
Qed.

End QuadFacts.

(** ** Tiling *)

Section TilingFacts.
Import Batch BatchSpec.
Context `{MathLib}.
Variable posAdjust : Vector3.

Lemma ceil_div_bounds (a b : Z) :
  1 <= a -> 1 <= b ->
  1 <= ceil_div a b /\ (ceil_div a b - 1) * b < a /\ a <= ceil_div a b * b.
Proof.
  intros Ha Hb. unfold ceil_div.
  pose proof (Z.div_mod (a + b - 1) b ltac:(lia)) as E.
  pose proof (Z.mod_pos_bound (a + b - 1) b ltac:(lia)) as B.
  set (q := (a + b - 1) / b) in *. set (r := (a + b - 1) mod b) in *.
  assert (1 <= q) by nia. repeat split; nia.
Qed.

Lemma length_Zseq (s : Z) (n : nat) : length (Zseq s n) = n.
Proof. revert s. induction n as [| n IH]; intros s; simpl; [| rewrite IH]; reflexivity. Qed.

Lemma length_flat_map_const {A B} (f : A -> list B) (l : list A) (k : nat) :
  (forall a, length (f a) = k) -> length (flat_map f l) = (length l * k)%nat.
Proof.
  intros Hk. induction l as [| a l IH]; simpl; [reflexivity |].
  rewrite length_app, Hk, IH. reflexivity.
Qed.

Lemma length_tile_grid (x y W Hh tw th : Z) :
  1 <= W -> 1 <= Hh -> 1 <= tw -> 1 <= th ->
  Z.of_nat (length (tile_grid x y W Hh tw th)) = ceil_div W tw * ceil_div Hh th.
Proof.
  intros HW HH Htw Hth. unfold tile_grid.
  rewrite (length_flat_map_const _ _ (Z.to_nat (ceil_div W tw))).
  - rewrite length_Zseq.
    pose proof (ceil_div_bounds W tw HW Htw). pose proof (ceil_div_bounds Hh th HH Hth).
    lia.
  - intros j. rewrite length_map, length_Zseq. reflexivity.
Qed.

Lemma AddQuad_tiles_app ox oy (st : BatchState) (l1 l2 : list (Z * Z * Z * Z)) :
  AddQuad_tiles posAdjust ox oy st (l1 ++ l2)
  = st' ← AddQuad_tiles posAdjust ox oy st l1; AddQuad_tiles posAdjust ox oy st' l2.
Proof.
  revert st. induction l1 as [| t l1 IH]; intros st; simpl; [reflexivity |].
  destruct (AddQuad_tile posAdjust ox oy st t); simpl; [apply IH | reflexivity ..].
Qed.

(** One row of the loop against one row of the grid: from column [i] on,
    with [m] further columns after it. *)
Lemma tile_row_grid (x y W ox oy tw tileY tileH : Z) :
  1 <= W -> 1 <= tw ->
  forall (m : nat) (i : Z) (fuel : nat) (st : BatchState),
    0 <= i -> i + Z.of_nat m + 1 = ceil_div W tw -> (m < fuel)%nat ->
    tile_row posAdjust fuel st x y W ox oy tw tileY tileH (i * tw)
    = AddQuad_tiles posAdjust ox oy st
        (map (fun i => (x + i * tw, y + tileY,
                        if i <? ceil_div W tw - 1 then tw else W - i * tw, tileH))
             (Zseq i (S m))).
Proof.
  intros HW Htw. pose proof (ceil_div_bounds W tw HW Htw) as (Hc1 & Hc2 & Hc3).
  induction m as [| m IH]; intros i fuel st Hi Hcols Hfuel;
    (destruct fuel as [| fuel]; [lia |]); cbn [tile_row Zseq map AddQuad_tiles AddQuad_tile].
  - (* last column *)
    assert (Hlast : i = ceil_div W tw - 1) by lia.
    destruct (Z.ltb_spec (i * tw) W); [| nia].
    destruct (Z.ltb_spec i (ceil_div W tw - 1)); [lia |].
    replace (Z.min (W - i * tw) tw) with (W - i * tw) by nia.
    destruct (AddQuad _ _ _ _ _ _ _ _ _ _); simpl; [| reflexivity ..].
    replace (i * tw + (W - i * tw)) with W by lia.
    destruct fuel; simpl; rewrite Z.ltb_irrefl; reflexivity.
  - destruct (Z.ltb_spec (i * tw) W); [| nia].
    destruct (Z.ltb_spec i (ceil_div W tw - 1)); [| lia].
    replace (Z.min (W - i * tw) tw) with tw by nia.
    destruct (AddQuad _ _ _ _ _ _ _ _ _ _); simpl; [| reflexivity ..].
    replace (i * tw + tw) with ((i + 1) * tw) by lia.
    apply IH; lia.
Qed.

(** The rows of the loop against the rows of the grid: from row [j] on,
    with [m] further rows after it. *)
Lemma tile_rows_grid (x y W Hh ox oy tw th : Z) :
  1 <= W -> 1 <= Hh -> 1 <= tw -> 1 <= th ->
  forall (m : nat) (j : Z) (fuel : nat) (st : BatchState),
    0 <= j -> j + Z.of_nat m + 1 = ceil_div Hh th ->
    (m + Z.to_nat (ceil_div W tw) < fuel)%nat ->
    tile_rows posAdjust fuel st x y W Hh ox oy tw th (j * th)
    = AddQuad_tiles posAdjust ox oy st
        (flat_map
           (fun j =>
              map (fun i => (x + i * tw, y + j * th,
                             if i <? ceil_div W tw - 1 then tw else W - i * tw,
                             if j <? ceil_div Hh th - 1 then th else Hh - j * th))
                  (Zseq 0 (Z.to_nat (ceil_div W tw))))
           (Zseq j (S m))).
Proof.
  intros HW HH Htw Hth.
  pose proof (ceil_div_bounds W tw HW Htw) as (Hc1 & Hc2 & Hc3).
  pose proof (ceil_div_bounds Hh th HH Hth) as (Hr1 & Hr2 & Hr3).
  assert (Hrow : forall tileY tileH fuel st,
             (Z.to_nat (ceil_div W tw) <= fuel)%nat ->
             tile_row posAdjust fuel st x y W ox oy tw tileY tileH 0
             = AddQuad_tiles posAdjust ox oy st
                 (map (fun i => (x + i * tw, y + tileY,
                                 if i <? ceil_div W tw - 1 then tw else W - i * tw, tileH))
                      (Zseq 0 (Z.to_nat (ceil_div W tw))))).
  { intros tileY tileH fuel st Hf.
    destruct (Z.to_nat (ceil_div W tw)) as [| c] eqn:Ec; [lia |].
    change 0 with (0 * tw) at 1.
    apply (tile_row_grid x y W ox oy tw tileY tileH HW Htw c 0 fuel st); lia. }
  induction m as [| m IH]; intros j fuel st Hj Hrows Hfuel;
    (destruct fuel as [| fuel]; [lia |]); cbn [tile_rows Zseq flat_map].
  - assert (Hlast : j = ceil_div Hh th - 1) by lia.
    destruct (Z.ltb_spec (j * th) Hh); [| nia].
    destruct (Z.ltb_spec j (ceil_div Hh th - 1)); [lia |].
    replace (Z.min (Hh - j * th) th) with (Hh - j * th) by nia.
    rewrite app_nil_r, Hrow by lia.
    destruct (AddQuad_tiles _ _ _ _ _); simpl; [| reflexivity ..].
    replace (j * th + (Hh - j * th)) with Hh by lia.
    destruct fuel; simpl; rewrite Z.ltb_irrefl; reflexivity.
  - destruct (Z.ltb_spec (j * th) Hh); [| nia].
    destruct (Z.ltb_spec j (ceil_div Hh th - 1)); [| lia].
    replace (Z.min (Hh - j * th) th) with th by nia.
    rewrite AddQuad_tiles_app, Hrow by lia.
    destruct (AddQuad_tiles _ _ _ _ _); unfold mbind, res_bind; cbn beta iota;
      [| reflexivity ..].
    replace (j * th + th) with ((j + 1) * th) by lia.
    apply IH; lia.
Qed.

Lemma tile_rows_is_grid (x y W Hh ox oy tw th : Z) (fuel : nat) (st : BatchState) :
  1 <= W -> 1 <= Hh -> 1 <= tw -> 1 <= th ->
  (Z.to_nat (ceil_div W tw) + Z.to_nat (ceil_div Hh th) <= fuel)%nat ->
  tile_rows posAdjust fuel st x y W Hh ox oy tw th 0
  = AddQuad_tiles posAdjust ox oy st (tile_grid x y W Hh tw th).
Proof.
  intros HW HH Htw Hth Hfuel.
  pose proof (ceil_div_bounds Hh th HH Hth) as (Hr1 & _).
  unfold tile_grid.
  destruct (Z.to_nat (ceil_div Hh th)) as [| r] eqn:Er; [lia |].
  change 0 with (0 * th) at 1.
  apply (tile_rows_grid x y W Hh ox oy tw th HW HH Htw Hth r 0 fuel st); lia.
Qed.

Lemma AddQuad_tiles_grow ox oy (e : UIElement) (ts : list (Z * Z * Z * Z)) :
  forall st : BatchState,
    element_ st.1 = Some e -> batch_visible st.1 ->
    exists st', AddQuad_tiles posAdjust ox oy st ts = Ret st'
                /\ Size st'.2 = Size st.2 + 36 * Z.of_nat (length ts)
                /\ vertexEnd_ st'.1
                   = (match ts with
                       | [] => vertexEnd_ st.1
                       | _ :: _ => Size st.2 + 36 * Z.of_nat (length ts)
                       end)
                /\ vertexStart_ st'.1 = vertexStart_ st.1.
Proof.
  induction ts as [| [[[tx ty] w] h] ts IH]; intros st E V.
  - exists st. simpl. repeat split; lia.
  - cbn [AddQuad_tiles AddQuad_tile].
    destruct (AddQuad_visible posAdjust st e (of_int tx) (of_int ty) (of_int w) (of_int h)
                ox oy w h E V) as (cells & Hlen & R).
    rewrite R. simpl.
    pose proof (emit_fields st cells) as (Fe & Fc & Fg & Fs & Fend & Fdata).
    destruct (IH (emit st cells)) as (st' & R' & HS & HE & HSt).
    + congruence.
    + unfold batch_visible in *. rewrite Fc, Fg. exact V.
    + exists st'. split; [exact R' |].
      assert (Size cells = 36) by (unfold Size; lia).
      rewrite Fdata, Size_app in HS. rewrite Fdata, Size_app in HE.
      cbn [length]. repeat split; [lia | | congruence].
      destruct ts; [rewrite HE, Fend; simpl; lia | rewrite HE; cbn [length]; lia].
Qed.

End TilingFacts.

(** ** Termination of the tiling loops *)

Section TilingTermination.
Import Batch BatchSpec.
Context `{MathLib}.
Variable posAdjust : Vector3.

Lemma tile_row_terminates (x y W ox oy tw tileY tileH : Z) (e : UIElement) :
  1 <= tw ->
  forall (n fuel : nat) (st : BatchState) (tileX : Z),
    element_ st.1 = Some e -> W - tileX <= Z.of_nat n -> (n <= fuel)%nat ->
    exists st', tile_row posAdjust fuel st x y W ox oy tw tileY tileH tileX = Ret st'
                /\ same_kind st st'.
Proof.
  intros Htw. induction n as [| n IH]; intros fuel st tileX E Hn Hf.
  - exists st. split; [| apply same_kind_refl].
    destruct fuel; simpl; destruct (Z.ltb_spec tileX W); try lia; reflexivity.
  - destruct fuel as [| fuel]; [lia |]. simpl.
    destruct (Z.ltb_spec tileX W); [| exists st; split; [reflexivity | apply same_kind_refl]].
    destruct (AddQuad_same_kind posAdjust st e (of_int (x + tileX)) (of_int (y + tileY))
                (of_int (Z.min (W - tileX) tw)) (of_int tileH) ox oy
                (Z.min (W - tileX) tw) tileH E) as (st1 & R & K).
    rewrite R. simpl.
    destruct (IH fuel st1 (tileX + Z.min (W - tileX) tw)) as (st' & R' & K');
      [destruct K; congruence | lia | lia |].
    exists st'. split; [exact R' | eapply same_kind_trans; eassumption].
Qed.

Lemma tile_rows_terminates (x y W Hh ox oy tw th : Z) (e : UIElement) :
  1 <= tw -> 1 <= th ->
  forall (n fuel : nat) (st : BatchState) (tileY : Z),
    element_ st.1 = Some e -> Hh - tileY <= Z.of_nat n ->
    (n + Z.to_nat W <= fuel)%nat ->
    exists st', tile_rows posAdjust fuel st x y W Hh ox oy tw th tileY = Ret st'
                /\ same_kind st st'.
Proof.
  intros Htw Hth. induction n as [| n IH]; intros fuel st tileY E Hn Hf.
  - exists st. split; [| apply same_kind_refl].
    destruct fuel; simpl; destruct (Z.ltb_spec tileY Hh); try lia; reflexivity.
  - destruct fuel as [| fuel]; [lia |]. simpl.
    destruct (Z.ltb_spec tileY Hh); [| exists st; split; [reflexivity | apply same_kind_refl]].
    destruct (tile_row_terminates x y W ox oy tw tileY (Z.min (Hh - tileY) th) e Htw
                (Z.to_nat W) fuel st 0 E ltac:(lia) ltac:(lia)) as (st1 & R & K).
    rewrite R. simpl.
    destruct (IH fuel st1 (tileY + Z.min (Hh - tileY) th)) as (st' & R' & K');
      [destruct K; congruence | lia | lia |].
    exists st'. split; [exact R' | eapply same_kind_trans; eassumption].
Qed.

Lemma AddQuad_tiled_terminates (st : BatchState) x y W Hh ox oy tw th tiled (fuel : nat) :
  1 <= tw -> 1 <= th -> (Z.to_nat W + Z.to_nat Hh <= fuel)%nat ->
  AddQuad_tiled posAdjust fuel st x y W Hh ox oy tw th tiled <> OutOfFuel.
Proof.
  intros Htw Hth Hf. unfold AddQuad_tiled.
  destruct (element_ st.1) as [e |] eqn:E; simpl; [| discriminate].
  destruct (negb _); [discriminate |].
  destruct (negb tiled).
  - destruct (AddQuad_same_kind posAdjust st e (of_int x) (of_int y) (of_int W) (of_int Hh)
                ox oy tw th E) as (st' & R & _).
    rewrite R. discriminate.
  - destruct (tile_rows_terminates x y W Hh ox oy tw th e Htw Hth (Z.to_nat Hh) fuel st 0 E
                ltac:(lia) ltac:(lia)) as (st' & R & _).
    rewrite R. discriminate.
Qed.

(** With an element behind the batch a row never faults: it returns or
    exhausts its budget. *)
Lemma tile_row_returns_or_exhausts (x y W ox oy tw tileY tileH : Z) (e : UIElement) :
  forall (fuel : nat) (st : BatchState) (tileX : Z),
    element_ st.1 = Some e ->
    (exists st', tile_row posAdjust fuel st x y W ox oy tw tileY tileH tileX = Ret st'
                 /\ same_kind st st')
    \/ tile_row posAdjust fuel st x y W ox oy tw tileY tileH tileX = OutOfFuel.
Proof.
  induction fuel as [| fuel IH]; intros st tileX E; simpl.
  - destruct (tileX <? W); [right; reflexivity |].
    left. exists st. split; [reflexivity | apply same_kind_refl].
  - destruct (tileX <? W);
      [| left; exists st; split; [reflexivity | apply same_kind_refl]].
    destruct (AddQuad_same_kind posAdjust st e (of_int (x + tileX)) (of_int (y + tileY))
                (of_int (Z.min (W - tileX) tw)) (of_int tileH) ox oy
                (Z.min (W - tileX) tw) tileH E) as (st1 & R & K).
    rewrite R. simpl.
    destruct (IH st1 (tileX + Z.min (W - tileX) tw)) as [(st' & R' & K') | R'];
      [destruct K; congruence | | right; exact R'].
    left. exists st'. split; [exact R' | eapply same_kind_trans; eassumption].
Qed.

(** A zero texture width keeps [tileX] where it is. *)
Lemma tile_row_stuck (x y W ox oy tileY tileH tileX : Z) (e : UIElement) :
  tileX < W ->
  forall (fuel : nat) (st : BatchState),
    element_ st.1 = Some e ->
    tile_row posAdjust fuel st x y W ox oy 0 tileY tileH tileX = OutOfFuel.
Proof.
  intros Hlt. induction fuel as [| fuel IH]; intros st E; simpl;
    destruct (Z.ltb_spec tileX W); try lia; [reflexivity |].
  replace (Z.min (W - tileX) 0) with 0 by lia.
  destruct (AddQuad_same_kind posAdjust st e (of_int (x + tileX)) (of_int (y + tileY))
              (of_int 0) (of_int tileH) ox oy 0 tileH E) as (st1 & R & K).
  rewrite R. simpl. rewrite Z.add_0_r. apply IH. destruct K; congruence.
Qed.

(** A zero texture height keeps [tileY] where it is. *)
Lemma tile_rows_stuck_y (x y W Hh ox oy tw tileY : Z) (e : UIElement) :
  tileY < Hh ->
  forall (fuel : nat) (st : BatchState),
    element_ st.1 = Some e ->
    tile_rows posAdjust fuel st x y W Hh ox oy tw 0 tileY = OutOfFuel.
Proof.
  intros Hlt. induction fuel as [| fuel IH]; intros st E; simpl;
    destruct (Z.ltb_spec tileY Hh); try lia; [reflexivity |].
  replace (Z.min (Hh - tileY) 0) with 0 by lia.
  destruct (tile_row_returns_or_exhausts x y W ox oy tw tileY 0 e fuel st 0 E)
    as [(st1 & R & K) | R]; rewrite R; simpl; [| reflexivity].
  rewrite Z.add_0_r. apply IH. destruct K; congruence.
Qed.

Lemma tile_rows_stuck_x (x y W Hh ox oy th tileY : Z) (e : UIElement) :
  tileY < Hh -> 0 < W ->
  forall (fuel : nat) (st : BatchState),
    element_ st.1 = Some e ->
    tile_rows posAdjust fuel st x y W Hh ox oy 0 th tileY = OutOfFuel.
Proof.
  intros Hlt HW fuel st E. destruct fuel as [| fuel]; simpl;
    destruct (Z.ltb_spec tileY Hh); try lia; [reflexivity |].
  rewrite (tile_row_stuck x y W ox oy tileY (Z.min (Hh - tileY) th) 0 e HW fuel st E).
  reflexivity.
Qed.

Lemma element_visible_guard (e : UIElement) :
  element_visible e ->
  negb (HasColorGradient e
        || negb (Z.land (Color_ToUInt (GetDerivedColor e)) 0xff000000 =? 0)) = false.
Proof.
  intros [G | A].
  - rewrite G. reflexivity.
  - destruct (Z.eqb_spec (Z.land (Color_ToUInt (GetDerivedColor e)) 0xff000000) 0);
      [contradiction |].
    rewrite orb_true_r. reflexivity.
Qed.

Lemma AddQuad_tiled_diverges (st : BatchState) (e : UIElement) x y W Hh ox oy tw th
    (fuel : nat) :
  element_ st.1 = Some e -> element_visible e -> 0 < Hh ->
  th = 0 \/ (tw = 0 /\ 0 < W) ->
  AddQuad_tiled posAdjust fuel st x y W Hh ox oy tw th true = OutOfFuel.
Proof.
  intros E V HH Hz. unfold AddQuad_tiled. rewrite E. simpl.
  rewrite (element_visible_guard e V).
  destruct Hz as [-> | [-> HW]].
  - apply (tile_rows_stuck_y x y W Hh ox oy tw 0 e HH fuel st E).
  - apply (tile_rows_stuck_x x y W Hh ox oy th 0 e HH HW fuel st E).
Qed.

End TilingTermination.

(** ** The tiled AddQuad as a whole *)

Section TiledFacts.
Import Batch BatchSpec.
Context `{MathLib}.
Variable posAdjust : Vector3.

(** C8 (as amended).  When the element passes the visibility test of the
    tiled [AddQuad] (it has a gradient, or its derived colour has a
    non-zero alpha), a tiled call over a region of width [W >= 1] and
    height [Hh >= 1] with a texture region of [tw >= 1] by [th >= 1]
    issues exactly the sub-quads of [tile_grid], in that order:
    [ceil (W / tw) * ceil (Hh / th)] of them, row-major from the origin,
    each [(tw, th)] large except that the last column and the last row are
    cut to what remains.  When the batch's own colour is visible as well,
    every sub-quad appends its 36 cells. *)
Theorem tiled_AddQuad_emits_grid (st : BatchState) (e : UIElement)
    (x y W Hh ox oy tw th : Z) (fuel : nat) :
  element_ st.1 = Some e -> element_visible e ->
  1 <= W -> 1 <= Hh -> 1 <= tw -> 1 <= th ->
  (Z.to_nat (ceil_div W tw) + Z.to_nat (ceil_div Hh th) <= fuel)%nat ->
  AddQuad_tiled posAdjust fuel st x y W Hh ox oy tw th true
  = AddQuad_tiles posAdjust ox oy st (tile_grid x y W Hh tw th)
  /\ Z.of_nat (length (tile_grid x y W Hh tw th)) = ceil_div W tw * ceil_div Hh th
  /\ (batch_visible st.1 ->
      appended st (AddQuad_tiled posAdjust fuel st x y W Hh ox oy tw th true)
      = Some (36 * (ceil_div W tw * ceil_div Hh th))).
Proof.
  intros E V HW HH Htw Hth Hfuel.
  assert (Eq : AddQuad_tiled posAdjust fuel st x y W Hh ox oy tw th true
               = AddQuad_tiles posAdjust ox oy st (tile_grid x y W Hh tw th)).
  { unfold AddQuad_tiled. rewrite E. simpl. rewrite (element_visible_guard e V).
    apply tile_rows_is_grid; assumption. }
  split; [exact Eq |]. split; [apply length_tile_grid; assumption |].
  intros BV. rewrite Eq.
  destruct (AddQuad_tiles_grow posAdjust ox oy e (tile_grid x y W Hh tw th) st E BV)
    as (st' & R & HS & _).
  rewrite R. simpl. f_equal.
  rewrite HS, length_tile_grid by assumption. lia.
Qed.

(** C10.  With a texture region of at least 1 by 1 every call of the tiled
    [AddQuad] finishes within [W + Hh] iterations of its loops.  The bound
    on the texture region matters: once the element is visible and the
    region has rows to walk, a texture height of zero, or a texture width
    of zero over a region of positive width, keeps the tile origin in
    place, and the call exhausts every budget.  [BorderImage::GetBatches]
    can make such a call: its inner texture width is zero as soon as the
    image rectangle is no wider than the two side borders, and the top
    edge is then tiled with texture width zero. *)
Theorem tiled_AddQuad_terminates_for_positive_texture_size :
  (forall st x y W Hh ox oy tw th tiled fuel,
      1 <= tw -> 1 <= th -> (Z.to_nat W + Z.to_nat Hh <= fuel)%nat ->
      AddQuad_tiled posAdjust fuel st x y W Hh ox oy tw th tiled <> OutOfFuel)
  /\ (forall st e x y W Hh ox oy tw th fuel,
         element_ st.1 = Some e -> element_visible e -> 0 < Hh ->
         th = 0 \/ (tw = 0 /\ 0 < W) ->
         AddQuad_tiled posAdjust fuel st x y W Hh ox oy tw th true = OutOfFuel)
  /\ (forall bi,
         BorderImage.imageBorder_ bi = IntRect_ZERO ->
         right_ (BorderImage.imageRect_ bi) - left_ (BorderImage.imageRect_ bi)
         <= left_ (BorderImage.border_ bi) + right_ (BorderImage.border_ bi) ->
         ix_ (BorderImage.innerUvSize bi) = 0)
  /\ (forall bi fuel batches vd vertexData currentScissor offset,
         BorderImage.tiled_ bi = true -> element_visible (BorderImage.elem bi) ->
         0 < top_ (BorderImage.border_ bi) ->
         0 < ix_ (BorderImage.innerSize bi) ->
         ix_ (BorderImage.innerUvSize bi) = 0 ->
         BorderImage.GetBatches_offset posAdjust fuel bi batches vd vertexData
           currentScissor offset = OutOfFuel).
Proof.
  split; [intros; apply AddQuad_tiled_terminates; assumption |].
  split; [intros; eapply AddQuad_tiled_diverges; eassumption |].
  split.
  - intros bi Hib Hsmall. unfold BorderImage.innerUvSize.
    rewrite Hib. rewrite bool_decide_eq_true_2 by reflexivity. simpl. lia.
  - intros bi fuel batches vd vertexData currentScissor offset Ht V Htop Hin Huv.
    unfold BorderImage.GetBatches_offset.
    set (batch1 := match BorderImage.material_ bi with
                   | Some m => _
                   | None => _
                   end).
    assert (E1 : element_ batch1 = Some (BorderImage.elem bi)).
    { subst batch1. destruct (BorderImage.material_ bi); reflexivity. }
    rewrite Huv, Ht.
    destruct (Z.eqb_spec (top_ (BorderImage.border_ bi)) 0) as [| _]; [lia |].
    destruct (Z.eqb_spec (ix_ (BorderImage.innerSize bi)) 0) as [| _]; [lia |].
    cbn [negb andb].
    assert (Hfirst : forall c call,
               (forall st, element_ st.1 = Some (BorderImage.elem bi) ->
                           exists st', call st = Ret st' /\ same_kind st st') ->
               exists st', BorderImage.when c call (batch1, vertexData) = Ret st'
                           /\ element_ st'.1 = Some (BorderImage.elem bi)).
    { intros c call Hcall. unfold BorderImage.when. destruct c.
      - destruct (Hcall (batch1, vertexData) E1) as (st' & R & K).
        exists st'. split; [exact R | destruct K; simpl in *; congruence].
      - exists (batch1, vertexData). split; [reflexivity | exact E1]. }
    match goal with
    | |- context [BorderImage.when ?c ?call (batch1, vertexData)] =>
        destruct (Hfirst c call) as (st1 & R1 & E1')
    end.
    { intros st Est. eapply AddQuad_same_kind. exact Est. }
    rewrite R1. cbn [mbind res_bind].
    change (BorderImage.when true) with (fun (call : BatchState -> res BatchState) st => call st).
    cbn beta.
    rewrite (AddQuad_tiled_diverges posAdjust st1 (BorderImage.elem bi)); auto.
Qed.

End TiledFacts.

(** Sample runs. *)

Section TiledSamples.
Import Batch BatchSpec Samples.

(** A visible batch, a 5 x 3 region tiled with a 2 x 2 texture region:
    3 columns by 2 rows. *)
Lemma tiled_AddQuad_emits_grid_witness :
  AddQuad_tiled no_adjust 5 (opaque_batch, []) 0 0 5 3 0 0 2 2 true
  = AddQuad_tiles no_adjust 0 0 (opaque_batch, []) (tile_grid 0 0 5 3 2 2)
  /\ Z.of_nat (length (tile_grid 0 0 5 3 2 2)) = ceil_div 5 2 * ceil_div 3 2
  /\ (batch_visible opaque_batch ->
      appended (opaque_batch, [])
        (AddQuad_tiled no_adjust 5 (opaque_batch, []) 0 0 5 3 0 0 2 2 true)
      = Some (36 * (ceil_div 5 2 * ceil_div 3 2))).
Proof.
  apply (tiled_AddQuad_emits_grid no_adjust (opaque_batch, []) opaque_element
           0 0 5 3 0 0 2 2 5).
  - reflexivity.
  - right. vm_compute. discriminate.
  - lia.
  - lia.
  - lia.
  - lia.
  - vm_compute. lia.
Defined.

Example tile_grid_5_3_2_2 :
  tile_grid 0 0 5 3 2 2
  = [(0, 0, 2, 2); (2, 0, 2, 2); (4, 0, 1, 2); (0, 2, 2, 1); (2, 2, 2, 1); (4, 2, 1, 1)].
Proof. reflexivity. Qed.

(** C8 as stated fails: for a transparent element without gradient the
    tiled [AddQuad] over a 1 x 1 region with a 1 x 1 texture region appends
    nothing, where one sub-quad (36 cells) is claimed. *)
Lemma tiled_AddQuad_skips_transparent_element :
  ceil_div 1 1 * ceil_div 1 1 = 1
  /\ appended (transparent_batch, [])
       (AddQuad_tiled no_adjust 2 (transparent_batch, []) 0 0 1 1 0 0 1 1 true)
     = Some 0.
Proof. split; reflexivity. Qed.

Lemma transparent_rectangle_quads_append_nothing_witness :
  AddQuad no_adjust (transparent_batch, []) f0 f0 f1 f1 0 0 0 0
  = Ret (transparent_batch, [])
  /\ AddQuad_transform no_adjust (transparent_batch, []) IDENTITY 0 0 1 1 0 0 0 0
     = Ret (transparent_batch, [])
  /\ AddQuad_tiled no_adjust 2 (transparent_batch, []) 0 0 1 1 0 0 1 1 true
     = Ret (transparent_batch, []).
Proof.
  destruct (transparent_rectangle_quads_append_nothing no_adjust)
    as (Hplain & Htrans & _ & Htiled).
  assert (I : invisible transparent_batch) by (split; reflexivity).
  split; [apply Hplain; exact I |].
  split; [apply Htrans; exact I |].
  apply (Htiled 2%nat (transparent_batch, []) transparent_element); [reflexivity |].
  intros [G | A]; [discriminate G | apply A; reflexivity].
Defined.

(** C7 as stated fails: the free-point [AddQuad] appends a quad to a
    batch that has no gradient and whose colour has alpha zero. *)
Lemma free_point_AddQuad_ignores_alpha :
  invisible transparent_batch
  /\ HasColorGradient transparent_element = false
  /\ appended (transparent_batch, [])
       (AddQuad_points no_adjust (transparent_batch, []) IDENTITY
          (mkIntVector2 0 0) (mkIntVector2 1 0) (mkIntVector2 1 1) (mkIntVector2 0 1)
          (mkIntVector2 0 0) (mkIntVector2 1 0) (mkIntVector2 1 1) (mkIntVector2 0 1))
     = Some 36.
Proof. split; [split; reflexivity |]. split; reflexivity. Qed.

End TiledSamples.

(** ** Hit test and modal capture *)

Section HitTestFacts.
Import UISystem UISpec.

Lemma descendant_below_child (h : Heap) (cur p x : Ptr) (c : UIElement) :
  h !! cur = Some c -> In p (children_ c) -> descendant h p x -> descendant h cur x.
Proof.
  intros Hc Hp D. induction D as [e x He Hx | q e x D IH He Hx].
  - eapply descendant_step; [eapply descendant_child | |]; eassumption.
  - eapply descendant_step; eassumption.
Qed.

Lemma hit_below_refl h cur r : hit_below h cur r r.
Proof. left. reflexivity. Qed.

Lemma hit_below_trans h cur a b c :
  hit_below h cur a b -> hit_below h cur b c -> hit_below h cur a c.
Proof. intros [-> | Hb] [-> | Hc]; unfold hit_below; eauto. Qed.

Lemma hit_below_child h cur c p before :
  h !! cur = Some c -> In p (children_ c) -> hit_below h cur before (Some p).
Proof. intros Hc Hp. right. exists p. split; [reflexivity |]. eapply descendant_child; eassumption. Qed.

Ltac split_match H :=
  (progress unfold mbind, res_bind in H)
  || match type of H with
     | context [match ?x with _ => _ end] =>
         let E := fresh "E" in destruct x eqn:E; simpl in H; try discriminate H
     end.

Lemma GetElementAt_children_below (ui : UI) (cur : Ptr) (c : UIElement)
    (descend : option Ptr -> Ptr -> res (option Ptr)) (position : IntVector2)
    (enabledOnly : bool) :
  heap ui !! cur = Some c ->
  (forall result p r, In p (children_ c) -> descend result p = Ret r ->
                      hit_below (heap ui) cur result r) ->
  forall (cs : list Ptr) (i : Z) (skip : nat) (result r : option Ptr),
    (forall p, In p cs -> In p (children_ c)) ->
    GetElementAt_children ui c descend position enabledOnly cs i skip result = Ret r ->
    hit_below (heap ui) cur result r.
Proof.
  intros Hc Hd. induction cs as [| p cs IH]; intros i skip result r Hin Hrun.
  - simpl in Hrun. injection Hrun as <-. apply hit_below_refl.
  - assert (Hp : In p (children_ c)) by (apply Hin; left; reflexivity).
    assert (Hcs : forall q, In q cs -> In q (children_ c))
      by (intros q Hq; apply Hin; right; exact Hq).
    assert (Hset : forall before, hit_below (heap ui) cur before (Some p))
      by (intros; eapply hit_below_child; eassumption).
    simpl in Hrun. unfold load, deref in Hrun.
    destruct skip as [| skip']; [| eapply IH; eassumption].
    repeat split_match Hrun;
      repeat match goal with
        | Hr : Ret _ = Ret _ |- _ => injection Hr as <-
        | Hr : descend _ _ = Ret _ |- _ => apply (Hd _ _ _ Hp) in Hr
        | Hr : GetElementAt_children _ _ _ _ _ _ _ _ _ = Ret _ |- _ =>
            apply (IH _ _ _ _ Hcs) in Hr
        | Hr : hit_below _ _ (if ?b then _ else _) _ |- _ => destruct b
        end;
      eauto using hit_below_refl, hit_below_trans.
Qed.

Lemma GetElementAt_rec_below (fuel : nat) (ui : UI) (position : IntVector2)
    (enabledOnly : bool) :
  forall (result : option Ptr) (cur : Ptr) (r : option Ptr),
    GetElementAt_rec fuel ui result (Some cur) position enabledOnly = Ret r ->
    hit_below (heap ui) cur result r.
Proof.
  induction fuel as [| fuel IH]; intros result cur r Hrun; simpl in Hrun;
    [discriminate |].
  unfold load, deref in Hrun. destruct (heap ui !! cur) as [c |] eqn:Hc;
    simpl in Hrun; [| discriminate].
  eapply GetElementAt_children_below; [exact Hc | | | exact Hrun].
  - intros result' p r' Hp Hd. apply IH in Hd.
    destruct Hd as [-> | (x & -> & D)]; [apply hit_below_refl |].
    right. exists x. split; [reflexivity |].
    eapply descendant_below_child; eassumption.
  - auto.
Qed.

Lemma GetElementAt_root_below (fuel : nat) (ui : UI) (root : Ptr) (position : IntVector2)
    (enabledOnly : bool) (x : Ptr) :
  GetElementAt_root fuel ui root position enabledOnly = Ret (Some x) ->
  descendant (heap ui) root x.
Proof.
  unfold GetElementAt_root, load, deref. intros Hrun.
  destruct (heap ui !! root) as [r |]; simpl in Hrun; [| discriminate].
  repeat split_match Hrun;
    apply GetElementAt_rec_below in Hrun as [Hn | (y & Hy & D)];
    try discriminate Hn; injection Hy as <-; exact D.
Qed.

(** C3 (as amended).  When the search of the modal root finds an element
    at the position, [GetElementAt] returns that element, which lies in the
    subtree of the modal root, whatever the normal root holds; a modal
    element is then active.  When the modal search finds nothing,
    [GetElementAt] falls back to the normal root and returns what the
    search of the normal root finds there. *)
Theorem GetElementAt_prefers_modal_subtree (fuel : nat) (ui : UI) (position : IntVector2)
    (enabledOnly : bool) :
  (forall e,
      GetElementAt_modal fuel ui position enabledOnly = Ret (Some e) ->
      GetElementAt fuel ui position enabledOnly = Ret (Some e, Some position)
      /\ descendant (heap ui) (rootModalElement_ ui) e
      /\ HasModalElement ui = Ret true)
  /\ (forall e,
         GetElementAt_modal fuel ui position enabledOnly = Ret None ->
         GetElementAt_root fuel ui (rootElement_ ui) position enabledOnly = Ret (Some e) ->
         GetElementAt fuel ui position enabledOnly = Ret (Some e, Some position)
         /\ descendant (heap ui) (rootElement_ ui) e).
Proof.
  split.
  - intros e Hmodal. unfold GetElementAt. rewrite Hmodal. simpl.
    split; [reflexivity |].
    unfold GetElementAt_modal in Hmodal.
    destruct (HasModalElement ui) as [[|] | |]; simpl in Hmodal; try discriminate.
    split; [| reflexivity]. eapply GetElementAt_root_below. exact Hmodal.
  - intros e Hmodal Hroot. unfold GetElementAt. rewrite Hmodal. simpl. rewrite Hroot.
    simpl. split; [reflexivity |]. eapply GetElementAt_root_below. exact Hroot.
Qed.

End HitTestFacts.

Section HitTestSamples.
Import UISystem UISpec UISamples.

Lemma GetElementAt_prefers_modal_subtree_witness :
  (GetElementAt 3 modal_ui (mkIntVector2 5 5) true
   = Ret (Some 4%nat, Some (mkIntVector2 5 5))
   /\ descendant (heap modal_ui) (rootModalElement_ modal_ui) 4%nat
   /\ HasModalElement modal_ui = Ret true)
  /\ (GetElementAt 3 modal_ui centre true = Ret (Some 3%nat, Some centre)
      /\ descendant (heap modal_ui) (rootElement_ modal_ui) 3%nat).
Proof.
  split.
  - apply (proj1 (GetElementAt_prefers_modal_subtree 3 modal_ui (mkIntVector2 5 5) true)).
    reflexivity.
  - apply (proj2 (GetElementAt_prefers_modal_subtree 3 modal_ui centre true));
      reflexivity.
Defined.

Lemma modal_subtree_is_the_window (p : Ptr) :
  descendant (heap modal_ui) (rootModalElement_ modal_ui) p -> p = 4%nat.
Proof.
  intros D. induction D as [e p He Hp | q e p D IH He Hp].
  - vm_compute in He. injection He as <-. simpl in Hp. destruct Hp as [<- | []].
    reflexivity.
  - subst q. vm_compute in He. injection He as <-. destruct Hp.
Qed.

(** C3 as stated fails: with the window 4 modal, the hit test at (150,
    150), which the window does not cover, returns the button 3 of the
    normal root. *)
Lemma GetElementAt_falls_back_to_normal_root :
  HasModalElement modal_ui = Ret true
  /\ GetElementAt 3 modal_ui centre true = Ret (Some 3%nat, Some centre)
  /\ ~ descendant (heap modal_ui) (rootModalElement_ modal_ui) 3%nat.
Proof.
  split; [reflexivity |]. split; [reflexivity |].
  intros D. apply modal_subtree_is_the_window in D. discriminate D.
Qed.

End HitTestSamples.

(** ** Modal elements *)

Section ModalFacts.
Import UISystem UISpec UISamples.

(** C9.  [SetModalElement] returns false and leaves the UI as it is for a
    null element, for an element whose type is not [Window], for an enable
    request on an element that is already a child of the modal root, and
    for a disable request on an element whose parent is not the modal
    root. *)
Theorem SetModalElement_rejections (fuel : nat) (ui : UI) :
  (forall enable, SetModalElement fuel ui None enable = Ret (false, ui))
  /\ (forall m me enable,
         heap ui !! m = Some me -> type_ me <> Window_type ->
         SetModalElement fuel ui (Some m) enable = Ret (false, ui))
  /\ (forall m me,
         heap ui !! m = Some me -> parent_ me = Some (rootModalElement_ ui) ->
         SetModalElement fuel ui (Some m) true = Ret (false, ui))
  /\ (forall m me,
         heap ui !! m = Some me -> parent_ me <> Some (rootModalElement_ ui) ->
         SetModalElement fuel ui (Some m) false = Ret (false, ui)).
Proof.
  split; [reflexivity |].
  split; [| split].
  - intros m me enable Hm Hty. unfold SetModalElement, load. rewrite Hm. simpl.
    rewrite bool_decide_eq_true_2 by assumption. reflexivity.
  - intros m me Hm Hp. unfold SetModalElement, load. rewrite Hm. simpl.
    destruct (bool_decide (type_ me <> Window_type)); [reflexivity |].
    rewrite bool_decide_eq_true_2 by assumption. reflexivity.
  - intros m me Hm Hp. unfold SetModalElement, load. rewrite Hm. simpl.
    destruct (bool_decide (type_ me <> Window_type)); [reflexivity |].
    rewrite bool_decide_eq_true_2 by assumption. reflexivity.
Qed.

Lemma SetModalElement_rejections_witness :
  SetModalElement 5 modal_ui (Some 3%nat) true = Ret (false, modal_ui)
  /\ SetModalElement 5 modal_ui (Some 4%nat) true = Ret (false, modal_ui)
  /\ SetModalElement 5 modal_ui (Some 5%nat) false = Ret (false, modal_ui).
Proof.
  destruct (SetModalElement_rejections 5 modal_ui) as (_ & Htype & Henable & Hdisable).
  split; [| split].
  - apply (Htype 3%nat (element_at "Button" (Some 1%nat) [] screen)); [reflexivity |].
    discriminate.
  - apply (Henable 4%nat (element_at "Window" (Some 2%nat) [] (mkIntRect 0 0 10 10)));
      reflexivity.
  - apply (Hdisable 5%nat (element_at "Window" (Some 1%nat) [] (mkIntRect 100 0 150 50)));
      [reflexivity | discriminate].
Defined.

(** The accepted requests do move the element: enabling the window 5 puts
    it under the modal root, and disabling it again puts it back. *)
Example SetModalElement_moves_window :
  match SetModalElement 5 modal_ui (Some 5%nat) true with
  | Ret (true, ui') =>
      (children_ <$> heap ui' !! 2%nat) = Some [4%nat; 5%nat]
      /\ (children_ <$> heap ui' !! 1%nat) = Some [3%nat]
      /\ (parent_ <$> heap ui' !! 5%nat) = Some (Some 2%nat)
      /\ match SetModalElement 5 ui' (Some 5%nat) false with
         | Ret (true, ui'') =>
             (children_ <$> heap ui'' !! 1%nat) = Some [3%nat; 5%nat]
             /\ (children_ <$> heap ui'' !! 2%nat) = Some [4%nat]
         | _ => False
         end
  | _ => False
  end.
Proof. vm_compute. repeat split. Qed.

End ModalFacts.

(** ** Handlers *)

Section HandlerFacts.
Import UISystem UISpec RouterSpec.
Context `{Handlers}.

Lemma set_heap_same (ui : UI) : set_heap ui (heap ui) = ui.
Proof. destruct ui; reflexivity. Qed.

Lemma same_router_refl ui : same_router ui ui.
Proof. unfold same_router. symmetry. apply set_heap_same. Qed.

Lemma same_router_trans a b c : same_router a b -> same_router b c -> same_router a c.
Proof. unfold same_router. intros -> ->. reflexivity. Qed.

Lemma deliver_same ui ev : same_router ui (deliver ui ev).
Proof. reflexivity. Qed.

Lemma deliver_all_same t : forall ui, same_router ui (deliver_all ui t).
Proof.
  induction t as [| ev t IH]; intros ui; [apply same_router_refl |].
  eapply same_router_trans; [apply (deliver_same ui ev) | apply IH].
Qed.

Lemma same_router_fields ui ui' :
  same_router ui ui' ->
  rootElement_ ui' = rootElement_ ui /\ rootModalElement_ ui' = rootModalElement_ ui
  /\ cursor_ ui' = cursor_ ui /\ focusElement_ ui' = focusElement_ ui
  /\ dragElements_ ui' = dragElements_ ui /\ dragElementsCount_ ui' = dragElementsCount_ ui
  /\ dragConfirmedCount_ ui' = dragConfirmedCount_ ui
  /\ dragElementsConfirmed_ ui' = dragElementsConfirmed_ ui
  /\ doubleClickElement_ ui' = doubleClickElement_ ui
  /\ doubleClickFirstPos_ ui' = doubleClickFirstPos_ ui
  /\ clickTimer_ ui' = clickTimer_ ui
  /\ doubleClickInterval_ ui' = doubleClickInterval_ ui
  /\ maxDoubleClickDist_ ui' = maxDoubleClickDist_ ui
  /\ mouseButtons_ ui' = mouseButtons_ ui /\ lastMouseButtons_ ui' = lastMouseButtons_ ui
  /\ usingTouchInput_ ui' = usingTouchInput_ ui.
Proof. intros ->. repeat split. Qed.

(** An element that is gone stays gone. *)
Lemma deliver_expired ui ev p : heap ui !! p = None -> heap (deliver ui ev) !! p = None.
Proof. intros E. apply handle_expired. exact E. Qed.

Lemma deliver_all_expired t p :
  forall ui, heap ui !! p = None -> heap (deliver_all ui t) !! p = None.
Proof.
  induction t as [| ev t IH]; intros ui E; [exact E |].
  apply IH, deliver_expired, E.
Qed.


Lemma deliver_kept ui ev p :
  kept p -> is_Some (heap ui !! p) -> is_Some (heap (deliver ui ev) !! p).
Proof. intros K A. apply K, A. Qed.

Lemma deliver_all_kept t p :
  kept p -> forall ui, is_Some (heap ui !! p) -> is_Some (heap (deliver_all ui t) !! p).
Proof.
  intros K. induction t as [| ev t IH]; intros ui A; [exact A |].
  apply IH, deliver_kept; assumption.
Qed.



Lemma deliver_all_app t1 t2 ui :
  deliver_all ui (t1 ++ t2) = deliver_all (deliver_all ui t1) t2.
Proof. unfold deliver_all. apply fold_left_app. Qed.

Lemma deliver_all_heap t : forall ui ui', heap ui = heap ui' ->
  heap (deliver_all ui t) = heap (deliver_all ui' t).
Proof.
  induction t as [| ev t IH]; intros ui ui' E; [exact E |].
  apply IH. cbn [deliver heap set_heap]. rewrite E. reflexivity.
Qed.

Lemma handled_refl ui : handled ui ui.
Proof. exists []. reflexivity. Qed.

Lemma handled_heap ui ui' : heap ui' = heap ui -> handled ui ui'.
Proof. intros E. exists []. exact E. Qed.

Lemma handled_deliver_all ui t : handled ui (deliver_all ui t).
Proof. exists t. reflexivity. Qed.

Lemma handled_trans a b c : handled a b -> handled b c -> handled a c.
Proof.
  intros [t1 E1] [t2 E2]. exists (t1 ++ t2). rewrite E2, deliver_all_app.
  apply deliver_all_heap. exact E1.
Qed.

Lemma handled_expired ui ui' p : handled ui ui' -> heap ui !! p = None -> heap ui' !! p = None.
Proof. intros [t ->]. apply deliver_all_expired. Qed.


Lemma handled_kept ui ui' p :
  kept p -> handled ui ui' -> is_Some (heap ui !! p) -> is_Some (heap ui' !! p).
Proof. intros K [t ->]. apply deliver_all_kept. exact K. Qed.


Lemma weak_alive ui p e : heap ui !! p = Some e -> weak ui (Some p) = Some p.
Proof.
  intros E. unfold weak, live. rewrite bool_decide_eq_true_2; [reflexivity |].
  rewrite E. eexists. reflexivity.
Qed.

Lemma weak_expired ui p : heap ui !! p = None -> weak ui (Some p) = None.
Proof.
  intros E. unfold weak, live. rewrite bool_decide_eq_false_2; [reflexivity |].
  rewrite E. intros [? N]. discriminate N.
Qed.

Lemma weak_None ui : weak ui None = None.
Proof. reflexivity. Qed.

Lemma weak_cases ui w : weak ui w = w \/ weak ui w = None.
Proof. unfold weak. destruct (live _ _); auto. Qed.

End HandlerFacts.

(** ** The hit test returns *)

Section HitTotality.
Import UISystem UISpec RouterSpec.

Lemma subtree_ok_alive n h p : subtree_ok n h p = true -> is_Some (h !! p).
Proof. destruct n; simpl; destruct (h !! p); try discriminate; eauto. Qed.

Ltac returns_step :=
  match goal with
  | |- exists r, Ret _ = Ret r => eexists; reflexivity
  | |- exists r, (if ?b then _ else _) = Ret r => destruct b eqn:?
  | |- exists r, match ?b with _ => _ end = Ret r => destruct b eqn:?
  end.

Lemma GetElementAt_children_total (ui : UI) (current : UIElement)
    (descend : option Ptr -> Ptr -> res (option Ptr)) (position : IntVector2)
    (enabledOnly : bool) :
  is_Some (heap ui !! rootElement_ ui) -> layout_ok current = true ->
  forall (cs : list Ptr) (i : Z) (skip : nat) (result : option Ptr),
    (forall p, In p cs ->
               exists e, heap ui !! p = Some e
                         /\ (children_ e <> [] ->
                             forall result, exists r, descend result p = Ret r)) ->
    exists r,
      GetElementAt_children ui current descend position enabledOnly cs i skip result = Ret r.
Proof.
  intros [root Hroot] Hlay. induction cs as [| p cs IH]; intros i skip result Hcs.
  - eexists. reflexivity.
  - assert (Hrest : forall i skip result,
               exists r, GetElementAt_children ui current descend position enabledOnly cs i
                           skip result = Ret r).
    { intros. apply IH. intros q Hq. apply Hcs. right. exact Hq. }
    destruct (Hcs p (or_introl eq_refl)) as (e & He & Hdesc).
    cbn [GetElementAt_children]. destruct skip as [| skip]; [| apply Hrest].
    unfold load. rewrite He, Hroot. cbn [deref mbind res_bind].
    unfold layout_ok in Hlay.
    assert (Hnofault : (0 <? layoutElementMaxSize_ current) = true ->
                       (layoutElementMaxSize_ current + layoutSpacing_ current =? 0) = true ->
                       False).
    { intros A B. rewrite A, B in Hlay. discriminate Hlay. }
    destruct (decide (children_ e = [])) as [Hc | Hc].
    + rewrite (bool_decide_eq_true_2 _ Hc). cbn [negb].
      repeat first [ apply Hrest | returns_step ]; try (eexists; reflexivity).
      all: exfalso;
        match goal with
        | A : (_ <? 0) && (0 <? _) = true |- _ => apply andb_true_iff in A as [_ A]
        end; eauto.
    + rewrite (bool_decide_eq_false_2 _ Hc). cbn [negb].
      assert (Hgo : forall result,
                 exists r, (descend result p
                            ≫= fun result : option Ptr =>
                                 GetElementAt_children ui current descend position
                                   enabledOnly cs (i + 1) 0 result) = Ret r).
      { intros res0. destruct (Hdesc Hc res0) as (r & ->). cbn [mbind res_bind]. apply Hrest. }
      repeat first [ apply Hrest | apply Hgo | returns_step ]; try (eexists; reflexivity).
Qed.

Lemma forallb_In {A} (f : A -> bool) (l : list A) (x : A) :
  forallb f l = true -> In x l -> f x = true.
Proof. intros F. apply (proj1 (forallb_forall f l) F). Qed.

Lemma GetElementAt_rec_total (ui : UI) (position : IntVector2) (enabledOnly : bool) :
  is_Some (heap ui !! rootElement_ ui) ->
  forall (n : nat) (p : Ptr) (result : option Ptr),
    subtree_ok n (heap ui) p = true ->
    exists r, GetElementAt_rec (S n) ui result (Some p) position enabledOnly = Ret r.
Proof.
  intros Hroot. induction n as [| n IH]; intros p result Hok.
  - cbn [subtree_ok] in Hok. cbn [GetElementAt_rec]. unfold load.
    destruct (heap ui !! p) as [e |]; [| discriminate].
    apply andb_true_iff in Hok as [_ Hc]. apply bool_decide_eq_true in Hc.
    cbn [deref mbind res_bind]. rewrite Hc. cbn [GetElementAt_children].
    eexists. reflexivity.
  - cbn [subtree_ok] in Hok. cbn [GetElementAt_rec]. unfold load.
    destruct (heap ui !! p) as [e |] eqn:He; [| discriminate].
    apply andb_true_iff in Hok as [Hlay Hc]. cbn [deref mbind res_bind].
    apply GetElementAt_children_total; [exact Hroot | exact Hlay |].
    intros q Hq. pose proof (forallb_In _ _ q Hc Hq) as Hqok.
    destruct (subtree_ok_alive _ _ _ Hqok) as [qe Hqe]. exists qe. split; [exact Hqe |].
    intros _ res0. apply (IH q res0 Hqok).
Qed.

Lemma GetElementAt_root_total (n : nat) (ui : UI) (root : Ptr) (position : IntVector2)
    (enabledOnly : bool) :
  is_Some (heap ui !! rootElement_ ui) -> subtree_ok n (heap ui) root = true ->
  exists r, GetElementAt_root (S n) ui root position enabledOnly = Ret r.
Proof.
  intros Hroot Hok. unfold GetElementAt_root, load.
  destruct (subtree_ok_alive _ _ _ Hok) as [r Hr]. rewrite Hr. cbn [deref mbind res_bind].
  destruct (_ || _); [eexists; reflexivity |].
  destruct (_ || _); [eexists; reflexivity |].
  apply GetElementAt_rec_total; assumption.
Qed.

Lemma GetElementAt_textures_total (n : nat) (ui : UI) (position : IntVector2)
    (enabledOnly : bool) :
  is_Some (heap ui !! rootElement_ ui) ->
  forall roots,
    forallb (fun r => match heap ui !! r with
                      | Some _ => subtree_ok n (heap ui) r
                      | None => true
                      end) roots = true ->
    exists r, GetElementAt_textures (S n) ui roots position enabledOnly = Ret r.
Proof.
  intros Hroot. induction roots as [| root roots IH]; intros Hok.
  - eexists. reflexivity.
  - cbn [forallb] in Hok. apply andb_true_iff in Hok as [Hr Hok].
    cbn [GetElementAt_textures]. destruct (heap ui !! root) as [r |] eqn:E; [| apply IH, Hok].
    destruct (negb (enabled_ r)); [apply IH, Hok |].
    destruct (CombinedScreenRect_IsInside r _); [| apply IH, Hok].
    destruct (GetElementAt_root_total n ui root (ScreenToElement r position) enabledOnly
                Hroot Hr) as ([hit |] & ->); cbn [mbind res_bind];
      [eexists; reflexivity | apply IH, Hok].
Qed.

(** With fuel for the trees it searches, the hit test returns. *)
Lemma GetElementAt_total (fuel : nat) (ui : UI) (position : IntVector2)
    (enabledOnly : bool) :
  hit_ready fuel ui = true ->
  exists element written, GetElementAt fuel ui position enabledOnly = Ret (element, written).
Proof.
  unfold hit_ready. destruct fuel as [| n]; [discriminate |]. intros Hok.
  apply andb_true_iff in Hok as [Hok Hrtt]. apply andb_true_iff in Hok as [Hroot Hmodal].
  pose proof (subtree_ok_alive _ _ _ Hroot) as Aroot.
  destruct (subtree_ok_alive _ _ _ Hmodal) as [m Hm].
  unfold GetElementAt, GetElementAt_modal, HasModalElement, load.
  rewrite Hm. cbn [deref mbind res_bind].
  assert (Hsecond : forall result : option Ptr,
             exists element written,
               (match result with
                | Some _ => Ret result
                | None => GetElementAt_root (S n) ui (rootElement_ ui) position enabledOnly
                end
                ≫= fun result : option Ptr =>
                     match result, renderToTexture_ ui with
                     | None, _ :: _ =>
                         GetElementAt_textures (S n) ui (renderToTexture_ ui) position
                           enabledOnly
                         ≫= fun hit : option (Ptr * IntVector2) =>
                              match hit with
                              | Some (element, screenPosition) =>
                                  Ret (Some element, Some screenPosition)
                              | None => Ret (None, None)
                              end
                     | _, _ => Ret (result, Some position)
                     end) = Ret (element, written)).
  { intros result.
    assert (Hfirst : exists r,
               match result with
               | Some _ => Ret result
               | None => GetElementAt_root (S n) ui (rootElement_ ui) position enabledOnly
               end = Ret r).
    { destruct result; [eexists; reflexivity |]. apply GetElementAt_root_total; assumption. }
    destruct Hfirst as (r & ->). cbn [mbind res_bind].
    destruct r as [hit |]; [eexists _, _; reflexivity |].
    destruct (renderToTexture_ ui) as [| t ts] eqn:Ert; [eexists _, _; reflexivity |].
    destruct (GetElementAt_textures_total n ui position enabledOnly Aroot (t :: ts) Hrtt)
      as ([[e s] |] & ->); cbn [mbind res_bind]; eexists _, _; reflexivity. }
  destruct (negb (bool_decide (children_ m = []))).
  - destruct (GetElementAt_root_total n ui (rootModalElement_ ui) position enabledOnly
                Aroot Hmodal) as (r & ->).
    cbn [mbind res_bind]. apply (Hsecond r).
  - cbn [mbind res_bind]. apply (Hsecond None).
Qed.

End HitTotality.

(** ** Drag registry *)

Section DragFacts.
Import UISystem UISpec RouterSpec.
Context `{Handlers}.

Lemma DragElementErase_fields (ui : UI) before d after x :
  dragElements_ ui = before ++ x :: after ->
  heap (DragElementErase ui before d after) = heap ui
  /\ dragElements_ (DragElementErase ui before d after) = before ++ after
  /\ mouseButtons_ (DragElementErase ui before d after) = mouseButtons_ ui
  /\ cursor_ (DragElementErase ui before d after) = cursor_ ui.
Proof.
  intros E. unfold DragElementErase. rewrite E.
  destruct (before ++ x :: after) eqn:E'; [destruct before; discriminate E' |].
  simpl. tauto.
Qed.

Lemma SendDragOrHoverEvent_on ty (w : option Ptr) (p : Ptr) :
  existsb (is_drag_callback_on p) (SendDragOrHoverEvent ty w) = true -> w = Some p.
Proof.
  destruct w as [el |]; [| discriminate]. cbn [SendDragOrHoverEvent existsb].
  rewrite orb_false_r. unfold is_drag_callback_on.
  destruct ty; try discriminate; intros E; apply bool_decide_eq_true in E; congruence.
Qed.

Lemma drag_events_same ui ty w :
  same_router ui (deliver_all ui (SendDragOrHoverEvent ty w)).
Proof. apply deliver_all_same. Qed.

Lemma ProcessDragCancel_loop_spec (cursorPos : IntVector2) :
  forall (remaining before : list (Ptr * DragData)) (ui : UI),
    dragElements_ ui = before ++ remaining ->
    exists left,
      dragElements_ (ProcessDragCancel_loop ui before remaining cursorPos).1 = before ++ left
      /\ (forall kv, In kv left -> In kv remaining)
      /\ (forall kv, In kv remaining -> dragBeginPending kv.2 = true -> In kv left)
      /\ (forall p,
             existsb (is_drag_callback_on p)
               (ProcessDragCancel_loop ui before remaining cursorPos).2 = true ->
             exists d, In (p, d) remaining /\ dragBeginPending d = false).
Proof.
  induction remaining as [| [k d] after IH]; intros before ui E.
  - exists []. cbn [ProcessDragCancel_loop fst snd]. rewrite app_nil_r in *.
    split; [exact E |]. split; [tauto |]. split; [tauto |]. intros p N. discriminate N.
  - assert (Hkeep : dragElements_ ui = (before ++ [(k, d)]) ++ after)
      by (rewrite <- app_assoc; exact E).
    assert (Hskip :
      exists left,
        dragElements_ (ProcessDragCancel_loop ui (before ++ [(k, d)]) after cursorPos).1
        = before ++ left
        /\ (forall kv, In kv left -> In kv ((k, d) :: after))
        /\ (forall kv, In kv ((k, d) :: after) -> dragBeginPending kv.2 = true ->
                       In kv left)
        /\ (forall p,
               existsb (is_drag_callback_on p)
                 (ProcessDragCancel_loop ui (before ++ [(k, d)]) after cursorPos).2 = true ->
               exists d', In (p, d') ((k, d) :: after) /\ dragBeginPending d' = false)).
    { destruct (IH _ ui Hkeep) as (left & Hreg & Hsub & Hpend & Hcb).
      exists ((k, d) :: left). rewrite Hreg, <- app_assoc.
      split; [reflexivity |].
      split; [intros kv [<- | Hin]; [left; reflexivity | right; apply Hsub, Hin] |].
      split; [intros kv [<- | Hin] Hp; [left; reflexivity | right; apply Hpend; assumption] |].
      intros p Hp. destruct (Hcb p Hp) as (d' & Hin & Hd'). exists d'. split; [right |]; auto. }
    cbn [ProcessDragCancel_loop]. destruct (heap ui !! k) as [de |] eqn:Hk; [| exact Hskip].
    destruct (enabled_ de && visible_ de && negb (dragBeginPending d)) eqn:C; [| exact Hskip].
    clear Hskip.
    set (cancelled := OnDragCancel k (ScreenToElement de cursorPos) cursorPos
                        (dragButtons d) (mouseButtons_ ui) (cursor_ ui)).
    set (ui1 := deliver ui cancelled).
    set (events := SendDragOrHoverEvent E_DRAGCANCEL (weak ui1 (Some k))).
    set (ui2 := deliver_all ui1 events).
    assert (E2 : dragElements_ ui2 = before ++ (k, d) :: after).
    { unfold ui2, ui1.
      rewrite (proj1 (proj2 (proj2 (proj2 (proj2
                (same_router_fields _ _ (deliver_all_same events _))))))). exact E. }
    destruct (DragElementErase_fields ui2 before d after (k, d) E2) as (_ & Hd & _).
    destruct (IH before _ Hd) as (left & Hreg & Hsub & Hpend & Hcb).
    destruct (ProcessDragCancel_loop _ before after cursorPos) as [ui' rest] eqn:L.
    cbn [fst snd] in *. exists left.
    split; [exact Hreg |].
    split; [intros kv Hin; right; apply Hsub, Hin |].
    split.
    { intros kv [<- | Hin] Hp; [| apply Hpend; assumption].
      cbn [snd] in Hp. rewrite Hp, andb_false_r in C. discriminate C. }
    intros p Hp. cbn [existsb] in Hp. rewrite existsb_app in Hp.
    assert (Hd' : dragBeginPending d = false).
    { destruct (dragBeginPending d); [rewrite andb_false_r in C; discriminate C | reflexivity]. }
    apply orb_true_iff in Hp as [Hp | Hp]; [| apply orb_true_iff in Hp as [Hp | Hp]].
    + unfold cancelled, is_drag_callback_on in Hp. apply bool_decide_eq_true in Hp.
      subst p. exists d. split; [left; reflexivity | exact Hd'].
    + apply SendDragOrHoverEvent_on in Hp.
      destruct (weak_cases ui1 (Some k)) as [W | W]; rewrite W in Hp; [| discriminate].
      injection Hp as <-. exists d. split; [left; reflexivity | exact Hd'].
    + destruct (Hcb p Hp) as (d' & Hin & Hdp). exists d'. split; [right |]; auto.
Qed.

Lemma existsb_false_iff {A} (f : A -> bool) (l : list A) :
  existsb f l = false <-> forall x, In x l -> f x = false.
Proof.
  split.
  - intros Hf x Hx. destruct (f x) eqn:Fx; [| reflexivity].
    rewrite <- Hf. symmetry. apply existsb_exists. eauto.
  - intros Hall. destruct (existsb f l) eqn:Ex; [| reflexivity].
    apply existsb_exists in Ex as (x & Hx & Fx). rewrite (Hall x Hx) in Fx. discriminate.
Qed.

Lemma unique_entry (entries : list (Ptr * DragData)) (p : Ptr) (d d' : DragData) :
  List.NoDup (map fst entries) -> In (p, d) entries -> In (p, d') entries -> d' = d.
Proof.
  induction entries as [| [k e] entries IH]; intros ND H1 H2; [destruct H1 |].
  simpl in ND. apply List.NoDup_cons_iff in ND as [Hk ND].
  destruct H1 as [H1 | H1], H2 as [H2 | H2].
  - congruence.
  - injection H1 as -> ->. exfalso. apply Hk. apply in_map_iff. exists (p, d'). auto.
  - injection H2 as -> ->. exfalso. apply Hk. apply in_map_iff. exists (p, d). auto.
  - apply IH; assumption.
Qed.

(** C5 (as amended).  A drag that is still pending when a drag cancel is
    processed gets no begin, end or cancel callback, and its entry stays in
    the drag registry as it is. *)
Theorem ProcessDragCancel_leaves_pending_drags (ui : UI) (cursorPos : IntVector2)
    (p : Ptr) (d : DragData) :
  List.NoDup (tracked ui) -> In (p, d) (dragElements_ ui) -> dragBeginPending d = true ->
  In (p, d) (dragElements_ (ProcessDragCancel ui cursorPos).1)
  /\ existsb (is_drag_callback_on p) (ProcessDragCancel ui cursorPos).2 = false.
Proof.
  intros ND Hin Hp. unfold ProcessDragCancel.
  destruct (usingTouchInput_ ui); [split; [exact Hin | reflexivity] |].
  destruct (ProcessDragCancel_loop_spec cursorPos (dragElements_ ui) [] ui eq_refl)
    as (left & Hreg & _ & Hpend & Hcb).
  split.
  - rewrite Hreg. cbn [app]. apply (Hpend (p, d) Hin Hp).
  - destruct (existsb _ _) eqn:Ex; [| reflexivity].
    destruct (Hcb p Ex) as (d' & Hin' & Hd').
    rewrite (unique_entry _ _ _ _ ND Hin Hin') in Hd'. congruence.
Qed.

End DragFacts.
Section ClickEndFacts.
Import UISystem UISpec RouterSpec.
Context `{Handlers}.

Lemma SendClickEvent_no_drag_end p ty el :
  existsb (is_drag_end_on p) (SendClickEvent ty el) = false.
Proof. destruct el, ty; reflexivity. Qed.

Lemma click_end_spec ui element k cursorPos button buttons qualifiers cursor :
  (click_end ui element k cursorPos button buttons qualifiers cursor).1
  = deliver_all ui (click_end ui element k cursorPos button buttons qualifiers cursor).2
  /\ forall p,
       existsb (is_drag_end_on p)
         (click_end ui element k cursorPos button buttons qualifiers cursor).2 = false.
Proof.
  unfold click_end. destruct element as [el |]; [destruct (heap ui !! el) as [e |] |];
    cbn [fst snd app]; (split; [try reflexivity | intros p]);
    rewrite ?deliver_all_app; try reflexivity;
    rewrite ?existsb_app; cbn [existsb is_drag_end_on orb];
    apply SendClickEvent_no_drag_end.
Qed.

Lemma drop_finish_spec ui element k :
  (drop_finish ui element k).1 = deliver_all ui (drop_finish ui element k).2
  /\ forall p, existsb (is_drag_end_on p) (drop_finish ui element k).2 = false.
Proof.
  unfold drop_finish.
  destruct (match heap ui !! k with Some de => _ | None => false end);
    [| split; reflexivity].
  destruct element as [el |]; [| split; reflexivity].
  destruct (heap ui !! el) as [e |]; [| split; reflexivity].
  destruct (_ && _ && _); [| split; reflexivity].
  destruct (_ && _ && _); split; reflexivity.
Qed.

Lemma shown_lookup h p :
  shown h p -> exists e, h !! p = Some e /\ enabled_ e && visible_ e = true.
Proof. intros (e & He & En & Vi). exists e. rewrite En, Vi. auto. Qed.

Lemma drag_end_spec ui element k d cursorPos buttons cursor :
  (drag_end ui element k d cursorPos buttons cursor).1
  = deliver_all ui (drag_end ui element k d cursorPos buttons cursor).2
  /\ (forall p,
         existsb (is_drag_end_on p) (drag_end ui element k d cursorPos buttons cursor).2
         = true ->
         p = k /\ dragBeginPending d = false /\ shown (heap ui) k)
  /\ (shown (heap ui) k -> dragBeginPending d = false ->
      existsb (is_drag_end_on k) (drag_end ui element k d cursorPos buttons cursor).2
      = true).
Proof.
  unfold drag_end. destruct (heap ui !! k) as [de |] eqn:Hk.
  - destruct (enabled_ de && visible_ de && negb (dragBeginPending d)) eqn:C.
    + set (ended := OnDragEnd k (ScreenToElement de cursorPos) cursorPos (dragButtons d)
                      buttons cursor).
      set (ui1 := deliver ui ended).
      set (events := SendDragOrHoverEvent E_DRAGEND (weak ui1 (Some k))).
      set (ui2 := deliver_all ui1 events).
      destruct (drop_finish_spec ui2 element k) as [Hd Hn].
      destruct (drop_finish ui2 element k) as [ui3 dropped]. cbn [fst snd] in *.
      apply andb_true_iff in C as [C Hp]. apply andb_true_iff in C as [En Vi].
      apply negb_true_iff in Hp.
      split; [| split].
      * rewrite Hd. change (ended :: events ++ dropped) with ([ended] ++ events ++ dropped).
        rewrite !deliver_all_app. reflexivity.
      * intros p Hev. cbn [existsb] in Hev. rewrite existsb_app, Hn, orb_false_r in Hev.
        assert (Hsent : existsb (is_drag_end_on p) events = false)
          by (unfold events; destruct (weak ui1 (Some k)); reflexivity).
        rewrite Hsent, orb_false_r in Hev. unfold ended, is_drag_end_on in Hev.
        apply bool_decide_eq_true in Hev. subst p.
        split; [reflexivity |]. split; [exact Hp |]. exists de. auto.
      * intros _ _. cbn [existsb is_drag_end_on ended].
        rewrite bool_decide_eq_true_2 by reflexivity. reflexivity.
    + cbn [fst snd]. split; [reflexivity |]. split; [intros p N; discriminate N |].
      intros (e & He & En & Vi) Hp. rewrite Hk in He. injection He as <-.
      rewrite En, Vi, Hp in C. discriminate C.
  - cbn [fst snd]. split; [reflexivity |]. split; [intros p N; discriminate N |].
    intros (e & He & _). rewrite Hk in He. discriminate He.
Qed.





End ClickEndFacts.

(** ** Focus changes and clicks under handlers *)

Section FocusChangeFacts.
Import UISystem UISpec RouterSpec PointerSpec.
Context `{MathLib} `{Handlers}.

Lemma set_focusElement_same (ui : UI) : ui = set_focusElement_ ui (focusElement_ ui).
Proof. destruct ui; reflexivity. Qed.

Lemma focus_moved_refl ui : focus_moved ui ui.
Proof. unfold focus_moved. destruct ui; reflexivity. Qed.

Lemma same_router_focus_moved ui ui' : same_router ui ui' -> focus_moved ui ui'.
Proof.
  unfold same_router, focus_moved. intros E.
  transitivity (set_heap ui (heap ui')); [exact E |].
  rewrite E. destruct ui; reflexivity.
Qed.

Lemma focus_moved_step a b c : focus_moved a b -> same_router b c -> focus_moved a c.
Proof. unfold focus_moved, same_router. intros -> ->. reflexivity. Qed.

Lemma focus_moved_set a b f : focus_moved a b -> focus_moved a (set_focusElement_ b f).
Proof. unfold focus_moved. intros ->. reflexivity. Qed.

Lemma focus_moved_trans a b c : focus_moved a b -> focus_moved b c -> focus_moved a c.
Proof. unfold focus_moved. intros -> ->. reflexivity. Qed.

Lemma focus_moved_fields ui ui' :
  focus_moved ui ui' ->
  rootElement_ ui' = rootElement_ ui /\ rootModalElement_ ui' = rootModalElement_ ui
  /\ cursor_ ui' = cursor_ ui
  /\ dragElements_ ui' = dragElements_ ui /\ dragElementsCount_ ui' = dragElementsCount_ ui
  /\ dragConfirmedCount_ ui' = dragConfirmedCount_ ui
  /\ dragElementsConfirmed_ ui' = dragElementsConfirmed_ ui
  /\ doubleClickElement_ ui' = doubleClickElement_ ui
  /\ doubleClickFirstPos_ ui' = doubleClickFirstPos_ ui
  /\ clickTimer_ ui' = clickTimer_ ui
  /\ doubleClickInterval_ ui' = doubleClickInterval_ ui
  /\ maxDoubleClickDist_ ui' = maxDoubleClickDist_ ui
  /\ mouseButtons_ ui' = mouseButtons_ ui /\ lastMouseButtons_ ui' = lastMouseButtons_ ui
  /\ usingTouchInput_ ui' = usingTouchInput_ ui.
Proof. intros ->. repeat split. Qed.

Lemma forallb_existsb_false {A} (f g : A -> bool) (l : list A) :
  (forall x, f x = true -> g x = false) -> forallb f l = true -> existsb g l = false.
Proof.
  intros Hfg. induction l as [| x l IH]; [reflexivity |].
  cbn [forallb existsb]. intros [Hx Hl]%andb_true_iff.
  rewrite (Hfg x Hx), (IH Hl). reflexivity.
Qed.

(** The focus events are no click, double-click or drag callbacks. *)
Lemma focus_events_quiet (t : Trace) :
  forallb is_focus_event t = true ->
  (forall p, existsb (is_double_click_on p) t = false)
  /\ existsb is_double_click_event t = false
  /\ (forall p, existsb (is_drag_callback_on p) t = false).
Proof.
  intros Ht. repeat split; [intros p | | intros p];
    (apply (forallb_existsb_false is_focus_event); [| exact Ht]);
    intros [] E; try discriminate E;
    repeat match goal with
           | x : option Ptr |- _ => destruct x
           | x : EventType |- _ => destruct x
           end; try reflexivity; discriminate E.
Qed.

(** A focus change that returns has moved the focus and run handlers,
    nothing else, and has sent focus events only. *)
Lemma change_focus_returns (ui ui1 : UI) (original element : option Ptr) (t : Trace) :
  change_focus ui original element = Ret (ui1, t) ->
  focus_moved ui ui1 /\ handled ui ui1 /\ forallb is_focus_event t = true.
Proof.
  unfold change_focus. intros Hrun.
  set (old := Sent (focusElement_ ui) E_DEFOCUSED (focusElement_ ui)) in *.
  assert (Hfirst : exists u d,
             (if live (heap ui) (focusElement_ ui)
              then (deliver (set_focusElement_ ui None) old, [old]) else (ui, [])) = (u, d)
             /\ focus_moved ui u /\ handled ui u /\ forallb is_focus_event d = true).
  { destruct (live (heap ui) (focusElement_ ui)); eexists _, _; (split; [reflexivity |]).
    - split; [reflexivity |]. split; [| reflexivity].
      apply handled_trans with (set_focusElement_ ui None);
        [apply handled_heap; reflexivity |].
      apply (handled_deliver_all (set_focusElement_ ui None) [old]).
    - split; [apply focus_moved_refl |]. split; [apply handled_refl | reflexivity]. }
  destruct Hfirst as (u & d & E1 & Hm & Hh & Hd). rewrite E1 in Hrun. clear E1.
  assert (Hsecond : forall u2 f,
             match element with
             | Some el =>
                 e ← load (heap u) el;
                 if at_least_focusable (focusMode_ e)
                 then Ret (deliver (set_focusElement_ u (Some el))
                             (Sent (Some el) E_FOCUSED (Some el)),
                           [Sent (Some el) E_FOCUSED (Some el)])
                 else Ret (u, [])
             | None => Ret (u, [])
             end = Ret (u2, f) ->
             focus_moved ui u2 /\ handled ui u2 /\ forallb is_focus_event f = true).
  { intros u2 f E. destruct element as [el |].
    - destruct (load (heap u) el) as [e | |]; cbn [mbind res_bind] in E;
        try discriminate E.
      destruct (at_least_focusable (focusMode_ e)); injection E as <- <-.
      + split; [| split; [| reflexivity]].
        * eapply focus_moved_step; [apply focus_moved_set; exact Hm | apply deliver_same].
        * apply handled_trans with u; [exact Hh |].
          apply handled_trans with (set_focusElement_ u (Some el));
            [apply handled_heap; reflexivity |].
          apply (handled_deliver_all _ [Sent (Some el) E_FOCUSED (Some el)]).
      + tauto.
    - injection E as <- <-. tauto. }
  match type of Hrun with
  | context [mbind _ ?m] => destruct m as [[u2 f] | |] eqn:E2
  end; cbn [mbind res_bind] in Hrun; try discriminate Hrun.
  destruct (Hsecond u2 f eq_refl) as (Hm2 & Hh2 & Hf2).
  injection Hrun as <- <-.
  split; [eapply focus_moved_step; [exact Hm2 | apply deliver_same] |].
  split.
  - apply handled_trans with u2; [exact Hh2 |].
    apply (handled_deliver_all u2 [Sent_FocusChanged original element]).
  - rewrite !forallb_app, Hd, Hf2. reflexivity.
Qed.

Lemma change_focus_total (ui : UI) (original element : option Ptr) :
  (forall f, element = Some f -> is_Some (defocused ui !! f)) ->
  exists ui1 t, change_focus ui original element = Ret (ui1, t).
Proof.
  intros Hkept. unfold change_focus, defocused in *.
  destruct element as [f |].
  - destruct (Hkept f eq_refl) as [e He].
    destruct (live (heap ui) (focusElement_ ui)); cbn [mbind res_bind]; unfold load;
      cbn [heap deliver set_heap set_focusElement_]; rewrite He; cbn [deref mbind res_bind];
      destruct (at_least_focusable (focusMode_ e)); cbn [mbind res_bind];
      eexists _, _; reflexivity.
  - destruct (live (heap ui) (focusElement_ ui)); cbn [mbind res_bind];
      eexists _, _; reflexivity.
Qed.

Lemma SetFocusElement_returns (fuel : nat) (ui ui1 : UI) (element : option Ptr) (t : Trace) :
  SetFocusElement fuel ui element = Ret (ui1, t) ->
  focus_moved ui ui1 /\ handled ui ui1 /\ forallb is_focus_event t = true.
Proof.
  assert (Hsame : forall u1 t1, Ret (ui, []) = Ret (u1, t1) ->
                    focus_moved ui u1 /\ handled ui u1 /\ forallb is_focus_event t1 = true).
  { intros u1 t1 E. injection E as <- <-.
    split; [apply focus_moved_refl |]. split; [apply handled_refl | reflexivity]. }
  unfold SetFocusElement. intros Hrun. destruct element as [el |];
    [| eapply change_focus_returns; exact Hrun].
  destruct (bool_decide (focusElement_ ui = Some el)); [apply Hsame; exact Hrun |].
  destruct (HasModalElement ui) as [modal | |]; simpl in Hrun; try discriminate.
  destruct (load (heap ui) el) as [e | |]; simpl in Hrun; try discriminate.
  destruct (if modal then _ else _) as [[top |] | |]; simpl in Hrun; try discriminate;
    [apply Hsame; exact Hrun |].
  destruct (GetFocusableElement fuel (heap ui) (Some el)) as [[focusable |] | |];
    simpl in Hrun; try discriminate; [| apply Hsame; exact Hrun].
  eapply change_focus_returns; exact Hrun.
Qed.

Lemma top_level_under_total (h : Heap) (root : Ptr) :
  forall (n : nat) (x : option Ptr) (fuel : nat),
    chain_ok n h x = true -> (n <= fuel)%nat ->
    exists r, top_level_under fuel h root x = Ret r.
Proof.
  induction n as [| n IH]; intros x fuel Hok Hn; destruct x as [p |];
    try (destruct fuel; eexists; reflexivity);
    cbn [chain_ok] in Hok.
  - destruct (h !! p); discriminate Hok.
  - destruct (h !! p) as [e |] eqn:He; [| discriminate].
    destruct fuel as [| fuel]; [lia |].
    cbn [top_level_under]. unfold load. rewrite He. cbn [deref mbind res_bind].
    destruct (bool_decide (parent_ e <> Some root)); [| eexists; reflexivity].
    apply (IH _ fuel Hok). lia.
Qed.

Lemma GetFocusableElement_total (h : Heap) :
  forall (n : nat) (x : option Ptr) (fuel : nat),
    chain_ok n h x = true -> (n <= fuel)%nat ->
    exists r, GetFocusableElement fuel h x = Ret r.
Proof.
  induction n as [| n IH]; intros x fuel Hok Hn; destruct x as [p |];
    try (destruct fuel; eexists; reflexivity);
    cbn [chain_ok] in Hok.
  - destruct (h !! p); discriminate Hok.
  - destruct (h !! p) as [e |] eqn:He; [| discriminate].
    destruct fuel as [| fuel]; [lia |].
    cbn [GetFocusableElement]. unfold load. rewrite He. cbn [deref mbind res_bind].
    destruct (bool_decide (focusMode_ e <> FM_NOTFOCUSABLE)); [eexists; reflexivity |].
    apply (IH _ fuel Hok). lia.
Qed.

Lemma chain_ok_alive n h p : chain_ok n h (Some p) = true -> is_Some (h !! p).
Proof. destruct n; cbn [chain_ok]; destruct (h !! p); try discriminate; eauto. Qed.

Lemma HasModalElement_total (ui : UI) :
  is_Some (heap ui !! rootModalElement_ ui) <-> exists modal, HasModalElement ui = Ret modal.
Proof.
  unfold HasModalElement, load. split.
  - intros [m ->]. eexists. reflexivity.
  - intros [modal E]. destruct (heap ui !! rootModalElement_ ui); [eauto | discriminate E].
Qed.

(** A hit test that returns has found the modal root alive. *)
Lemma GetElementAt_modal_root (fuel : nat) (ui : UI) position enabledOnly r :
  GetElementAt fuel ui position enabledOnly = Ret r ->
  is_Some (heap ui !! rootModalElement_ ui).
Proof.
  unfold GetElementAt, GetElementAt_modal. intros E. apply HasModalElement_total.
  destruct (HasModalElement ui) as [modal | |]; [eauto | discriminate E ..].
Qed.

(** A click on an element whose ancestors are within the fuel gives the
    focus away whenever the element that takes it outlives the defocused
    event of the one that had it. *)
Lemma SetFocusElement_total (fuel : nat) (ui : UI) (el : Ptr) :
  chain_ok fuel (heap ui) (Some el) = true ->
  is_Some (heap ui !! rootModalElement_ ui) ->
  focus_target_kept fuel ui el ->
  exists ui1 t, SetFocusElement fuel ui (Some el) = Ret (ui1, t).
Proof.
  intros Hchain Hroot Hkept. unfold SetFocusElement.
  destruct (bool_decide (focusElement_ ui = Some el)); [eexists _, _; reflexivity |].
  apply HasModalElement_total in Hroot. destruct Hroot as [modal ->].
  cbn [mbind res_bind].
  destruct (chain_ok_alive _ _ _ Hchain) as [e He].
  unfold load at 1. rewrite He. cbn [deref mbind res_bind].
  assert (Hparent : exists n, fuel = S n /\ chain_ok n (heap ui) (parent_ e) = true).
  { destruct fuel as [| n]; cbn [chain_ok] in Hchain; rewrite He in Hchain;
      [discriminate | eauto]. }
  destruct Hparent as (n & Hn & Hp).
  assert (Htop : exists top,
             (if modal then top_level_under fuel (heap ui) (rootElement_ ui) (parent_ e)
              else Ret None) = Ret top).
  { destruct modal; [| eauto]. apply (top_level_under_total _ _ n); [exact Hp | lia]. }
  destruct Htop as [top ->]. cbn [mbind res_bind].
  destruct top; [eexists _, _; reflexivity |].
  destruct (GetFocusableElement_total (heap ui) fuel (Some el) fuel Hchain (le_n _))
    as [focusable Hf].
  rewrite Hf. cbn [mbind res_bind].
  destruct focusable as [f |]; [| eexists _, _; reflexivity].
  apply change_focus_total. intros f' [= <-]. apply Hkept. exact Hf.
Qed.

Lemma SetFocusElement_None_total (fuel : nat) (ui : UI) :
  exists ui1 t, SetFocusElement fuel ui None = Ret (ui1, t).
Proof. apply change_focus_total. discriminate. Qed.


Lemma SendClickEvent_quiet ty el :
  (forall p, existsb (is_double_click_on p) (SendClickEvent ty el) = false)
  /\ existsb is_double_click_event (SendClickEvent E_UIMOUSECLICK el) = false
  /\ (forall p, existsb (is_drag_callback_on p) (SendClickEvent E_UIMOUSECLICK el) = false).
Proof. repeat split; try intros p; destruct el; try destruct ty; reflexivity. Qed.

Lemma SendDoubleClickEvent_quiet el :
  (forall p, existsb (is_double_click_on p) (SendDoubleClickEvent el) = false)
  /\ existsb is_double_click_event (SendDoubleClickEvent el) = true
  /\ (forall p, existsb (is_drag_callback_on p) (SendDoubleClickEvent el) = false).
Proof. repeat split; try intros p; destruct el; reflexivity. Qed.

Lemma start_drag_click (ui : UI) el newButton button cursorPos now :
  doubleClickElement_ (start_drag ui el newButton button cursorPos now)
  = doubleClickElement_ ui
  /\ doubleClickFirstPos_ (start_drag ui el newButton button cursorPos now)
     = doubleClickFirstPos_ ui
  /\ clickTimer_ (start_drag ui el newButton button cursorPos now) = clickTimer_ ui
  /\ heap (start_drag ui el newButton button cursorPos now) = heap ui
  /\ focusElement_ (start_drag ui el newButton button cursorPos now) = focusElement_ ui.
Proof.
  unfold start_drag. destruct (negb _); [| destruct newButton]; repeat split.
Qed.

End FocusChangeFacts.

Section ClickBeginFacts.
Import UISystem UISpec RouterSpec PointerSpec.
Context `{MathLib} `{Handlers}.

Lemma same_router_set_heap ui h : same_router ui (set_heap ui h).
Proof. reflexivity. Qed.

(** What the handlers have made of [ui] is [ui] with other elements. *)
Lemma same_router_heap ui ui' :
  same_router ui ui' -> handled ui ui' ->
  exists h, ui' = set_heap ui h /\ handled ui (set_heap ui h).
Proof. intros E Hh. exists (heap ui'). split; [exact E |]. rewrite <- E. exact Hh. Qed.

(** The click on an element that is alive: the branch returns; the
    bookkeeping of the double click is replaced, the elements are what the
    handlers made of them, and the drag is started on an element that is
    still alive. *)
Lemma click_begin_spec (now : Z) (ui : UI) (el : Ptr) (windowCursorPos cursorPos : IntVector2)
    (newButton : bool) (button buttons qualifiers : Z) (cursor : option Ptr) :
  is_Some (heap ui !! el) ->
  exists mid trace candidate pos,
    click_begin now ui el windowCursorPos cursorPos newButton button buttons qualifiers cursor
    = Ret (if live (heap mid) (Some el)
           then start_drag mid el newButton button cursorPos now else mid, trace)
    /\ same_router (set_click ui candidate pos now) mid
    /\ handled ui mid
    /\ (existsb (is_double_click_on el) trace = true ->
        doubleClickElement_ ui = Some el
        /\ in_double_click_window ui (GetMSec now (clickTimer_ ui)) windowCursorPos buttons
           = true
        /\ candidate = None /\ pos = doubleClickFirstPos_ ui)
    /\ (existsb (is_double_click_on el) trace = false ->
        candidate = Some el /\ pos = windowCursorPos)
    /\ (kept el -> doubleClickElement_ ui = Some el ->
        in_double_click_window ui (GetMSec now (clickTimer_ ui)) windowCursorPos buttons
        = true ->
        existsb (is_double_click_on el) trace = true)
    /\ (forall p, existsb (is_drag_callback_on p) trace = false).
Proof.
  intros [e He]. unfold click_begin, load. rewrite He. cbn [deref mbind res_bind].
  set (clicked := OnClickBegin el (ScreenToElement e cursorPos) cursorPos button buttons
                    qualifiers cursor).
  set (clickEvents := SendClickEvent E_UIMOUSECLICK (weak (deliver ui clicked) (Some el))).
  assert (Hquiet : forall p, existsb (is_drag_callback_on p) clickEvents = false)
    by (intros p; apply (proj2 (proj2 (SendClickEvent_quiet E_UIMOUSECLICK _)))).
  assert (Hnone : existsb (is_double_click_on el) clickEvents = false)
    by apply (proj1 (SendClickEvent_quiet E_UIMOUSECLICK _)).
  assert (HC : same_router ui (deliver_all (deliver ui clicked) clickEvents)).
  { eapply same_router_trans; [apply (deliver_same ui clicked) | apply deliver_all_same]. }
  assert (HhC : handled ui (deliver_all (deliver ui clicked) clickEvents)).
  { apply (handled_deliver_all ui (clicked :: clickEvents)). }
  destruct (same_router_heap _ _ HC HhC) as (hC & -> & Hh). clear HC HhC.
  clearbody clickEvents.
  cbn [heap set_heap doubleClickElement_ clickTimer_ doubleClickFirstPos_].
  change (in_double_click_window (set_heap ui hC)) with (in_double_click_window ui).
  destruct (live hC (doubleClickElement_ ui)
            && bool_decide (Some el = doubleClickElement_ ui)) eqn:S.
  - apply andb_true_iff in S. destruct S as [Slive Seq].
    apply bool_decide_eq_true in Seq. rewrite <- Seq in Slive. cbn [live] in Slive.
    apply bool_decide_eq_true in Slive. destruct Slive as [e' He'].
    destruct (in_double_click_window ui (GetMSec now (clickTimer_ ui)) windowCursorPos
                buttons) eqn:W; cbn [andb].
    + rewrite He'. cbn [deref mbind res_bind].
      set (doubled := OnDoubleClick el (ScreenToElement e' cursorPos) cursorPos button
                        buttons qualifiers cursor).
      set (first := deliver (set_click (set_heap ui hC) None (doubleClickFirstPos_ ui) now)
                      doubled).
      set (doubleEvents := SendDoubleClickEvent (weak first (Some el))).
      exists (deliver_all first doubleEvents), ([BringToFront el; clicked] ++ clickEvents
                                                ++ doubled :: doubleEvents), None,
        (doubleClickFirstPos_ ui).
      split; [reflexivity |].
      split.
      { eapply same_router_trans; [| apply deliver_all_same].
        eapply same_router_trans; [| apply deliver_same].
        reflexivity. }
      split.
      { apply handled_trans with (set_heap ui hC); [exact Hh |].
        apply handled_trans with (set_click (set_heap ui hC) None (doubleClickFirstPos_ ui)
                                    now); [apply handled_heap; reflexivity |].
        apply (handled_deliver_all _ (doubled :: doubleEvents)). }
      assert (Hyes : existsb (is_double_click_on el)
                       ([BringToFront el; clicked] ++ clickEvents ++ doubled :: doubleEvents)
                     = true).
      { rewrite !existsb_app. cbn [existsb is_double_click_on doubled clicked].
        rewrite bool_decide_eq_true_2 by reflexivity. rewrite Hnone. reflexivity. }
      split; [intros _; auto |].
      split; [rewrite Hyes; discriminate |].
      split; [intros _ _ _; exact Hyes |].
      intros p. rewrite !existsb_app. cbn [existsb is_drag_callback_on doubled clicked].
      rewrite Hquiet. unfold doubleEvents.
      rewrite (proj2 (proj2 (SendDoubleClickEvent_quiet _))). reflexivity.
    + exists (set_click (set_heap ui hC) (Some el) windowCursorPos now),
        ([BringToFront el; clicked] ++ clickEvents ++ []), (Some el), windowCursorPos.
      split; [reflexivity |]. split; [reflexivity |].
      split; [apply handled_trans with (set_heap ui hC);
              [exact Hh | apply handled_heap; reflexivity] |].
      assert (Hno : existsb (is_double_click_on el)
                      ([BringToFront el; clicked] ++ clickEvents ++ []) = false).
      { rewrite !existsb_app. cbn [existsb is_double_click_on clicked].
        rewrite Hnone. reflexivity. }
      split; [rewrite Hno; discriminate |].
      split; [auto |].
      split; [intros _ _ Hw; discriminate Hw |].
      intros p. rewrite !existsb_app. cbn [existsb is_drag_callback_on clicked].
      rewrite Hquiet. reflexivity.
  - cbn [andb].
    exists (set_click (set_heap ui hC) (Some el) windowCursorPos now),
      ([BringToFront el; clicked] ++ clickEvents ++ []), (Some el), windowCursorPos.
    split; [reflexivity |]. split; [reflexivity |].
    split; [apply handled_trans with (set_heap ui hC);
            [exact Hh | apply handled_heap; reflexivity] |].
    assert (Hno : existsb (is_double_click_on el)
                    ([BringToFront el; clicked] ++ clickEvents ++ []) = false).
    { rewrite !existsb_app. cbn [existsb is_double_click_on clicked].
      rewrite Hnone. reflexivity. }
    split; [rewrite Hno; discriminate |].
    split; [auto |].
    split.
    { intros K Hc _. exfalso. rewrite Hc in S.
      rewrite (bool_decide_eq_true_2 (Some el = Some el) eq_refl), andb_true_r in S.
      cbn [live] in S. apply bool_decide_eq_false in S. apply S.
      apply (handled_kept ui (set_heap ui hC) el K Hh). eexists. exact He. }
    intros p. rewrite !existsb_app. cbn [existsb is_drag_callback_on clicked].
    rewrite Hquiet. reflexivity.
Qed.

(** The click over no element, or over one that a focus handler has
    destroyed: the branch returns when the modal root is alive; the focus
    may move, the timer restarts, the candidate stays, and the double-click
    event of the subsystem is sent exactly in the window. *)
Lemma click_nowhere_spec (fuel : nat) (now : Z) (ui : UI) (element : option Ptr)
    (windowCursorPos : IntVector2) (buttons : Z) :
  is_Some (heap ui !! rootModalElement_ ui) ->
  exists ui' trace,
    click_nowhere fuel now ui element windowCursorPos buttons = Ret (ui', trace)
    /\ focus_moved (set_click ui (doubleClickElement_ ui) (doubleClickFirstPos_ ui) now) ui'
    /\ handled ui ui'
    /\ (forall p, existsb (is_double_click_on p) trace = false)
    /\ (existsb is_double_click_event trace
        = in_double_click_window ui (GetMSec now (clickTimer_ ui)) windowCursorPos buttons)
    /\ (forall p, existsb (is_drag_callback_on p) trace = false).
Proof.
  intros Hroot. unfold click_nowhere.
  apply HasModalElement_total in Hroot. destruct Hroot as [modal ->].
  cbn [mbind res_bind].
  assert (Hfocus : exists u ft,
             (if modal then Ret (ui, []) else SetFocusElement fuel ui None) = Ret (u, ft)
             /\ focus_moved ui u /\ handled ui u /\ forallb is_focus_event ft = true).
  { destruct modal.
    - eexists _, _. split; [reflexivity |]. split; [apply focus_moved_refl |].
      split; [apply handled_refl | reflexivity].
    - destruct (SetFocusElement_None_total fuel ui) as (u & ft & E).
      exists u, ft. split; [exact E |]. apply (SetFocusElement_returns _ _ _ _ _ E). }
  destruct Hfocus as (u & ft & -> & Hm & Hh & Hft). cbn [mbind res_bind].
  destruct (focus_events_quiet ft Hft) as (Hf1 & Hf2 & Hf3).
  set (clickEvents := SendClickEvent E_UIMOUSECLICK (weak u element)).
  assert (HC : same_router u (deliver_all u clickEvents)) by apply deliver_all_same.
  assert (HhC : handled u (deliver_all u clickEvents)) by apply handled_deliver_all.
  destruct (same_router_heap _ _ HC HhC) as (hC & -> & HhC'). clear HC HhC.
  change (in_double_click_window (set_heap u hC)) with (in_double_click_window u).
  cbn [clickTimer_ set_heap doubleClickElement_ doubleClickFirstPos_].
  assert (Hwin : in_double_click_window u (GetMSec now (clickTimer_ u)) windowCursorPos
                   buttons
                 = in_double_click_window ui (GetMSec now (clickTimer_ ui)) windowCursorPos
                     buttons).
  { rewrite Hm. reflexivity. }
  rewrite Hwin.
  eexists _, _. split; [reflexivity |].
  split.
  { eapply focus_moved_step; [| apply deliver_all_same].
    rewrite Hm. reflexivity. }
  split.
  { apply handled_trans with u; [exact Hh |].
    apply handled_trans with (set_heap u hC); [exact HhC' |].
    eapply handled_trans; [| apply handled_deliver_all]. apply handled_heap. reflexivity. }
  split.
  { intros p. rewrite !existsb_app, Hf1. unfold clickEvents.
    rewrite (proj1 (SendClickEvent_quiet E_UIMOUSECLICK _)).
    destruct (in_double_click_window ui _ _ _); [| reflexivity].
    rewrite (proj1 (SendDoubleClickEvent_quiet _)). reflexivity. }
  split.
  { rewrite !existsb_app, Hf2. unfold clickEvents.
    rewrite (proj1 (proj2 (SendClickEvent_quiet E_UIMOUSECLICK _))).
    destruct (in_double_click_window ui _ _ _); [| reflexivity].
    rewrite (proj1 (proj2 (SendDoubleClickEvent_quiet _))). reflexivity. }
  intros p. rewrite !existsb_app, Hf3. unfold clickEvents.
  rewrite (proj2 (proj2 (SendClickEvent_quiet E_UIMOUSECLICK _))).
  destruct (in_double_click_window ui _ _ _); [| reflexivity].
  rewrite (proj2 (proj2 (SendDoubleClickEvent_quiet _))). reflexivity.
Qed.




End ClickBeginFacts.
(** ** Sample runs of the router *)

Section RouterSampleFacts.
Import UISystem UISpec RouterSpec Samples UISamples HandlerSamples RouterSamples.
#[local] Existing Instance quiet.

Lemma quiet_keeps (p : Ptr) : kept p.
Proof. intros ev h A. exact A. Qed.



(** The drag end is tested after the click-end handlers: when the
    click-end handler disables the dragged button, the entry of its begun
    drag is erased without a drag end. *)
Example click_end_handler_disables_dragged_element :
  exists ui' trace,
    @ProcessClickEnd disable_on_click_end 3 (with_drag two_button_drag) centre 1 4 0 None
      true = Ret (ui', trace)
    /\ existsb (is_drag_end_on 3%nat) trace = false
    /\ dragElements_ ui' = [].
Proof. eexists _, _. split; [reflexivity |]. split; reflexivity. Qed.


Lemma ProcessDragCancel_leaves_pending_drags_witness :
  In (3%nat, pending_drag) (dragElements_ (ProcessDragCancel (with_drag pending_drag) centre).1)
  /\ existsb (is_drag_callback_on 3%nat) (ProcessDragCancel (with_drag pending_drag) centre).2
     = false.
Proof.
  apply (ProcessDragCancel_leaves_pending_drags (with_drag pending_drag) centre 3%nat
           pending_drag).
  - repeat constructor. simpl. tauto.
  - left. reflexivity.
  - reflexivity.
Defined.

(** C5 as stated fails: the click on the button 3 leaves a pending drag in
    the registry; the drag cancel that follows fires nothing and the entry
    is still there. *)
Lemma ProcessDragCancel_keeps_pending_entry :
  dragElements_ clicked.1 = [(3%nat, mkDragData 1 1 centre true 1000 centre)]
  /\ cancelled.2 = []
  /\ dragElements_ cancelled.1 = [(3%nat, mkDragData 1 1 centre true 1000 centre)].
Proof. vm_compute. repeat split. Qed.


Example second_click_in_time :
  existsb (is_double_click_on 3%nat) (second_click 1499).2 = true.
Proof. vm_compute. reflexivity. Qed.


End RouterSampleFacts.

(** ** Sample run of the border image *)

Section BorderImageSamples.
Import Batch BatchSpec Samples RouterSamples.

Lemma tiled_AddQuad_terminates_for_positive_texture_size_witness :
  AddQuad_tiled no_adjust 8 (opaque_batch, []) 0 0 5 3 0 0 2 2 true <> OutOfFuel
  /\ AddQuad_tiled no_adjust 1000 (opaque_batch, []) 0 0 5 3 0 0 0 2 true = OutOfFuel
  /\ ix_ (BorderImage.innerUvSize narrow_image) = 0
  /\ BorderImage.GetBatches_offset no_adjust 1000 narrow_image [] 7%nat [] full_scissor
       IntVector2_ZERO = OutOfFuel.
Proof.
  destruct (tiled_AddQuad_terminates_for_positive_texture_size no_adjust)
    as (Hterm & Hdiv & Huv & Hbi).
  assert (V : element_visible opaque_element) by (right; vm_compute; discriminate).
  split; [apply Hterm; [lia | lia | vm_compute; lia] |].
  split; [apply (Hdiv (opaque_batch, []) opaque_element); [reflexivity | exact V | lia |] |].
  { right. split; [reflexivity | lia]. }
  split; [apply Huv; [reflexivity | vm_compute; discriminate] |].
  apply Hbi; [reflexivity | exact V | reflexivity | reflexivity | reflexivity].
Defined.

End BorderImageSamples.

(** ** Batches filled by sequences of quads *)

Section BatchCallFacts.
Import Batch BatchSpec BatchCalls Samples ImageSamples.
Context `{MathLib}.
Variable posAdjust : Vector3.

Lemma set_vertexEnd__same (b : UIBatch) : set_vertexEnd_ b (vertexEnd_ b) = b.
Proof. destruct b; reflexivity. Qed.

Lemma extended_by_refl (st : BatchState) :
  vertexEnd_ st.1 = Size st.2 -> extended_by 0 st st.
Proof.
  intros E. split; [lia |]. split.
  - exists []. rewrite app_nil_r. split; reflexivity.
  - rewrite Z.add_0_r, <- E. symmetry. apply set_vertexEnd__same.
Qed.

Lemma extended_by_emit (st : BatchState) (cells : PODVector) :
  vertexEnd_ st.1 = Size st.2 -> length cells = 36%nat -> extended_by 1 st (emit st cells).
Proof.
  intros E L. destruct st as [b data]. simpl in *. split; [lia |]. split.
  - exists cells. split; [reflexivity | unfold Size; lia].
  - rewrite Size_app. unfold Size at 2. rewrite L. reflexivity.
Qed.

Lemma extended_by_trans (j k : Z) (a b c : BatchState) :
  extended_by j a b -> extended_by k b c -> extended_by (j + k) a c.
Proof.
  intros (Hj & (c1 & D1 & L1) & B1) (Hk & (c2 & D2 & L2) & B2).
  split; [lia |]. split.
  - exists (c1 ++ c2). rewrite D2, D1, <- app_assoc. split; [reflexivity |].
    rewrite Size_app. lia.
  - rewrite B2, B1, D1, Size_app, L1.
    change (set_vertexEnd_ (set_vertexEnd_ a.1 (Size a.2 + 36 * j))
              (Size a.2 + 36 * j + 36 * k))
      with (set_vertexEnd_ a.1 (Size a.2 + 36 * j + 36 * k)).
    f_equal. lia.
Qed.

Lemma extended_by_end (k : Z) (st st' : BatchState) :
  extended_by k st st' -> vertexEnd_ st'.1 = Size st'.2.
Proof.
  intros (_ & (cells & D & L) & B). rewrite B, D, Size_app, L. reflexivity.
Qed.

Lemma AddQuad_extends (st st' : BatchState) x y w h ox oy tw th :
  vertexEnd_ st.1 = Size st.2 ->
  AddQuad posAdjust st x y w h ox oy tw th = Ret st' ->
  extended_by 0 st st' \/ extended_by 1 st st'.
Proof.
  intros E. unfold AddQuad.
  destruct (negb (useGradient_ st.1) && alpha_is_zero (color_ st.1)).
  - intros [= <-]. left. apply extended_by_refl, E.
  - destruct (element_ st.1) as [e |]; simpl; [| discriminate].
    destruct (negb (useGradient_ st.1)); intros [= <-]; right;
      apply extended_by_emit; [exact E | reflexivity | exact E | reflexivity].
Qed.

Lemma AddQuad_transform_extends (st st' : BatchState) T x y w h ox oy tw th :
  vertexEnd_ st.1 = Size st.2 ->
  AddQuad_transform posAdjust st T x y w h ox oy tw th = Ret st' ->
  extended_by 0 st st' \/ extended_by 1 st st'.
Proof.
  intros E. unfold AddQuad_transform.
  destruct (negb (useGradient_ st.1) && alpha_is_zero (color_ st.1)).
  - intros [= <-]. left. apply extended_by_refl, E.
  - destruct (negb (useGradient_ st.1)); simpl.
    + intros [= <-]. right. apply extended_by_emit; [exact E | reflexivity].
    + destruct (element_ st.1) as [e |]; simpl; [| discriminate].
      intros [= <-]. right. apply extended_by_emit; [exact E | reflexivity].
Qed.

Lemma tile_row_extends (fuel : nat) x y W ox oy tw tileY tileH :
  forall (st st' : BatchState) (tileX : Z),
    vertexEnd_ st.1 = Size st.2 ->
    tile_row posAdjust fuel st x y W ox oy tw tileY tileH tileX = Ret st' ->
    exists k, extended_by k st st'.
Proof.
  induction fuel as [| fuel IH]; intros st st' tileX E; simpl;
    (destruct (tileX <? W);
     [| intros [= <-]; exists 0; apply extended_by_refl, E]); [discriminate |].
  destruct (AddQuad _ _ _ _ _ _ _ _ _ _) as [st1 | |] eqn:R; simpl; try discriminate.
  intros Hrest.
  assert (exists j, extended_by j st st1) as (j & Hj).
  { apply AddQuad_extends in R as [R | R]; [eauto | eauto | exact E]. }
  apply IH in Hrest as (k & Hk); [| eapply extended_by_end; exact Hj].
  exists (j + k). eapply extended_by_trans; eassumption.
Qed.

Lemma tile_rows_extends (fuel : nat) x y W Hh ox oy tw th :
  forall (st st' : BatchState) (tileY : Z),
    vertexEnd_ st.1 = Size st.2 ->
    tile_rows posAdjust fuel st x y W Hh ox oy tw th tileY = Ret st' ->
    exists k, extended_by k st st'.
Proof.
  induction fuel as [| fuel IH]; intros st st' tileY E; simpl;
    (destruct (tileY <? Hh);
     [| intros [= <-]; exists 0; apply extended_by_refl, E]); [discriminate |].
  destruct (tile_row _ _ _ _ _ _ _ _ _ _ _ _) as [st1 | |] eqn:R; simpl; try discriminate.
  intros Hrest.
  apply tile_row_extends in R as (j & Hj); [| exact E].
  apply IH in Hrest as (k & Hk); [| eapply extended_by_end; exact Hj].
  exists (j + k). eapply extended_by_trans; eassumption.
Qed.

Lemma AddQuad_tiled_extends (fuel : nat) (st st' : BatchState) x y w h ox oy tw th tiled :
  vertexEnd_ st.1 = Size st.2 ->
  AddQuad_tiled posAdjust fuel st x y w h ox oy tw th tiled = Ret st' ->
  exists k, extended_by k st st'.
Proof.
  intros E. unfold AddQuad_tiled.
  destruct (element_ st.1) as [e |]; simpl; [| discriminate].
  destruct (negb _).
  - intros [= <-]. exists 0. apply extended_by_refl, E.
  - destruct (negb tiled).
    + intros R. apply AddQuad_extends in R as [R | R]; eauto.
    + apply tile_rows_extends, E.
Qed.

Lemma call_extends (st st' : BatchState) (q : QuadCall) :
  vertexEnd_ st.1 = Size st.2 -> call posAdjust st q = Ret st' ->
  exists k, extended_by k st st'.
Proof.
  intros E. destruct q; simpl.
  - intros R. apply AddQuad_extends in R as [R | R]; eauto.
  - intros R. apply AddQuad_transform_extends in R as [R | R]; eauto.
  - apply AddQuad_tiled_extends, E.
  - intros [= <-]. exists 1. apply extended_by_emit; [exact E | reflexivity].
  - intros [= <-]. exists 1. apply extended_by_emit; [exact E | reflexivity].
Qed.

Lemma calls_extends (qs : list QuadCall) :
  forall st st' : BatchState,
    vertexEnd_ st.1 = Size st.2 -> calls posAdjust st qs = Ret st' ->
    exists k, extended_by k st st'.
Proof.
  induction qs as [| q qs IH]; intros st st' E; simpl.
  - intros [= <-]. exists 0. apply extended_by_refl, E.
  - destruct (call posAdjust st q) as [st1 | |] eqn:R; simpl; try discriminate.
    intros Hrest. apply call_extends in R as (j & Hj); [| exact E].
    apply IH in Hrest as (k & Hk); [| eapply extended_by_end; exact Hj].
    exists (j + k). eapply extended_by_trans; eassumption.
Qed.

Lemma UIBatch_new_fields e bm sc tex vd data :
  blendMode_ (UIBatch_new e bm sc tex vd data) = bm
  /\ scissor_ (UIBatch_new e bm sc tex vd data) = sc
  /\ texture_ (UIBatch_new e bm sc tex vd data) = tex_addr <$> tex
  /\ vertexData_ (UIBatch_new e bm sc tex vd data) = Some vd
  /\ vertexStart_ (UIBatch_new e bm sc tex vd data) = Size data
  /\ vertexEnd_ (UIBatch_new e bm sc tex vd data) = Size data
  /\ customMaterial_ (UIBatch_new e bm sc tex vd data) = None
  /\ element_ (UIBatch_new e bm sc tex vd data) = e.
Proof. unfold UIBatch_new, SetDefaultColor. destruct e; simpl; tauto. Qed.

Lemma calls_from_constructor (e : option UIElement) (bm : BlendMode) (sc : IntRect)
    (tex : option Texture) (vd : Ptr) (data : PODVector) (qs : list QuadCall)
    (st' : BatchState) :
  calls posAdjust (UIBatch_new e bm sc tex vd data, data) qs = Ret st' ->
  exists k cells,
    0 <= k /\ st'.2 = data ++ cells /\ Size cells = 36 * k
    /\ st'.1 = set_vertexEnd_ (UIBatch_new e bm sc tex vd data) (Size data + 36 * k)
    /\ vertexStart_ st'.1 = Size data /\ vertexEnd_ st'.1 = Size st'.2.
Proof.
  intros R. apply calls_extends in R as (k & Hk);
    [| apply (UIBatch_new_fields e bm sc tex vd data)].
  pose proof (extended_by_end _ _ _ Hk) as Hend.
  destruct Hk as (K & (cells & D & L) & B). simpl in D, B.
  exists k, cells. repeat split; try assumption.
  rewrite B. apply (UIBatch_new_fields e bm sc tex vd data).
Qed.

(** Whatever sequence of [AddQuad] calls fills a batch that the
    constructor made over a vertex vector, the vector only grows at its
    end, by the 36 cells of each quad drawn; the batch starts where the
    vector ended when the batch was made and ends where the vector ends
    now; and nothing else in the batch changes. *)
Theorem AddQuad_calls_extend_range (e : option UIElement) (bm : BlendMode) (sc : IntRect)
    (tex : option Texture) (vd : Ptr) (data : PODVector) (qs : list QuadCall)
    (st' : BatchState) :
  calls posAdjust (UIBatch_new e bm sc tex vd data, data) qs = Ret st' ->
  exists k cells,
    0 <= k /\ st'.2 = data ++ cells /\ Size cells = 36 * k
    /\ st'.1 = set_vertexEnd_ (UIBatch_new e bm sc tex vd data) (Size data + 36 * k)
    /\ vertexStart_ st'.1 = Size data /\ vertexEnd_ st'.1 = Size st'.2.
Proof. apply calls_from_constructor. Qed.

Lemma Merge_after_extension (back b1 : UIBatch) (z : Z) :
  Merge back (set_vertexEnd_ b1 z)
  = ((Merge back b1).1,
     if (Merge back b1).1 then set_vertexEnd_ back z else back).
Proof.
  unfold Merge. simpl.
  destruct (_ || _); reflexivity.
Qed.

(** Adding a batch and then the batch that continues it is adding the one
    batch that spans both. *)
Lemma AddOrMerge_continued (b1 b2 : UIBatch) (batches : list UIBatch) :
  mergeable b1 b2 -> vertexStart_ b1 < vertexEnd_ b1 -> vertexEnd_ b1 < vertexEnd_ b2 ->
  AddOrMerge b2 (AddOrMerge b1 batches)
  = AddOrMerge (set_vertexEnd_ b1 (vertexEnd_ b2)) batches.
Proof.
  intros M N1 N2.
  assert (Hb1 : nonempty_range b1) by (unfold nonempty_range; lia).
  assert (Hb2 : nonempty_range b2).
  { unfold nonempty_range. destruct M as (_ & _ & _ & _ & ->). lia. }
  assert (Hb12 : nonempty_range (set_vertexEnd_ b1 (vertexEnd_ b2))).
  { unfold nonempty_range. simpl. lia. }
  assert (M12 : (Merge b1 b2).1 = true) by (apply Merge_true_iff; exact M).
  induction batches as [| back front _] using rev_ind.
  - rewrite !AddOrMerge_nil by assumption.
    change [b1] with ([] ++ [b1]).
    rewrite (AddOrMerge_snoc_merged b2 b1 [] Hb2 M12), (Merge_true_result _ _ M12).
    reflexivity.
  - rewrite (AddOrMerge_snoc (set_vertexEnd_ b1 (vertexEnd_ b2)) back front Hb12).
    rewrite Merge_after_extension. cbn [fst snd].
    rewrite (AddOrMerge_snoc b1 back front Hb1).
    destruct (Merge back b1).1 eqn:Mb.
    + rewrite (Merge_true_result _ _ Mb).
      apply Merge_true_iff in Mb. destruct Mb as (Q1 & Q2 & Q3 & Q4 & Q5).
      destruct M as (P1 & P2 & P3 & P4 & P5).
      assert (Mx : (Merge (set_vertexEnd_ back (vertexEnd_ b1)) b2).1 = true).
      { apply Merge_true_iff. repeat split; simpl; congruence. }
      rewrite (AddOrMerge_snoc_merged b2 _ front Hb2 Mx), (Merge_true_result _ _ Mx).
      reflexivity.
    + rewrite (Merge_false_result _ _ Mb), <- app_assoc. cbn [app].
      change (front ++ [back; b1]) with (front ++ [back] ++ [b1]).
      rewrite app_assoc.
      rewrite (AddOrMerge_snoc_merged b2 b1 (front ++ [back]) Hb2 M12),
        (Merge_true_result _ _ M12), <- app_assoc.
      reflexivity.
Qed.

(** Two batches made one after the other over the same vertex vector, with
    the same blend mode, scissor and texture, and each filled with at
    least one quad, leave [AddOrMerge] with what the single batch that
    spans both would have left: the elements they draw, and their
    colours, play no part. *)
Theorem consecutive_batches_merge (e1 e2 : option UIElement) (bm : BlendMode)
    (sc : IntRect) (tex : option Texture) (vd : Ptr) (data : PODVector)
    (qs1 qs2 : list QuadCall) (st1 st2 : BatchState) (batches : list UIBatch) :
  calls posAdjust (UIBatch_new e1 bm sc tex vd data, data) qs1 = Ret st1 ->
  calls posAdjust (UIBatch_new e2 bm sc tex vd st1.2, st1.2) qs2 = Ret st2 ->
  Size data < Size st1.2 -> Size st1.2 < Size st2.2 ->
  AddOrMerge st2.1 (AddOrMerge st1.1 batches)
  = AddOrMerge (set_vertexEnd_ st1.1 (Size st2.2)) batches
  /\ AddOrMerge st2.1 (AddOrMerge st1.1 []) = [set_vertexEnd_ st1.1 (Size st2.2)]
  /\ vertexStart_ st1.1 = Size data.
Proof.
  intros R1 R2 N1 N2.
  apply calls_from_constructor in R1 as (k1 & c1 & _ & _ & _ & B1 & S1 & E1).
  apply calls_from_constructor in R2 as (k2 & c2 & _ & _ & _ & B2 & S2 & E2).
  pose proof (UIBatch_new_fields e1 bm sc tex vd data) as (F1 & F2 & F3 & F4 & _).
  pose proof (UIBatch_new_fields e2 bm sc tex vd st1.2) as (G1 & G2 & G3 & G4 & _).
  assert (M : mergeable st1.1 st2.1).
  { unfold mergeable. rewrite S2, E1, B1, B2. simpl.
    rewrite F1, F2, F3, F4, G1, G2, G3, G4. repeat split. }
  assert (Hgen : forall l, AddOrMerge st2.1 (AddOrMerge st1.1 l)
                           = AddOrMerge (set_vertexEnd_ st1.1 (Size st2.2)) l).
  { intros l. rewrite <- E2. apply AddOrMerge_continued; [exact M | lia | lia]. }
  split; [apply Hgen |]. split; [| exact S1].
  rewrite Hgen. apply AddOrMerge_nil. unfold nonempty_range. simpl. lia.
Qed.

End BatchCallFacts.

Section ColourFacts.
Import Batch BatchSpec.
Context `{MathLib}.
Variable posAdjust : Vector3.

(** [SetColor] switches the gradient off whatever the element says, and
    without an element it takes the alpha of the colour as it is.  A
    colour whose packed alpha byte is zero, set with its own alpha, then
    keeps the plain and the transformed [AddQuad] from drawing anything,
    also for an element that has a gradient. *)
Theorem SetColor_overrides_gradient (b : UIBatch) (color : Color) :
  (forall overrideAlpha, useGradient_ (SetColor b color overrideAlpha) = false)
  /\ (element_ b = None -> SetColor b color false = SetColor b color true)
  /\ color_ (SetColor b color true) = Color_ToUInt color
  /\ (alpha_is_zero (Color_ToUInt color) = true ->
      forall data x y w h T ix iy iw ih ox oy tw th,
        AddQuad posAdjust (SetColor b color true, data) x y w h ox oy tw th
        = Ret (SetColor b color true, data)
        /\ AddQuad_transform posAdjust (SetColor b color true, data) T ix iy iw ih
             ox oy tw th
           = Ret (SetColor b color true, data)).
Proof.
  split; [intros o; unfold SetColor; destruct (element_ b); reflexivity |].
  split; [intros E; unfold SetColor; rewrite E; reflexivity |].
  split; [unfold SetColor; destruct (element_ b); reflexivity |].
  intros A data x y w h T ix iy iw ih ox oy tw th.
  assert (I : invisible (SetColor b color true, data).1).
  { unfold invisible, SetColor. destruct (element_ b); simpl; auto. }
  split; [apply AddQuad_invisible, I | apply AddQuad_transform_invisible, I].
Qed.

End ColourFacts.

Section BatchCallSamples.
Import Batch BatchSpec BatchCalls Samples ImageSamples.

Lemma AddQuad_calls_extend_range_witness :
  exists k cells,
    0 <= k /\ first_run.2 = [] ++ cells /\ Size cells = 36 * k
    /\ first_run.1 = set_vertexEnd_ opaque_batch (Size [] + 36 * k)
    /\ vertexStart_ first_run.1 = Size [] /\ vertexEnd_ first_run.1 = Size first_run.2.
Proof.
  apply (AddQuad_calls_extend_range no_adjust (Some opaque_element) BLEND_ALPHA
           full_scissor None 7%nat [] two_calls first_run).
  vm_compute. reflexivity.
Defined.

Lemma consecutive_batches_merge_witness :
  AddOrMerge second_run.1 (AddOrMerge first_run.1 [material_a])
  = AddOrMerge (set_vertexEnd_ first_run.1 (Size second_run.2)) [material_a]
  /\ AddOrMerge second_run.1 (AddOrMerge first_run.1 [])
     = [set_vertexEnd_ first_run.1 (Size second_run.2)]
  /\ vertexStart_ first_run.1 = Size [].
Proof.
  apply (consecutive_batches_merge no_adjust (Some opaque_element) (Some opaque_element)
           BLEND_ALPHA full_scissor None 7%nat [] two_calls
           [Rect f0 f0 f1 f1 0 0 0 0] first_run second_run [material_a]).
  - vm_compute. reflexivity.
  - vm_compute. reflexivity.
  - vm_compute. reflexivity.
  - vm_compute. reflexivity.
Defined.

Lemma SetColor_overrides_gradient_witness :
  AddQuad no_adjust
    (SetColor (UIBatch_new (Some gradient_element) BLEND_ALPHA full_scissor None 7%nat [])
       TRANSPARENT true, []) f0 f0 f1 f1 0 0 0 0
  = Ret (SetColor (UIBatch_new (Some gradient_element) BLEND_ALPHA full_scissor None 7%nat [])
           TRANSPARENT true, []).
Proof.
  destruct (SetColor_overrides_gradient no_adjust
              (UIBatch_new (Some gradient_element) BLEND_ALPHA full_scissor None 7%nat [])
              TRANSPARENT) as (_ & _ & _ & Hskip).
  apply (Hskip eq_refl [] f0 f0 f1 f1 IDENTITY 0 0 0 0 0 0 0 0).
Defined.

End BatchCallSamples.

(** ** Border images *)

Section ImageRectFacts.
Import Batch BorderImageSetters.

(** The image rectangle is chosen once: [SetImageRect] ignores the zero
    rectangle, so a rectangle that is set never goes back to zero, and
    [SetTexture] keeps a rectangle that is set.  On an image without a
    rectangle, [SetTexture] takes the whole texture, unless the texture is
    0 by 0 or null, in which case the rectangle stays zero. *)
Theorem image_rect_is_set_once (bi : BorderImage.BorderImage) :
  SetImageRect bi IntRect_ZERO = bi
  /\ (forall rect, rect <> IntRect_ZERO ->
                   BorderImage.imageRect_ (SetImageRect bi rect) = rect)
  /\ (forall rect, BorderImage.imageRect_ bi <> IntRect_ZERO ->
                   BorderImage.imageRect_ (SetImageRect bi rect) <> IntRect_ZERO)
  /\ (forall texture,
         BorderImage.texture_ (SetTexture bi texture) = texture
         /\ (BorderImage.imageRect_ bi <> IntRect_ZERO ->
             BorderImage.imageRect_ (SetTexture bi texture) = BorderImage.imageRect_ bi))
  /\ (forall t,
         BorderImage.imageRect_ bi = IntRect_ZERO ->
         BorderImage.imageRect_ (SetTexture bi (Some t))
         = mkIntRect 0 0 (GetWidth t) (GetHeight t))
  /\ (BorderImage.imageRect_ bi = IntRect_ZERO ->
      BorderImage.imageRect_ (SetTexture bi None) = IntRect_ZERO).
Proof.
  split; [reflexivity |].
  split.
  { intros rect N. unfold SetImageRect. rewrite bool_decide_eq_true_2 by exact N.
    reflexivity. }
  split.
  { intros rect N. unfold SetImageRect. case_bool_decide; simpl; assumption. }
  split.
  { intros texture. unfold SetTexture. simpl. split.
    - case_bool_decide; [| reflexivity].
      unfold SetFullImageRect, SetImageRect. simpl.
      destruct texture; [| reflexivity]. case_bool_decide; reflexivity.
    - intros N. rewrite bool_decide_eq_false_2 by exact N. reflexivity. }
  split.
  { intros t Z0. unfold SetTexture. simpl. rewrite bool_decide_eq_true_2 by exact Z0.
    unfold SetFullImageRect, SetImageRect. simpl.
    case_bool_decide as N; [reflexivity |].
    simpl. rewrite Z0. destruct (decide (mkIntRect 0 0 (GetWidth t) (GetHeight t)
                                          = IntRect_ZERO)) as [-> | N']; [reflexivity |].
    contradiction. }
  intros Z0. unfold SetTexture. simpl. rewrite bool_decide_eq_true_2 by exact Z0.
  exact Z0.
Qed.

(** [SetBorder] and [SetImageBorder] store the rectangle with every
    negative side replaced by zero, so that no side of a stored border is
    negative and a rectangle without negative sides is stored as it is;
    the inner size and the inner texture size that [GetBatches] derives
    from them are then never negative either. *)
Theorem borders_are_never_negative (bi : BorderImage.BorderImage) (rect : IntRect) :
  let stored := BorderImage.border_ (SetBorder bi rect) in
  let storedImage := BorderImage.imageBorder_ (SetImageBorder bi rect) in
  (0 <= left_ stored /\ 0 <= top_ stored /\ 0 <= right_ stored /\ 0 <= bottom_ stored)
  /\ stored = storedImage
  /\ (0 <= left_ rect -> 0 <= top_ rect -> 0 <= right_ rect -> 0 <= bottom_ rect ->
      stored = rect)
  /\ SetBorder (SetBorder bi rect) stored = SetBorder bi rect
  /\ 0 <= ix_ (BorderImage.innerSize (SetBorder bi rect))
  /\ 0 <= iy_ (BorderImage.innerSize (SetBorder bi rect))
  /\ 0 <= ix_ (BorderImage.innerUvSize (SetImageBorder bi rect))
  /\ 0 <= iy_ (BorderImage.innerUvSize (SetImageBorder bi rect)).
Proof.
  simpl. split; [lia |]. split; [reflexivity |].
  split.
  { intros. destruct rect as [l t r b]. simpl in *. f_equal; lia. }
  split.
  { unfold SetBorder. simpl. f_equal. f_equal; lia. }
  unfold BorderImage.innerSize, BorderImage.innerUvSize. simpl. lia.
Qed.

End ImageRectFacts.

Section GetBatchesFacts.
Import Batch BatchSpec BatchCalls.
Context `{MathLib}.
Variable posAdjust : Vector3.

(** The batch [GetBatches] starts from, before any quad. *)
Lemma first_batch_fields (e : UIElement) (bm : BlendMode) (sc : IntRect)
    (tex : option Texture) (vd : Ptr) (data : PODVector) (m : option Ptr) :
  let batch1 :=
    match m with
    | Some p => set_customMaterial_ (UIBatch_new (Some e) bm sc tex vd data) (Some p)
    | None => UIBatch_new (Some e) bm sc tex vd data
    end in
  element_ batch1 = Some e /\ vertexStart_ batch1 = Size data
  /\ vertexEnd_ batch1 = Size data /\ scissor_ batch1 = sc
  /\ customMaterial_ batch1 = m /\ vertexData_ batch1 = Some vd
  /\ blendMode_ batch1 = bm
  /\ color_ batch1 = Color_ToUInt (GetDerivedColor e)
  /\ useGradient_ batch1 = HasColorGradient e.
Proof. destruct m; simpl; tauto. Qed.

Lemma when_same (c : bool) (f : BatchState -> res BatchState) (st : BatchState) :
  f st = Ret st -> BorderImage.when c f st = Ret st.
Proof. intros E. unfold BorderImage.when. destruct c; [exact E | reflexivity]. Qed.

(** An image over an element that has no gradient and a derived colour of
    alpha zero draws nothing: [GetBatches] returns the batch list and the
    vertex vector it was given, tiled or not, with any iteration budget;
    only the hover flag is cleared. *)
Theorem GetBatches_skips_invisible_element (bi : BorderImage.BorderImage) (fuel : nat)
    (batches : list UIBatch) (vd : Ptr) (vertexData : PODVector)
    (currentScissor : IntRect) :
  ~ element_visible (BorderImage.elem bi) ->
  (forall offset,
      BorderImage.GetBatches_offset posAdjust fuel bi batches vd vertexData
        currentScissor offset
      = Ret (BorderImage.clear_hovering bi, batches, vertexData))
  /\ BorderImage.GetBatches posAdjust fuel bi batches vd vertexData currentScissor
     = Ret (BorderImage.clear_hovering bi, batches, vertexData).
Proof.
  intros N.
  assert (Hoff : forall offset,
             BorderImage.GetBatches_offset posAdjust fuel bi batches vd vertexData
               currentScissor offset
             = Ret (BorderImage.clear_hovering bi, batches, vertexData)).
  { intros offset. unfold BorderImage.GetBatches_offset. cbv zeta.
    match goal with
    | |- context [BorderImage.when _ _ (?b, vertexData)] => set (batch1 := b)
    end.
    pose proof (first_batch_fields (BorderImage.elem bi)
                  (if bool_decide (BorderImage.blendMode_ bi = BLEND_REPLACE)
                      && negb (negb (flt (GetDerivedOpacity (BorderImage.elem bi)) f1
                                     || flt (a_ (GetColor (BorderImage.elem bi) C_TOPLEFT)) f1
                                     || flt (a_ (GetColor (BorderImage.elem bi) C_TOPRIGHT)) f1
                                     || flt (a_ (GetColor (BorderImage.elem bi) C_BOTTOMLEFT)) f1
                                     || flt (a_ (GetColor (BorderImage.elem bi) C_BOTTOMRIGHT)) f1))
                   then BLEND_ALPHA else BorderImage.blendMode_ bi)
                  currentScissor (BorderImage.texture_ bi) vd vertexData
                  (BorderImage.material_ bi)) as F.
    cbv zeta in F. fold batch1 in F.
    destruct F as (Fe & Fs & Fend & _ & _ & _ & _ & Fc & Fg).
    assert (Hg : HasColorGradient (BorderImage.elem bi) = false).
    { destruct (HasColorGradient (BorderImage.elem bi)) eqn:G; [| reflexivity].
      exfalso. apply N. left. exact G. }
    assert (I : invisible (batch1, vertexData).1).
    { split; simpl; [congruence |]. rewrite Fc. unfold alpha_is_zero.
      destruct (Z.eqb_spec (Z.land (Color_ToUInt (GetDerivedColor (BorderImage.elem bi)))
                              0xff000000) 0) as [| Z0]; [reflexivity |].
      exfalso. apply N. right. exact Z0. }
    repeat (rewrite when_same;
            [unfold mbind, res_bind; cbn beta iota
            | first [ apply AddQuad_invisible, I
                    | eapply AddQuad_tiled_element_invisible; [exact Fe | exact N] ]]).
    cbn [fst snd]. rewrite AddOrMerge_empty_range by congruence. reflexivity. }
  split; [exact Hoff |].
  unfold BorderImage.GetBatches. destruct (BorderImage.enabled_ bi); apply Hoff.
Qed.

Lemma extended_by_element (k : Z) (st st' : BatchState) :
  extended_by k st st' -> element_ st'.1 = element_ st.1.
Proof. intros (_ & _ & ->). reflexivity. Qed.

Lemma plain_is_quad_step (e : UIElement) x y w h ox oy tw th :
  quad_step e (fun st => AddQuad posAdjust st x y w h ox oy tw th).
Proof.
  intros st E V.
  destruct (AddQuad_returns posAdjust st e x y w h ox oy tw th E)
    as [[_ R] | [_ (cells & L & R)]]; rewrite R; eexists; (split; [reflexivity |]).
  - left. apply extended_by_refl, V.
  - right. apply extended_by_emit; assumption.
Qed.

Lemma untiled_is_quad_step (e : UIElement) (fuel : nat) x y w h ox oy tw th :
  quad_step e (fun st => AddQuad_tiled posAdjust fuel st x y w h ox oy tw th false).
Proof.
  intros st E V. unfold AddQuad_tiled. rewrite E. simpl.
  destruct (negb _).
  - exists st. split; [reflexivity |]. left. apply extended_by_refl, V.
  - apply (plain_is_quad_step e); assumption.
Qed.

Lemma when_quad_step (e : UIElement) (c : bool) (f : BatchState -> res BatchState)
    (st0 st : BatchState) (n : Z) :
  quad_step e f -> element_ st0.1 = Some e ->
  (exists k, 0 <= k <= n /\ extended_by k st0 st) ->
  exists st', BorderImage.when c f st = Ret st'
              /\ exists k, 0 <= k <= n + 1 /\ extended_by k st0 st'.
Proof.
  intros Hf E0 (k & Hk & X). unfold BorderImage.when. destruct c.
  - destruct (Hf st) as (st' & R & [X' | X']).
    + rewrite (extended_by_element _ _ _ X). exact E0.
    + eapply extended_by_end. exact X.
    + exists st'. split; [exact R |]. exists (k + 0). split; [lia |].
      eapply extended_by_trans; eassumption.
    + exists st'. split; [exact R |]. exists (k + 1). split; [lia |].
      eapply extended_by_trans; eassumption.
  - exists st. split; [reflexivity |]. exists k. split; [lia | exact X].
Qed.

Lemma GetBatches_offset_untiled (bi : BorderImage.BorderImage) (fuel : nat)
    (batches : list UIBatch) (vd : Ptr) (vertexData : PODVector)
    (currentScissor : IntRect) (offset : IntVector2) :
  BorderImage.tiled_ bi = false ->
  exists k cells bt,
    0 <= k <= 9 /\ Size cells = 36 * k
    /\ BorderImage.GetBatches_offset posAdjust fuel bi batches vd vertexData
         currentScissor offset
       = Ret (BorderImage.clear_hovering bi, AddOrMerge bt batches, vertexData ++ cells)
    /\ vertexStart_ bt = Size vertexData /\ vertexEnd_ bt = Size vertexData + 36 * k
    /\ scissor_ bt = currentScissor /\ customMaterial_ bt = BorderImage.material_ bi
    /\ vertexData_ bt = Some vd.
Proof.
  intros T. unfold BorderImage.GetBatches_offset. cbv zeta. rewrite T.
  match goal with
  | |- context [BorderImage.when _ _ (?b, vertexData)] => set (batch1 := b)
  end.
  pose proof (first_batch_fields (BorderImage.elem bi)
                (if bool_decide (BorderImage.blendMode_ bi = BLEND_REPLACE)
                    && negb (negb (flt (GetDerivedOpacity (BorderImage.elem bi)) f1
                                   || flt (a_ (GetColor (BorderImage.elem bi) C_TOPLEFT)) f1
                                   || flt (a_ (GetColor (BorderImage.elem bi) C_TOPRIGHT)) f1
                                   || flt (a_ (GetColor (BorderImage.elem bi) C_BOTTOMLEFT)) f1
                                   || flt (a_ (GetColor (BorderImage.elem bi) C_BOTTOMRIGHT)) f1))
                 then BLEND_ALPHA else BorderImage.blendMode_ bi)
                currentScissor (BorderImage.texture_ bi) vd vertexData
                (BorderImage.material_ bi)) as F.
  cbv zeta in F. fold batch1 in F.
  destruct F as (Fe & Fs & Fend & Fsc & Fm & Fvd & _).
  assert (I0 : exists k, 0 <= k <= 0 /\ extended_by k (batch1, vertexData)
                                          (batch1, vertexData)).
  { exists 0. split; [lia |]. apply extended_by_refl. exact Fend. }
  repeat match goal with
    | Hinv : (exists k, 0 <= k <= ?n /\ extended_by k (batch1, vertexData) ?s)
      |- context [BorderImage.when ?c ?f ?s] =>
        let st' := fresh "st" in
        let R := fresh "R" in
        let Hinv' := fresh "Hinv" in
        destruct (when_quad_step (BorderImage.elem bi) c f (batch1, vertexData) s n)
          as (st' & R & Hinv');
        [ first [apply plain_is_quad_step | apply untiled_is_quad_step]
        | exact Fe | exact Hinv | ];
        rewrite R; unfold mbind, res_bind; cbn beta iota; clear Hinv R
    end.
  match goal with
  | Hinv : (exists k, 0 <= k <= _ /\ extended_by k _ ?s) |- _ =>
      destruct Hinv as (k & Hk & (_ & (cells & D & L) & B))
  end.
  simpl in D, B. exists k, cells. eexists.
  split; [lia |]. split; [exact L |].
  split; [rewrite D; reflexivity |].
  rewrite B. simpl. rewrite Fs, Fsc, Fm, Fvd. repeat split; reflexivity.
Qed.

(** With tiling off, [GetBatches] always returns, whatever budget its
    loops are given.  It draws at most nine quads: the vertex vector keeps
    its contents and grows by 36 cells per quad, the batch list changes by
    one [AddOrMerge] of a batch that covers exactly the new cells under
    the current scissor and the image's material, and the hover flag is
    cleared. *)
Theorem GetBatches_draws_at_most_nine_quads (bi : BorderImage.BorderImage) (fuel : nat)
    (batches : list UIBatch) (vd : Ptr) (vertexData : PODVector)
    (currentScissor : IntRect) :
  BorderImage.tiled_ bi = false ->
  (forall offset,
      exists k cells bt,
        0 <= k <= 9 /\ Size cells = 36 * k
        /\ BorderImage.GetBatches_offset posAdjust fuel bi batches vd vertexData
             currentScissor offset
           = Ret (BorderImage.clear_hovering bi, AddOrMerge bt batches,
                  vertexData ++ cells)
        /\ vertexStart_ bt = Size vertexData /\ vertexEnd_ bt = Size vertexData + 36 * k
        /\ scissor_ bt = currentScissor /\ customMaterial_ bt = BorderImage.material_ bi
        /\ vertexData_ bt = Some vd)
  /\ (exists k cells bt,
         0 <= k <= 9 /\ Size cells = 36 * k
         /\ BorderImage.GetBatches posAdjust fuel bi batches vd vertexData currentScissor
            = Ret (BorderImage.clear_hovering bi, AddOrMerge bt batches,
                   vertexData ++ cells)
         /\ vertexStart_ bt = Size vertexData /\ vertexEnd_ bt = Size vertexData + 36 * k
         /\ scissor_ bt = currentScissor /\ customMaterial_ bt = BorderImage.material_ bi
         /\ vertexData_ bt = Some vd).
Proof.
  intros T. split.
  - intros offset. apply GetBatches_offset_untiled, T.
  - unfold BorderImage.GetBatches. destruct (BorderImage.enabled_ bi);
      apply GetBatches_offset_untiled, T.
Qed.

End GetBatchesFacts.

(** ** Buttons *)

Section ButtonFacts.
Import Button ButtonSpec.

Lemma SetPressed_follows (b : Button) (enable : bool) :
  child_offset_follows (SetPressed b enable).
Proof. unfold child_offset_follows. destruct enable; reflexivity. Qed.

Lemma Update_follows (b : Button) (timeStep : float) :
  child_offset_follows b -> child_offset_follows (Update b timeStep).1.
Proof.
  intros F. unfold Update.
  set (b1 := if negb _ && pressed_ b then SetPressed b false else b).
  assert (F1 : child_offset_follows b1).
  { subst b1. destruct (negb _ && pressed_ b); [apply SetPressed_follows | exact F]. }
  destruct (pressed_ b1 && flt f0 (repeatRate_ b1)); [| exact F1].
  destruct (SFleb _ f0); exact F1.
Qed.

Lemma OnClickBegin_follows (b : Button) (button : Z) :
  child_offset_follows b -> child_offset_follows (OnClickBegin b button).1.
Proof.
  intros F. unfold OnClickBegin. destruct (button =? MOUSEB_LEFT); [| exact F].
  reflexivity.
Qed.

Lemma OnClickEnd_follows (b : Button) (screenPosition : IntVector2) (button : Z) :
  child_offset_follows b -> child_offset_follows (OnClickEnd b screenPosition button).1.
Proof.
  intros F. unfold OnClickEnd. destruct (pressed_ b && (button =? MOUSEB_LEFT)); [| exact F].
  simpl. destruct (IsInside b screenPosition); reflexivity.
Qed.

(** The handlers of a button keep its child offset in step with its
    pressed state: the pressed child offset while pressed, zero while not.
    [SetPressed] establishes this from any state; [Update], the click
    handlers, [OnDragMove], [OnKey] and the setters of the repeat timing
    and of the pressed image offset preserve it. *)
Theorem child_offset_follows_pressed_state (b : Button) :
  (forall enable, child_offset_follows (SetPressed b enable))
  /\ child_offset_follows (OnDragMove b)
  /\ (child_offset_follows b ->
      (forall timeStep, child_offset_follows (Update b timeStep).1)
      /\ (forall button, child_offset_follows (OnClickBegin b button).1)
      /\ (forall pos button, child_offset_follows (OnClickEnd b pos button).1)
      /\ (forall key, child_offset_follows (OnKey b key).1)
      /\ (forall delay rate, child_offset_follows (SetRepeat b delay rate))
      /\ (forall offset, child_offset_follows (SetPressedOffset b offset))).
Proof.
  split; [apply SetPressed_follows |].
  split; [apply SetPressed_follows |].
  intros F.
  split; [intros; apply Update_follows, F |].
  split; [intros; apply OnClickBegin_follows, F |].
  split; [intros; apply OnClickEnd_follows, F |].
  split; [| split; intros; exact F].
  intros key. unfold OnKey.
  destruct (BorderImage.HasFocus (base b) && _); [| exact F].
  pose proof (OnClickBegin_follows b MOUSEB_LEFT F) as F1.
  destruct (OnClickBegin b MOUSEB_LEFT) as [b1 begun].
  pose proof (OnClickEnd_follows b1 (mkIntVector2 0 0) MOUSEB_LEFT F1) as F2.
  destruct (OnClickEnd b1 (mkIntVector2 0 0) MOUSEB_LEFT) as [b2 ended].
  exact F2.
Qed.

(** A focused button takes Return, the second Return, keypad Enter and
    Space for a left click: it sends the pressed event and then the
    released event, ends up not pressed, with its child offset at zero,
    hovered, and with the repeat timer reset to the repeat delay.  Without
    focus, or for any other key, [OnKey] does nothing. *)
Theorem OnKey_simulates_left_click (b : Button) (key : Key) :
  (BorderImage.HasFocus (base b) = true -> activates key ->
   (OnKey b key).2 = [E_PRESSED; E_RELEASED]
   /\ pressed_ (OnKey b key).1 = false
   /\ childOffset_ (OnKey b key).1 = IntVector2_ZERO
   /\ BorderImage.hovering_ (base (OnKey b key).1) = true
   /\ repeatTimer_ (OnKey b key).1 = repeatDelay_ b)
  /\ (BorderImage.HasFocus (base b) = false -> OnKey b key = (b, []))
  /\ (forall code, OnKey b (KEY_other code) = (b, [])).
Proof.
  split.
  - intros Hf Hk. unfold OnKey. rewrite Hf.
    assert (Ha : match key with
                 | KEY_other _ => false
                 | _ => true
                 end = true)
      by (destruct Hk as [-> | [-> | [-> | ->]]]; reflexivity).
    rewrite Ha. simpl.
    destruct (IsInside b (mkIntVector2 0 0)); repeat split; reflexivity.
  - split.
    + intros Hf. unfold OnKey. rewrite Hf. reflexivity.
    + intros code. unfold OnKey. rewrite andb_false_r. reflexivity.
Qed.

(** [Update] sends at most one pressed event, and only for a button that
    is pressed and hovered, has a repeat rate above zero, and whose repeat
    timer has run out in this step.  A pressed button that is no longer
    hovered is released without any event; a button that is not pressed
    is left as it is. *)
Theorem Update_repeats_only_while_held_and_hovered (b : Button) (timeStep : float) :
  ((Update b timeStep).2 = [] \/ (Update b timeStep).2 = [E_PRESSED])
  /\ ((Update b timeStep).2 = [E_PRESSED] ->
      pressed_ b = true /\ BorderImage.hovering_ (base b) = true
      /\ flt f0 (repeatRate_ b) = true
      /\ SFleb (fsub (repeatTimer_ b) timeStep) f0 = true)
  /\ (BorderImage.hovering_ (base b) = false ->
      (Update b timeStep).2 = [] /\ pressed_ (Update b timeStep).1 = false)
  /\ (pressed_ b = false -> Update b timeStep = (b, [])).
Proof.
  unfold Update.
  destruct (pressed_ b) eqn:P, (BorderImage.hovering_ (base b)) eqn:Hh; simpl;
    rewrite ?P; simpl;
    try (repeat split; solve [auto | discriminate]).
  destruct (flt f0 (repeatRate_ b)) eqn:Rr; simpl.
  - destruct (SFleb (fsub (repeatTimer_ b) timeStep) f0) eqn:Le; simpl;
      repeat split; solve [auto | discriminate].
  - repeat split; solve [auto | discriminate].
Qed.

(** [SetRepeatRate] and [SetRepeatDelay] keep a value above zero and turn
    everything else, negative values and NaN included, into zero; with a
    rate so turned into zero [Update] never sends a repeat. *)
Theorem SetRepeat_clamps_at_zero (b : Button) (value : float) :
  (flt f0 value = true ->
   repeatRate_ (SetRepeatRate b value) = value
   /\ repeatDelay_ (SetRepeatDelay b value) = value)
  /\ (flt f0 value = false ->
      repeatRate_ (SetRepeatRate b value) = f0
      /\ repeatDelay_ (SetRepeatDelay b value) = f0
      /\ forall timeStep, (Update (SetRepeatRate b value) timeStep).2 = [])
  /\ (forall delay rate,
         repeatDelay_ (SetRepeat b delay rate) = repeatDelay_ (SetRepeatDelay b delay)
         /\ repeatRate_ (SetRepeat b delay rate) = repeatRate_ (SetRepeatRate b rate)).
Proof.
  unfold SetRepeat, SetRepeatRate, SetRepeatDelay, Max. simpl.
  split; [intros ->; split; reflexivity |].
  split; [| intros; split; reflexivity].
  intros E. rewrite E. split; [reflexivity |]. split; [reflexivity |].
  intros timeStep. unfold Update. simpl.
  destruct (negb _ && pressed_ b); simpl; [reflexivity |].
  rewrite andb_false_r. reflexivity.
Qed.

(** A button reacts to the left mouse button only, and is released only
    when it is pressed.  A left press always presses it, resets the repeat
    timer to the repeat delay, marks it hovered and sends the pressed
    event; a left release of a pressed button sends the released event
    and marks it hovered when the release position is inside it. *)
Theorem Button_reacts_to_left_button_only (b : Button) (pos : IntVector2) (button : Z) :
  (button <> MOUSEB_LEFT ->
   OnClickBegin b button = (b, []) /\ OnClickEnd b pos button = (b, []))
  /\ (pressed_ b = false -> OnClickEnd b pos button = (b, []))
  /\ ((OnClickBegin b MOUSEB_LEFT).2 = [E_PRESSED]
      /\ pressed_ (OnClickBegin b MOUSEB_LEFT).1 = true
      /\ repeatTimer_ (OnClickBegin b MOUSEB_LEFT).1 = repeatDelay_ b
      /\ BorderImage.hovering_ (base (OnClickBegin b MOUSEB_LEFT).1) = true)
  /\ (pressed_ b = true ->
      (OnClickEnd b pos MOUSEB_LEFT).2 = [E_RELEASED]
      /\ pressed_ (OnClickEnd b pos MOUSEB_LEFT).1 = false
      /\ BorderImage.hovering_ (base (OnClickEnd b pos MOUSEB_LEFT).1)
         = IsInside b pos || BorderImage.hovering_ (base b)).
Proof.
  split.
  { intros N. unfold OnClickBegin, OnClickEnd.
    destruct (Z.eqb_spec button MOUSEB_LEFT); [contradiction |].
    rewrite andb_false_r. split; reflexivity. }
  split; [intros P; unfold OnClickEnd; rewrite P; reflexivity |].
  split; [repeat split |].
  intros P. unfold OnClickEnd. rewrite P. simpl.
  destruct (IsInside b pos); repeat split.
Qed.

End ButtonFacts.

Section ButtonBatchFacts.
Import Batch Button.
Context `{MathLib}.
Variable posAdjust : Vector3.

Lemma IntVector2_add_zero_l (v : IntVector2) : IntVector2_add IntVector2_ZERO v = v.
Proof. destruct v. reflexivity. Qed.

(** A button that is disabled, or neither pressed nor selected, is drawn
    exactly as the border image it extends; a pressed or selected button
    that is enabled is drawn with the pressed offset added to the hover
    offset, if any. *)
Theorem Button_at_rest_draws_as_BorderImage (fuel : nat) (b : Button)
    (batches : list UIBatch) (vd : Ptr) (vertexData : PODVector)
    (currentScissor : IntRect) :
  (BorderImage.enabled_ (base b) = false
   \/ (pressed_ b = false /\ BorderImage.selected_ (base b) = false) ->
   GetBatches posAdjust fuel b batches vd vertexData currentScissor
   = '(bi, batches', vertexData') ←
       BorderImage.GetBatches posAdjust fuel (base b) batches vd vertexData
         currentScissor;
     Ret (set_base b bi, batches', vertexData'))
  /\ (BorderImage.enabled_ (base b) = true ->
      pressed_ b || BorderImage.selected_ (base b) = true ->
      batch_offset b
      = IntVector2_add
          (if BorderImage.hovering_ (base b) || BorderImage.HasFocus (base b)
           then BorderImage.hoverOffset_ (base b) else IntVector2_ZERO)
          (pressedOffset_ b)).
Proof.
  split.
  - intros Hrest. unfold GetBatches, BorderImage.GetBatches, batch_offset.
    destruct (BorderImage.enabled_ (base b)) eqn:En.
    + destruct Hrest as [Hd | [P S]]; [discriminate |]. rewrite P, S. simpl.
      rewrite orb_false_r.
      destruct (BorderImage.hovering_ (base b) || BorderImage.HasFocus (base b));
        rewrite ?IntVector2_add_zero_l; reflexivity.
    + rewrite IntVector2_add_zero_l. reflexivity.
  - intros En Hp. unfold batch_offset. rewrite En, Hp.
    destruct (BorderImage.hovering_ (base b) || BorderImage.HasFocus (base b));
      rewrite ?IntVector2_add_zero_l; reflexivity.
Qed.

End ButtonBatchFacts.

Section ImageSampleFacts.
Import Batch BatchSpec BatchCalls Samples ImageSamples BorderImageSetters Button ButtonSpec.

Lemma image_rect_is_set_once_witness :
  BorderImage.imageRect_ (SetTexture blank_image (Some wide_texture)) = mkIntRect 0 0 64 32
  /\ BorderImage.imageRect_ (SetTexture framed_image (Some wide_texture))
     = mkIntRect 0 0 8 8.
Proof.
  destruct (image_rect_is_set_once blank_image) as (_ & _ & _ & _ & Hfull & _).
  destruct (image_rect_is_set_once framed_image) as (_ & _ & _ & Hkeep & _).
  split.
  - apply (Hfull wide_texture). reflexivity.
  - apply (proj2 (Hkeep (Some wide_texture))). discriminate.
Defined.

Lemma borders_are_never_negative_witness :
  BorderImage.border_ (SetBorder blank_image (mkIntRect 2 0 3 1)) = mkIntRect 2 0 3 1.
Proof.
  apply (proj1 (proj2 (proj2 (borders_are_never_negative blank_image
                                (mkIntRect 2 0 3 1))))); simpl; lia.
Defined.

Lemma GetBatches_skips_invisible_element_witness :
  BorderImage.GetBatches no_adjust 0 ghost_image [material_a] 7%nat [] full_scissor
  = Ret (BorderImage.clear_hovering ghost_image, [material_a], []).
Proof.
  apply (proj2 (GetBatches_skips_invisible_element no_adjust ghost_image 0 [material_a]
                  7%nat [] full_scissor
                  ltac:(intros [G | A]; [discriminate G | apply A; reflexivity]))).
Defined.

Lemma GetBatches_draws_at_most_nine_quads_witness :
  exists k cells bt,
    0 <= k <= 9 /\ Size cells = 36 * k
    /\ BorderImage.GetBatches no_adjust 0 framed_image [] 7%nat [] full_scissor
       = Ret (BorderImage.clear_hovering framed_image, AddOrMerge bt [], [] ++ cells)
    /\ vertexStart_ bt = Size [] /\ vertexEnd_ bt = Size [] + 36 * k
    /\ scissor_ bt = full_scissor
    /\ customMaterial_ bt = BorderImage.material_ framed_image
    /\ vertexData_ bt = Some 7%nat.
Proof.
  apply (proj2 (GetBatches_draws_at_most_nine_quads no_adjust framed_image 0 [] 7%nat []
                  full_scissor eq_refl)).
Defined.

(** The framed sample image has all nine cells: its [GetBatches] draws
    nine quads into one batch. *)
Example framed_image_draws_nine_quads :
  match BorderImage.GetBatches no_adjust 0 framed_image [] 7%nat [] full_scissor with
  | Ret (_, [bt], cells) =>
      vertexStart_ bt = 0 /\ vertexEnd_ bt = 36 * 9 /\ Size cells = 36 * 9
  | _ => False
  end.
Proof. vm_compute. repeat split. Qed.

Lemma child_offset_follows_pressed_state_witness :
  child_offset_follows (Update held_button f1).1
  /\ child_offset_follows (OnKey held_button KEY_SPACE).1.
Proof.
  destruct (child_offset_follows_pressed_state held_button) as (_ & _ & Hkeep).
  destruct (Hkeep eq_refl) as (Hup & _ & _ & Hkey & _).
  split; [apply Hup | apply Hkey].
Defined.

Lemma OnKey_simulates_left_click_witness :
  (OnKey resting_button KEY_RETURN).2 = [E_PRESSED; E_RELEASED]
  /\ pressed_ (OnKey resting_button KEY_RETURN).1 = false.
Proof.
  destruct (OnKey_simulates_left_click resting_button KEY_RETURN) as (Hclick & _).
  destruct (Hclick eq_refl (or_introl eq_refl)) as (He & Hp & _).
  split; assumption.
Defined.

Lemma Update_repeats_only_while_held_and_hovered_witness :
  pressed_ held_button = true /\ BorderImage.hovering_ (base held_button) = true
  /\ flt f0 (repeatRate_ held_button) = true
  /\ SFleb (fsub (repeatTimer_ held_button) f1) f0 = true.
Proof.
  apply (proj1 (proj2 (Update_repeats_only_while_held_and_hovered held_button f1))).
  vm_compute. reflexivity.
Defined.

Lemma SetRepeat_clamps_at_zero_witness :
  repeatRate_ (SetRepeatRate held_button (SFopp f2)) = f0
  /\ repeatRate_ (SetRepeatRate held_button S754_nan) = f0
  /\ (Update (SetRepeatRate held_button S754_nan) f1).2 = []
  /\ repeatRate_ (SetRepeatRate held_button f2) = f2.
Proof.
  destruct (SetRepeat_clamps_at_zero held_button (SFopp f2)) as (_ & Hneg & _).
  destruct (SetRepeat_clamps_at_zero held_button S754_nan) as (_ & Hnan & _).
  destruct (SetRepeat_clamps_at_zero held_button f2) as (Hpos & _).
  split; [apply Hneg; reflexivity |].
  split; [apply Hnan; reflexivity |].
  split; [apply Hnan; reflexivity |].
  apply Hpos. reflexivity.
Defined.

Lemma Button_reacts_to_left_button_only_witness :
  OnClickBegin resting_button 4 = (resting_button, [])
  /\ (OnClickEnd held_button (mkIntVector2 50 50) Button.MOUSEB_LEFT).2 = [E_RELEASED].
Proof.
  destruct (Button_reacts_to_left_button_only resting_button (mkIntVector2 50 50) 4)
    as (Hother & _).
  destruct (Button_reacts_to_left_button_only held_button (mkIntVector2 50 50) 4)
    as (_ & _ & _ & Hrel).
  split; [apply Hother; discriminate | apply Hrel; reflexivity].
Defined.

Lemma Button_at_rest_draws_as_BorderImage_witness :
  Button.GetBatches no_adjust 0 resting_button [] 7%nat [] full_scissor
  = '(bi, batches', vertexData') ←
      BorderImage.GetBatches no_adjust 0 (base resting_button) [] 7%nat [] full_scissor;
    Ret (set_base resting_button bi, batches', vertexData').
Proof.
  apply (proj1 (Button_at_rest_draws_as_BorderImage no_adjust 0 resting_button [] 7%nat []
                  full_scissor)).
  right. split; reflexivity.
Defined.

End ImageSampleFacts.

(** ** What the hit test returns *)

Section HitFilterFacts.
Import UISystem UISpec PointerSpec.

Ltac hit_cases H :=
  (progress unfold mbind, res_bind in H)
  || match type of H with
     | context [match ?x with _ => _ end] =>
         let E := fresh "E" in destruct x eqn:E; simpl in H; try discriminate H
     end.

Lemma GetElementAt_children_ok (ui : UI) (c : UIElement)
    (descend : option Ptr -> Ptr -> res (option Ptr)) (position : IntVector2)
    (enabledOnly : bool) :
  (forall result p r, hit_ok ui position enabledOnly result -> descend result p = Ret r ->
                      hit_ok ui position enabledOnly r) ->
  forall (cs : list Ptr) (i : Z) (skip : nat) (result r : option Ptr),
    hit_ok ui position enabledOnly result ->
    GetElementAt_children ui c descend position enabledOnly cs i skip result = Ret r ->
    hit_ok ui position enabledOnly r.
Proof.
  intros Hd. induction cs as [| p cs IH]; intros i skip result r Hok Hrun.
  - simpl in Hrun. injection Hrun as <-. exact Hok.
  - simpl in Hrun. destruct skip as [| skip']; [| eapply IH; eassumption].
    unfold load, deref in Hrun.
    destruct (heap ui !! p) as [element |] eqn:Hp; simpl in Hrun; [| discriminate].
    destruct (bool_decide (Some p <> cursor_ ui) && visible_ element) eqn:Hv;
      [| eapply IH; eassumption].
    apply andb_true_iff in Hv as [Hc Hvis]. apply bool_decide_eq_true in Hc.
    destruct (IsInside element position) eqn:Hin.
    + assert (Hok' : hit_ok ui position enabledOnly
                       (if enabled_ element || negb enabledOnly then Some p else result)).
      { destruct (enabled_ element || negb enabledOnly) eqn:He; [| exact Hok].
        exists element. repeat split; try assumption.
        intros ->. destruct (enabled_ element); [reflexivity | discriminate He]. }
      revert Hrun Hok'.
      generalize (if enabled_ element || negb enabledOnly then Some p else result).
      intros result' Hrun Hok'.
      repeat hit_cases Hrun;
        repeat match goal with
          | Hr : Ret _ = Ret _ |- _ => injection Hr as <-
          | Hr : descend _ _ = Ret _ |- _ => apply (Hd _ _ _ Hok') in Hr
          | Hr : GetElementAt_children _ _ _ _ _ _ _ _ _ = Ret _ |- _ =>
              eapply IH in Hr; [exact Hr |]
          end; assumption.
    + repeat hit_cases Hrun;
        repeat match goal with
          | Hr : Ret _ = Ret _ |- _ => injection Hr as <-
          | Hr : descend _ _ = Ret _ |- _ => apply (Hd _ _ _ Hok) in Hr
          | Hr : GetElementAt_children _ _ _ _ _ _ _ _ _ = Ret _ |- _ =>
              eapply IH in Hr; [exact Hr |]
          end; assumption.
Qed.

Lemma GetElementAt_rec_ok (fuel : nat) (ui : UI) (position : IntVector2)
    (enabledOnly : bool) :
  forall (result current r : option Ptr),
    hit_ok ui position enabledOnly result ->
    GetElementAt_rec fuel ui result current position enabledOnly = Ret r ->
    hit_ok ui position enabledOnly r.
Proof.
  induction fuel as [| fuel IH]; intros result current r Hok Hrun;
    destruct current as [cur |]; simpl in Hrun;
    try (injection Hrun as <-; exact Hok); [discriminate |].
  unfold load, deref in Hrun. destruct (heap ui !! cur) as [c |]; simpl in Hrun;
    [| discriminate].
  eapply GetElementAt_children_ok; [| exact Hok | exact Hrun].
  intros result' p r' Hok' Hd. exact (IH _ _ _ Hok' Hd).
Qed.

Lemma GetElementAt_root_ok (fuel : nat) (ui : UI) (root : Ptr) (position : IntVector2)
    (enabledOnly : bool) (x : Ptr) :
  GetElementAt_root fuel ui root position enabledOnly = Ret (Some x) ->
  exists tested, hit_ok ui tested enabledOnly (Some x).
Proof.
  unfold GetElementAt_root, load, deref. intros Hrun.
  destruct (heap ui !! root) as [r |]; simpl in Hrun; [| discriminate].
  repeat hit_cases Hrun;
    (eexists; eapply GetElementAt_rec_ok; [| exact Hrun]; exact I).
Qed.

Lemma GetElementAt_textures_ok (fuel : nat) (ui : UI) (position : IntVector2)
    (enabledOnly : bool) (x : Ptr) (q : IntVector2) :
  forall roots,
    GetElementAt_textures fuel ui roots position enabledOnly = Ret (Some (x, q)) ->
    exists tested, hit_ok ui tested enabledOnly (Some x).
Proof.
  induction roots as [| root rest IH]; intros Hrun; simpl in Hrun; [discriminate |].
  destruct (heap ui !! root) as [r |]; [| exact (IH Hrun)].
  destruct (negb (enabled_ r)); [exact (IH Hrun) |].
  destruct (CombinedScreenRect_IsInside r (ScreenToElement r position)); [| exact (IH Hrun)].
  destruct (GetElementAt_root fuel ui root (ScreenToElement r position) enabledOnly)
    as [[hit |] | |] eqn:R; simpl in Hrun; try discriminate; [| exact (IH Hrun)].
  injection Hrun as -> _. eapply GetElementAt_root_ok. exact R.
Qed.

Lemma GetElementAt_hit_ok (fuel : nat) (ui : UI) (position : IntVector2)
    (enabledOnly : bool) (x : Ptr) (written : option IntVector2) :
  GetElementAt fuel ui position enabledOnly = Ret (Some x, written) ->
  exists tested, hit_ok ui tested enabledOnly (Some x).
Proof.
  intros Hrun. unfold GetElementAt, GetElementAt_modal in Hrun.
  destruct (HasModalElement ui) as [modal | |]; simpl in Hrun; try discriminate.
  destruct (if modal then _ else _) as [[m |] | |] eqn:Rm; simpl in Hrun;
    try discriminate.
  - injection Hrun as -> _. destruct modal; [| discriminate Rm].
    eapply GetElementAt_root_ok. exact Rm.
  - destruct (GetElementAt_root fuel ui (rootElement_ ui) position enabledOnly)
      as [[hit |] | |] eqn:Rr; simpl in Hrun; try discriminate.
    + injection Hrun as -> _. eapply GetElementAt_root_ok. exact Rr.
    + destruct (renderToTexture_ ui) as [| t ts]; [discriminate Hrun |].
      destruct (GetElementAt_textures fuel ui (t :: ts) position enabledOnly)
        as [[[hit q] |] | |] eqn:Rt; simpl in Hrun; try discriminate.
      injection Hrun as -> _. eapply GetElementAt_textures_ok. exact Rt.
Qed.

Lemma GetElementAt_hit_alive (fuel : nat) (ui : UI) (position : IntVector2)
    (enabledOnly : bool) (x : Ptr) (written : option IntVector2) :
  GetElementAt fuel ui position enabledOnly = Ret (Some x, written) ->
  is_Some (heap ui !! x).
Proof.
  intros Hrun. destruct (GetElementAt_hit_ok _ _ _ _ _ _ Hrun) as (tested & e & He & _).
  rewrite He. eauto.
Qed.

(** Whatever the hit test returns is a live, visible element that is not
    the cursor and that contains the position it was tested at; asked for
    enabled elements only, it returns an enabled one.  For the recursive
    overload the position tested is the one passed in. *)
Theorem GetElementAt_returns_visible_hit (fuel : nat) (ui : UI) (position : IntVector2)
    (enabledOnly : bool) (x : Ptr) :
  (forall written,
      GetElementAt fuel ui position enabledOnly = Ret (Some x, written) ->
      exists e tested,
        heap ui !! x = Some e /\ visible_ e = true /\ IsInside e tested = true
        /\ Some x <> cursor_ ui /\ (enabledOnly = true -> enabled_ e = true))
  /\ (forall current,
         GetElementAt_rec fuel ui None current position enabledOnly = Ret (Some x) ->
         exists e,
           heap ui !! x = Some e /\ visible_ e = true /\ IsInside e position = true
           /\ Some x <> cursor_ ui /\ (enabledOnly = true -> enabled_ e = true)).
Proof.
  split.
  - intros written Hrun.
    destruct (GetElementAt_hit_ok _ _ _ _ _ _ Hrun) as (tested & e & Hx).
    exists e, tested. exact Hx.
  - intros current Hrun.
    apply (GetElementAt_rec_ok fuel ui position enabledOnly None current (Some x) I Hrun).
Qed.

End HitFilterFacts.

(** ** Focus *)

Section FocusFacts.
Import UISystem UISpec PointerSpec HandlerSamples.

(** The handlers of this section leave the elements alone. *)
#[local] Existing Instance quiet.

Lemma quiet_deliver (ui : UI) (ev : Event) : deliver ui ev = ui.
Proof. destruct ui; reflexivity. Qed.

Lemma GetFocusableElement_sound (h : Heap) :
  forall (fuel : nat) (x r : option Ptr),
    GetFocusableElement fuel h x = Ret r ->
    exists n, (n <= fuel)%nat /\ climbs h n x r /\ can_alter_focus h r.
Proof.
  induction fuel as [| fuel IH]; intros x r Hrun; destruct x as [el |]; simpl in Hrun;
    try (injection Hrun as <-; exists 0%nat; split; [lia |]; split; [constructor | exact I]);
    unfold load, deref in Hrun; destruct (h !! el) as [e |] eqn:He; simpl in Hrun;
    try discriminate;
    (case_bool_decide as Hf;
     [injection Hrun as <-; exists 0%nat; split; [lia |]; split; [constructor |];
      exists e; split; assumption |]);
    [discriminate |].
  apply IH in Hrun as (n & Hn & Hc & Ha).
  exists (S n). split; [lia |]. split; [| exact Ha].
  eapply climbs_step; [exact He | | exact Hc].
  destruct (decide (focusMode_ e = FM_NOTFOCUSABLE)); [assumption | contradiction].
Qed.

Lemma GetFocusableElement_complete (h : Heap) (n : nat) (x r : option Ptr) :
  climbs h n x r -> can_alter_focus h r ->
  forall fuel, (n <= fuel)%nat -> GetFocusableElement fuel h x = Ret r.
Proof.
  induction 1 as [x | n el e r He Hf Hc IH]; intros Ha fuel Hn.
  - destruct x as [f |]; [| destruct fuel; reflexivity].
    destruct Ha as (e & He & Hf).
    destruct fuel; simpl; unfold load; rewrite He; simpl;
      rewrite bool_decide_eq_true_2 by exact Hf; reflexivity.
  - destruct fuel as [| fuel]; [lia |]. simpl. unfold load. rewrite He. simpl.
    rewrite bool_decide_eq_false_2 by (intros N; apply N; exact Hf).
    apply IH; [exact Ha | lia].
Qed.

(** [GetFocusableElement] returns the nearest element, starting with the
    one given and going up the parents, whose focus mode is not
    [FM_NOTFOCUSABLE], and null when the chain ends without one; it does
    so as soon as its budget covers the number of steps. *)
Theorem GetFocusableElement_finds_nearest (h : Heap) (fuel : nat) (x r : option Ptr) :
  (GetFocusableElement fuel h x = Ret r ->
   exists n, (n <= fuel)%nat /\ climbs h n x r /\ can_alter_focus h r)
  /\ (forall n, climbs h n x r -> can_alter_focus h r -> (n <= fuel)%nat ->
                GetFocusableElement fuel h x = Ret r).
Proof.
  split; [apply GetFocusableElement_sound |].
  intros n Hc Ha Hn. eapply GetFocusableElement_complete; eassumption.
Qed.

(** What [element] amounts to when focus is handed to it. *)
Lemma change_focus_spec (ui ui1 : UI) (original element : option Ptr) (t : Trace) :
  change_focus ui original element = Ret (ui1, t) ->
  exists takes : bool,
    (takes = true ->
     exists el e, element = Some el /\ heap ui !! el = Some e
                  /\ at_least_focusable (focusMode_ e) = true)
    /\ ui1 = set_focusElement_ ui
               (if takes then element
                else if live (heap ui) (focusElement_ ui) then None else focusElement_ ui)
    /\ t = (if live (heap ui) (focusElement_ ui)
            then [Sent (focusElement_ ui) E_DEFOCUSED (focusElement_ ui)] else [])
           ++ (if takes then [Sent element E_FOCUSED element] else [])
           ++ [Sent_FocusChanged original element].
Proof.
  unfold change_focus. intros Hrun.
  destruct element as [el |].
  - destruct (live (heap ui) (focusElement_ ui)) eqn:L; simpl in Hrun;
      unfold load, deref in Hrun; destruct (heap ui !! el) as [e |] eqn:He;
      simpl in Hrun; try discriminate;
      destruct (at_least_focusable (focusMode_ e)) eqn:F; simpl in Hrun;
      injection Hrun as <- <-;
      first [ exists true; split; [intros _; exists el, e; auto |];
              split; reflexivity
            | exists false; split; [discriminate |]; split;
              [first [reflexivity | apply set_focusElement_same] | reflexivity] ].
  - destruct (live (heap ui) (focusElement_ ui)) eqn:L; simpl in Hrun;
      injection Hrun as <- <-; exists false; (split; [discriminate |]); split;
      first [reflexivity | apply set_focusElement_same].
Qed.

(** [SetFocusElement] changes nothing but the focus element.  Asked for
    the element that has the focus already, it does nothing.  Otherwise it
    either does nothing at all, or takes the focus from the old element if
    that is alive (sending it the defocused event first), gives it to the
    target if the target's focus mode is at least [FM_FOCUSABLE] (sending
    the focused event), and sends the focus-changed event last.  The focus
    never moves to an element whose focus mode is below [FM_FOCUSABLE]. *)
Theorem SetFocusElement_outcome (fuel : nat) (ui ui' : UI) (element : option Ptr)
    (t : Trace) :
  SetFocusElement fuel ui element = Ret (ui', t) ->
  ui' = set_focusElement_ ui (focusElement_ ui')
  /\ (forall el, element = Some el -> focusElement_ ui = Some el -> ui' = ui /\ t = [])
  /\ (forall f, focusElement_ ui' = Some f ->
                focusElement_ ui = Some f
                \/ exists e, heap ui !! f = Some e
                             /\ at_least_focusable (focusMode_ e) = true)
  /\ ((ui' = ui /\ t = [])
      \/ exists (target : option Ptr) (takes : bool),
           t = (if live (heap ui) (focusElement_ ui)
                then [Sent (focusElement_ ui) E_DEFOCUSED (focusElement_ ui)] else [])
               ++ (if takes then [Sent target E_FOCUSED target] else [])
               ++ [Sent_FocusChanged element target]
           /\ focusElement_ ui'
              = (if takes then target
                 else if live (heap ui) (focusElement_ ui) then None
                      else focusElement_ ui))
  /\ (element = None ->
      focusElement_ ui'
      = if live (heap ui) (focusElement_ ui) then None else focusElement_ ui).
Proof.
  intros Hrun.
  assert (Hsame : forall u1 t1, Ret (ui, []) = Ret (u1, t1) -> element <> None ->
             u1 = set_focusElement_ ui (focusElement_ u1)
             /\ (forall el, element = Some el -> focusElement_ ui = Some el ->
                            u1 = ui /\ t1 = [])
             /\ (forall f, focusElement_ u1 = Some f ->
                           focusElement_ ui = Some f
                           \/ exists e, heap ui !! f = Some e
                                        /\ at_least_focusable (focusMode_ e) = true)
             /\ ((u1 = ui /\ t1 = [])
                 \/ exists (target : option Ptr) (takes : bool),
                      t1 = (if live (heap ui) (focusElement_ ui)
                            then [Sent (focusElement_ ui) E_DEFOCUSED (focusElement_ ui)]
                            else [])
                           ++ (if takes then [Sent target E_FOCUSED target] else [])
                           ++ [Sent_FocusChanged element target]
                      /\ focusElement_ u1
                         = (if takes then target
                            else if live (heap ui) (focusElement_ ui) then None
                                 else focusElement_ ui))
             /\ (element = None ->
                 focusElement_ u1
                 = if live (heap ui) (focusElement_ ui) then None else focusElement_ ui)).
  { intros u1 t1 E N. injection E as <- <-.
    split; [apply set_focusElement_same |]. split; [auto |].
    split; [auto |]. split; [auto |]. intros E. contradiction. }
  assert (Hchange : forall target u1 t1,
             change_focus ui element target = Ret (u1, t1) ->
             (forall el, element = Some el -> focusElement_ ui <> Some el) ->
             u1 = set_focusElement_ ui (focusElement_ u1)
             /\ (forall el, element = Some el -> focusElement_ ui = Some el ->
                            u1 = ui /\ t1 = [])
             /\ (forall f, focusElement_ u1 = Some f ->
                           focusElement_ ui = Some f
                           \/ exists e, heap ui !! f = Some e
                                        /\ at_least_focusable (focusMode_ e) = true)
             /\ ((u1 = ui /\ t1 = [])
                 \/ exists (target : option Ptr) (takes : bool),
                      t1 = (if live (heap ui) (focusElement_ ui)
                            then [Sent (focusElement_ ui) E_DEFOCUSED (focusElement_ ui)]
                            else [])
                           ++ (if takes then [Sent target E_FOCUSED target] else [])
                           ++ [Sent_FocusChanged element target]
                      /\ focusElement_ u1
                         = (if takes then target
                            else if live (heap ui) (focusElement_ ui) then None
                                 else focusElement_ ui))
             /\ (target = None ->
                 focusElement_ u1
                 = if live (heap ui) (focusElement_ ui) then None else focusElement_ ui)).
  { intros target u1 t1 Hc Hne.
    apply change_focus_spec in Hc as (takes & Htakes & -> & ->).
    split; [reflexivity |].
    split; [intros el E1 E2; destruct (Hne el E1 E2) |].
    split.
    { simpl. intros f Hf. destruct takes.
      - destruct (Htakes eq_refl) as (el & e & -> & He & Ha). injection Hf as <-.
        right. exists e. auto.
      - destruct (live (heap ui) (focusElement_ ui)); [discriminate | auto]. }
    split; [right; exists target, takes; split; reflexivity |].
    intros ->. simpl. destruct takes; [| reflexivity].
    destruct (Htakes eq_refl) as (el & e & N & _). discriminate N. }
  unfold SetFocusElement in Hrun. destruct element as [el |].
  - case_bool_decide as Hsame_el; [apply Hsame; [exact Hrun | discriminate] |].
    destruct (HasModalElement ui) as [modal | |]; simpl in Hrun; try discriminate.
    destruct (load (heap ui) el) as [e | |]; simpl in Hrun; try discriminate.
    destruct (if modal then _ else _) as [[top |] | |]; simpl in Hrun; try discriminate;
      [apply Hsame; [exact Hrun | discriminate] |].
    destruct (GetFocusableElement fuel (heap ui) (Some el)) as [[focusable |] | |];
      simpl in Hrun; try discriminate; [| apply Hsame; [exact Hrun | discriminate]].
    destruct (Hchange _ _ _ Hrun) as (H1 & H2 & H3 & H4 & _).
    { intros el' [= <-]. exact Hsame_el. }
    split; [exact H1 |]. split; [exact H2 |]. split; [exact H3 |]. split; [exact H4 |].
    intros N. discriminate N.
  - destruct (Hchange _ _ _ Hrun) as (H1 & H2 & H3 & H4 & H5); [discriminate |].
    split; [exact H1 |]. split; [exact H2 |]. split; [exact H3 |]. split; [exact H4 |].
    intros _. apply H5. reflexivity.
Qed.

Lemma top_level_under_nested (h : Heap) (root : Ptr) (x : option Ptr) (n : nat) :
  nested_under h root x n ->
  forall fuel, (n <= fuel)%nat -> exists t, top_level_under fuel h root x = Ret (Some t).
Proof.
  induction 1 as [t e He Hp | t e n He Hp Hn IH]; intros fuel Hf.
  - exists t. destruct fuel; simpl; unfold load; rewrite He; simpl;
      rewrite bool_decide_eq_false_2 by (intros N; apply N; exact Hp); reflexivity.
  - destruct fuel as [| fuel]; [lia |]. simpl. unfold load. rewrite He. simpl.
    rewrite bool_decide_eq_true_2 by exact Hp. apply IH. lia.
Qed.

(** While a modal element is shown, [SetFocusElement] refuses, without a
    trace, every element that lies two levels or more below the root
    element.  The test starts at the element's parent: an element whose
    parent has no parent (a child of the modal root, but also a direct
    child of the root element) is not refused, and takes the focus when
    its focus mode allows it. *)
Theorem SetFocusElement_during_modal (fuel : nat) (ui : UI) (el : Ptr) (e : UIElement) :
  HasModalElement ui = Ret true -> heap ui !! el = Some e ->
  focusElement_ ui <> Some el ->
  (forall n, nested_under (heap ui) (rootElement_ ui) (parent_ e) n -> (n <= fuel)%nat ->
             SetFocusElement fuel ui (Some el) = Ret (ui, []))
  /\ (forall p pe, parent_ e = Some p -> heap ui !! p = Some pe -> parent_ pe = None ->
                   at_least_focusable (focusMode_ e) = true -> (1 <= fuel)%nat ->
                   exists t, SetFocusElement fuel ui (Some el)
                             = Ret (set_focusElement_ ui (Some el), t)).
Proof.
  intros Hm He Hne. split.
  - intros n Hn Hf. unfold SetFocusElement.
    rewrite bool_decide_eq_false_2 by exact Hne. rewrite Hm. simpl.
    unfold load at 1. rewrite He. simpl.
    destruct (top_level_under_nested _ _ _ _ Hn fuel Hf) as (t & ->). reflexivity.
  - intros p pe Hp Hpe Hroot Ha Hf. unfold SetFocusElement.
    rewrite bool_decide_eq_false_2 by exact Hne. rewrite Hm. simpl.
    unfold load at 1. rewrite He. simpl. rewrite Hp.
    destruct fuel as [| fuel]; [lia |].
    assert (Htop : top_level_under (S fuel) (heap ui) (rootElement_ ui) (Some p) = Ret None).
    { simpl. unfold load. rewrite Hpe. simpl. rewrite Hroot.
      rewrite bool_decide_eq_true_2 by discriminate. destruct fuel; reflexivity. }
    rewrite Htop. unfold mbind, res_bind. cbn beta iota.
    assert (Hfoc : GetFocusableElement (S fuel) (heap ui) (Some el) = Ret (Some el)).
    { simpl. unfold load. rewrite He. simpl.
      rewrite bool_decide_eq_true_2; [reflexivity |].
      destruct (focusMode_ e); try discriminate. }
    rewrite Hfoc. cbn beta iota. unfold change_focus.
    destruct (live (heap ui) (focusElement_ ui)); simpl; unfold load; rewrite He; simpl;
      rewrite Ha; simpl; eexists; reflexivity.
Qed.

End FocusFacts.

(** ** The drag registry and its counters *)

Section CounterFacts.
Import UISystem UISpec PointerSpec.

Lemma confirmed_count_app (l1 l2 : list (Ptr * DragData)) :
  confirmed_count (l1 ++ l2) = confirmed_count l1 + confirmed_count l2.
Proof. unfold confirmed_count. rewrite List.filter_app, length_app. lia. Qed.

Lemma confirmed_count_cons (kd : Ptr * DragData) (l : list (Ptr * DragData)) :
  confirmed_count (kd :: l)
  = (if dragBeginPending kd.2 then 0 else 1) + confirmed_count l.
Proof.
  unfold confirmed_count. cbn [List.filter].
  destruct (dragBeginPending kd.2); cbn [negb length]; lia.
Qed.

Lemma counts_ok_frame (a b : UI) :
  dragElements_ a = dragElements_ b -> dragElementsCount_ a = dragElementsCount_ b ->
  dragConfirmedCount_ a = dragConfirmedCount_ b -> counts_ok b -> counts_ok a.
Proof. unfold counts_ok. intros -> -> ->. tauto. Qed.

Lemma DragElementErase_counts (ui : UI) before k d after :
  dragElements_ ui = before ++ (k, d) :: after -> counts_ok ui ->
  counts_ok (DragElementErase ui before d after).
Proof.
  intros E [Hc Hf]. unfold DragElementErase. rewrite E.
  destruct (before ++ (k, d) :: after) eqn:E'; [destruct before; discriminate E' |].
  rewrite <- E' in *. clear E'. unfold counts_ok. cbn [dragElements_ dragElementsCount_
    dragConfirmedCount_ set_drag].
  rewrite Hc, Hf, E, !confirmed_count_app, confirmed_count_cons, !length_app.
  cbn [length snd]. destruct (dragBeginPending d); split; lia.
Qed.

Lemma drag_update_counts (f : DragData -> DragData) (el : Ptr) :
  (forall d, dragBeginPending (f d) = dragBeginPending d) ->
  forall entries,
    length (drag_update entries el f) = length entries
    /\ confirmed_count (drag_update entries el f) = confirmed_count entries.
Proof.
  intros Hf. induction entries as [| [k d] rest [IHl IHc]]; [split; reflexivity |].
  cbn [drag_update]. destruct (bool_decide (k = el)).
  - split; [reflexivity |]. rewrite !confirmed_count_cons. cbn [snd]. rewrite Hf.
    reflexivity.
  - split; [cbn [length]; rewrite IHl; reflexivity |].
    rewrite !confirmed_count_cons, IHc. reflexivity.
Qed.

Lemma start_drag_registry (ui : UI) el newButton button cursorPos now :
  dragElements_ (start_drag ui el newButton button cursorPos now)
  = registry_after_click (dragElements_ ui) el newButton button cursorPos now.
Proof.
  unfold start_drag, registry_after_click.
  destruct (negb _); [reflexivity |]. destruct newButton; reflexivity.
Qed.

Lemma start_drag_counts (ui : UI) el newButton button cursorPos now :
  counts_ok ui -> counts_ok (start_drag ui el newButton button cursorPos now).
Proof.
  intros [Hc Hf]. unfold start_drag.
  destruct (negb _).
  - unfold counts_ok. cbn [dragElements_ dragElementsCount_ dragConfirmedCount_ set_drag].
    rewrite confirmed_count_app, length_app, Hc, Hf.
    change (confirmed_count [(el, _)]) with 0. cbn [length]. split; lia.
  - destruct newButton; [| split; assumption].
    unfold counts_ok. cbn [dragElements_ dragElementsCount_ dragConfirmedCount_ set_drag].
    match goal with
    | |- context [drag_update _ _ ?f] =>
        destruct (drag_update_counts f el (fun d => eq_refl) (dragElements_ ui)) as [-> ->]
    end.
    split; assumption.
Qed.

End CounterFacts.

Section RegistryFacts.
Import UISystem UISpec RouterSpec PointerSpec.
Context `{MathLib} `{Handlers}.

Lemma counts_ok_same (a b : UI) : same_router a b -> counts_ok a -> counts_ok b.
Proof.
  intros S. destruct (same_router_fields _ _ S) as (_ & _ & _ & _ & Hd & Hc & Hf & _).
  apply counts_ok_frame; assumption.
Qed.

Lemma counts_ok_focus_moved (a b : UI) : focus_moved a b -> counts_ok a -> counts_ok b.
Proof.
  intros S. destruct (focus_moved_fields _ _ S) as (_ & _ & _ & Hd & Hc & Hf & _).
  apply counts_ok_frame; assumption.
Qed.

Lemma click_end_same ui element k cursorPos button buttons qualifiers cursor :
  same_router ui (click_end ui element k cursorPos button buttons qualifiers cursor).1.
Proof.
  rewrite (proj1 (click_end_spec ui element k cursorPos button buttons qualifiers cursor)).
  apply deliver_all_same.
Qed.

Lemma drag_end_same ui element k d cursorPos buttons cursor :
  same_router ui (drag_end ui element k d cursorPos buttons cursor).1.
Proof.
  rewrite (proj1 (drag_end_spec ui element k d cursorPos buttons cursor)).
  apply deliver_all_same.
Qed.

Lemma ProcessClickEnd_loop_counts target cursorPos button buttons qualifiers cursor
    cursorVisible :
  forall (remaining before : list (Ptr * DragData)) (ui : UI),
    dragElements_ ui = before ++ remaining -> counts_ok ui ->
    counts_ok (ProcessClickEnd_loop ui before remaining target cursorPos button buttons
                 qualifiers cursor cursorVisible).1.
Proof.
  induction remaining as [| [k d] after IH]; intros before ui E C; [exact C |].
  cbn [ProcessClickEnd_loop].
  assert (Hkeep : dragElements_ ui = (before ++ [(k, d)]) ++ after)
    by (rewrite <- app_assoc; exact E).
  pose proof (DragElementErase_counts ui before k d after E C) as Ce.
  destruct (DragElementErase_fields ui before d after (k, d) E) as (_ & Hd & _).
  destruct (negb (live (heap ui) (Some k)) || negb cursorVisible); [apply IH; assumption |].
  destruct (Z.land (dragButtons d) button =? 0); cbn [negb]; [apply IH; assumption |].
  pose proof (click_end_same ui target k cursorPos button buttons qualifiers cursor) as S1.
  destruct (click_end ui target k cursorPos button buttons qualifiers cursor)
    as [ui1 clickEnd]. cbn [fst] in S1.
  pose proof (drag_end_same ui1 target k d cursorPos buttons cursor) as S2.
  destruct (drag_end ui1 target k d cursorPos buttons cursor) as [ui2 dragEnd].
  cbn [fst] in S2.
  pose proof (same_router_trans _ _ _ S1 S2) as S.
  assert (E2 : dragElements_ ui2 = before ++ (k, d) :: after).
  { rewrite <- E. apply (same_router_fields _ _ S). }
  pose proof (DragElementErase_counts ui2 before k d after E2 (counts_ok_same _ _ S C))
    as Ce2.
  destruct (DragElementErase_fields ui2 before d after (k, d) E2) as (_ & Hd2 & _).
  destruct (ProcessClickEnd_loop _ before after _ _ _ _ _ _ _) as [ui' rest] eqn:L.
  cbn [fst]. change ui' with (ui', rest).1. rewrite <- L. apply IH; assumption.
Qed.

Lemma ProcessDragCancel_loop_counts cursorPos :
  forall (remaining before : list (Ptr * DragData)) (ui : UI),
    dragElements_ ui = before ++ remaining -> counts_ok ui ->
    counts_ok (ProcessDragCancel_loop ui before remaining cursorPos).1.
Proof.
  induction remaining as [| [k d] after IH]; intros before ui E C; [exact C |].
  cbn [ProcessDragCancel_loop].
  assert (Hkeep : dragElements_ ui = (before ++ [(k, d)]) ++ after)
    by (rewrite <- app_assoc; exact E).
  destruct (heap ui !! k) as [de |]; [| apply IH; assumption].
  destruct (enabled_ de && visible_ de && negb (dragBeginPending d));
    [| apply IH; assumption].
  match goal with
  | |- context [DragElementErase ?u before d after] =>
      assert (S : same_router ui u)
        by (eapply same_router_trans; [apply deliver_same | apply deliver_all_same]);
      set (ui2 := u) in *
  end.
  assert (E2 : dragElements_ ui2 = before ++ (k, d) :: after).
  { rewrite <- E. apply (same_router_fields _ _ S). }
  pose proof (DragElementErase_counts ui2 before k d after E2 (counts_ok_same _ _ S C))
    as Ce2.
  destruct (DragElementErase_fields ui2 before d after (k, d) E2) as (_ & Hd2 & _).
  destruct (ProcessDragCancel_loop _ before after _) as [ui' rest] eqn:L.
  cbn [fst]. change ui' with (ui', rest).1. rewrite <- L. apply IH; assumption.
Qed.

Lemma click_begin_result_registry (mid : UI) el newButton button cursorPos now buttons :
  let ui' := set_lastMouseButtons_
               (if live (heap mid) (Some el)
                then start_drag mid el newButton button cursorPos now else mid) buttons in
  heap ui' = heap mid
  /\ dragElements_ ui'
     = (if live (heap ui') (Some el)
        then registry_after_click (dragElements_ mid) el newButton button cursorPos now
        else dragElements_ mid)
  /\ (counts_ok mid -> counts_ok ui').
Proof.
  cbn zeta.
  assert (Hheap : heap (set_lastMouseButtons_
                          (if live (heap mid) (Some el)
                           then start_drag mid el newButton button cursorPos now else mid)
                          buttons) = heap mid).
  { destruct (live (heap mid) (Some el)); [| reflexivity].
    apply (start_drag_click mid el newButton button cursorPos now). }
  split; [exact Hheap |]. rewrite Hheap.
  destruct (live (heap mid) (Some el)).
  - split; [apply start_drag_registry |]. intros C.
    apply (counts_ok_frame _ (start_drag mid el newButton button cursorPos now));
      try reflexivity.
    apply start_drag_counts, C.
  - split; [reflexivity |]. intros C. apply (counts_ok_frame _ mid); try reflexivity.
    exact C.
Qed.

(** A click-begin over an element that returns, whatever the handlers do:
    what it leaves of the drag registry, and what it sends. *)
Lemma ProcessClickBegin_registry (fuel : nat) (now : Z) (ui ui' : UI)
    (windowCursorPos : IntVector2) (button buttons qualifiers : Z) (cursor : option Ptr)
    (trace : Trace) :
  ProcessClickBegin fuel now ui windowCursorPos button buttons qualifiers cursor true
  = Ret (ui', trace) ->
  handled ui ui'
  /\ (counts_ok ui -> counts_ok ui')
  /\ (forall p, existsb (is_drag_callback_on p) trace = false)
  /\ (forall el written,
         GetElementAt fuel ui windowCursorPos true = Ret (Some el, written) ->
         dragElements_ ui'
         = if live (heap ui') (Some el)
           then registry_after_click (dragElements_ ui) el
                  (if usingTouchInput_ ui then Z.land buttons button =? 0 else true) button
                  (default IntVector2_ZERO written) now
           else dragElements_ ui)
  /\ (forall written,
         GetElementAt fuel ui windowCursorPos true = Ret (None, written) ->
         dragElements_ ui' = dragElements_ ui).
Proof.
  intros Hrun. unfold ProcessClickBegin in Hrun. cbn [negb] in Hrun.
  destruct (GetElementAt fuel ui windowCursorPos true) as [[element written] | |] eqn:HG;
    cbn [mbind res_bind] in Hrun; try discriminate Hrun.
  pose proof (GetElementAt_modal_root _ _ _ _ _ HG) as Hroot.
  revert Hrun.
  destruct (match element with Some _ => _ | None => _ end) as [[ui1 ft] | |] eqn:HF;
    intros Hrun; try discriminate Hrun.
  assert (Hfocus : focus_moved ui ui1 /\ handled ui ui1 /\ forallb is_focus_event ft = true).
  { destruct element.
    - apply (SetFocusElement_returns _ _ _ _ _ HF).
    - injection HF as <- <-. split; [apply focus_moved_refl |].
      split; [apply handled_refl | reflexivity]. }
  destruct Hfocus as (Hm & Hh & Hft).
  cbn [mbind res_bind] in Hrun.
  destruct (focus_events_quiet ft Hft) as (_ & _ & Hf3).
  destruct (focus_moved_fields _ _ Hm) as (_ & Hrm & _ & Hreg & _).
  destruct (weak ui1 element) as [el |] eqn:W.
  - assert (Hel : element = Some el /\ is_Some (heap ui1 !! el)).
    { unfold weak in W. destruct (live (heap ui1) element) eqn:L; [| discriminate W].
      subst element. split; [reflexivity |]. apply bool_decide_eq_true in L. exact L. }
    destruct Hel as [-> Ha].
    destruct (click_begin_spec now ui1 el windowCursorPos (default IntVector2_ZERO written)
                (if usingTouchInput_ ui then Z.land buttons button =? 0 else true)
                button (Z.lor buttons button) qualifiers cursor Ha)
      as (mid & t & candidate & pos & E & Hsr & Hhm & _ & _ & _ & P4).
    rewrite E in Hrun. cbn [mbind res_bind] in Hrun. injection Hrun as <- <-.
    destruct (same_router_fields _ _ Hsr) as (_ & _ & _ & _ & Hreg' & _).
    cbn [dragElements_ set_click] in Hreg'.
    assert (Cmid : counts_ok ui -> counts_ok mid).
    { intros C. apply (counts_ok_same _ _ Hsr).
      apply (counts_ok_frame _ ui1); try reflexivity.
      apply (counts_ok_focus_moved _ _ Hm C). }
    destruct (click_begin_result_registry mid el
                (if usingTouchInput_ ui then Z.land buttons button =? 0 else true)
                button (default IntVector2_ZERO written) now (Z.lor buttons button))
      as (Hheap & Hregistry & Hcounts).
    split.
    { apply handled_trans with mid; [apply handled_trans with ui1; assumption |].
      apply handled_heap. exact Hheap. }
    split; [intros C; apply Hcounts, Cmid, C |].
    split; [intros p; rewrite existsb_app, Hf3, P4; reflexivity |].
    split; [| intros w [=]].
    intros el' w [= <- <-]. cbn [live] in Hregistry |- *.
    rewrite Hregistry, Hreg', Hreg. reflexivity.
  - destruct (click_nowhere_spec fuel now ui1 element windowCursorPos (Z.lor buttons button))
      as (u & t & E & Hm' & Hh' & _ & _ & Q3).
    { rewrite Hrm. destruct Hroot as [m Hm0].
      (* the modal root was alive for the focus change as well *)
      destruct (heap ui1 !! rootModalElement_ ui) eqn:R; [eauto |].
      exfalso. unfold click_nowhere, HasModalElement, load in Hrun.
      rewrite Hrm, R in Hrun. discriminate Hrun. }
    rewrite E in Hrun. cbn [mbind res_bind] in Hrun. injection Hrun as <- <-.
    destruct (focus_moved_fields _ _ Hm') as (_ & _ & _ & Hreg' & _).
    cbn [dragElements_ set_click] in Hreg'.
    split.
    { apply handled_trans with u; [apply handled_trans with ui1; assumption |].
      apply handled_heap. reflexivity. }
    split.
    { intros C. eapply counts_ok_frame; [reflexivity | reflexivity | reflexivity |].
      apply (counts_ok_focus_moved _ _ Hm').
      apply (counts_ok_frame _ ui1); try reflexivity.
      apply (counts_ok_focus_moved _ _ Hm C). }
    split; [intros p; rewrite existsb_app, Hf3, Q3; reflexivity |].
    cbn [dragElements_ heap set_lastMouseButtons_]. rewrite Hreg', Hreg.
    split; [| intros w _; reflexivity].
    intros el w [= -> <-].
    assert (Hgone : heap u !! el = None).
    { apply (handled_expired ui1 u el Hh').
      unfold weak, live in W. case_bool_decide as A; [discriminate W |].
      destruct (heap ui1 !! el); [exfalso; apply A; eauto | reflexivity]. }
    cbn [live]. rewrite bool_decide_eq_false_2; [reflexivity |].
    rewrite Hgone. intros [x Hx]. discriminate Hx.
Qed.

(** With the ancestors of the clicked element alive and within the fuel, a
    modal root that no handler destroys, and a focus target that outlives
    the defocused event, a click-begin over an element returns. *)
Lemma ProcessClickBegin_returns (fuel : nat) (now : Z) (ui : UI)
    (windowCursorPos : IntVector2) (button buttons qualifiers : Z) (cursor : option Ptr)
    (el : Ptr) (written : option IntVector2) :
  GetElementAt fuel ui windowCursorPos true = Ret (Some el, written) ->
  chain_ok fuel (heap ui) (Some el) = true ->
  kept (rootModalElement_ ui) ->
  focus_target_kept fuel ui el ->
  exists ui' trace,
    ProcessClickBegin fuel now ui windowCursorPos button buttons qualifiers cursor true
    = Ret (ui', trace).
Proof.
  intros HG Hchain Kroot Ktarget.
  pose proof (GetElementAt_modal_root _ _ _ _ _ HG) as Hroot.
  destruct (SetFocusElement_total fuel ui el Hchain Hroot Ktarget) as (ui1 & ft & HF).
  destruct (SetFocusElement_returns _ _ _ _ _ HF) as (Hm & Hh & _).
  destruct (focus_moved_fields _ _ Hm) as (_ & Hrm & _).
  unfold ProcessClickBegin. cbn [negb]. rewrite HG. cbn [mbind res_bind].
  rewrite HF. cbn [mbind res_bind].
  destruct (heap ui1 !! el) as [e1 |] eqn:A.
  - rewrite (weak_alive ui1 el e1 A).
    destruct (click_begin_spec now ui1 el windowCursorPos (default IntVector2_ZERO written)
                (if usingTouchInput_ ui then Z.land buttons button =? 0 else true)
                button (Z.lor buttons button) qualifiers cursor)
      as (mid & trace & candidate & pos & E & _); [eexists; exact A |].
    rewrite E. eexists _, _. reflexivity.
  - rewrite (weak_expired ui1 el A).
    destruct (click_nowhere_spec fuel now ui1 (Some el) windowCursorPos
                (Z.lor buttons button)) as (ui' & trace & E & _).
    { rewrite Hrm. apply (handled_kept ui ui1 _ Kroot Hh Hroot). }
    rewrite E. eexists _, _. reflexivity.
Qed.

End RegistryFacts.
Section ClickRegistryTheorems.
Import UISystem UISpec RouterSpec PointerSpec.
Context `{MathLib} `{Handlers}.

(** The click routing keeps the two counters of the drag registry right:
    if the element count is the number of entries and the confirmed count
    the number of entries whose drag has begun, then the same holds after
    a click-begin, after a click-end, and after a drag cancel. *)
Theorem drag_counters_match_registry (ui : UI) :
  counts_ok ui ->
  (forall fuel now pos button buttons qualifiers cursor visible ui' t,
      ProcessClickBegin fuel now ui pos button buttons qualifiers cursor visible
      = Ret (ui', t) -> counts_ok ui')
  /\ (forall fuel pos button buttons qualifiers cursor visible ui' t,
         ProcessClickEnd fuel ui pos button buttons qualifiers cursor visible
         = Ret (ui', t) -> counts_ok ui')
  /\ (forall cursorPos, counts_ok (ProcessDragCancel ui cursorPos).1).
Proof.
  intros C. split; [| split].
  - intros fuel now pos button buttons qualifiers cursor visible ui' t Hrun.
    destruct visible; [| injection Hrun as <- _; exact C].
    apply (ProcessClickBegin_registry _ _ _ _ _ _ _ _ _ _ Hrun), C.
  - intros fuel pos button buttons qualifiers cursor visible ui' t Hrun.
    unfold ProcessClickEnd in Hrun.
    destruct (if visible then _ else _) as [[element cursorPos] | |];
      cbn [mbind res_bind] in Hrun; try discriminate.
    injection Hrun as Hrun.
    change ui' with (ui', t).1. rewrite <- Hrun.
    apply ProcessClickEnd_loop_counts; [reflexivity | exact C].
  - intros cursorPos. unfold ProcessDragCancel.
    destruct (usingTouchInput_ ui); [exact C |].
    apply ProcessDragCancel_loop_counts; [reflexivity | exact C].
Qed.

Lemma drag_contains_In (entries : list (Ptr * DragData)) (el : Ptr) :
  drag_contains entries el = true <-> In el (map fst entries).
Proof.
  unfold drag_contains. rewrite existsb_exists, in_map_iff. split.
  - intros (kv & Hin & Hk). apply bool_decide_eq_true in Hk. exists kv. auto.
  - intros (kv & Hk & Hin). exists kv. split; [exact Hin |].
    apply bool_decide_eq_true. exact Hk.
Qed.

Lemma drag_update_other (f : DragData -> DragData) (el k : Ptr) (d : DragData) :
  k <> el ->
  forall entries, In (k, d) (drag_update entries el f) <-> In (k, d) entries.
Proof.
  intros N. induction entries as [| [k' d'] rest IH]; [reflexivity |].
  cbn [drag_update]. case_bool_decide as E.
  - subst k'. cbn [In]. split; (intros [[= <- <-] | Hin]; [contradiction | right; exact Hin]).
  - cbn [In]. rewrite IH. reflexivity.
Qed.

Lemma drag_update_keys (f : DragData -> DragData) (el : Ptr) :
  forall entries, map fst (drag_update entries el f) = map fst entries.
Proof.
  induction entries as [| [k d] rest IH]; [reflexivity |].
  cbn [drag_update]. destruct (bool_decide (k = el)); cbn [map fst]; [| rewrite IH];
    reflexivity.
Qed.

(** A click-begin over an element whose ancestors are alive and within
    the fuel returns, provided that no handler destroys the modal root
    (an element the UI creates for itself) and that the element that
    takes the focus outlives the defocused event.  It leaves the entries of all other elements as they were and sends no
    drag begin, end or cancel to anyone.  The drag is registered after the
    click handlers, and only on an element that is still alive then: such
    an element is in the registry afterwards; if it was not, it has got an
    entry at the end that is pending, holds the pressed button and the
    cursor position, and has its timer started; if it was, the keys of the
    registry are unchanged.  If a handler has destroyed the element, the
    registry is as it was.  An element that no handler destroys is alive
    afterwards. *)
Theorem ProcessClickBegin_registers_pending_drag (fuel : nat) (now : Z) (ui : UI)
    (windowCursorPos : IntVector2) (button buttons qualifiers : Z) (cursor : option Ptr)
    (el : Ptr) (written : option IntVector2) :
  GetElementAt fuel ui windowCursorPos true = Ret (Some el, written) ->
  chain_ok fuel (heap ui) (Some el) = true ->
  kept (rootModalElement_ ui) ->
  focus_target_kept fuel ui el ->
  exists ui' trace,
    ProcessClickBegin fuel now ui windowCursorPos button buttons qualifiers cursor true
    = Ret (ui', trace)
    /\ (forall k d, k <> el -> In (k, d) (dragElements_ ui') <-> In (k, d) (dragElements_ ui))
    /\ (forall p, existsb (is_drag_callback_on p) trace = false)
    /\ (is_Some (heap ui' !! el) ->
        In el (tracked ui')
        /\ (~ In el (tracked ui) ->
            dragElements_ ui'
            = dragElements_ ui
              ++ [(el, mkDragData button (CountSetBits button)
                         (default IntVector2_ZERO written) true now
                         (default IntVector2_ZERO written))])
        /\ (In el (tracked ui) -> tracked ui' = tracked ui))
    /\ (heap ui' !! el = None -> dragElements_ ui' = dragElements_ ui)
    /\ (kept el -> is_Some (heap ui' !! el)).
Proof.
  intros HG Hchain Kroot Ktarget.
  destruct (ProcessClickBegin_returns fuel now ui windowCursorPos button buttons qualifiers
              cursor el written HG Hchain Kroot Ktarget) as (ui' & trace & Hrun).
  exists ui', trace. split; [exact Hrun |].
  destruct (ProcessClickBegin_registry _ _ _ _ _ _ _ _ _ _ Hrun)
    as (Hh & _ & Hquiet & Hel & _).
  specialize (Hel el written HG). cbn [live] in Hel.
  assert (Hafter : is_Some (heap ui' !! el) ->
            dragElements_ ui'
            = registry_after_click (dragElements_ ui) el
                (if usingTouchInput_ ui then Z.land buttons button =? 0 else true) button
                (default IntVector2_ZERO written) now).
  { intros A. rewrite Hel, bool_decide_eq_true_2 by exact A. reflexivity. }
  assert (Hgone : heap ui' !! el = None -> dragElements_ ui' = dragElements_ ui).
  { intros A. rewrite Hel, bool_decide_eq_false_2; [reflexivity |].
    rewrite A. intros [x Hx]. discriminate Hx. }
  split.
  { intros k d N. destruct (heap ui' !! el) as [e |] eqn:A.
    - rewrite Hafter by eauto. unfold registry_after_click.
      destruct (drag_contains (dragElements_ ui) el); cbn [negb].
      + destruct (if usingTouchInput_ ui then _ else true); [| reflexivity].
        apply drag_update_other. exact N.
      + rewrite in_app_iff. cbn [In]. split; [| auto].
        intros [Hin | [[= <- _] | []]]; [exact Hin | contradiction].
    - rewrite Hgone by reflexivity. reflexivity. }
  split; [exact Hquiet |].
  split.
  { intros A. unfold tracked. rewrite (Hafter A). unfold registry_after_click.
    destruct (drag_contains (dragElements_ ui) el) eqn:Dc; cbn [negb].
    - assert (Hin : In el (map fst (dragElements_ ui)))
        by (apply drag_contains_In; exact Dc).
      destruct (if usingTouchInput_ ui then _ else true).
      + rewrite drag_update_keys. split; [exact Hin |].
        split; [intros N; contradiction | reflexivity].
      + split; [exact Hin |]. split; [intros N; contradiction | reflexivity].
    - assert (Hnin : ~ In el (map fst (dragElements_ ui))).
      { intros Hin. apply drag_contains_In in Hin. congruence. }
      split; [rewrite map_app; apply in_or_app; right; left; reflexivity |].
      split; [reflexivity | intros Hin; contradiction]. }
  split; [exact Hgone |].
  intros K. apply (handled_kept ui ui' el K Hh). apply (chain_ok_alive _ _ _ Hchain).
Qed.

End ClickRegistryTheorems.

Section HiddenCursorFacts.
Import UISystem UISpec RouterSpec PointerSpec.
Context `{Handlers}.

Lemma ProcessClickEnd_loop_hidden target cursorPos button buttons qualifiers cursor :
  forall (remaining before : list (Ptr * DragData)) (ui : UI),
    dragElements_ ui = before ++ remaining ->
    (ProcessClickEnd_loop ui before remaining target cursorPos button buttons qualifiers
       cursor false).2 = []
    /\ heap (ProcessClickEnd_loop ui before remaining target cursorPos button buttons
               qualifiers cursor false).1 = heap ui
    /\ focusElement_ (ProcessClickEnd_loop ui before remaining target cursorPos button
                        buttons qualifiers cursor false).1 = focusElement_ ui
    /\ dragElements_ (ProcessClickEnd_loop ui before remaining target cursorPos button
                        buttons qualifiers cursor false).1 = before.
Proof.
  induction remaining as [| [k d] after IH]; intros before ui E.
  - rewrite app_nil_r in E. repeat split. exact E.
  - cbn [ProcessClickEnd_loop negb]. rewrite orb_true_r.
    destruct (DragElementErase_fields ui before d after (k, d) E) as (Hh & Hd & _).
    assert (Hf : focusElement_ (DragElementErase ui before d after) = focusElement_ ui).
    { unfold DragElementErase. destruct (dragElements_ ui); reflexivity. }
    destruct (IH before _ Hd) as (-> & -> & -> & ->). auto.
Qed.

(** A button release that arrives while the cursor is hidden does not look
    for an element under the cursor: it empties the drag registry without
    calling a handler or sending an event, and leaves elements and focus
    as they are. *)
Theorem ProcessClickEnd_with_hidden_cursor_drops_all_drags (fuel : nat) (ui : UI)
    (windowCursorPos : IntVector2) (button buttons qualifiers : Z) (cursor : option Ptr) :
  exists ui',
    ProcessClickEnd fuel ui windowCursorPos button buttons qualifiers cursor false
    = Ret (ui', [])
    /\ dragElements_ ui' = [] /\ heap ui' = heap ui /\ focusElement_ ui' = focusElement_ ui
    /\ (counts_ok ui -> dragElementsCount_ ui' = 0 /\ dragConfirmedCount_ ui' = 0).
Proof.
  unfold ProcessClickEnd. cbn [mbind res_bind].
  set (r := ProcessClickEnd_loop ui [] (dragElements_ ui) None windowCursorPos button
              buttons qualifiers cursor false).
  destruct (ProcessClickEnd_loop_hidden None windowCursorPos button buttons qualifiers
              cursor (dragElements_ ui) [] ui eq_refl) as (Ht & Hh & Hf & Hreg).
  fold r in Ht, Hh, Hf, Hreg.
  exists r.1. split; [destruct r as [u t]; simpl in *; subst t; reflexivity |].
  split; [exact Hreg |]. split; [exact Hh |]. split; [exact Hf |].
  intros C.
  pose proof (ProcessClickEnd_loop_counts None windowCursorPos button buttons qualifiers
                cursor false (dragElements_ ui) [] ui eq_refl C) as [Hc Hk].
  fold r in Hc, Hk. rewrite Hreg in Hc, Hk. split; assumption.
Qed.

End HiddenCursorFacts.

(** ** Drag elements *)

Section DragElementsFacts.
Import UISystem UIPointer UISpec PointerSpec.

Lemma GetDragElements_loop_spec :
  forall (remaining before : list (Ptr * DragData)) (ui : UI),
    dragElements_ ui = before ++ remaining ->
    heap (GetDragElements_loop ui before remaining) = heap ui
    /\ dragElements_ (GetDragElements_loop ui before remaining)
       = before ++ live_entries (heap ui) remaining
    /\ (counts_ok ui -> counts_ok (GetDragElements_loop ui before remaining))
    /\ (forall p, In p (dragElementsConfirmed_ (GetDragElements_loop ui before remaining)) ->
                  In p (dragElementsConfirmed_ ui)
                  \/ In p (confirmed_elements (heap ui) remaining))
    /\ ((forall kd, In kd remaining -> is_Some (heap ui !! kd.1)) ->
        dragElementsConfirmed_ (GetDragElements_loop ui before remaining)
        = dragElementsConfirmed_ ui ++ confirmed_elements (heap ui) remaining).
Proof.
  induction remaining as [| [k d] after IH]; intros before ui E.
  - cbn. rewrite !app_nil_r in *. split; [reflexivity |]. split; [exact E |].
    split; [auto |]. split; auto.
  - cbn [GetDragElements_loop]. unfold live_entries, confirmed_elements.
    cbn [List.filter fst snd].
    destruct (heap ui !! k) as [de |] eqn:Hk.
    + rewrite bool_decide_eq_true_2 by (eexists; reflexivity). cbn [andb map fst].
      set (ui1 := if negb (dragBeginPending d) then push_confirmed ui k else ui).
      assert (H1 : heap ui1 = heap ui /\ dragElements_ ui1 = dragElements_ ui
                   /\ dragElementsCount_ ui1 = dragElementsCount_ ui
                   /\ dragConfirmedCount_ ui1 = dragConfirmedCount_ ui
                   /\ dragElementsConfirmed_ ui1
                      = dragElementsConfirmed_ ui
                        ++ (if negb (dragBeginPending d) then [k] else [])).
      { subst ui1. destruct (negb (dragBeginPending d)); cbn; rewrite ?app_nil_r;
          repeat split. }
      destruct H1 as (Hh & Hr & Hc & Hf & Hl).
      destruct (IH (before ++ [(k, d)]) ui1) as (I1 & I2 & I3 & I4 & I5).
      { rewrite Hr, E, <- app_assoc. reflexivity. }
      rewrite Hh in *.
      split; [exact I1 |].
      split; [rewrite I2, <- app_assoc; reflexivity |].
      split; [intros C; apply I3; eapply counts_ok_frame; eassumption |].
      split.
      * intros p Hp. apply I4 in Hp as [Hp | Hp]; [| right].
        -- rewrite Hl in Hp. apply in_app_or in Hp as [Hp | Hp]; [left; exact Hp |].
           right. destruct (negb (dragBeginPending d)); [| destruct Hp].
           destruct Hp as [<- | []]. left. reflexivity.
        -- destruct (negb (dragBeginPending d)); [right |]; exact Hp.
      * intros Hall. rewrite I5, Hl by (intros kd Hkd; apply Hall; right; exact Hkd).
        rewrite <- app_assoc. f_equal.
        destruct (negb (dragBeginPending d)); reflexivity.
    + rewrite bool_decide_eq_false_2 by (intros [x Hx]; discriminate Hx). cbn [andb].
      destruct (DragElementErase_fields ui before d after (k, d) E) as (Hh & Hd & _).
      destruct (IH before (DragElementErase ui before d after) Hd)
        as (I1 & I2 & I3 & I4 & I5).
      rewrite Hh in *.
      split; [exact I1 |]. split; [exact I2 |].
      split; [intros C; apply I3; eapply DragElementErase_counts; eassumption |].
      split.
      * intros p Hp. apply I4 in Hp as [Hp | Hp]; [| right; exact Hp].
        unfold DragElementErase in Hp. rewrite E in Hp.
        destruct (before ++ (k, d) :: after) eqn:E'; [destruct before; discriminate E' |].
        destruct Hp.
      * intros Hall. destruct (Hall (k, d) (or_introl eq_refl)) as [x Hx].
        cbn [fst] in Hx. congruence.
Qed.

(** [GetDragElements] answers from its cache when the cache is not empty.
    Otherwise it walks the registry: entries of destroyed elements are
    erased, the counters stay right, and every element it returns is alive
    and has a drag that has begun.  When no tracked element has been
    destroyed it returns exactly the elements whose drag has begun, in
    registry order, and the registry is as before.  [GetDragElement]
    returns null for an index past the end of that list. *)
Theorem GetDragElements_lists_begun_drags (ui : UI) :
  (dragElementsConfirmed_ ui <> [] -> GetDragElements ui = (dragElementsConfirmed_ ui, ui))
  /\ (dragElementsConfirmed_ ui = [] ->
      heap (GetDragElements ui).2 = heap ui
      /\ dragElements_ (GetDragElements ui).2 = live_entries (heap ui) (dragElements_ ui)
      /\ (counts_ok ui -> counts_ok (GetDragElements ui).2)
      /\ (forall p, In p (GetDragElements ui).1 ->
                    In p (confirmed_elements (heap ui) (dragElements_ ui)))
      /\ ((forall kd, In kd (dragElements_ ui) -> is_Some (heap ui !! kd.1)) ->
          (GetDragElements ui).1 = confirmed_elements (heap ui) (dragElements_ ui)
          /\ dragElements_ (GetDragElements ui).2 = dragElements_ ui))
  /\ (forall index, Z.of_nat (length (GetDragElements ui).1) <= index ->
                    (GetDragElement ui index).1 = None)
  /\ (forall index, 0 <= index < Z.of_nat (length (GetDragElements ui).1) ->
                    (GetDragElement ui index).1
                    = nth_error (GetDragElements ui).1 (Z.to_nat index)).
Proof.
  split; [| split; [| split]].
  - intros N. unfold GetDragElements. destruct (dragElementsConfirmed_ ui);
      [contradiction | reflexivity].
  - intros E. unfold GetDragElements. rewrite E. cbn [fst snd].
    destruct (GetDragElements_loop_spec (dragElements_ ui) [] ui eq_refl)
      as (I1 & I2 & I3 & I4 & I5).
    split; [exact I1 |]. split; [exact I2 |]. split; [exact I3 |].
    split.
    + intros p Hp. apply I4 in Hp as [Hp | Hp]; [rewrite E in Hp; destruct Hp | exact Hp].
    + intros Hall. rewrite (I5 Hall), E, I2. split; [reflexivity |]. cbn [app].
      unfold live_entries. clear - Hall.
      induction (dragElements_ ui) as [| kd l IH]; [reflexivity |].
      cbn [List.filter]. rewrite bool_decide_eq_true_2 by (apply Hall; left; reflexivity).
      f_equal. apply IH. intros x Hx. apply Hall. right. exact Hx.
  - intros index Hi. unfold GetDragElement.
    destruct (GetDragElements ui) as [confirmed ui']. cbn [fst] in *.
    destruct (Z.leb_spec (Z.of_nat (length confirmed)) index); [reflexivity | lia].
  - intros index Hi. unfold GetDragElement.
    destruct (GetDragElements ui) as [confirmed ui']. cbn [fst] in *.
    destruct (Z.leb_spec (Z.of_nat (length confirmed)) index); [lia | reflexivity].
Qed.

End DragElementsFacts.

(** ** Focus changes under handlers *)

Section FocusUnderHandlers.
Import UISystem UISpec RouterSpec PointerSpec.
Context `{Handlers}.

(** Whatever the handlers of the focus events do to the elements, a
    [SetFocusElement] that returns has changed nothing of the router but
    the focus element, has left the elements as the handlers made them,
    and has sent focus events only.  Asked to move the focus to an element
    whose ancestors are alive and within the fuel, it returns when the
    modal root is alive and the element that takes the focus outlives the
    defocused event of the one that had it; asked to clear the focus, it
    always returns.  The element that takes the focus is held by a raw
    pointer: when the defocused event destroys it, [SetFocusElement] reads
    its focus mode from the destroyed element. *)
Theorem SetFocusElement_under_handlers (fuel : nat) (ui : UI) (element : option Ptr) :
  (forall ui' t,
      SetFocusElement fuel ui element = Ret (ui', t) ->
      focus_moved ui ui' /\ handled ui ui' /\ forallb is_focus_event t = true)
  /\ (forall el,
         element = Some el ->
         chain_ok fuel (heap ui) (Some el) = true ->
         is_Some (heap ui !! rootModalElement_ ui) ->
         focus_target_kept fuel ui el ->
         exists ui' t, SetFocusElement fuel ui element = Ret (ui', t))
  /\ (element = None -> exists ui' t, SetFocusElement fuel ui element = Ret (ui', t))
  /\ (forall el f,
         element = Some el ->
         focusElement_ ui <> Some el ->
         HasModalElement ui = Ret false ->
         GetFocusableElement fuel (heap ui) (Some el) = Ret (Some f) ->
         defocused ui !! f = None ->
         SetFocusElement fuel ui element = Fault).
Proof.
  split; [intros ui' t Hrun; apply (SetFocusElement_returns _ _ _ _ _ Hrun) |].
  split; [intros el -> Hchain Hroot Hkept; apply SetFocusElement_total; assumption |].
  split; [intros ->; apply SetFocusElement_None_total |].
  intros el f -> Hne Hmodal Hf Hgone. unfold SetFocusElement.
  rewrite bool_decide_eq_false_2 by exact Hne. rewrite Hmodal. cbn [mbind res_bind].
  assert (Hel : exists e, heap ui !! el = Some e).
  { destruct (heap ui !! el) as [e |] eqn:He; [eauto |].
    destruct fuel; cbn [GetFocusableElement] in Hf; unfold load in Hf; rewrite He in Hf;
      discriminate Hf. }
  destruct Hel as [e He]. unfold load at 1. rewrite He. cbn [deref mbind res_bind].
  rewrite Hf. cbn [mbind res_bind]. unfold change_focus, defocused in *.
  destruct (live (heap ui) (focusElement_ ui)); cbn [mbind res_bind]; unfold load;
    cbn [heap deliver set_heap set_focusElement_]; rewrite Hgone; reflexivity.
Qed.

End FocusUnderHandlers.
(** ** Cursor motion *)

Section MoveFacts.
Import UISystem UIPointer UISpec RouterSpec PointerSpec.
Context `{PointerHandlers}.

Lemma advanced_refl (d : DragData) : advanced d d.
Proof. unfold advanced. tauto. Qed.

Lemma routed_is_no_move (p : Ptr) (l : Trace) :
  existsb (is_drag_move_on p) (map Routed l) = false
  /\ existsb (is_drag_begin_on p) (map Routed l) = false.
Proof. induction l as [| ev l [IH1 IH2]]; split; cbn; auto. Qed.

Lemma deliver_pointers_same (t : PointerTrace) :
  forall ui, ui = set_heap ui (heap ui) -> deliver_pointers ui t
                                          = set_heap ui (heap (deliver_pointers ui t)).
Proof.
  induction t as [| ev t IH]; intros ui E; [exact E |].
  cbn [deliver_pointers fold_left]. fold (deliver_pointers (deliver_pointer ui ev) t).
  rewrite (IH (deliver_pointer ui ev) eq_refl). reflexivity.
Qed.

Lemma deliver_pointers_router (t : PointerTrace) (ui : UI) :
  same_router ui (deliver_pointers ui t).
Proof.
  unfold same_router. apply deliver_pointers_same. destruct ui; reflexivity.
Qed.

Lemma deliver_pointers_expired (t : PointerTrace) (p : Ptr) :
  forall ui, heap ui !! p = None -> heap (deliver_pointers ui t) !! p = None.
Proof.
  induction t as [| ev t IH]; intros ui E; [exact E |].
  apply IH. apply handle_pointer_expired. exact E.
Qed.

Lemma deliver_pointers_app (t1 t2 : PointerTrace) (ui : UI) :
  deliver_pointers ui (t1 ++ t2) = deliver_pointers (deliver_pointers ui t1) t2.
Proof. unfold deliver_pointers. apply fold_left_app. Qed.

Lemma send_drag_spec (ui : UI) (ty : EventType) (k : Ptr) :
  (send_drag ui ty k).1 = deliver_pointers ui (send_drag ui ty k).2
  /\ forall p, existsb (is_drag_move_on p) (send_drag ui ty k).2 = false
               /\ existsb (is_drag_begin_on p) (send_drag ui ty k).2 = false.
Proof. split; [reflexivity |]. intros p. apply routed_is_no_move. Qed.

(** What the body of the loop of [ProcessMove] does for one entry. *)
Lemma move_entry_spec (ui ui1 : UI) (k : Ptr) (de : UIElement) (d : DragData) (dist : Z)
    (grabbed : bool) (cursorPos delta sendPos : IntVector2) (buttons qualifiers : Z)
    (cursor : option Ptr) (pending : bool) (trace : PointerTrace) :
  move_entry ui k de d dist grabbed cursorPos delta sendPos buttons qualifiers cursor
  = Ret (ui1, pending, trace) ->
  ui1 = deliver_pointers ui trace
  /\ (pending = true -> dragBeginPending d = true)
  /\ (forall p, existsb (is_drag_move_on p) trace = true -> p = k /\ pending = false)
  /\ (forall p, existsb (is_drag_begin_on p) trace = true ->
                p = k /\ grabbed = false /\ dragBeginPending d = true).
Proof.
  unfold move_entry. intros Hrun.
  destruct (enabled_ de && visible_ de).
  - match type of Hrun with
    | mbind _ ?m = _ => destruct m as [[[u b] beganTrace] | |] eqn:E
    end; cbn [mbind res_bind] in Hrun; try discriminate Hrun.
    assert (Hbegin : u = deliver_pointers ui beganTrace
               /\ (b = true -> dragBeginPending d = true)
               /\ (forall p, existsb (is_drag_move_on p) beganTrace = false)
               /\ (forall p, existsb (is_drag_begin_on p) beganTrace = true ->
                             p = k /\ grabbed = false /\ dragBeginPending d = true)).
    { clear Hrun. revert E.
      destruct (dragBeginPending d && negb grabbed) eqn:Hpg.
      - apply andb_true_iff in Hpg as [Hpd Hg]. apply negb_true_iff in Hg.
        destruct (IntVector2_div (dragBeginSumPos d) (numDragButtons d))
          as [beginSendPos | |]; cbn [mbind res_bind]; try discriminate.
        destruct ((dist <=? _) || (dist <=? _)); intros E; injection E as <- <- <-.
        + split; [reflexivity |].
          split; [discriminate |]. split.
          * intros p. cbn [existsb is_drag_move_on orb]. apply routed_is_no_move.
          * intros p Hq. cbn [existsb is_drag_begin_on] in Hq.
            rewrite (proj2 (routed_is_no_move p _)), orb_false_r in Hq.
            apply bool_decide_eq_true in Hq. auto.
        + split; [reflexivity |].
          split; [auto |]. split; [reflexivity | discriminate].
      - intros E; injection E as <- <- <-. split; [reflexivity |].
        split; [auto |]. split; [reflexivity | discriminate]. }
    destruct Hbegin as (Hu & Hb & Hnm & Hbg).
    destruct b; cbn [negb] in Hrun.
    + injection Hrun as <- <- <-. split; [exact Hu |]. split; [exact Hb |].
      split; [intros p Hq; rewrite Hnm in Hq; discriminate Hq | exact Hbg].
    + destruct (load (heap u) k) as [de' | |]; cbn [mbind res_bind] in Hrun;
        try discriminate Hrun.
      injection Hrun as <- <- <-.
      split.
      { change (?a :: ?l) with ([a] ++ l). rewrite !deliver_pointers_app, <- Hu.
        reflexivity. }
      split; [discriminate |].
      split.
      * intros p Hq. rewrite existsb_app, Hnm in Hq. cbn [orb existsb is_drag_move_on] in Hq.
        rewrite (proj1 (routed_is_no_move p _)), orb_false_r in Hq.
        apply bool_decide_eq_true in Hq. auto.
      * intros p Hq. rewrite existsb_app in Hq. cbn [existsb is_drag_begin_on] in Hq.
        rewrite (proj2 (routed_is_no_move p _)) in Hq. cbn [orb] in Hq.
        rewrite orb_false_r in Hq. apply Hbg, Hq.
  - injection Hrun as <- <- <-. split; [reflexivity |]. split; [auto |].
    split; intros p Hq; cbn [existsb is_drag_move_on is_drag_begin_on orb] in Hq;
      rewrite ?(proj1 (routed_is_no_move p _)), ?(proj2 (routed_is_no_move p _)) in Hq;
      discriminate Hq.
Qed.

Lemma set_entry_counts (ui : UI) before k d after (sumPos' : IntVector2) (pending : bool) :
  dragElements_ ui = before ++ (k, d) :: after -> counts_ok ui ->
  (pending = true -> dragBeginPending d = true) ->
  counts_ok (set_entry ui before (k, moved d sumPos' pending) after
               (if dragBeginPending d && negb pending
                then dragConfirmedCount_ ui + 1 else dragConfirmedCount_ ui)).
Proof.
  intros E [Hc Hf] Hm. unfold counts_ok, set_entry.
  cbn [dragElements_ dragElementsCount_ dragConfirmedCount_ set_drag].
  rewrite Hc, E, !length_app. cbn [length].
  split; [reflexivity |].
  rewrite !confirmed_count_app, !confirmed_count_cons.
  cbn [snd moved dragBeginPending].
  rewrite Hf, E, !confirmed_count_app, !confirmed_count_cons. cbn [snd].
  destruct (dragBeginPending d), pending; cbn [andb negb];
    first [lia | discriminate (Hm eq_refl)].
Qed.

Lemma swept_weaken (was was' : Ptr -> Prop) (step : DragData -> DragData -> Prop)
    (h' : Heap) (l l' : list (Ptr * DragData)) :
  (forall k, was k -> was' k) -> swept was step h' l l' -> swept was' step h' l l'.
Proof.
  intros W.
  induction 1; [apply swept_nil | apply swept_erase; auto | apply swept_keep; auto].
Qed.

Lemma ProcessMove_loop_spec (dist : Z) (grabbed : bool) (cursorPos delta : IntVector2)
    (buttons qualifiers : Z) (cursor : option Ptr) :
  forall (remaining before : list (Ptr * DragData)) (ui ui' : UI) (t : PointerTrace),
    dragElements_ ui = before ++ remaining ->
    ProcessMove_loop ui before remaining dist grabbed cursorPos delta buttons qualifiers
      cursor = Ret (ui', t) ->
    (forall p, heap ui !! p = None -> heap ui' !! p = None)
    /\ (counts_ok ui -> counts_ok ui')
    /\ exists remaining',
         dragElements_ ui' = before ++ remaining'
         /\ swept (fun k => is_Some (heap ui !! k)) advanced (heap ui') remaining remaining'
         /\ (forall p, existsb (is_drag_move_on p) t = true ->
                       exists d', In (p, d') remaining' /\ dragBeginPending d' = false)
         /\ (forall p, existsb (is_drag_begin_on p) t = true ->
                       grabbed = false
                       /\ exists d, In (p, d) remaining /\ dragBeginPending d = true).
Proof.
  induction remaining as [| [k d] after IH]; intros before ui ui' t E Hrun.
  - injection Hrun as <- <-. split; [auto |]. split; [auto |].
    exists []. split; [exact E |]. split; [constructor |].
    split; intros p Hp; discriminate Hp.
  - cbn [ProcessMove_loop] in Hrun.
    destruct (heap ui !! k) as [de |] eqn:Hk.
    + destruct (Z.land (dragButtons d) buttons =? 0) eqn:Hb.
      * apply IH in Hrun; [| rewrite <- app_assoc; exact E].
        destruct Hrun as (Hx & Hc & remaining' & Hr & Hadv & Hmove & Hbegin).
        split; [exact Hx |]. split; [exact Hc |].
        exists ((k, d) :: remaining'). rewrite <- app_assoc in Hr.
        split; [exact Hr |].
        split; [apply swept_keep; [rewrite Hk; eauto | apply advanced_refl | exact Hadv] |].
        split.
        -- intros p Hp. destruct (Hmove p Hp) as (d' & Hin & Hd').
           exists d'. split; [right; exact Hin | exact Hd'].
        -- intros p Hp. destruct (Hbegin p Hp) as (Hg & d0 & Hin & Hd0).
           split; [exact Hg |]. exists d0. split; [right; exact Hin | exact Hd0].
      * destruct (if usingTouchInput_ ui then _ else _) as [[sumPos' sendPos] | |] eqn:Hs;
          cbn [mbind res_bind] in Hrun; try discriminate Hrun.
        destruct (move_entry ui k de d dist grabbed cursorPos delta sendPos buttons
                    qualifiers cursor) as [[[ui1 pending] trace] | |] eqn:Hp;
          cbn [mbind res_bind] in Hrun; try discriminate Hrun.
        destruct (move_entry_spec _ _ _ _ _ _ _ _ _ _ _ _ _ _ _ Hp)
          as (Hu1 & Fm & Fmove & Fbegin).
        pose proof (deliver_pointers_router trace ui) as S1. rewrite <- Hu1 in S1.
        assert (X1 : forall p, heap ui !! p = None -> heap ui1 !! p = None).
        { intros p Ep. rewrite Hu1. apply deliver_pointers_expired, Ep. }
        destruct (same_router_fields _ _ S1) as (_ & _ & _ & _ & Hreg1 & Hcnt1 & Hcf1 & _).
        assert (E1 : dragElements_ ui1 = before ++ (k, d) :: after)
          by (rewrite Hreg1; exact E).
        destruct (ProcessMove_loop _ _ after _ _ _ _ _ _ _) as [[ui2 rest] | |] eqn:Hl;
          cbn [mbind res_bind] in Hrun; try discriminate Hrun.
        injection Hrun as <- <-.
        apply IH in Hl; [| cbn; rewrite <- app_assoc; reflexivity].
        cbn [heap set_entry set_drag] in Hl.
        destruct Hl as (Hx & Hc & remaining' & Hr & Hadv & Hmove & Hbegin).
        split; [intros p Ep; apply Hx, X1, Ep |].
        split.
        { intros C. apply Hc. apply set_entry_counts; [exact E1 | | exact Fm].
          apply (counts_ok_frame _ ui); [exact Hreg1 | exact Hcnt1 | exact Hcf1 | exact C]. }
        exists ((k, moved d sumPos' pending) :: remaining').
        rewrite <- app_assoc in Hr. split; [exact Hr |].
        split.
        { apply swept_keep; [rewrite Hk; eauto | |].
          - unfold advanced. cbn. repeat split. exact Fm.
          - eapply swept_weaken; [| exact Hadv]. intros q Aq.
            destruct (heap ui !! q) eqn:Eq; [eauto |].
            cbn [heap set_entry set_drag] in Aq. rewrite (X1 q Eq) in Aq. exact Aq. }
        split.
        -- intros p Hq. rewrite existsb_app in Hq. apply orb_true_iff in Hq as [Hq | Hq].
           ++ destruct (Fmove p Hq) as [-> ->]. eexists. split; [left; reflexivity |].
              reflexivity.
           ++ destruct (Hmove p Hq) as (d' & Hin & Hd'). exists d'.
              split; [right; exact Hin | exact Hd'].
        -- intros p Hq. rewrite existsb_app in Hq. apply orb_true_iff in Hq as [Hq | Hq].
           ++ destruct (Fbegin p Hq) as (-> & Hg & Hd). split; [exact Hg |].
              exists d. split; [left; reflexivity | exact Hd].
           ++ destruct (Hbegin p Hq) as (Hg & d0 & Hin & Hd0). split; [exact Hg |].
              exists d0. split; [right; exact Hin | exact Hd0].
    + destruct (DragElementErase_fields ui before d after (k, d) E) as (Hh' & Hd' & _).
      apply IH in Hrun; [| exact Hd']. rewrite Hh' in Hrun.
      destruct Hrun as (Hx & Hc & remaining' & Hr & Hadv & Hmove & Hbegin).
      split; [exact Hx |].
      split; [intros C; apply Hc; eapply DragElementErase_counts; eassumption |].
      exists remaining'. split; [exact Hr |].
      split; [apply swept_erase; [apply Hx, Hk | exact Hadv] |].
      split; [exact Hmove |].
      intros p Hp. destruct (Hbegin p Hp) as (Hg & d0 & Hin & Hd0).
      split; [exact Hg |]. exists d0. split; [right; exact Hin | exact Hd0].
Qed.

Lemma deliver_pointers_kept (t : PointerTrace) (p : Ptr) :
  pointer_kept p ->
  forall ui, is_Some (heap ui !! p) -> is_Some (heap (deliver_pointers ui t) !! p).
Proof.
  intros K. induction t as [| ev t IH]; intros ui A; [exact A |].
  apply IH. apply K. exact A.
Qed.

(** The body of the loop returns for an entry with buttons whose element
    no handler destroys. *)
Lemma move_entry_total (ui : UI) (k : Ptr) (de : UIElement) (d : DragData) (dist : Z)
    (grabbed : bool) (cursorPos delta sendPos : IntVector2) (buttons qualifiers : Z)
    (cursor : option Ptr) :
  is_Some (heap ui !! k) -> numDragButtons d <> 0 -> pointer_kept k ->
  exists ui1 pending trace,
    move_entry ui k de d dist grabbed cursorPos delta sendPos buttons qualifiers cursor
    = Ret (ui1, pending, trace).
Proof.
  intros A Hn K. unfold move_entry.
  destruct (enabled_ de && visible_ de).
  - assert (Hbegin : exists u b beganTrace,
               (if dragBeginPending d && negb grabbed
                then
                  beginSendPos ← IntVector2_div (dragBeginSumPos d) (numDragButtons d);
                  let offset := IntVector2_sub cursorPos beginSendPos in
                  if (dist <=? Z.abs (ix_ offset)) || (dist <=? Z.abs (iy_ offset))
                  then
                    let began :=
                      OnDragBegin k (ScreenToElement de beginSendPos) beginSendPos buttons
                        qualifiers cursor in
                    let '(ui, events) := send_drag (deliver_pointer ui began) E_DRAGBEGIN k in
                    Ret (ui, false, began :: events)
                  else Ret (ui, true, [])
                else Ret (ui, dragBeginPending d, [])) = Ret (u, b, beganTrace)
               /\ is_Some (heap u !! k)).
    { destruct (dragBeginPending d && negb grabbed).
      - unfold IntVector2_div. destruct (Z.eqb_spec (numDragButtons d) 0); [contradiction |].
        cbn [mbind res_bind]. destruct ((dist <=? _) || (dist <=? _)).
        + unfold send_drag. eexists _, _, _. split; [reflexivity |].
          apply deliver_pointers_kept; [exact K |]. apply K. exact A.
        + eexists _, _, _. split; [reflexivity | exact A].
      - eexists _, _, _. split; [reflexivity | exact A]. }
    destruct Hbegin as (u & b & beganTrace & E & [de' Hu]).
    match goal with
    | |- exists ui1 pending trace, mbind _ ?m = _ => replace m with (Ret (u, b, beganTrace))
    end.
    cbn [mbind res_bind]. destruct b; cbn [negb]; [eexists _, _, _; reflexivity |].
    unfold load. rewrite Hu. cbn [deref mbind res_bind]. unfold send_drag.
    eexists _, _, _. reflexivity.
  - unfold send_drag. eexists _, _, _. reflexivity.
Qed.

Lemma ProcessMove_loop_total (dist : Z) (grabbed : bool) (cursorPos delta : IntVector2)
    (buttons qualifiers : Z) (cursor : option Ptr) :
  forall (remaining before : list (Ptr * DragData)) (ui : UI),
    (forall kv, In kv remaining -> numDragButtons kv.2 <> 0 /\ pointer_kept kv.1) ->
    exists ui' t,
      ProcessMove_loop ui before remaining dist grabbed cursorPos delta buttons qualifiers
        cursor = Ret (ui', t).
Proof.
  induction remaining as [| [k d] after IH]; intros before ui Hok; [eexists _, _; reflexivity |].
  cbn [ProcessMove_loop].
  assert (Hafter : forall kv, In kv after -> numDragButtons kv.2 <> 0 /\ pointer_kept kv.1)
    by (intros kv Hin; apply Hok; right; exact Hin).
  destruct (Hok (k, d) (or_introl eq_refl)) as [Hn K]. cbn [fst snd] in Hn, K.
  destruct (heap ui !! k) as [de |] eqn:Hk; [| apply IH; exact Hafter].
  destruct (Z.land (dragButtons d) buttons =? 0); [apply IH; exact Hafter |].
  match goal with
  | |- exists ui' t, mbind _ ?m = _ =>
      assert (Hpos : exists sumPos' sendPos, m = Ret (sumPos', sendPos))
  end.
  { destruct (usingTouchInput_ ui); [| eexists _, _; reflexivity].
    cbn zeta. unfold IntVector2_div.
    destruct (Z.eqb_spec (numDragButtons d) 0); [contradiction |].
    eexists _, _. reflexivity. }
  destruct Hpos as (sumPos' & sendPos & ->). cbn [mbind res_bind].
  destruct (move_entry_total ui k de d dist grabbed cursorPos delta sendPos buttons qualifiers
              cursor) as (ui1 & pending & trace & ->); [rewrite Hk; eauto | exact Hn | exact K |].
  cbn [mbind res_bind].
  match goal with
  | |- context [ProcessMove_loop ?u ?b after] =>
      destruct (IH b u Hafter) as (ui2 & rest & ->)
  end.
  eexists _, _. reflexivity.
Qed.

(** [ProcessMove] does nothing while the cursor is hidden, while no drag
    is registered, or when no button is held.  Whenever it returns, an
    element that was gone is still gone and the counters are still right.
    It goes through the registry in order, testing each element when its
    turn comes, after the callbacks of the entries before it: an entry is
    erased only if its element is gone by the end, and an entry that is
    kept is of an element that was alive at the start, with at most its
    position sum changed and a pending drag begun, never the reverse.  It
    calls [OnDragMove] only on an element whose drag has begun by the end
    of the move, and [OnDragBegin] only on an element whose drag was
    pending and only while the mouse is not grabbed.  It returns when the
    hit test has fuel, every entry has buttons, and no handler destroys an
    element of the registry. *)
Theorem ProcessMove_advances_drags (fuel : nat) (ui : UI) (dist : Z) (grabbed : bool)
    (windowCursorPos delta : IntVector2) (buttons qualifiers : Z) (cursor : option Ptr)
    (cursorVisible : bool) :
  (cursorVisible = false \/ dragElementsCount_ ui <= 0 \/ buttons = 0 ->
   ProcessMove fuel ui dist grabbed windowCursorPos delta buttons qualifiers cursor
     cursorVisible = Ret (ui, []))
  /\ (forall ui' t,
         ProcessMove fuel ui dist grabbed windowCursorPos delta buttons qualifiers cursor
           cursorVisible = Ret (ui', t) ->
         (forall p, heap ui !! p = None -> heap ui' !! p = None)
         /\ (counts_ok ui -> counts_ok ui')
         /\ (cursorVisible = true -> 0 < dragElementsCount_ ui -> buttons <> 0 ->
             swept (fun k => is_Some (heap ui !! k)) advanced (heap ui') (dragElements_ ui)
               (dragElements_ ui'))
         /\ (forall p, existsb (is_drag_move_on p) t = true ->
                       exists d', In (p, d') (dragElements_ ui')
                                  /\ dragBeginPending d' = false)
         /\ (forall p, existsb (is_drag_begin_on p) t = true ->
                       grabbed = false
                       /\ exists d, In (p, d) (dragElements_ ui)
                                    /\ dragBeginPending d = true))
  /\ (hit_ready fuel ui = true ->
      (forall kv, In kv (dragElements_ ui) ->
                  numDragButtons kv.2 <> 0 /\ pointer_kept kv.1) ->
      exists ui' t,
        ProcessMove fuel ui dist grabbed windowCursorPos delta buttons qualifiers cursor
          cursorVisible = Ret (ui', t)).
Proof.
  split; [| split].
  3: { intros Hready Hok. unfold ProcessMove.
       destruct (cursorVisible && (0 <? dragElementsCount_ ui) && negb (buttons =? 0));
         [| eexists _, _; reflexivity].
       destruct (GetElementAt_total fuel ui windowCursorPos true Hready)
         as (element & written & ->).
       cbn [mbind res_bind]. apply ProcessMove_loop_total. exact Hok. }
  - intros Hg. unfold ProcessMove.
    destruct Hg as [-> | [Hc | ->]]; [reflexivity | |].
    + destruct (Z.ltb_spec 0 (dragElementsCount_ ui)); [lia |].
      rewrite andb_false_r. reflexivity.
    + rewrite andb_false_r. reflexivity.
  - intros ui' t Hrun. unfold ProcessMove in Hrun.
    destruct (cursorVisible && (0 <? dragElementsCount_ ui) && negb (buttons =? 0)) eqn:G.
    + destruct (GetElementAt fuel ui windowCursorPos true) as [[el written] | |];
        cbn [mbind res_bind] in Hrun; try discriminate.
      apply (ProcessMove_loop_spec dist grabbed _ delta buttons qualifiers cursor
               (dragElements_ ui) [] ui ui' t eq_refl) in Hrun.
      destruct Hrun as (Hx & Hc & remaining' & Hr & Hadv & Hmove & Hbegin).
      cbn [app] in Hr. rewrite Hr.
      split; [exact Hx |]. split; [exact Hc |].
      split; [intros _ _ _; exact Hadv |]. split; [exact Hmove | exact Hbegin].
    + injection Hrun as <- <-. split; [auto |]. split; [auto |].
      split.
      { intros -> Hc Hb. exfalso.
        destruct (Z.ltb_spec 0 (dragElementsCount_ ui)); [| lia].
        destruct (Z.eqb_spec buttons 0); [contradiction | discriminate G]. }
      split; intros p Hp; discriminate Hp.
Qed.

End MoveFacts.
(** ** Hover *)

Section HoverFacts.
Import UISystem UIPointer UISpec RouterSpec PointerSpec.
Context `{PointerHandlers}.
Variable OnDragDropTest : Ptr -> Ptr -> bool.
Variable DragDropTest_accept : Ptr -> Ptr -> bool.

Lemma after_handlers_refl (ui : UI) : after_handlers ui ui.
Proof. split; [apply same_router_refl | auto]. Qed.

Lemma after_handlers_trans (a b c : UI) :
  after_handlers a b -> after_handlers b c -> after_handlers a c.
Proof.
  intros [S1 X1] [S2 X2]. split; [eapply same_router_trans; eassumption | auto].
Qed.

Lemma after_deliver_pointers (ui : UI) (t : PointerTrace) :
  after_handlers ui (deliver_pointers ui t).
Proof.
  split; [apply deliver_pointers_router |]. intros p. apply deliver_pointers_expired.
Qed.

Lemma after_deliver_pointer (ui : UI) (ev : PointerEvent) :
  after_handlers ui (deliver_pointer ui ev).
Proof. apply (after_deliver_pointers ui [ev]). Qed.

Lemma hover_spec (ui : UI) (hovered : gmap Ptr bool) (el : Ptr) (e : UIElement)
    (cursorPos : IntVector2) (buttons qualifiers : Z) (cursor : option Ptr) :
  let r := hover ui hovered el e cursorPos buttons qualifiers cursor in
  after_handlers ui r.1.1.1
  /\ (r.1.1.2 = hovered \/ r.1.1.2 = <[el := true]> hovered).
Proof.
  cbn zeta. unfold hover.
  destruct (bool_decide (is_Some (hovered !! el))); cbn [fst snd].
  - split; [apply after_deliver_pointer | auto].
  - match goal with
    | |- context [if live (heap ?u) (Some el) then _ else _] =>
        destruct (live (heap u) (Some el)); cbn [fst snd]
    end;
      (split; [eapply after_handlers_trans;
               [apply after_deliver_pointer | apply after_deliver_pointers] | auto]).
Qed.

Lemma drop_test_spec (ui ui' : UI) (element : option Ptr) (k : Ptr)
    (dragSource dragDropTest : bool) (cursor : option Ptr) (t : PointerTrace) :
  drop_test OnDragDropTest DragDropTest_accept ui element k dragSource dragDropTest cursor
  = Ret (ui', t) ->
  after_handlers ui ui'.
Proof.
  unfold drop_test. intros Hrun. destruct dragDropTest.
  - destruct (deref element) as [el | |]; cbn [mbind res_bind] in Hrun;
      try discriminate Hrun.
    destruct (load (heap ui) el) as [e | |]; cbn [mbind res_bind] in Hrun;
      try discriminate Hrun.
    destruct (OnDragDropTest el k); injection Hrun as <- _.
    + eapply after_handlers_trans; apply after_deliver_pointer.
    + apply after_deliver_pointer.
  - destruct dragSource; injection Hrun as <- _; apply after_handlers_refl.
Qed.

Lemma swept_same (h' : Heap) (l : list (Ptr * DragData)) : swept (fun _ => True) eq h' l l.
Proof. induction l as [| [k d] l IH]; [apply swept_nil | apply swept_keep; auto]. Qed.

Lemma swept_later (was : Ptr -> Prop) (step : DragData -> DragData -> Prop)
    (h1 h2 : Heap) (l l' : list (Ptr * DragData)) :
  (forall p, h1 !! p = None -> h2 !! p = None) ->
  swept was step h1 l l' -> swept was step h2 l l'.
Proof.
  intros X.
  induction 1; [apply swept_nil | apply swept_erase; auto | apply swept_keep; auto].
Qed.

Lemma after_handlers_counts (a b : UI) : after_handlers a b -> counts_ok a -> counts_ok b.
Proof.
  intros [S _]. destruct (same_router_fields _ _ S) as (_ & _ & _ & _ & Hd & Hc & Hf & _).
  apply counts_ok_frame; assumption.
Qed.

Lemma ProcessHover_loop_spec (element : option Ptr) (cursorPos : IntVector2)
    (buttons qualifiers : Z) (cursor : option Ptr) :
  forall (remaining before : list (Ptr * DragData)) (ui : UI) (hovered : gmap Ptr bool)
         (ui' : UI) (hovered' : gmap Ptr bool) (t : PointerTrace) (finished : bool),
    dragElements_ ui = before ++ remaining ->
    ProcessHover_loop OnDragDropTest DragDropTest_accept ui hovered before remaining element
      cursorPos buttons qualifiers cursor = Ret (ui', hovered', t, finished) ->
    (forall p, heap ui !! p = None -> heap ui' !! p = None)
    /\ (exists remaining',
           dragElements_ ui' = before ++ remaining'
           /\ swept (fun _ => True) eq (heap ui') remaining remaining')
    /\ (counts_ok ui -> counts_ok ui')
    /\ (hovered' = hovered
        \/ exists el, element = Some el /\ hovered' = <[el := true]> hovered).
Proof.
  induction remaining as [| [k d] after IH];
    intros before ui hovered ui' hovered' t finished E Hrun.
  - injection Hrun as <- <- _ _. split; [auto |].
    split; [exists []; split; [exact E | apply swept_nil] |]. auto.
  - cbn [ProcessHover_loop] in Hrun.
    destruct (heap ui !! k) as [de |] eqn:Hk.
    + set (tg := match element with
                  | Some el =>
                      match heap ui !! el with Some e => Some (el, e) | None => None end
                  | None => None
                  end) in *.
      assert (Htg : forall el e, tg = Some (el, e) -> element = Some el).
      { intros el e. unfold tg. destruct element as [el' |]; [| discriminate].
        destruct (heap ui !! el'); [| discriminate]. intros [= <- _]. reflexivity. }
      clearbody tg.
      match type of Hrun with
      | context [if dragBeginPending d then (false, false) else ?x] =>
          destruct (if dragBeginPending d then (false, false) else x)
            as [dragSource dragDropTest]
      end.
      set (hv := match tg with
                 | Some (el, e) =>
                     if enabled_ e && (bool_decide (k = el) || dragDropTest)
                     then hover ui hovered el e cursorPos buttons qualifiers cursor
                     else (ui, hovered, [], true)
                 | None => (ui, hovered, [], true)
                 end) in Hrun.
      assert (Hhover : after_handlers ui hv.1.1.1
                       /\ (hv.1.1.2 = hovered
                           \/ exists el, element = Some el
                                         /\ hv.1.1.2 = <[el := true]> hovered)).
      { unfold hv. destruct tg as [[el e] |];
          [| split; [apply after_handlers_refl | auto]].
        destruct (enabled_ e && _);
          [| split; [apply after_handlers_refl | auto]].
        pose proof (hover_spec ui hovered el e cursorPos buttons qualifiers cursor) as S.
        cbn zeta in S. destruct S as [S1 S2].
        split; [exact S1 |]. destruct S2 as [-> | ->]; [auto |].
        right. exists el. split; [apply (Htg el e eq_refl) | reflexivity]. }
      clearbody hv. destruct hv as [[[ui1 hovered1] hoverTrace] goOn].
      cbn [fst snd] in Hhover.
      destruct Hhover as [A1 Hmark].
      destruct goOn.
      * destruct (drop_test _ _ ui1 element k dragSource dragDropTest cursor)
          as [[ui2 shapeTrace] | |] eqn:Hd; cbn [mbind res_bind] in Hrun;
          try discriminate Hrun.
        pose proof (after_handlers_trans _ _ _ A1 (drop_test_spec _ _ _ _ _ _ _ _ Hd)) as A2.
        destruct (ProcessHover_loop _ _ ui2 hovered1 _ after _ _ _ _ _)
          as [[[[u h'] rest] fin] | |] eqn:Hl; cbn [mbind res_bind] in Hrun;
          try discriminate Hrun.
        injection Hrun as <- <- _ _.
        destruct A2 as [S2 X2].
        destruct (same_router_fields _ _ S2) as (_ & _ & _ & _ & Hreg2 & _).
        apply IH in Hl; [| rewrite Hreg2, <- app_assoc; exact E].
        destruct Hl as (Hx & (remaining' & Hr & Hsw) & Hc & Hm).
        split; [intros p Ep; apply Hx, X2, Ep |].
        split.
        { exists ((k, d) :: remaining'). rewrite <- app_assoc in Hr.
          split; [exact Hr |]. apply swept_keep; auto. }
        split; [intros C; apply Hc; apply (after_handlers_counts ui ui2); [split |];
                assumption |].
        destruct Hm as [-> | (el & He & ->)]; [exact Hmark |].
        right. exists el. split; [exact He |].
        destruct Hmark as [-> | (el' & He' & ->)]; [reflexivity |].
        rewrite He in He'. injection He' as <-. apply insert_insert_eq.
      * injection Hrun as <- <- _ _. destruct A1 as [S1 X1].
        destruct (same_router_fields _ _ S1) as (_ & _ & _ & _ & Hreg1 & _).
        split; [exact X1 |].
        split; [exists ((k, d) :: after); split; [rewrite Hreg1; exact E | apply swept_same] |].
        split; [apply after_handlers_counts; split; assumption | exact Hmark].
    + destruct (DragElementErase_fields ui before d after (k, d) E) as (Hh' & Hd' & _).
      apply IH in Hrun; [| exact Hd']. rewrite Hh' in Hrun.
      destruct Hrun as (Hx & (remaining' & Hr & Hsw) & Hc & Hm).
      split; [exact Hx |].
      split; [exists remaining'; split; [exact Hr |]; apply swept_erase;
              [apply Hx, Hk | exact Hsw] |].
      split; [intros C; apply Hc; eapply DragElementErase_counts; eassumption | exact Hm].
Qed.

(** With no live entry in the registry the loop of [ProcessHover] erases
    every entry and calls nothing. *)
Lemma ProcessHover_loop_all_gone (element : option Ptr) (cursorPos : IntVector2)
    (buttons qualifiers : Z) (cursor : option Ptr) (hovered : gmap Ptr bool) :
  forall (remaining before : list (Ptr * DragData)) (ui : UI),
    dragElements_ ui = before ++ remaining ->
    live_entries (heap ui) remaining = [] ->
    exists ui',
      ProcessHover_loop OnDragDropTest DragDropTest_accept ui hovered before remaining
        element cursorPos buttons qualifiers cursor = Ret (ui', hovered, [], true)
      /\ dragElements_ ui' = before /\ (counts_ok ui -> counts_ok ui').
Proof.
  induction remaining as [| [k d] after IH]; intros before ui E Hlive.
  - exists ui. rewrite app_nil_r in E. auto.
  - cbn [ProcessHover_loop]. unfold live_entries in Hlive. cbn [List.filter fst] in Hlive.
    destruct (heap ui !! k) as [de |] eqn:Hk.
    + rewrite bool_decide_eq_true_2 in Hlive by eauto. discriminate Hlive.
    + rewrite bool_decide_eq_false_2 in Hlive by (intros [x Hx]; discriminate Hx).
      destruct (DragElementErase_fields ui before d after (k, d) E) as (Hh' & Hd' & _).
      destruct (IH before (DragElementErase ui before d after) Hd') as (ui' & -> & Hr & Hc).
      { rewrite Hh'. exact Hlive. }
      exists ui'. split; [reflexivity |]. split; [exact Hr |].
      intros C. apply Hc. eapply DragElementErase_counts; eassumption.
Qed.

Lemma hover_goes_on (ui : UI) (hovered : gmap Ptr bool) (el : Ptr) (e : UIElement)
    (cursorPos : IntVector2) (buttons qualifiers : Z) (cursor : option Ptr) :
  pointer_kept el -> is_Some (heap ui !! el) ->
  let r := hover ui hovered el e cursorPos buttons qualifiers cursor in
  r.2 = true /\ is_Some (heap r.1.1.1 !! el).
Proof.
  intros K A. cbn zeta. unfold hover.
  set (hovering := OnHover el (ScreenToElement e cursorPos) cursorPos buttons qualifiers
                     cursor).
  assert (A1 : is_Some (heap (deliver_pointer ui hovering) !! el)) by (apply K, A).
  destruct (bool_decide (is_Some (hovered !! el))); cbn [fst snd]; [auto |].
  assert (L1 : live (heap (deliver_pointer ui hovering)) (Some el) = true)
    by (apply bool_decide_eq_true_2, A1).
  rewrite L1.
  assert (A2 : is_Some (heap (deliver_pointers (deliver_pointer ui hovering)
                                [Sent_HoverBegin el]) !! el))
    by (apply deliver_pointers_kept; assumption).
  assert (L2 : live (heap (deliver_pointers (deliver_pointer ui hovering)
                             [Sent_HoverBegin el])) (Some el) = true)
    by (apply bool_decide_eq_true_2, A2).
  rewrite L2. cbn [fst snd]. auto.
Qed.

Lemma drop_test_total (ui : UI) (el k : Ptr) (dragSource dragDropTest : bool)
    (cursor : option Ptr) :
  pointer_kept el -> is_Some (heap ui !! el) ->
  exists ui' t,
    drop_test OnDragDropTest DragDropTest_accept ui (Some el) k dragSource dragDropTest
      cursor = Ret (ui', t)
    /\ is_Some (heap ui' !! el).
Proof.
  intros K [e He]. unfold drop_test, load. cbn [deref mbind res_bind].
  destruct dragDropTest.
  - rewrite He. cbn [deref mbind res_bind].
    destruct (OnDragDropTest el k); eexists _, _; (split; [reflexivity |]).
    + apply K, K. rewrite He. eauto.
    + apply K. rewrite He. eauto.
  - destruct dragSource; eexists _, _; (split; [reflexivity |]); rewrite He; eauto.
Qed.

(** With an element under the cursor that no handler destroys, the loop
    of [ProcessHover] runs to its end. *)
Lemma ProcessHover_loop_total (el : Ptr) (cursorPos : IntVector2)
    (buttons qualifiers : Z) (cursor : option Ptr) :
  pointer_kept el ->
  forall (remaining before : list (Ptr * DragData)) (ui : UI) (hovered : gmap Ptr bool),
    is_Some (heap ui !! el) ->
    exists ui' hovered' t,
      ProcessHover_loop OnDragDropTest DragDropTest_accept ui hovered before remaining
        (Some el) cursorPos buttons qualifiers cursor = Ret (ui', hovered', t, true)
      /\ is_Some (heap ui' !! el).
Proof.
  intros K.
  induction remaining as [| [k d] after IH]; intros before ui hovered A;
    [eexists _, _, _; split; [reflexivity | exact A] |].
  cbn [ProcessHover_loop].
  destruct (heap ui !! k) as [de |] eqn:Hk.
  - destruct A as [e He]. rewrite He.
    match goal with
    | |- context [if dragBeginPending d then (false, false) else ?x] =>
        destruct (if dragBeginPending d then (false, false) else x)
          as [dragSource dragDropTest]
    end.
    assert (Hhover : exists ui1 hovered1 hoverTrace,
               (if enabled_ e && (bool_decide (k = el) || dragDropTest)
                then hover ui hovered el e cursorPos buttons qualifiers cursor
                else (ui, hovered, [], true)) = (ui1, hovered1, hoverTrace, true)
               /\ is_Some (heap ui1 !! el)).
    { destruct (enabled_ e && _).
      - pose proof (hover_goes_on ui hovered el e cursorPos buttons qualifiers cursor K
                      ltac:(rewrite He; eauto)) as G. cbn zeta in G.
        destruct (hover ui hovered el e cursorPos buttons qualifiers cursor)
          as [[[ui1 hovered1] hoverTrace] go]. cbn [fst snd] in G. destruct G as [-> G].
        eexists _, _, _. split; [reflexivity | exact G].
      - eexists _, _, _. split; [reflexivity |]. rewrite He. eauto. }
    destruct Hhover as (ui1 & hovered1 & hoverTrace & -> & A1).
    destruct (drop_test_total ui1 el k dragSource dragDropTest cursor K A1)
      as (ui2 & shapeTrace & -> & A2).
    cbn [mbind res_bind].
    destruct (IH (before ++ [(k, d)]) ui2 hovered1 A2) as (u & h' & rest & -> & A3).
    cbn [mbind res_bind]. eexists _, _, _. split; [reflexivity | exact A3].
  - apply IH. unfold DragElementErase. destruct (dragElements_ ui); exact A.
Qed.

(** Whenever [ProcessHover] returns, an element that was gone is still
    gone, a drag entry has been erased only if its element is gone and
    the others are as they were, the counters are still right, and of the
    hovered set at most the mark of the element under the cursor has
    changed, which was set.  With no drag registered, the element under
    the cursor gets [OnHover]; unless it was hovered already, it gets the
    hover-begin event if the handler has left it alive, and it is marked
    hovered only if it is alive after the event: [ProcessHover] returns
    once the element is gone.  [ProcessHover] does not test that there is
    an element under the cursor before this last step: once the registry
    holds no live entry and nothing lies under the cursor, the call
    dereferences null.  With an element under the cursor that no handler
    destroys, [ProcessHover] returns. *)
Theorem ProcessHover_outcome (fuel : nat) (ui : UI) (hovered : gmap Ptr bool)
    (windowCursorPos : IntVector2) (buttons qualifiers : Z) (cursor : option Ptr) :
  (forall ui' hovered' t,
      ProcessHover OnDragDropTest DragDropTest_accept fuel ui hovered windowCursorPos
        buttons qualifiers cursor = Ret (ui', hovered', t) ->
      (forall p, heap ui !! p = None -> heap ui' !! p = None)
      /\ swept (fun _ => True) eq (heap ui') (dragElements_ ui) (dragElements_ ui')
      /\ (counts_ok ui -> counts_ok ui')
      /\ (hovered' = hovered
          \/ exists el written,
               GetElementAt fuel ui windowCursorPos true = Ret (Some el, written)
               /\ hovered' = <[el := true]> hovered))
  /\ (forall el e written,
         dragElements_ ui = [] -> dragElementsCount_ ui = 0 ->
         GetElementAt fuel ui windowCursorPos true = Ret (Some el, written) ->
         heap ui !! el = Some e ->
         let hovering :=
           OnHover el (ScreenToElement e (default IntVector2_ZERO written))
             (default IntVector2_ZERO written) buttons qualifiers cursor in
         exists ui' hovered',
           ProcessHover OnDragDropTest DragDropTest_accept fuel ui hovered windowCursorPos
             buttons qualifiers cursor
           = Ret (ui', hovered',
                  hovering
                  :: (if bool_decide (is_Some (hovered !! el)) then []
                      else if live (handle_pointer hovering (heap ui)) (Some el)
                           then [Sent_HoverBegin el] else []))
           /\ (is_Some (hovered !! el) \/ is_Some (heap ui' !! el) ->
               hovered' = <[el := true]> hovered)
           /\ (hovered !! el = None -> heap ui' !! el = None -> hovered' = hovered))
  /\ (forall written,
         counts_ok ui -> live_entries (heap ui) (dragElements_ ui) = [] ->
         GetElementAt fuel ui windowCursorPos true = Ret (None, written) ->
         ProcessHover OnDragDropTest DragDropTest_accept fuel ui hovered windowCursorPos
           buttons qualifiers cursor = Fault)
  /\ (forall el written,
         GetElementAt fuel ui windowCursorPos true = Ret (Some el, written) ->
         pointer_kept el ->
         exists ui' hovered' t,
           ProcessHover OnDragDropTest DragDropTest_accept fuel ui hovered windowCursorPos
             buttons qualifiers cursor = Ret (ui', hovered', t)).
Proof.
  split; [| split; [| split]].
  4: { intros el written HG K. unfold ProcessHover. rewrite HG. cbn [mbind res_bind].
       destruct (ProcessHover_loop_total el (default IntVector2_ZERO written) buttons
                   qualifiers cursor K (dragElements_ ui) [] ui hovered
                   (GetElementAt_hit_alive _ _ _ _ _ _ HG))
         as (ui1 & hovered1 & trace & -> & [e He]).
       cbn [mbind res_bind andb].
       destruct (dragElementsCount_ ui1 =? 0); [| eexists _, _, _; reflexivity].
       cbn [deref mbind res_bind]. unfold load. rewrite He. cbn [deref mbind res_bind].
       destruct (hover ui1 hovered1 el e _ _ _ _) as [[[ui2 hovered2] last] go].
       eexists _, _, _. reflexivity. }
  - intros ui' hovered' t Hrun. unfold ProcessHover in Hrun.
    destruct (GetElementAt fuel ui windowCursorPos true) as [[element written] | |] eqn:HG;
      cbn [mbind res_bind] in Hrun; try discriminate.
    destruct (ProcessHover_loop _ _ ui hovered [] _ element _ _ _ _)
      as [[[[ui1 hovered1] trace] finished] | |] eqn:HL; cbn [mbind res_bind] in Hrun;
      try discriminate.
    destruct (ProcessHover_loop_spec element (default IntVector2_ZERO written) buttons
                qualifiers cursor (dragElements_ ui) [] ui hovered ui1 hovered1 trace
                finished eq_refl HL)
      as (L1 & (remaining' & L2 & L2') & L3 & L4).
    cbn [app] in L2. rewrite <- L2 in L2'.
    assert (Hmark : hovered1 = hovered
                    \/ exists el w,
                         Ret (element, written) = Ret (Some el, w)
                         /\ hovered1 = <[el := true]> hovered).
    { destruct L4 as [-> | (el & -> & ->)]; [auto |]. right. eauto. }
    destruct (finished && (dragElementsCount_ ui1 =? 0)).
    + destruct element as [el |]; cbn [deref mbind res_bind] in Hrun; [| discriminate].
      destruct (load (heap ui1) el) as [e | |]; cbn [mbind res_bind] in Hrun;
        try discriminate.
      pose proof (hover_spec ui1 hovered1 el e (default IntVector2_ZERO written) buttons
                    qualifiers cursor) as S. cbn zeta in S.
      destruct (hover ui1 hovered1 el e _ _ _ _) as [[[ui2 hovered2] last] go].
      cbn [fst snd] in S. destruct S as [[S1 X1] S2].
      injection Hrun as <- <- _.
      destruct (same_router_fields _ _ S1) as (_ & _ & _ & _ & Hreg2 & _).
      split; [intros p Ep; apply X1, L1, Ep |].
      split; [rewrite Hreg2; eapply swept_later; [exact X1 | exact L2'] |].
      split; [intros C; apply (after_handlers_counts ui1 ui2); [split; assumption |];
              apply L3, C |].
      destruct S2 as [-> | ->]; [exact Hmark |].
      right. exists el, written. split; [reflexivity |].
      destruct Hmark as [-> | (el' & w & [= <- <-] & ->)]; [reflexivity |].
      apply insert_insert_eq.
    + injection Hrun as <- <- _.
      split; [exact L1 |]. split; [exact L2' |]. split; [exact L3 | exact Hmark].
  - intros el e written Hreg Hcount HG He. cbn zeta. unfold ProcessHover.
    rewrite HG. cbn [mbind res_bind]. rewrite Hreg. cbn [ProcessHover_loop mbind res_bind].
    rewrite Hcount. cbn [andb Z.eqb deref mbind res_bind]. unfold load. rewrite He.
    cbn [deref mbind res_bind]. unfold hover.
    destruct (bool_decide (is_Some (hovered !! el))) eqn:Hc.
    + eexists _, _. split; [reflexivity |]. split; [auto |].
      intros N. apply bool_decide_eq_true in Hc. rewrite N in Hc.
      destruct Hc as [x Hx]. discriminate Hx.
    + cbn [heap deliver_pointer set_heap].
      match goal with
      | |- context [if live ?h (Some el) then [Sent_HoverBegin el] else []] =>
          destruct (live h (Some el)) eqn:L1
      end.
      * match goal with
        | |- context [if live ?h (Some el) then (_, _, _, true) else _] =>
            destruct (live h (Some el)) eqn:L2
        end.
        -- eexists _, _. split; [reflexivity |]. split; [auto |].
           intros _ N. cbn [live] in L2. apply bool_decide_eq_true in L2.
           cbn [heap] in N. rewrite N in L2. destruct L2 as [x Hx]. discriminate Hx.
        -- eexists _, _. split; [reflexivity |]. split; [| auto].
           intros [A | A].
           ++ apply bool_decide_eq_false in Hc. contradiction.
           ++ cbn [live] in L2. apply bool_decide_eq_false in L2. contradiction.
      * unfold deliver_pointers. cbn [fold_left heap deliver_pointer set_heap]. rewrite L1.
        eexists _, _. split; [reflexivity |]. split; [| auto].
        intros [A | A].
        -- apply bool_decide_eq_false in Hc. contradiction.
        -- cbn [live] in L1. apply bool_decide_eq_false in L1. contradiction.
  - intros written C Hlive HG. unfold ProcessHover. rewrite HG. cbn [mbind res_bind].
    destruct (ProcessHover_loop_all_gone None (default IntVector2_ZERO written) buttons
                qualifiers cursor hovered (dragElements_ ui) [] ui eq_refl Hlive)
      as (ui1 & -> & Hr & Hc).
    cbn [mbind res_bind]. destruct (Hc C) as [Hcount _]. rewrite Hcount, Hr. reflexivity.
Qed.

End HoverFacts.

(** ** Front element *)

Section FrontFacts.
Import UISystem UIPointer UISpec PointerSpec.
Variable GetBringToBack : Ptr -> bool.

Lemma GetFrontElement_loop_spec (h : Heap) :
  forall (rest processed : list Ptr) (maxPriority : Z) (front : option Ptr),
    (forall c, In c rest -> is_Some (h !! c)) ->
    match front with
    | None => maxPriority = M_MIN_INT
              /\ forall c, In c processed -> ~ frontable GetBringToBack h c
    | Some f =>
        frontable GetBringToBack h f /\ priority_of h f = maxPriority
        /\ exists l1 l2,
             processed = l1 ++ f :: l2
             /\ (forall c, In c l1 -> frontable GetBringToBack h c ->
                           priority_of h c < maxPriority)
             /\ (forall c, In c l2 -> frontable GetBringToBack h c ->
                           priority_of h c <= maxPriority)
    end ->
    exists r,
      GetFrontElement_loop GetBringToBack h rest maxPriority front = Ret r
      /\ match r with
         | None => forall c, In c (processed ++ rest) -> ~ frontable GetBringToBack h c
         | Some f =>
             frontable GetBringToBack h f
             /\ exists l1 l2,
                  processed ++ rest = l1 ++ f :: l2
                  /\ (forall c, In c l1 -> frontable GetBringToBack h c ->
                                priority_of h c < priority_of h f)
                  /\ (forall c, In c l2 -> frontable GetBringToBack h c ->
                                priority_of h c <= priority_of h f)
         end.
Proof.
  induction rest as [| child rest IH]; intros processed maxPriority front Hlive Hacc.
  - exists front. split; [reflexivity |]. rewrite app_nil_r.
    destruct front as [f |]; [| apply Hacc].
    destruct Hacc as (Hf & <- & l1 & l2 & Hp & H1 & H2). eauto 10.
  - cbn [GetFrontElement_loop].
    destruct (Hlive child (or_introl eq_refl)) as [c Hc].
    unfold load. rewrite Hc. simpl.
    assert (Hrest : forall x, In x rest -> is_Some (h !! x))
      by (intros x Hx; apply Hlive; right; exact Hx).
    replace (processed ++ child :: rest) with ((processed ++ [child]) ++ rest)
      by (rewrite <- app_assoc; reflexivity).
    assert (Hpc : priority_of h child = priority_ c) by (unfold priority_of; rewrite Hc; reflexivity).
    assert (Hskip : ~ frontable GetBringToBack h child \/ priority_ c <= maxPriority ->
                    match front with
                    | None => maxPriority = M_MIN_INT
                              /\ forall x, In x (processed ++ [child]) ->
                                           ~ frontable GetBringToBack h x
                    | Some f =>
                        frontable GetBringToBack h f /\ priority_of h f = maxPriority
                        /\ exists l1 l2,
                             processed ++ [child] = l1 ++ f :: l2
                             /\ (forall x, In x l1 -> frontable GetBringToBack h x ->
                                           priority_of h x < maxPriority)
                             /\ (forall x, In x l2 -> frontable GetBringToBack h x ->
                                           priority_of h x <= maxPriority)
                    end).
    { intros Hno. destruct front as [f |].
      - destruct Hacc as (Hf & Hpf & l1 & l2 & -> & H1 & H2).
        split; [exact Hf |]. split; [exact Hpf |].
        exists l1, (l2 ++ [child]). rewrite <- app_assoc. split; [reflexivity |].
        split; [exact H1 |]. intros x Hx Fx. apply in_app_or in Hx as [Hx | [<- | []]];
          [apply H2; assumption |].
        destruct Hno as [Hno | Hno]; [contradiction | lia].
      - destruct Hacc as [-> Hnone]. split; [reflexivity |].
        intros x Hx. apply in_app_or in Hx as [Hx | [<- | []]]; [apply Hnone, Hx |].
        destruct Hno as [Hno | Hno]; [exact Hno |].
        intros (c' & Hc' & _ & _ & _ & Hp). rewrite Hc in Hc'. injection Hc' as <-. lia. }
    destruct (negb (enabled_ c) || negb (visible_ c) || negb (GetBringToBack child)) eqn:El.
    + apply IH; [exact Hrest |]. apply Hskip. left.
      intros (c' & Hc' & He & Hv & Hb & _). rewrite Hc in Hc'. injection Hc' as <-.
      rewrite He, Hv, Hb in El. discriminate El.
    + apply orb_false_iff in El as [El Hb]. apply orb_false_iff in El as [He Hv].
      apply negb_false_iff in He, Hv, Hb.
      destruct (Z.ltb_spec maxPriority (priority_ c)) as [Hlt | Hge].
      * apply IH; [exact Hrest |].
        assert (Hmin : M_MIN_INT <= maxPriority).
        { destruct front as [f |]; [| destruct Hacc as [-> _]; lia].
          destruct Hacc as ((c' & Hc' & _ & _ & _ & Hp) & Hpf & _).
          unfold priority_of in Hpf. rewrite Hc' in Hpf. lia. }
        split; [exists c; repeat split; auto; lia |].
        split; [exact Hpc |].
        exists processed, []. split; [reflexivity |].
        split; [| intros x []].
        intros x Hx Fx. destruct front as [f |].
        -- destruct Hacc as (Hf & Hpf & l1 & l2 & -> & H1 & H2).
           apply in_app_or in Hx as [Hx | [<- | Hx]].
           ++ specialize (H1 x Hx Fx). lia.
           ++ lia.
           ++ specialize (H2 x Hx Fx). lia.
        -- destruct Hacc as [_ Hnone]. destruct (Hnone x Hx Fx).
      * apply IH; [exact Hrest |]. apply Hskip. right. exact Hge.
Qed.

(** [GetFrontElement] returns a child of the root that is enabled, visible
    and not kept in front, whose priority is above the least [int] and at
    least that of every other such child: among those of the highest
    priority, the first in child order.  It returns null exactly when the
    root has no such child. *)
Theorem GetFrontElement_returns_first_of_highest_priority (ui : UI) (root : UIElement) :
  heap ui !! rootElement_ ui = Some root ->
  (forall c, In c (children_ root) -> is_Some (heap ui !! c)) ->
  exists r,
    GetFrontElement GetBringToBack ui = Ret r
    /\ match r with
       | None => forall c, In c (children_ root) -> ~ frontable GetBringToBack (heap ui) c
       | Some f =>
           frontable GetBringToBack (heap ui) f
           /\ exists l1 l2,
                children_ root = l1 ++ f :: l2
                /\ (forall c, In c l1 -> frontable GetBringToBack (heap ui) c ->
                              priority_of (heap ui) c < priority_of (heap ui) f)
                /\ (forall c, In c l2 -> frontable GetBringToBack (heap ui) c ->
                              priority_of (heap ui) c <= priority_of (heap ui) f)
       end.
Proof.
  intros Hroot Hlive. unfold GetFrontElement, load. rewrite Hroot. simpl.
  apply (GetFrontElement_loop_spec (heap ui) (children_ root) [] M_MIN_INT None Hlive).
  split; [reflexivity |]. intros c [].
Qed.

End FrontFacts.

(** ** Render-to-texture roots *)

Section RenderTextureFacts.
Import UISystem UIPointer.

Lemma rtt_find_app (m : list (Ptr * RenderToTextureData)) (el k : Ptr)
    (data : RenderToTextureData) :
  rtt_find (m ++ [(k, data)]) el
  = match rtt_find m el with
    | Some found => Some found
    | None => if bool_decide (k = el) then Some data else None
    end.
Proof.
  induction m as [| [k' d'] m IH]; cbn [app rtt_find]; [reflexivity |].
  destruct (bool_decide (k' = el)); [reflexivity | exact IH].
Qed.

Ltac decide_keys :=
  repeat match goal with
    | |- context [bool_decide ?P] =>
        first [ rewrite (bool_decide_eq_true_2 P) by congruence
              | rewrite (bool_decide_eq_false_2 P) by congruence ]
    end.

Lemma rtt_find_set_texture (m : list (Ptr * RenderToTextureData)) (el t x : Ptr) :
  rtt_find (rtt_set_texture m el t) x
  = if bool_decide (x = el)
    then (fun data => mkRenderToTextureData (rtt_rootElement_ data) t
                        (rtt_vertexBuffer_ data) (rtt_debugVertexBuffer_ data))
         <$> rtt_find m el
    else rtt_find m x.
Proof.
  induction m as [| [k d] m IH]; cbn [rtt_set_texture rtt_find].
  - destruct (bool_decide (x = el)); reflexivity.
  - destruct (decide (k = el)) as [E1 | E1], (decide (x = el)) as [E2 | E2];
      decide_keys; cbn [rtt_find]; decide_keys; try reflexivity.
    + rewrite IH. decide_keys. reflexivity.
    + destruct (decide (k = x)) as [E3 | E3]; decide_keys; [reflexivity |].
      rewrite IH. decide_keys. reflexivity.
Qed.

Lemma rtt_find_erase_other (m : list (Ptr * RenderToTextureData)) (el x : Ptr) :
  x <> el -> rtt_find (rtt_erase m el) x = rtt_find m x.
Proof.
  intros N. induction m as [| [k d] m IH]; cbn [rtt_erase rtt_find]; [reflexivity |].
  destruct (bool_decide_reflect (k = el)) as [-> | Hk].
  - rewrite bool_decide_eq_false_2 by congruence. reflexivity.
  - cbn [rtt_find]. destruct (bool_decide (k = x)); [reflexivity | exact IH].
Qed.

Lemma rtt_find_erase_same (m : list (Ptr * RenderToTextureData)) (el : Ptr) :
  List.NoDup (map fst m) -> rtt_find (rtt_erase m el) el = None.
Proof.
  induction m as [| [k d] m IH]; cbn [rtt_erase rtt_find map fst]; [reflexivity |].
  intros ND. apply List.NoDup_cons_iff in ND as [Hk ND].
  destruct (bool_decide_reflect (k = el)) as [-> | Hne].
  - clear IH ND. induction m as [| [k' d'] m IH]; [reflexivity |].
    cbn [rtt_find]. cbn [map fst In] in Hk.
    rewrite bool_decide_eq_false_2 by tauto. apply IH. tauto.
  - cbn [rtt_find]. rewrite bool_decide_eq_false_2 by exact Hne. apply IH, ND.
Qed.

Lemma rtt_find_None (m : list (Ptr * RenderToTextureData)) (el : Ptr) :
  rtt_find m el = None <-> ~ In el (map fst m).
Proof.
  induction m as [| [k d] m IH]; cbn [rtt_find map fst In]; [tauto |].
  destruct (bool_decide_reflect (k = el)) as [-> | Hne]; [split; [discriminate | tauto] |].
  rewrite IH. tauto.
Qed.

Lemma rtt_keys_set_texture (m : list (Ptr * RenderToTextureData)) (el t : Ptr) :
  map fst (rtt_set_texture m el t) = map fst m.
Proof.
  induction m as [| [k d] m IH]; [reflexivity |]. cbn [rtt_set_texture].
  destruct (bool_decide (k = el)); cbn [map fst]; [| rewrite IH]; reflexivity.
Qed.

(** [SetElementRenderTexture] ignores a null element.  With a texture it
    makes the element a render-to-texture root: a new root is added behind
    the others with two fresh vertex buffers, and a root that is there
    already only has its texture replaced, keeping its buffers and its
    place.  With a null texture it removes the root.  The entries of all
    other elements are never touched, and keys stay distinct. *)
Theorem SetElementRenderTexture_updates_one_root (m : list (Ptr * RenderToTextureData))
    (vb dvb : Ptr) :
  (forall texture, SetElementRenderTexture m None texture vb dvb = m)
  /\ (forall el t,
         rtt_find (SetElementRenderTexture m (Some el) (Some t) vb dvb) el
         = Some (match rtt_find m el with
                 | Some data => mkRenderToTextureData (rtt_rootElement_ data) t
                                  (rtt_vertexBuffer_ data) (rtt_debugVertexBuffer_ data)
                 | None => mkRenderToTextureData el t vb dvb
                 end)
         /\ map fst (SetElementRenderTexture m (Some el) (Some t) vb dvb)
            = match rtt_find m el with
              | Some _ => map fst m
              | None => map fst m ++ [el]
              end)
  /\ (forall el,
         List.NoDup (map fst m) ->
         rtt_find (SetElementRenderTexture m (Some el) None vb dvb) el = None)
  /\ (forall el, ~ In el (map fst m) -> SetElementRenderTexture m (Some el) None vb dvb = m)
  /\ (forall el texture x,
         x <> el ->
         rtt_find (SetElementRenderTexture m (Some el) texture vb dvb) x = rtt_find m x)
  /\ (forall el texture,
         List.NoDup (map fst m) ->
         List.NoDup (map fst (SetElementRenderTexture m (Some el) texture vb dvb))).
Proof.
  split; [reflexivity |].
  split.
  { intros el t. unfold SetElementRenderTexture.
    destruct (rtt_find m el) as [data |] eqn:F.
    - split.
      + rewrite rtt_find_set_texture, bool_decide_eq_true_2, F by reflexivity. reflexivity.
      + apply rtt_keys_set_texture.
    - split.
      + rewrite rtt_find_app, F, bool_decide_eq_true_2 by reflexivity. reflexivity.
      + rewrite map_app. reflexivity. }
  split.
  { intros el ND. unfold SetElementRenderTexture.
    destruct (rtt_find m el) eqn:F; [apply rtt_find_erase_same, ND | exact F]. }
  split.
  { intros el Hnin. unfold SetElementRenderTexture.
    apply rtt_find_None in Hnin. rewrite Hnin. reflexivity. }
  split.
  { intros el texture x N. unfold SetElementRenderTexture.
    destruct texture as [t |], (rtt_find m el) eqn:F; try reflexivity.
    - rewrite rtt_find_set_texture, bool_decide_eq_false_2 by exact N. reflexivity.
    - rewrite rtt_find_app. destruct (rtt_find m x); [reflexivity |].
      rewrite bool_decide_eq_false_2 by congruence. reflexivity.
    - apply rtt_find_erase_other, N. }
  intros el texture ND. unfold SetElementRenderTexture.
  destruct texture as [t |], (rtt_find m el) eqn:F; try exact ND.
  - rewrite rtt_keys_set_texture. exact ND.
  - rewrite map_app. apply List.NoDup_app; [exact ND | repeat constructor; intros [] |].
    intros x Hx [<- | []]. apply rtt_find_None in F. contradiction.
  - clear F. induction m as [| [k d] m IH]; [constructor |].
    cbn [map fst] in ND. apply List.NoDup_cons_iff in ND as [Hk ND].
    cbn [rtt_erase]. destruct (bool_decide (k = el)); [exact ND |].
    cbn [map fst]. constructor; [| apply IH, ND].
    intros Hin. apply Hk. clear - Hin.
    induction m as [| [k' d'] m IH]; [destruct Hin |].
    cbn [rtt_erase] in Hin. destruct (bool_decide (k' = el)).
    + right. exact Hin.
    + destruct Hin as [<- | Hin]; [left; reflexivity | right; apply IH, Hin].
Qed.

End RenderTextureFacts.

(** ** Bounds of the hit test, and the way into and out of the modal root *)

Section RootBoundsFacts.
Import UISystem UISpec PointerSpec.

(** [GetElementAt(root, position, enabledOnly)] returns null for a
    position left of or above the root, or beyond its far edges; the far
    edges themselves are let through.  A position within the root is
    tested as it is.  A position on the far edge of a root of positive
    size is wrapped around: it is tested at the near edge. *)
Theorem GetElementAt_root_bounds (fuel : nat) (ui : UI) (root : Ptr) (r : UIElement)
    (position : IntVector2) (enabledOnly : bool) :
  heap ui !! root = Some r ->
  let x0 := ix_ (position_ r) in
  let y0 := iy_ (position_ r) in
  let w := ix_ (size_ r) in
  let h := iy_ (size_ r) in
  (ix_ position < x0 \/ x0 + w < ix_ position \/ iy_ position < y0 \/ y0 + h < iy_ position ->
   GetElementAt_root fuel ui root position enabledOnly = Ret None)
  /\ (x0 <= ix_ position < x0 + w -> y0 <= iy_ position < y0 + h ->
      GetElementAt_root fuel ui root position enabledOnly
      = GetElementAt_rec fuel ui None (Some root) position enabledOnly)
  /\ (0 < w -> 0 < h -> y0 <= iy_ position < y0 + h ->
      GetElementAt_root fuel ui root (mkIntVector2 (x0 + w) (iy_ position)) enabledOnly
      = GetElementAt_rec fuel ui None (Some root) (mkIntVector2 x0 (iy_ position))
          enabledOnly).
Proof.
  intros Hr x0 y0 w h. unfold GetElementAt_root, load. rewrite Hr. simpl.
  fold x0 y0 w h. split; [| split].
  - intros Hout.
    destruct (Z.ltb_spec (ix_ position) x0), (Z.ltb_spec (x0 + w) (ix_ position)),
      (Z.ltb_spec (iy_ position) y0), (Z.ltb_spec (y0 + h) (iy_ position));
      simpl; try reflexivity; lia.
  - intros Hx Hy.
    destruct (Z.ltb_spec (ix_ position) x0), (Z.ltb_spec (x0 + w) (ix_ position)),
      (Z.ltb_spec (iy_ position) y0), (Z.ltb_spec (y0 + h) (iy_ position));
      simpl; try lia.
    destruct (Z.ltb_spec 0 w), (Z.ltb_spec 0 h); simpl; try lia.
    destruct (Z.leb_spec (x0 + w) (ix_ position)), (Z.leb_spec (y0 + h) (iy_ position));
      try lia.
    destruct position. reflexivity.
  - intros Hw Hh Hy. cbn [ix_ iy_].
    destruct (Z.ltb_spec (x0 + w) x0), (Z.ltb_spec (x0 + w) (x0 + w)),
      (Z.ltb_spec (iy_ position) y0), (Z.ltb_spec (y0 + h) (iy_ position));
      simpl; try lia.
    destruct (Z.ltb_spec 0 w), (Z.ltb_spec 0 h); simpl; try lia.
    destruct (Z.leb_spec (x0 + w) (x0 + w)), (Z.leb_spec (y0 + h) (iy_ position));
      try lia.
    replace (x0 + w - x0) with w by lia. rewrite Z.rem_same by lia.
    rewrite Z.add_0_r. reflexivity.
Qed.

End RootBoundsFacts.

Section ModalRoundTrip.
Import UISystem UISpec PointerSpec.

Lemma filter_other_id (m : Ptr) (l : list Ptr) :
  ~ In m l -> filter (fun c => c <> m) l = l.
Proof.
  induction l as [| c l IH]; intros N; [reflexivity |].
  rewrite filter_cons_True by (intros ->; apply N; left; reflexivity).
  rewrite IH; [reflexivity |]. intros Hin. apply N. right. exact Hin.
Qed.

Lemma filter_other_middle (m : Ptr) (l1 l2 : list Ptr) :
  ~ In m l1 -> ~ In m l2 -> filter (fun c => c <> m) (l1 ++ m :: l2) = l1 ++ l2.
Proof.
  intros N1 N2. rewrite filter_app, filter_cons_False by (intros N; apply N; reflexivity).
  rewrite !filter_other_id by assumption. reflexivity.
Qed.

Lemma find_index_middle (m : Ptr) (l1 l2 : list Ptr) :
  ~ In m l1 -> forall i, find_index m (l1 ++ m :: l2) i = i + Z.of_nat (length l1).
Proof.
  induction l1 as [| c l1 IH]; intros N i; cbn [app find_index length].
  - rewrite bool_decide_eq_true_2 by reflexivity. lia.
  - rewrite bool_decide_eq_false_2 by (intros ->; apply N; left; reflexivity).
    rewrite IH by (intros Hin; apply N; right; exact Hin). lia.
Qed.

Lemma insert_at_middle (m : Ptr) (l1 l2 : list Ptr) :
  (if Z.of_nat (length (l1 ++ l2)) <=? Z.of_nat (length l1)
   then (l1 ++ l2) ++ [m]
   else take (Z.to_nat (Z.of_nat (length l1))) (l1 ++ l2)
        ++ m :: drop (Z.to_nat (Z.of_nat (length l1))) (l1 ++ l2))
  = l1 ++ m :: l2.
Proof.
  rewrite Nat2Z.id, length_app.
  destruct (Z.leb_spec (Z.of_nat (length l1 + length l2)) (Z.of_nat (length l1))).
  - destruct l2 as [| c l2]; [rewrite app_nil_r; reflexivity | cbn [length] in *; lia].
  - rewrite take_app_length, drop_app_length. reflexivity.
Qed.

Lemma set_heap_twice (ui : UI) (h1 h2 : Heap) : set_heap (set_heap ui h1) h2 = set_heap ui h2.
Proof. reflexivity. Qed.

Lemma SetParent_moves (h : Heap) (el old q : Ptr) (e o np : UIElement) (index : Z) :
  h !! el = Some e -> parent_ e = Some old -> h !! old = Some o -> h !! q = Some np ->
  q <> el -> old <> el -> old <> q ->
  SetParent h el (Some q) index
  = Ret (<[el := set_tree e (Some q) (children_ e)]>
           (<[q := set_tree np (parent_ np)
                     (if Z.of_nat (length (children_ np)) <=? index
                      then children_ np ++ [el]
                      else take (Z.to_nat index) (children_ np)
                           ++ el :: drop (Z.to_nat index) (children_ np))]>
              (<[old := set_tree o (parent_ o)
                          (filter (fun c => c <> el) (children_ o))]> h))).
Proof.
  intros He Hpar Ho Hq Nq No Noq. unfold SetParent, load.
  rewrite He. cbn [deref mbind res_bind].
  rewrite bool_decide_eq_false_2 by exact Nq.
  rewrite Hpar, bool_decide_eq_false_2 by congruence.
  cbn [orb]. rewrite Ho. cbn [deref mbind res_bind].
  rewrite lookup_insert_ne by exact Noq. rewrite Hq. cbn [deref mbind res_bind].
  rewrite lookup_insert_ne by exact Nq. rewrite lookup_insert_ne by exact No.
  rewrite He. reflexivity.
Qed.

Lemma set_tree_set_vars_same (e : UIElement) :
  set_vars (set_tree e (parent_ e) (children_ e)) (vars_ e) = e.
Proof. destruct e; reflexivity. Qed.

(** Making a window modal and unmaking it brings everything back.  For a
    window [m] that is the child of a live element [p] other than the
    modal root, and that is not a popup, [SetModalElement(m, true)]
    succeeds: [m] leaves the children of [p], becomes the last child of
    the modal root, and remembers [p] and its place among the children of
    [p] in two variables; a modal element is then shown.
    [SetModalElement(m, false)] on the result succeeds and restores the UI
    exactly: [m] is back in its place under [p], the modal root has its
    children of before, and the two variables are gone.  The relocation
    itself is [SetParent], which is not among the sources and is modelled
    from the specification. *)
Theorem SetModalElement_enable_then_disable_restores (fuel : nat) (ui : UI) (m p : Ptr)
    (me pe re : UIElement) (l1 l2 : list Ptr) :
  heap ui !! m = Some me -> type_ me = Window_type -> parent_ me = Some p ->
  heap ui !! p = Some pe -> heap ui !! rootModalElement_ ui = Some re ->
  p <> m -> rootModalElement_ ui <> m -> p <> rootModalElement_ ui ->
  children_ pe = l1 ++ m :: l2 -> ~ In m l1 -> ~ In m l2 -> ~ In m (children_ re) ->
  Z.of_nat (length (children_ re)) <= M_MAX_UNSIGNED ->
  vars_ me !! VAR_ORIGINAL_PARENT = None ->
  vars_ me !! VAR_ORIGINAL_CHILD_INDEX = None ->
  vars_ me !! VAR_ORIGIN = None ->
  exists modal,
    SetModalElement fuel ui (Some m) true = Ret (true, modal)
    /\ (exists me',
           heap modal !! m = Some me' /\ parent_ me' = Some (rootModalElement_ ui)
           /\ vars_ me' !! VAR_ORIGINAL_PARENT = Some (VAR_PTR (Some p))
           /\ vars_ me' !! VAR_ORIGINAL_CHILD_INDEX
              = Some (VAR_UINT (Z.of_nat (length l1))))
    /\ (exists re',
           heap modal !! rootModalElement_ ui = Some re'
           /\ children_ re' = children_ re ++ [m])
    /\ (exists pe', heap modal !! p = Some pe' /\ children_ pe' = l1 ++ l2)
    /\ HasModalElement modal = Ret true
    /\ SetModalElement fuel modal (Some m) false = Ret (true, ui).
Proof.
  intros Hm Hty Hpar Hp Hroot Npm Nrm Npr Hch Hl1 Hl2 Hrc Hlen Hv1 Hv2 Hv3.
  pose (me1 := set_vars me (<[VAR_ORIGINAL_PARENT := VAR_PTR (Some p)]> (vars_ me))).
  pose (me2 := set_vars me1 (<[VAR_ORIGINAL_CHILD_INDEX := VAR_UINT (Z.of_nat (length l1))]>
                               (vars_ me1))).
  pose (h2 := <[m := me2]> (<[m := me1]> (heap ui))).
  pose (h3 := <[m := set_tree me2 (Some (rootModalElement_ ui)) (children_ me2)]>
                (<[rootModalElement_ ui := set_tree re (parent_ re) (children_ re ++ [m])]>
                   (<[p := set_tree pe (parent_ pe) (l1 ++ l2)]> h2))).
  assert (A : adopt_modal_root (heap ui) (rootModalElement_ ui) m (Some p) = Ret h3).
  { unfold adopt_modal_root, SetVar, load. rewrite Hm. cbn [deref mbind res_bind].
    rewrite (lookup_insert_ne _ m p) by congruence. rewrite Hp. cbn [deref mbind res_bind].
    rewrite lookup_insert_eq. cbn [deref mbind res_bind].
    unfold FindChild. rewrite Hch, find_index_middle by exact Hl1. cbn [Z.add].
    fold me1. fold me2. fold h2.
    rewrite (SetParent_moves h2 m p (rootModalElement_ ui) me2 pe re).
    - rewrite (proj2 (Z.leb_le _ _) Hlen), Hch, filter_other_middle by assumption.
      reflexivity.
    - unfold h2. apply lookup_insert_eq.
    - exact Hpar.
    - unfold h2. rewrite !lookup_insert_ne by congruence. exact Hp.
    - unfold h2. rewrite !lookup_insert_ne by congruence. exact Hroot.
    - exact Nrm.
    - exact Npm.
    - exact Npr. }
  assert (L3 : h3 !! m = Some (set_tree me2 (Some (rootModalElement_ ui)) (children_ me2))).
  { unfold h3. apply lookup_insert_eq. }
  assert (O3 : vars_ me2 !! VAR_ORIGIN = None).
  { unfold me2, me1. cbn [vars_ set_vars].
    rewrite !lookup_insert_ne by discriminate. exact Hv3. }
  exists (set_heap ui h3).
  split.
  { unfold SetModalElement, load. rewrite Hm. cbn [deref mbind res_bind].
    rewrite bool_decide_eq_false_2 by (intros N; apply N; exact Hty).
    rewrite Hpar, bool_decide_eq_false_2 by congruence.
    rewrite A. cbn [mbind res_bind]. unfold GetVar, load. rewrite L3.
    cbn [deref mbind res_bind vars_ set_tree]. fold (vars_ me2). rewrite O3.
    reflexivity. }
  assert (R3 : h3 !! rootModalElement_ ui
               = Some (set_tree re (parent_ re) (children_ re ++ [m]))).
  { unfold h3. rewrite lookup_insert_ne by congruence. apply lookup_insert_eq. }
  assert (P3 : h3 !! p = Some (set_tree pe (parent_ pe) (l1 ++ l2))).
  { unfold h3. rewrite !lookup_insert_ne by congruence. apply lookup_insert_eq. }
  split.
  { eexists. split; [exact L3 |]. split; [reflexivity |]. unfold me2, me1.
    cbn [vars_ set_vars set_tree]. split.
    - rewrite lookup_insert_ne by discriminate. apply lookup_insert_eq.
    - apply lookup_insert_eq. }
  split; [eexists; split; [exact R3 | reflexivity] |].
  split; [eexists; split; [exact P3 | reflexivity] |].
  split.
  { unfold HasModalElement, load. cbn [heap set_heap rootModalElement_].
    rewrite R3. cbn [deref mbind res_bind children_ set_tree].
    rewrite bool_decide_eq_false_2; [reflexivity |].
    intros E. destruct (children_ re); discriminate E. }
  unfold SetModalElement, load. cbn [heap set_heap rootModalElement_].
  rewrite L3. cbn [deref mbind res_bind type_ parent_ set_tree set_vars me2 me1].
  rewrite bool_decide_eq_false_2 by (intros N; apply N; exact Hty).
  rewrite bool_decide_eq_false_2 by (intros N; apply N; reflexivity).
  unfold GetVar, load. rewrite L3.
  cbn [deref mbind res_bind vars_ set_tree set_vars me2 me1].
  rewrite lookup_insert_ne by discriminate. rewrite !lookup_insert_eq.
  cbn [default GetPtr GetUInt].
  rewrite (SetParent_moves h3 m (rootModalElement_ ui) p _ _ _ _ L3 eq_refl R3 P3)
    by congruence.
  cbn [children_ set_tree parent_].
  rewrite insert_at_middle, filter_app, filter_other_id by exact Hrc.
  rewrite filter_cons_False by (intros N; apply N; reflexivity).
  rewrite filter_nil, app_nil_r.
  unfold EraseVar, load. cbn [mbind res_bind].
  rewrite lookup_insert_eq. cbn [deref mbind res_bind].
  rewrite lookup_insert_eq. cbn [deref mbind res_bind].
  rewrite lookup_insert_eq.
  cbn [deref mbind res_bind vars_ set_vars set_tree me2 me1 children_ parent_].
  rewrite (delete_insert_ne _ VAR_ORIGINAL_PARENT VAR_ORIGINAL_CHILD_INDEX)
    by discriminate.
  rewrite !delete_insert_eq, (delete_id _ _ Hv1), (delete_id _ _ Hv2), Hv3.
  cbn [default GetPtr]. do 2 f_equal.
  transitivity (set_heap ui (heap ui)); [| apply set_heap_same].
  rewrite set_heap_twice. f_equal.
  apply map_eq. intros k.
  destruct (decide (k = m)) as [-> | Nkm].
  { rewrite lookup_insert_eq, Hm. f_equal. destruct me. cbn in Hpar |- *.
    rewrite Hpar. reflexivity. }
  rewrite !(lookup_insert_ne _ m k) by congruence.
  destruct (decide (k = p)) as [-> | Nkp].
  { rewrite lookup_insert_eq, Hp. f_equal. destruct pe. cbn in Hch |- *.
    rewrite Hch. reflexivity. }
  rewrite (lookup_insert_ne _ p k) by congruence.
  destruct (decide (k = rootModalElement_ ui)) as [-> | Nkr].
  { rewrite lookup_insert_eq, Hroot. f_equal. destruct re. reflexivity. }
  rewrite (lookup_insert_ne _ (rootModalElement_ ui) k) by congruence.
  unfold h3, h2.
  rewrite (lookup_insert_ne _ m k) by congruence.
  rewrite (lookup_insert_ne _ (rootModalElement_ ui) k) by congruence.
  rewrite (lookup_insert_ne _ p k) by congruence.
  rewrite !(lookup_insert_ne _ m k) by congruence.
  reflexivity.
Qed.

End ModalRoundTrip.

(** ** The application's main function *)

Section ApplicationFacts.
Import Application.
Variable Engine : Type.
Variable LOG_ERROR : Z.
Variable Engine_Initialize : Engine -> bool * Engine * list (Z * string).
Variable Engine_IsExiting : Engine -> bool.
Variable Engine_Exit : Engine -> Engine.
Variable Setup Start Stop Engine_RunFrame : App Engine -> App Engine.

Lemma frames_exact (n : nat) :
  forall (fuel : nat) (app : App Engine),
    (n <= fuel)%nat ->
    Engine_IsExiting (engine_ Engine (Nat.iter n Engine_RunFrame app)) = true ->
    (forall k, (k < n)%nat ->
               Engine_IsExiting (engine_ Engine (Nat.iter k Engine_RunFrame app)) = false) ->
    frames Engine Engine_IsExiting Engine_RunFrame fuel app
    = Ret (Nat.iter n Engine_RunFrame app, repeat Called_RunFrame n).
Proof.
  induction n as [| n IH]; intros fuel app Hn Hex Hbefore.
  - simpl in Hex. destruct fuel; simpl; rewrite Hex; reflexivity.
  - destruct fuel as [| fuel]; [lia |]. cbn [frames].
    pose proof (Hbefore 0%nat ltac:(lia)) as H0. cbn [Nat.iter nat_rect] in H0. rewrite H0.
    rewrite Nat.iter_succ_r in Hex.
    rewrite (IH fuel (Engine_RunFrame app) ltac:(lia) Hex).
    + cbn [mbind res_bind]. rewrite Nat.iter_succ_r. reflexivity.
    + intros k Hk. rewrite <- Nat.iter_succ_r. apply Hbefore. lia.
Qed.

Lemma frames_exhausted (fuel : nat) :
  forall app : App Engine,
    (forall k, (k <= fuel)%nat ->
               Engine_IsExiting (engine_ Engine (Nat.iter k Engine_RunFrame app)) = false) ->
    frames Engine Engine_IsExiting Engine_RunFrame fuel app = OutOfFuel.
Proof.
  induction fuel as [| fuel IH]; intros app Hnever; cbn [frames];
    pose proof (Hnever 0%nat ltac:(lia)) as H0; cbn [Nat.iter nat_rect] in H0; rewrite H0.
  - reflexivity.
  - rewrite IH; [reflexivity |].
    intros k Hk. rewrite <- Nat.iter_succ_r. apply Hnever. lia.
Qed.

(** [Run] stops at the first failure.  When [Setup] leaves a non-zero
    exit code, [Run] returns it at once, and nothing else has been called.
    Otherwise the engine is initialised, the messages it logs reaching
    [HandleLogMessage]; when that fails, the engine is requested to exit,
    one error dialog shows the errors logged so far (the default text when
    there are none), and [Run] returns [EXIT_FAILURE] without calling
    [Start].  When [Start] leaves a non-zero exit code, [Run] returns it
    and no frame is run.  Otherwise frames are run until the engine is
    exiting, [Stop] is called once, and [Run] returns the exit code the
    application then holds; when the engine is not exiting within the
    budget of frames, the budget is exhausted. *)
Theorem Run_stops_at_first_failure (fuel : nat) (app : App Engine) :
  let run :=
    Run Engine LOG_ERROR Engine_Initialize Engine_IsExiting Engine_Exit Setup Start Stop
      Engine_RunFrame fuel app in
  let set_up := Setup app in
  let init := Engine_Initialize (engine_ Engine set_up) in
  let initialised :=
    log_all Engine LOG_ERROR (set_engine Engine set_up init.1.2) init.2 in
  let started := Start initialised in
  let after n := Nat.iter n Engine_RunFrame started in
  (exitCode_ Engine set_up <> 0 ->
   run = Ret (exitCode_ Engine set_up, set_up, [Called_Setup]))
  /\ (exitCode_ Engine set_up = 0 -> init.1.1 = false ->
      run
      = Ret (EXIT_FAILURE,
             set_exitCode Engine
               (set_engine Engine initialised (Engine_Exit (engine_ Engine initialised)))
               EXIT_FAILURE,
             [Called_Setup; Called_Initialize; Called_Exit;
              ErrorDialog (GetTypeName Engine initialised)
                (if Nat.eqb (String.length (startupErrors_ Engine initialised)) 0
                 then default_error else startupErrors_ Engine initialised)]))
  /\ (exitCode_ Engine set_up = 0 -> init.1.1 = true ->
      exitCode_ Engine started <> 0 ->
      run = Ret (exitCode_ Engine started, started,
                 [Called_Setup; Called_Initialize; Called_Start]))
  /\ (exitCode_ Engine set_up = 0 -> init.1.1 = true ->
      exitCode_ Engine started = 0 ->
      (forall n,
          (n <= fuel)%nat ->
          Engine_IsExiting (engine_ Engine (after n)) = true ->
          (forall k, (k < n)%nat -> Engine_IsExiting (engine_ Engine (after k)) = false) ->
          run = Ret (exitCode_ Engine (Stop (after n)), Stop (after n),
                     [Called_Setup; Called_Initialize; Called_Start]
                     ++ repeat Called_RunFrame n ++ [Called_Stop]))
      /\ ((forall k, (k <= fuel)%nat ->
                     Engine_IsExiting (engine_ Engine (after k)) = false) ->
          run = OutOfFuel)).
Proof.
  intros run set_up init initialised started after. subst run. unfold Run.
  fold set_up. fold init.
  destruct init as [[ok engine] logged] eqn:Hi. cbn [fst snd] in *.
  fold initialised.
  split; [| split; [| split]].
  - intros S0. destruct (Z.eqb_spec (exitCode_ Engine set_up) 0); [contradiction |].
    reflexivity.
  - intros S0 Hok. rewrite S0. subst ok. cbn [Z.eqb negb]. unfold ErrorExit.
    cbn [String.length Nat.eqb exitCode_ set_exitCode set_engine GetTypeName startupErrors_].
    destruct (String.length (startupErrors_ Engine initialised)); reflexivity.
  - intros S0 Hok T0. rewrite S0. subst ok. cbn [Z.eqb negb]. fold started.
    destruct (Z.eqb_spec (exitCode_ Engine started) 0); [contradiction |]. reflexivity.
  - intros S0 Hok T0. rewrite S0. subst ok. cbn [Z.eqb negb]. fold started.
    rewrite T0. cbn [Z.eqb negb]. split.
    + intros n Hn Hex Hbefore.
      rewrite (frames_exact n fuel started Hn Hex Hbefore). reflexivity.
    + intros Hnever. rewrite (frames_exhausted fuel started Hnever). reflexivity.
Qed.

Lemma Find_app_bracket (stamp rest : string) :
  forall i, Find bracket stamp i = None ->
            Find bracket (String.append stamp (String bracket rest)) i
            = Some (i + String.length stamp)%nat.
Proof.
  induction stamp as [| a stamp IH]; intros i Hn; simpl.
  - f_equal. lia.
  - simpl in Hn. destruct (Ascii.eqb a bracket); [discriminate |].
    rewrite (IH (S i) Hn). f_equal. lia.
Qed.

Lemma Substring_past (stamp : string) (a : Ascii.ascii) (text : string) :
  Substring (String.append stamp (String bracket (String a text))) (String.length stamp + 2)
  = text
  /\ Substring (String.append stamp (String bracket EmptyString)) (String.length stamp + 2)
     = EmptyString.
Proof.
  induction stamp as [| c stamp [IH1 IH2]]; simpl; [split; [destruct text |]; reflexivity |].
  split; assumption.
Qed.

Lemma length_append (a b : string) :
  String.length (String.append a b) = (String.length a + String.length b)%nat.
Proof. induction a as [| c a IH]; simpl; [| rewrite IH]; reflexivity. Qed.

(** [HandleLogMessage] collects the error messages, one per line, and
    ignores every other level.  A message is taken from two characters
    past its first [']'], which drops a leading time stamp; a message
    without [']'] is taken whole, and a message that ends with its
    first [']'] contributes an empty line.  [ErrorExit] always requests
    the engine to exit and sets the exit code to [EXIT_FAILURE]; called
    without a message after an error was logged, it shows the collected
    errors, and the default text when none was. *)
Theorem HandleLogMessage_collects_errors (app : App Engine) :
  (forall level message,
      level <> LOG_ERROR -> HandleLogMessage Engine LOG_ERROR app level message = app)
  /\ (forall message,
         Find bracket message 0 = None ->
         startupErrors_ Engine (HandleLogMessage Engine LOG_ERROR app LOG_ERROR message)
         = String.append (startupErrors_ Engine app) (String.append message newline))
  /\ (forall stamp separator text,
         Find bracket stamp 0 = None ->
         startupErrors_ Engine
           (HandleLogMessage Engine LOG_ERROR app LOG_ERROR
              (String.append stamp (String bracket (String separator text))))
         = String.append (startupErrors_ Engine app) (String.append text newline))
  /\ (forall stamp,
         Find bracket stamp 0 = None ->
         startupErrors_ Engine
           (HandleLogMessage Engine LOG_ERROR app LOG_ERROR
              (String.append stamp (String bracket EmptyString)))
         = String.append (startupErrors_ Engine app) newline)
  /\ (forall message,
         let logged := HandleLogMessage Engine LOG_ERROR app LOG_ERROR message in
         (ErrorExit Engine Engine_Exit logged EmptyString).2
         = [Called_Exit;
            ErrorDialog (GetTypeName Engine app) (startupErrors_ Engine logged)])
  /\ (forall message,
         exitCode_ Engine (ErrorExit Engine Engine_Exit app message).1 = EXIT_FAILURE
         /\ engine_ Engine (ErrorExit Engine Engine_Exit app message).1
            = Engine_Exit (engine_ Engine app)
         /\ (message <> EmptyString ->
             (ErrorExit Engine Engine_Exit app message).2
             = [Called_Exit; ErrorDialog (GetTypeName Engine app) message])
         /\ (startupErrors_ Engine app = EmptyString ->
             (ErrorExit Engine Engine_Exit app EmptyString).2
             = [Called_Exit; ErrorDialog (GetTypeName Engine app) default_error])).
Proof.
  split.
  { intros level message N. unfold HandleLogMessage.
    destruct (Z.eqb_spec level LOG_ERROR); [contradiction | reflexivity]. }
  split.
  { intros message Hn. unfold HandleLogMessage. rewrite Z.eqb_refl, Hn. reflexivity. }
  split.
  { intros stamp separator text Hn. unfold HandleLogMessage.
    rewrite Z.eqb_refl, (Find_app_bracket _ _ 0 Hn). cbn [plus startupErrors_ set_startupErrors].
    rewrite (proj1 (Substring_past stamp separator text)). reflexivity. }
  split.
  { intros stamp Hn. unfold HandleLogMessage.
    rewrite Z.eqb_refl, (Find_app_bracket _ _ 0 Hn). cbn [plus startupErrors_ set_startupErrors].
    rewrite (proj2 (Substring_past stamp (Ascii.ascii_of_nat 0) EmptyString)).
    reflexivity. }
  split.
  { intros message logged. unfold ErrorExit. cbn [snd String.length Nat.eqb].
    assert (Hlen : (0 < String.length (startupErrors_ Engine logged))%nat).
    { subst logged. unfold HandleLogMessage. rewrite Z.eqb_refl.
      cbn [startupErrors_ set_startupErrors]. rewrite !length_append. simpl. lia. }
    cbn [startupErrors_ set_exitCode set_engine GetTypeName].
    destruct (String.length (startupErrors_ Engine logged)) eqn:L; [lia |].
    cbn [Nat.eqb negb]. subst logged. unfold HandleLogMessage. rewrite Z.eqb_refl.
    reflexivity. }
  intros message. split; [reflexivity |]. split; [reflexivity |]. split.
  - intros N. unfold ErrorExit. destruct message; [contradiction | reflexivity].
  - intros E. unfold ErrorExit. cbn [snd String.length Nat.eqb startupErrors_ set_exitCode
                                       set_engine]. rewrite E. reflexivity.
Qed.

End ApplicationFacts.

(** ** The properties on sample inputs *)

Section PointerSampleFacts.
Import UISystem UISpec RouterSpec UIPointer PointerSpec Samples UISamples HandlerSamples
  RouterSamples PointerSamples ElementSamples.

(** The handlers of the samples leave the elements alone, where no other
    handlers are named. *)
#[local] Existing Instance quiet.
#[local] Existing Instance still.

Lemma vanish_keeps (p : Ptr) : p <> 3%nat -> @kept vanish_on_focus p.
Proof.
  intros N ev h A. cbn [handle vanish_on_focus]. unfold vanish.
  assert (D : is_Some (delete 3%nat h !! p)) by (rewrite lookup_delete_ne; auto).
  destruct ev as [| | | | | | | sender ty el |]; try exact A.
  destruct ty; try exact A. exact D.
Qed.

Lemma GetElementAt_returns_visible_hit_witness :
  exists e tested,
    heap modal_ui !! 4%nat = Some e /\ visible_ e = true /\ IsInside e tested = true
    /\ Some 4%nat <> cursor_ modal_ui /\ (true = true -> enabled_ e = true).
Proof.
  apply (proj1 (GetElementAt_returns_visible_hit 3 modal_ui (mkIntVector2 5 5) true 4%nat)
           (Some (mkIntVector2 5 5))).
  reflexivity.
Defined.

Lemma GetFocusableElement_finds_nearest_witness :
  (exists n, (n <= 2)%nat /\ climbs deep_heap n (Some 6%nat) (Some 6%nat)
             /\ can_alter_focus deep_heap (Some 6%nat))
  /\ GetFocusableElement 2 deep_heap (Some 6%nat) = Ret (Some 6%nat).
Proof.
  split.
  - apply (proj1 (GetFocusableElement_finds_nearest deep_heap 2 (Some 6%nat) (Some 6%nat))).
    reflexivity.
  - apply (proj2 (GetFocusableElement_finds_nearest deep_heap 2 (Some 6%nat) (Some 6%nat))
             0%nat).
    + constructor.
    + exists button_6. split; [reflexivity | discriminate].
    + lia.
Defined.

Lemma SetFocusElement_outcome_witness :
  focusElement_ plain_ui = Some 3%nat
  \/ exists e, heap plain_ui !! 3%nat = Some e
               /\ at_least_focusable (focusMode_ e) = true.
Proof.
  destruct (SetFocusElement_outcome 3 plain_ui (set_focusElement_ plain_ui (Some 3%nat))
              (Some 3%nat)
              [Sent (Some 3%nat) E_FOCUSED (Some 3%nat);
               Sent_FocusChanged (Some 3%nat) (Some 3%nat)] eq_refl)
    as (_ & _ & Hfocus & _).
  apply Hfocus. reflexivity.
Defined.

Lemma SetFocusElement_under_handlers_witness :
  (exists ui' t, @SetFocusElement vanish_on_focus 3 plain_ui (Some 3%nat) = Ret (ui', t))
  /\ @SetFocusElement destroy_on_defocus 3 after_click (Some 5%nat) = Fault.
Proof.
  split.
  - apply (proj1 (proj2 (@SetFocusElement_under_handlers vanish_on_focus 3 plain_ui
                           (Some 3%nat))) 3%nat eq_refl eq_refl).
    + eexists. reflexivity.
    + intros f Hf. vm_compute in Hf. injection Hf as <-. eexists. reflexivity.
  - apply (proj2 (proj2 (proj2 (@SetFocusElement_under_handlers destroy_on_defocus 3
                                  after_click (Some 5%nat)))) 5%nat 5%nat eq_refl).
    + discriminate.
    + reflexivity.
    + reflexivity.
    + reflexivity.
Defined.

Lemma SetFocusElement_during_modal_witness :
  SetFocusElement 3 deep_ui (Some 6%nat) = Ret (deep_ui, [])
  /\ exists t, SetFocusElement 3 modal_ui (Some 3%nat)
               = Ret (set_focusElement_ modal_ui (Some 3%nat), t).
Proof.
  split.
  - apply (proj1 (SetFocusElement_during_modal 3 deep_ui 6%nat button_6 eq_refl eq_refl
                    ltac:(discriminate)) 0%nat).
    + apply (nested_here _ _ 5%nat (element_at "Window" (Some 1%nat) [6%nat]
                                      (mkIntRect 100 0 150 50))); reflexivity.
    + lia.
  - apply (proj2 (SetFocusElement_during_modal 3 modal_ui 3%nat button_3 eq_refl eq_refl
                    ltac:(discriminate)) 1%nat root_1); try reflexivity. lia.
Defined.

Lemma drag_counters_match_registry_witness :
  counts_ok (ProcessDragCancel (with_drag two_button_drag) centre).1.
Proof.
  apply (drag_counters_match_registry (with_drag two_button_drag)).
  split; reflexivity.
Defined.

Lemma ProcessClickBegin_registers_pending_drag_witness :
  (exists ui' trace,
      ProcessClickBegin 3 1000 plain_ui centre 1 1 0 None true = Ret (ui', trace)
      /\ In 3%nat (tracked ui')
      /\ dragElements_ ui' = [(3%nat, mkDragData 1 1 centre true 1000 centre)])
  /\ (exists ui' trace,
         @ProcessClickBegin _ vanish_on_focus 3 1000 plain_ui centre 1 1 0 None true
         = Ret (ui', trace)
         /\ (heap ui' !! 3%nat = None -> dragElements_ ui' = [])).
Proof.
  split.
  - destruct (ProcessClickBegin_registers_pending_drag 3 1000 plain_ui centre 1 1 0 None
                3%nat (Some centre)) as (ui' & trace & E & _ & _ & Halive & _ & Hkept).
    + reflexivity.
    + reflexivity.
    + apply quiet_keeps.
    + intros f Hf. vm_compute in Hf. injection Hf as <-. eexists. reflexivity.
    + exists ui', trace. split; [exact E |].
      destruct (Halive (Hkept (quiet_keeps 3%nat))) as (Hin & Hnew & _).
      split; [exact Hin |]. apply Hnew. intros [].
  - destruct (@ProcessClickBegin_registers_pending_drag _ vanish_on_focus 3 1000 plain_ui
                centre 1 1 0 None 3%nat (Some centre))
      as (ui' & trace & E & _ & _ & _ & Hgone & _).
    + reflexivity.
    + reflexivity.
    + apply vanish_keeps. discriminate.
    + intros f Hf. vm_compute in Hf. injection Hf as <-. eexists. reflexivity.
    + exists ui', trace. split; [exact E | exact Hgone].
Defined.

(** The focused event of the button 3 destroys it: the click is then
    routed as a click over nothing, the button gets no click handler call
    and no drag is registered; the focus element is left as an expired
    weak pointer. *)
Example click_on_vanishing_element :
  @ProcessClickBegin _ vanish_on_focus 3 1000 plain_ui centre 1 1 0 None true
  = Ret (set_lastMouseButtons_
           (set_click
              (set_heap (set_focusElement_ plain_ui (Some 3%nat)) (delete 3%nat plain_heap))
              None IntVector2_ZERO 1000) 1,
         [Sent (Some 3%nat) E_FOCUSED (Some 3%nat);
          Sent_FocusChanged (Some 3%nat) (Some 3%nat);
          Sent_FocusChanged None None;
          Sent None E_UIMOUSECLICK None]).
Proof. vm_compute. reflexivity. Qed.

Lemma ProcessClickEnd_with_hidden_cursor_drops_all_drags_witness :
  exists ui',
    ProcessClickEnd 3 (with_drag two_button_drag) centre 1 0 0 None false = Ret (ui', [])
    /\ dragElements_ ui' = [] /\ dragElementsCount_ ui' = 0 /\ dragConfirmedCount_ ui' = 0.
Proof.
  destruct (ProcessClickEnd_with_hidden_cursor_drops_all_drags 3 (with_drag two_button_drag)
              centre 1 0 0 None) as (ui' & Hrun & Hempty & _ & _ & Hcounts).
  exists ui'. split; [exact Hrun |]. split; [exact Hempty |].
  apply Hcounts. split; reflexivity.
Defined.

Lemma GetDragElements_lists_begun_drags_witness :
  (GetDragElements (with_drag two_button_drag)).1
  = confirmed_elements (heap (with_drag two_button_drag))
      (dragElements_ (with_drag two_button_drag))
  /\ dragElements_ (GetDragElements (with_drag two_button_drag)).2
     = dragElements_ (with_drag two_button_drag).
Proof.
  destruct (proj1 (proj2 (GetDragElements_lists_begun_drags (with_drag two_button_drag)))
              eq_refl) as (_ & _ & _ & _ & Hall).
  apply Hall. intros kd [<- | []]. exists button_3. reflexivity.
Defined.

Lemma ProcessMove_advances_drags_witness :
  ProcessMove 3 (with_drag pending_drag) 5 false (mkIntVector2 160 150) (mkIntVector2 10 0)
    1 0 None false = Ret (with_drag pending_drag, [])
  /\ exists ui' t,
       ProcessMove 3 (with_drag pending_drag) 5 false (mkIntVector2 160 150)
         (mkIntVector2 10 0) 1 0 None true = Ret (ui', t)
       /\ counts_ok ui'
       /\ swept (fun k => is_Some (heap (with_drag pending_drag) !! k)) advanced (heap ui')
            (dragElements_ (with_drag pending_drag)) (dragElements_ ui').
Proof.
  split.
  - apply (proj1 (ProcessMove_advances_drags 3 (with_drag pending_drag) 5 false
                    (mkIntVector2 160 150) (mkIntVector2 10 0) 1 0 None false)).
    left. reflexivity.
  - destruct (ProcessMove_advances_drags 3 (with_drag pending_drag) 5 false
                (mkIntVector2 160 150) (mkIntVector2 10 0) 1 0 None true)
      as (_ & Hreturned & Hreturns).
    destruct Hreturns as (ui' & t & E).
    + reflexivity.
    + intros kv [<- | []]. split; [discriminate | intros ev h A; exact A].
    + exists ui', t. split; [exact E |].
      destruct (Hreturned ui' t E) as (_ & Hcounts & Hadv & _).
      split; [apply Hcounts; split; reflexivity |].
      apply Hadv; [reflexivity | reflexivity | discriminate].
Defined.

Lemma ProcessHover_outcome_witness :
  (exists ui' hovered',
      ProcessHover no_drop no_drop 3 plain_ui ∅ centre 0 0 None
      = Ret (ui', hovered', [OnHover 3%nat centre centre 0 0 None; Sent_HoverBegin 3%nat])
      /\ (is_Some (heap ui' !! 3%nat) -> hovered' = <[3%nat := true]> ∅))
  /\ (exists ui' hovered',
         @ProcessHover flee_on_hover no_drop no_drop 3 plain_ui ∅ centre 0 0 None
         = Ret (ui', hovered', [OnHover 3%nat centre centre 0 0 None])
         /\ (heap ui' !! 3%nat = None -> hovered' = ∅))
  /\ ProcessHover no_drop no_drop 3 plain_ui ∅ outside 0 0 None = Fault.
Proof.
  destruct (ProcessHover_outcome no_drop no_drop 3 plain_ui ∅ centre 0 0 None)
    as (_ & Hhit & _).
  destruct (@ProcessHover_outcome flee_on_hover no_drop no_drop 3 plain_ui ∅ centre 0 0 None)
    as (_ & Hflee & _).
  destruct (ProcessHover_outcome no_drop no_drop 3 plain_ui ∅ outside 0 0 None)
    as (_ & _ & Hmiss & _).
  split; [| split].
  - destruct (Hhit 3%nat button_3 (Some centre)) as (ui' & hovered' & E & Hmark & _);
      try reflexivity.
    exists ui', hovered'. split; [exact E |]. intros A. apply Hmark. right. exact A.
  - destruct (Hflee 3%nat button_3 (Some centre)) as (ui' & hovered' & E & _ & Hkeep);
      try reflexivity.
    exists ui', hovered'. split; [exact E |]. intros A. apply Hkeep; [reflexivity | exact A].
  - apply (Hmiss (Some outside)); [split; reflexivity | reflexivity | reflexivity].
Defined.

Lemma GetFrontElement_returns_first_of_highest_priority_witness :
  exists r,
    GetFrontElement bring_to_back_all modal_ui = Ret r
    /\ match r with
       | None =>
           forall c, In c (children_ root_1)
                     -> ~ frontable bring_to_back_all (heap modal_ui) c
       | Some f =>
           frontable bring_to_back_all (heap modal_ui) f
           /\ exists l1 l2,
                children_ root_1 = l1 ++ f :: l2
                /\ (forall c, In c l1 -> frontable bring_to_back_all (heap modal_ui) c ->
                              priority_of (heap modal_ui) c < priority_of (heap modal_ui) f)
                /\ (forall c, In c l2 -> frontable bring_to_back_all (heap modal_ui) c ->
                              priority_of (heap modal_ui) c <= priority_of (heap modal_ui) f)
       end.
Proof.
  apply (GetFrontElement_returns_first_of_highest_priority bring_to_back_all modal_ui root_1).
  - reflexivity.
  - intros c [<- | [<- | []]]; eexists; reflexivity.
Defined.

Lemma SetElementRenderTexture_updates_one_root_witness :
  rtt_find (SetElementRenderTexture one_rtt_root (Some 7%nat) None 30%nat 31%nat) 7%nat
  = None.
Proof.
  destruct (SetElementRenderTexture_updates_one_root one_rtt_root 30%nat 31%nat)
    as (_ & _ & Hreset & _).
  apply Hreset. repeat constructor. intros [].
Defined.

Lemma GetElementAt_root_bounds_witness :
  GetElementAt_root 3 modal_ui 1%nat (mkIntVector2 200 50) true
  = GetElementAt_rec 3 modal_ui None (Some 1%nat) (mkIntVector2 0 50) true
  /\ GetElementAt_root 3 modal_ui 1%nat (mkIntVector2 201 50) true = Ret None.
Proof.
  split.
  - apply (proj2 (proj2 (GetElementAt_root_bounds 3 modal_ui 1%nat root_1
                           (mkIntVector2 200 50) true eq_refl))); simpl; lia.
  - apply (proj1 (GetElementAt_root_bounds 3 modal_ui 1%nat root_1
                    (mkIntVector2 201 50) true eq_refl)).
    right. left. simpl. lia.
Defined.

Lemma SetModalElement_enable_then_disable_restores_witness :
  exists modal,
    SetModalElement 3 modal_ui (Some 5%nat) true = Ret (true, modal)
    /\ SetModalElement 3 modal (Some 5%nat) false = Ret (true, modal_ui).
Proof.
  destruct (SetModalElement_enable_then_disable_restores 3 modal_ui 5%nat 1%nat window_5
              root_1 modal_root_2 [3%nat] [])
    as (modal & Henable & _ & _ & _ & _ & Hdisable);
    try reflexivity; try discriminate.
  - intros [E | []]. discriminate E.
  - intros [].
  - simpl. intros [E | []]. discriminate E.
  - exists modal. split; assumption.
Defined.

End PointerSampleFacts.

Section ApplicationSampleFacts.
Import Application ApplicationSamples.

Lemma Run_stops_at_first_failure_witness :
  (exists code app',
      Run CountdownEngine sample_LOG_ERROR countdown_Initialize countdown_IsExiting
        countdown_Exit no_hook no_hook no_hook countdown_RunFrame 5 two_frame_app
      = Ret (code, app',
             [Called_Setup; Called_Initialize; Called_Start]
             ++ repeat Called_RunFrame 2 ++ [Called_Stop]))
  /\ (exists app',
         Run CountdownEngine sample_LOG_ERROR failing_Initialize countdown_IsExiting
           countdown_Exit no_hook no_hook no_hook countdown_RunFrame 5 two_frame_app
         = Ret (EXIT_FAILURE, app',
                [Called_Setup; Called_Initialize; Called_Exit;
                 ErrorDialog "Sample" (String.append failure_text newline)])).
Proof.
  split.
  - eexists _, _.
    apply (proj1 (proj2 (proj2 (proj2
             (Run_stops_at_first_failure CountdownEngine sample_LOG_ERROR
                countdown_Initialize countdown_IsExiting countdown_Exit no_hook no_hook
                no_hook countdown_RunFrame 5 two_frame_app))) eq_refl eq_refl eq_refl)
             2%nat).
    + lia.
    + reflexivity.
    + intros k Hk. destruct k as [| [| k]]; [reflexivity | reflexivity | lia].
  - eexists.
    apply (proj1 (proj2
             (Run_stops_at_first_failure CountdownEngine sample_LOG_ERROR
                failing_Initialize countdown_IsExiting countdown_Exit no_hook no_hook
                no_hook countdown_RunFrame 5 two_frame_app)) eq_refl eq_refl).
Defined.

Lemma HandleLogMessage_collects_errors_witness :
  startupErrors_ CountdownEngine
    (HandleLogMessage CountdownEngine sample_LOG_ERROR two_frame_app sample_LOG_ERROR
       (String.append stamp (String bracket (String space failure_text))))
  = String.append (startupErrors_ CountdownEngine two_frame_app)
      (String.append failure_text newline).
Proof.
  destruct (HandleLogMessage_collects_errors CountdownEngine sample_LOG_ERROR countdown_Exit
              two_frame_app) as (_ & _ & Hstamped & _).
  apply Hstamped. reflexivity.
Defined.

End ApplicationSampleFacts.
